(* ===== verification/_CoqProject ===== *)
-Q . S2P
Prelude.v
Steps.v
LuaApi.v
StateQ.v
ThreadPool.v
ThreadPoolSys.v
Buffers.v
Results.v
Transfer.v
ChannelSwap.v
ChannelSync.v
ChannelMap.v
Worker.v
Operation.v
OperationSys.v
UdataHandle.v
UdataRequest.v
Outcome.v
NetAddr.v
NetFind.v
Sockets.v
FileInfo.v
Await.v
StackWith.v
Files.v
FileCalls.v
SockOps.v
NameLookup.v
SockAddr.v
DirList.v
LuaStates.v
Threads.v
Scheduler.v
SysInfo.v
StdStreams.v
Environ.v
EnvAccess.v
Signals.v
Process.v
Execute.v
Timer.v
Coroutine.v
Channel.v
ChannelNames.v
Stream.v
FileObject.v
Modules.v
Closing.v
Registry.v
Clock.v
Resume.v
Chunks.v
Resources.v
