(* ===== verification/Prelude.v ===== *)
(** * coutil: operations that suspend Lua coroutines, verified

    coutil is a C library for Lua: scripts call functions of libuv that suspend
    the calling coroutine, and the loop of libuv resumes it when the result is
    there.  It has tasks in pools of threads, channels that exchange values
    between Lua states, coroutines with a state of their own, sockets, files,
    processes and signals.  The development models the C files under src/src/
    and proves what makes their parts correct, or exactly where they fail.

    ** The parts and their files

    - Prelude.v, Steps.v, Outcome.v, LuaApi.v: shared notions.  Failed assertions
      and undefined behaviour are [None]; functions that check their arguments
      give an [Outcome.result], with a constructor for each way to end; systems
      with callbacks or threads are steps on a state ([Steps.reached]); a stack
      of Lua is any type with the laws of the class [LuaStack], which are the
      effects the Lua manual documents.
    - lchaux.c: StateQ.v (the queues threaded through the registries, and the
      interface [StateQueue] that their clients are proved against),
      ChannelSwap.v (how two sides exchange arguments), ChannelSync.v (who meets
      whom), ChannelMap.v (named channels, their references, the wake-up of
      tasks).
    - lchannem.c: Channel.v (a coroutine that waits on a channel, and the life
      of the object), ChannelNames.v (making channels and listing their names).
    - lthpool.c: ThreadPool.v (the critical sections), ThreadPoolSys.v (workers
      and other threads interleaved), Worker.v (what a worker makes of a yield),
      Resources.v (what pools and the map of channels hold and release).
    - lthreadm.c: Threads.v (the objects that refer to pools, on top of
      ThreadPool.v and Transfer.v), Chunks.v (the functions that load chunks, here
      and in lcoroutm.c, on top of Threads.v and LuaStates.v).
    - loperaux.c: Operation.v and OperationSys.v (the operation of a coroutine,
      and all of them under a scheduler), Await.v (the arguments and the stack of a
      coroutine that waits: the frame that the functions of FileCalls.v, SockOps.v,
      NameLookup.v, Execute.v and SysInfo.v fill), StackWith.v (the same with memory
      beside the stack), Registry.v (the values kept in the registry), Closing.v (the
      loop when its state ends), UdataHandle.v and UdataRequest.v (objects with a
      handle or a request).
    - lscheduf.c: Scheduler.v (how a script runs the loop, and when a task is
      suspended in it).
    - lcoroutm.c: Coroutine.v (the life of the objects, on top of UdataRequest.v),
      Resume.v (the values of a resume, on top of Transfer.v).
    - lmodaux.c: Buffers.v, Results.v, Transfer.v, LuaStates.v (what a new state
      inherits).
    - lcommunf.c: NetAddr.v, NetFind.v, Sockets.v (kinds, families, accepting),
      SockOps.v (the other methods and the tables of methods), SockAddr.v (the
      addresses of sockets), NameLookup.v (the searches that wait, and who releases
      their results, on top of NetFind.v), Stream.v (reading).
    - lfilef.c: FileInfo.v, Files.v, FileCalls.v (the functions that make one
      call), FileObject.v (who owns a descriptor), DirList.v (directories).
    - linfof.c: SysInfo.v (processors, the process, random bytes).
    - lstdiof.c and lttyaux.c: StdStreams.v.
    - lprocesf.c: Environ.v (packed environments), EnvAccess.v (the environment and
      the directory of the process), Signals.v, Process.v (the options of a new
      program), Execute.v (a program from its start to its end).
    - ltimef.c: Timer.v (against the class [UvTimer] of documented timers), Clock.v
      (the clocks, and the idle handle on top of Operation.v).
    - lsystemm.c and the functions [luaopen_...] and [lcuM_add...] of all files:
      Modules.v (the tables of functions, with their upvalues).

    A Definition has the name of the C function it translates; parts of a
    function (the body of a loop, a critical section, a [switch]) have names made
    from it.

    ** What the theorems show

    Queues and channels: the linked queue refines a list ([stateq_refines_fifo]);
    the queue and the mask of a channel refine the list of suspended operations
    ([matchchsync_refines]); two sides get each other's arguments, in the stacks
    ([swap_exchanges]) and for the coroutines that called ([await_exchange]); no
    wake-up is lost ([task_no_lost_wakeup]); references and waiting states are
    counted exactly ([channels_reference_counts]); a channel object is in use
    exactly while another side can reach its state ([channel_life]); the names
    that are listed are those of the map ([getnames_exact]), and the channels of a
    state share the record of its task ([channels_share_task]).

    Threads: in every interleaving the counters of a pool are exact and a task
    has one worker ([pool_counters_exact]); no step goes wrong after a proper
    close ([pool_never_fails]) and closing workers leave
    ([pool_closing_workers_leave]); a pool holds all its resources or none and releases
    them once ([pool_resources]), and a state has one map of channels
    ([one_channelmap]); a state coroutine is used by one thread at a
    time, but for one case ([coroutine_life]), and a resume moves all the values or says
    why not ([resume_transfers]); the objects of pools close each pool
    once ([pools_closed_once]), a chunk becomes a task with its arguments or is
    closed ([chunk_becomes_task], [dochunk_makes_task], [load_makes_coroutine]), and the
    states of both inherit what the manual says ([newstate_inherits]).

    Operations: no order of starts, resumes and callbacks fails an assertion
    ([operations_never_fail]); what libuv may use is anchored
    ([operations_anchored]); the loop of a task is suspended exactly when it only
    waits for channels ([suspend_exactly_on_channels]), and the call that runs it
    yields then and returns otherwise ([loop_suspends_for_channels]); the same for
    objects ([objects_used_with_discipline], [request_objects_safe]); a suspended
    coroutine is resumed after its time, but for one case ([suspends_resumed]), and one
    that waits for turns of the loop uses one handle ([idle_handle_reused]); a
    coroutine that a script resumes returns the values of the script
    ([script_resume_wins]); the value that an operation keeps is there when it is needed
    ([opvalue_kept]); the loop is closed when the state ends, if the coroutines that are
    resumed then come to an end ([terminateloop_closes]).

    Functions: every function finds the scheduler or the class that it looks for in its
    upvalue ([functions_served], [other_modules_plain]); those on files refine a specification that says which call they
    make and what they return ([file_functions_refine]), and the option that keeps
    them from yielding changes nothing else ([option_changes_nothing]); a method of
    a socket acts on the handle of an open object of its class or raises an error
    ([socket_methods]); datagrams go where the last connect says
    ([udp_write_destination]); the entries of a directory and the processors of the
    machine and the network interfaces come in order, once ([listdir_iterates],
    [cpuinfo_iterates], [netinfo_iterates]); a search for addresses refines its
    specification and every list of libuv has one owner or is released
    ([findaddr_refines], [nameaddr_results]); a program that is executed gives how it
    ended ([execute_results]); an address is written only to the object that is
    returned ([getaddress_writes], [pipe_getaddress_whole]).

    Data: addresses, permissions, environments and names of signals are read
    back as they were written; buffers and arrays are not left
    ([setupbuf_is_string_sub], [maketemp_descriptor], [procopts_argv]); the
    values of a mode come in the order of its characters ([netinfo_values],
    [fileinfo_values], [fobjinfo_values], [procinfo_values], [count_values]); timestamps do not go back
    ([timestamps_monotonic]); the
    standard descriptors are copied and given back ([stdio_copies]) and have their
    objects ([stdio_fields]); the bytes of a stream are read in order and none is lost
    ([read_stream_exact]); a descriptor has one owner and is closed once
    ([descriptors_owned]).

    Theorems whose name tells of a failure ([pool_late_resume_fails],
    [pusherrfrom_loses_error], [queued_request_fails],
    [objects_used_without_discipline], [address_uri_overruns],
    [armsynced_error_asserts], [getnames_number_locks], [methods_trust_argument],
    [listdir_unyieldable], [late_use_of_pool], [suspended_without_reason],
    [cpuinfo_overflows], [stdio_init_error], [setmode_overruns],
    [getenv_calls_argument], [findaddr_leaks], [execute_raises_armed],
    [accepted_loses_scheduler], [resume_without_room], [chunkname_overruns],
    [terminateloop_never_returns], [terminateloop_waits_for_channel],
    [failed_map_is_finalized]) show defects of the code: each of them is a run of
    the model, or a class of inputs, where it goes wrong.

    ** Bounds, widths and fuel

    [int] has 32 bits, [size_t], pointers and [lua_Integer] 64, with their
    wrap-around written out ([wrapu], [wraps]).  Loops of C that have no
    structural bound have fuel: [fmt_digits] (one more than the logarithm of the
    number), [gc_close] (the theorem holds for any fuel above the number of
    waiting states), [fileinfo_noyield] and [yieldfileinfo] (for any fuel of at
    least the number of calls, which is at most four).

    ** What is not under src/

    Lua, libuv and the C library are arguments of the definitions, with
    hypotheses that state their documentation; every theorem with hypotheses is
    followed by a witness that applies it to concrete functions and inputs.

    ** Not modelled

    - lmodaux.c: [lcuL_printstack], which is for debugging, and [lcuL_setfinalizer],
      which makes a metatable with one field; lscheduf.c: [lcuM_printall], which has
      libuv print its handles.
    - What Lua does to load and run a chunk, the close-on-exec flags, the locks of
      Lua and of libuv: they
      are of Lua, of the operating system and of libuv.
    - The Lua modules under lua/, the demos and the tests. *)
From Stdlib Require Export Ascii String ZArith Lia.
From stdpp Require Export base gmap strings numbers option list.

#[global] Set Default Proof Using "Type".
#[global] Open Scope Z_scope.

(** ** Undefined behaviour and assertions

    A C function is a total function into [option]: [None] stands for a failed
    [lcu_assert] (lcuconf.h line 53, [#define lcu_assert assert]) or for a
    dereference that C leaves undefined.  Theorems that a run "does not go
    wrong" state that the result is [Some]. *)

Definition lcu_assert (b : bool) : option unit := if b then Some tt else None.

Lemma lcu_assert_true (b : bool) : b = true -> lcu_assert b = Some tt.
Proof. by intros ->. Qed.

Lemma lcu_assert_Some (b : bool) u : lcu_assert b = Some u -> b = true.
Proof. by destruct b. Qed.

(** ** Flag words (lmodaux.h lines 44 to 46)

    [lcuL_maskflag], [lcuL_setflag] and [lcuL_clearflag] are macros on the
    [flags] field of their argument; here they act on the flag word. *)

Definition lcuL_maskflag (flags f : Z) : Z := Z.land flags f.
Definition lcuL_setflag (flags f : Z) : Z := Z.lor flags f.
Definition lcuL_clearflag (flags f : Z) : Z := Z.land flags (Z.lnot f).

(** C truth value of an [int]. *)
Definition ctrue (z : Z) : bool := negb (z =? 0).

Lemma ctrue_false z : ctrue z = false <-> z = 0.
Proof. unfold ctrue. destruct (Z.eqb_spec z 0); naive_solver. Qed.

Lemma ctrue_true z : ctrue z = true <-> z <> 0.
Proof. unfold ctrue. destruct (Z.eqb_spec z 0); naive_solver. Qed.

Lemma ctrue_maskflag_bit (flags k : Z) :
  0 <= k -> ctrue (lcuL_maskflag flags (2 ^ k)) = Z.testbit flags k.
Proof.
  intros Hk. unfold ctrue, lcuL_maskflag.
  destruct (Z.eqb_spec (Z.land flags (2 ^ k)) 0) as [He | Hne]; simpl.
  - assert (Z.testbit (Z.land flags (2 ^ k)) k = false) as Hb
      by (rewrite He; apply Z.testbit_0_l).
    rewrite Z.land_spec, Z.pow2_bits_true, andb_true_r in Hb by done. done.
  - destruct (Z.testbit flags k) eqn:Hb; [done |].
    exfalso. apply Hne. apply Z.bits_inj'. intros n Hn.
    rewrite Z.land_spec, Z.testbit_0_l.
    destruct (Z.eq_dec n k) as [-> | Hnk]; [by rewrite Hb |].
    rewrite Z.pow2_bits_false by done. apply andb_false_r.
Qed.

Lemma maskflag_bit_cases (flags k : Z) :
  0 <= k -> lcuL_maskflag flags (2 ^ k) = if Z.testbit flags k then 2 ^ k else 0.
Proof.
  intros Hk. apply Z.bits_inj'. intros n Hn. unfold lcuL_maskflag. rewrite Z.land_spec.
  destruct (Z.eq_dec n k) as [-> | Hnk].
  - rewrite Z.pow2_bits_true, andb_true_r by done.
    destruct (Z.testbit flags k); [by rewrite Z.pow2_bits_true | by rewrite Z.testbit_0_l].
  - rewrite Z.pow2_bits_false, andb_false_r by done.
    destruct (Z.testbit flags k); [by rewrite Z.pow2_bits_false | by rewrite Z.testbit_0_l].
Qed.

(** ** Machine integers

    The widths are those of a 64-bit platform: [int] has 32 bits, [size_t] and
    [lua_Integer] have 64. *)

Definition wrapu (w z : Z) : Z := z mod 2 ^ w.
Definition wraps (w z : Z) : Z :=
  let u := z mod 2 ^ w in if u <? 2 ^ (w - 1) then u else u - 2 ^ w.

(** Casts to [size_t], [lua_Integer] (or [ssize_t]) and [int]. *)
Abbreviation size_t := (wrapu 64).
Abbreviation lua_Integer := (wraps 64).
Abbreviation int := (wraps 32).

Lemma wrapu_id w z : 0 <= z < 2 ^ w -> wrapu w z = z.
Proof. apply Z.mod_small. Qed.

Lemma wrapu_range w z : 0 <= w -> 0 <= wrapu w z < 2 ^ w.
Proof. intros Hw. apply Z.mod_pos_bound, Z.pow_pos_nonneg; lia. Qed.

Lemma wrapu_add w x y : 0 <= w -> wrapu w (wrapu w x + y) = wrapu w (x + y).
Proof. intros. unfold wrapu. apply Zplus_mod_idemp_l. Qed.

Lemma wrapu_add_r w x y : 0 <= w -> wrapu w (x + wrapu w y) = wrapu w (x + y).
Proof. intros. unfold wrapu. apply Zplus_mod_idemp_r. Qed.

Lemma wraps_id w z : 0 < w -> - 2 ^ (w - 1) <= z < 2 ^ (w - 1) -> wraps w z = z.
Proof.
  intros Hw Hz. assert (2 ^ w = 2 * 2 ^ (w - 1)) as Hp.
  { rewrite <- Z.pow_succ_r by lia. f_equal. lia. }
  unfold wraps. destruct (Z.le_gt_cases 0 z).
  - rewrite Z.mod_small by lia. destruct (Z.ltb_spec z (2 ^ (w - 1))); lia.
  - assert (z mod 2 ^ w = z + 2 ^ w) as ->.
    { symmetry. apply Z.mod_unique_pos with (-1); lia. }
    destruct (Z.ltb_spec (z + 2 ^ w) (2 ^ (w - 1))); lia.
Qed.

Lemma wraps_range w z : 0 < w -> - 2 ^ (w - 1) <= wraps w z < 2 ^ (w - 1).
Proof.
  intros Hw. assert (2 ^ w = 2 * 2 ^ (w - 1)) as Hp.
  { rewrite <- Z.pow_succ_r by lia. f_equal. lia. }
  pose proof (wrapu_range w z ltac:(lia)) as Hr. unfold wrapu in Hr. unfold wraps.
  destruct (Z.ltb_spec (z mod 2 ^ w) (2 ^ (w - 1))); lia.
Qed.

(** ** Counting the entries of a map that satisfy a test

    The counters of the program ([nactive], [nasync], [running], [idle], ...)
    are related to the sizes of sets of objects. *)

Section countm.
Context {K A : Type} `{Countable K}.
Implicit Types (m : gmap K A) (P : A -> bool).

Definition countm P m : Z :=
  Z.of_nat (size (filter (fun kv : K * A => P kv.2 = true) m)).

Lemma countm_empty P : countm P ∅ = 0.
Proof. unfold countm. by rewrite map_filter_empty, map_size_empty. Qed.

Lemma countm_nonneg P m : 0 <= countm P m.
Proof. unfold countm. lia. Qed.

Lemma countm_insert_None P m k x :
  m !! k = None -> countm P (<[k:=x]> m) = countm P m + Z.b2z (P x).
Proof.
  intros Hk. unfold countm. destruct (P x) eqn:HP; simpl.
  - rewrite map_filter_insert_True by done.
    rewrite map_size_insert_None; [lia |].
    apply map_lookup_filter_None. by left.
  - rewrite map_filter_insert_False by (simpl; congruence).
    rewrite delete_id by done. lia.
Qed.

Lemma countm_delete P m k x :
  m !! k = Some x -> countm P (delete k m) = countm P m - Z.b2z (P x).
Proof.
  intros Hk. rewrite <- (insert_delete_id m k x Hk) at 2.
  rewrite countm_insert_None by apply lookup_delete_eq. lia.
Qed.

Lemma countm_insert_Some P m k x y :
  m !! k = Some y ->
  countm P (<[k:=x]> m) = countm P m - Z.b2z (P y) + Z.b2z (P x).
Proof.
  intros Hk. rewrite <- insert_delete_eq.
  rewrite countm_insert_None by apply lookup_delete_eq.
  rewrite (countm_delete _ _ _ _ Hk). lia.
Qed.

Lemma countm_zero P m :
  countm P m = 0 <-> forall k x, m !! k = Some x -> P x = false.
Proof.
  unfold countm. split.
  - intros Hs k x Hk. destruct (P x) eqn:HP; [| done].
    assert (filter (fun kv : K * A => P kv.2 = true) m !! k = Some x) as Hf
      by (by apply map_lookup_filter_Some).
    assert (size (filter (fun kv : K * A => P kv.2 = true) m) = 0%nat) as H0 by lia.
    apply map_size_empty_inv in H0. by rewrite H0, lookup_empty in Hf.
  - intros Hall.
    assert (filter (fun kv : K * A => P kv.2 = true) m = ∅) as ->.
    { apply map_empty. intros k. apply map_lookup_filter_None. right.
      intros x Hk. simpl. by rewrite (Hall k x Hk). }
    by rewrite map_size_empty.
Qed.

Lemma countm_pos P m k x :
  m !! k = Some x -> P x = true -> 0 < countm P m.
Proof.
  intros Hk HP. pose proof (countm_nonneg P m).
  destruct (Z.eq_dec (countm P m) 0) as [Hz | ]; [| lia].
  rewrite (proj1 (countm_zero P m) Hz k x Hk) in HP. done.
Qed.

Lemma countm_le P Q m :
  (forall k x, m !! k = Some x -> P x = true -> Q x = true) ->
  countm P m <= countm Q m.
Proof.
  induction m as [| k x m Hk IH] using map_ind; intros HPQ.
  - by rewrite !countm_empty.
  - rewrite (countm_insert_None P), (countm_insert_None Q) by done.
    assert (countm P m <= countm Q m) as Hle.
    { apply IH. intros k' x' Hk'. apply (HPQ k').
      destruct (decide (k = k')) as [-> | Hne]; [congruence |].
      by rewrite lookup_insert_ne. }
    specialize (HPQ k x (lookup_insert_eq _ _ _)).
    destruct (P x), (Q x); simpl; lia.
Qed.

Lemma countm_exists P m : 0 < countm P m -> exists k x, m !! k = Some x /\ P x = true.
Proof.
  induction m as [| k x m Hk IH] using map_ind; [rewrite countm_empty; lia |].
  rewrite countm_insert_None by done. destruct (P x) eqn:HP; intros Hc.
  - exists k, x. by rewrite lookup_insert_eq.
  - destruct IH as (k' & y & Hy & Hp); [simpl in Hc; lia |]. exists k', y.
    rewrite lookup_insert_ne by congruence. done.
Qed.

Lemma countm_split P Q m :
  (forall x, Q x = true -> P x = true) ->
  countm Q m + countm (fun x => P x && negb (Q x)) m = countm P m.
Proof.
  intros HPQ. induction m as [| k x m Hk IH] using map_ind; [by rewrite !countm_empty |].
  rewrite !countm_insert_None by done. specialize (HPQ x).
  destruct (P x), (Q x); simpl; naive_solver lia.
Qed.
End countm.

(** ** List facts *)

Lemma list_last_cons2 {A} (x y : A) l : last (x :: y :: l) = last (y :: l).
Proof. done. Qed.

Lemma last_Some_in {A} (l : list A) x : last l = Some x -> x ∈ l.
Proof.
  intros Hl. apply last_Some in Hl as [l' ->]. set_solver.
Qed.

Lemma filter_all {A} (P : A -> Prop) `{!forall x, Decision (P x)} (l : list A) :
  (forall x, x ∈ l -> P x) -> filter P l = l.
Proof.
  induction l as [| x l IH]; intros Hl; [done |].
  rewrite filter_cons_True by (apply Hl; set_solver). f_equal. apply IH.
  intros y Hy. apply Hl. set_solver.
Qed.

(** Taking the entry of a key out of a list whose keys are distinct. *)
Lemma filter_key {K V} `{EqDecision K} (l1 l2 : list (K * V)) k v :
  NoDup (l1 ++ (k, v) :: l2).*1 ->
  filter (fun w => w.1 <> k) (l1 ++ (k, v) :: l2) = l1 ++ l2.
Proof.
  rewrite fmap_app. cbn. intros (_ & Hd & [Hn _]%NoDup_cons)%NoDup_app.
  rewrite filter_app, filter_cons_False by naive_solver.
  f_equal; apply filter_all; intros [x w] Hx Heq; cbn in Heq; subst x.
  - apply (Hd k); [| set_solver]. apply list_elem_of_fmap. by exists (k, w).
  - apply Hn. apply list_elem_of_fmap. by exists (k, w).
Qed.

(** Replacing the first [length l2] elements past a prefix. *)
Lemma insert_app_here {A} (l1 l2 : list A) (x y : A) :
  <[length l1:=y]> (l1 ++ x :: l2) = l1 ++ y :: l2.
Proof. by rewrite insert_app_r_alt, Nat.sub_diag by lia. Qed.

(** ** Strings *)

(** [%d] of the C and Lua formatting functions: the decimal digits, most
    significant first.  A number has no more digits than bits. *)
Definition digit_char (d : Z) : ascii := ascii_of_N (Z.to_N (48 + d)).

Fixpoint fmt_digits (fuel : nat) (n : Z) (acc : string) : string :=
  match fuel with
  | O => acc
  | S fuel =>
      let acc := String (digit_char (n mod 10)) acc in
      if n <? 10 then acc else fmt_digits fuel (n / 10) acc
  end.

Definition fmt_nat (n : Z) : string := fmt_digits (S (Z.to_nat (Z.log2 n))) n EmptyString.

Definition fmt_int (z : Z) : string :=
  if z <? 0 then String "-" (fmt_nat (- z)) else fmt_nat z.

Lemma string_app_assoc (a b c : string) :
  String.append (String.append a b) c = String.append a (String.append b c).
Proof. induction a as [| x a IH]; [done |]. exact (f_equal (String x) IH). Qed.

Lemma string_app_length (a b : string) :
  String.length (String.append a b) = (String.length a + String.length b)%nat.
Proof. induction a as [| x a IH]; [done |]. exact (f_equal S IH). Qed.

Lemma string_app_nil_r (a : string) : String.append a EmptyString = a.
Proof. induction a as [| x a IH]; [done |]. exact (f_equal (String x) IH). Qed.

(** Prefixes, suffixes and the first place of a character. *)
Fixpoint take_string (n : nat) (s : string) : string :=
  match n, s with
  | S n, String c s => String c (take_string n s)
  | _, _ => EmptyString
  end.
Fixpoint drop_string (n : nat) (s : string) : string :=
  match n, s with
  | S n, String _ s => drop_string n s
  | _, _ => s
  end.
Fixpoint find_char (c : ascii) (s : string) : option nat :=
  match s with
  | EmptyString => None
  | String x s => if decide (x = c) then Some 0%nat else S <$> find_char c s
  end.

Lemma take_string_app a b : take_string (String.length a) (String.append a b) = a.
Proof. induction a as [| x a IH]; [by destruct b |]. exact (f_equal (String x) IH). Qed.

Lemma take_string_all a : take_string (String.length a) a = a.
Proof. rewrite <- (string_app_nil_r a) at 2. apply take_string_app. Qed.

Lemma drop_string_app a b : drop_string (String.length a) (String.append a b) = b.
Proof. induction a as [| x a IH]; [by destruct b |]. exact IH. Qed.

Lemma find_char_app c a b :
  find_char c a = None ->
  find_char c (String.append a (String c b)) = Some (String.length a).
Proof.
  induction a as [| x a IH]; intros Ha; simpl in Ha.
  - simpl. by rewrite decide_True.
  - destruct (decide (x = c)); [done |]. destruct (find_char c a) eqn:Hf; [done |].
    change (String.append (String x a) ?b) with (String x (String.append a b)).
    simpl. rewrite decide_False by done. by rewrite IH.
Qed.

Lemma string_get_app a c b :
  String.get (String.length a) (String.append a (String c b)) = Some c.
Proof. induction a as [| x a IH]; [done |]. exact IH. Qed.

(** ** Automation *)

(** Evaluate the mask operations on a known flag word. *)
Ltac eval_flags :=
  repeat match goal with
  | |- context [lcuL_maskflag ?a ?b] =>
      let v := eval vm_compute in (lcuL_maskflag a b) in
      progress change (lcuL_maskflag a b) with v
  | |- context [lcuL_setflag ?a ?b] =>
      let v := eval vm_compute in (lcuL_setflag a b) in
      progress change (lcuL_setflag a b) with v
  | |- context [lcuL_clearflag ?a ?b] =>
      let v := eval vm_compute in (lcuL_clearflag a b) in
      progress change (lcuL_clearflag a b) with v
  end.

(** Split every conjunction and existential of the context. *)
Ltac split_hyps :=
  repeat match goal with
  | H : _ /\ _ |- _ => destruct H
  | H : exists _, _ |- _ => destruct H
  end.
