(* ===== verification/Steps.v ===== *)
(** * Systems of steps

    The concurrent and callback-driven components are systems of the same shape:
    a state, actions with the condition under which the environment can take
    them, and an executable step that gives [None] when the program goes wrong.
    This file has what they share: reachability, invariants and runs on concrete
    inputs. *)
From S2P Require Import Prelude.

Section steps.
Context {W A : Type} (init : W) (can : W -> A -> Prop) (step : W -> A -> option W).

Inductive reached : W -> Prop :=
  | reached_init : reached init
  | reached_step w a w' : reached w -> can w a -> step w a = Some w' -> reached w'.

(** An invariant of every step that does not go wrong. *)
Lemma reached_preserved (I : W -> Prop) :
  I init -> (forall w a w', I w -> can w a -> step w a = Some w' -> I w') ->
  forall w, reached w -> I w.
Proof. intros Hi Hs w. induction 1; eauto. Qed.

(** ... and one that also keeps the steps from going wrong. *)
Lemma reached_safe (I : W -> Prop) :
  I init -> (forall w a, I w -> can w a -> exists w', step w a = Some w' /\ I w') ->
  forall w, reached w -> I w.
Proof.
  intros Hi Hs. apply reached_preserved; [done |]. intros w a w' Hw Ha Hx.
  destruct (Hs w a Hw Ha) as (w1 & Hx1 & Hw1). congruence.
Qed.

(** Each action of the list can be taken where it is, and [P] holds at the
    end. *)
Fixpoint can_run (w : W) (acts : list A) (P : W -> Prop) : Prop :=
  match acts with
  | [] => P w
  | a :: acts =>
      can w a /\ match step w a with Some w' => can_run w' acts P | None => False end
  end.

Lemma reached_run_from w acts P :
  reached w -> can_run w acts P -> exists w', reached w' /\ P w'.
Proof.
  revert w. induction acts as [| a acts IH]; intros w Hr; cbn [can_run]; [eauto |].
  intros [Ha Hx]. destruct (step w a) as [w' |] eqn:Hw; [| done].
  by apply (IH w'), Hx; apply (reached_step w a).
Qed.

Lemma reached_run acts P : can_run init acts P -> exists w', reached w' /\ P w'.
Proof. apply reached_run_from, reached_init. Qed.
End steps.
