(* ===== verification/LuaApi.v ===== *)
(** * The Lua C API the program is written against

    Lua is not part of the repository.  The values a stack slot can hold are
    data of the model; the operations on a stack are the fields of the class
    [LuaStack], whose laws are the effects the Lua 5.4 reference manual
    documents (section 4.6).  Client files are proved against the class; the
    instance [list_stack] shows that the laws can be satisfied and lets the
    examples evaluate. *)
From S2P Require Import Prelude.

(** Values.  A [lua_Number] is carried as its IEEE bits: the program only
    copies it.  Reference values are opaque identities. *)
Inductive lvalue :=
  | LNil
  | LBoolean (b : bool)
  | LInteger (i : Z)
  | LNumber (bits : Z)
  | LString (s : string)
  | LLightUserdata (p : option positive)
  | LUserdata (p : positive)
  | LTable (p : positive)
  | LFunction (p : positive)
  | LThread (p : positive).

#[export] Instance lvalue_eq_dec : EqDecision lvalue.
Proof. solve_decision. Defined.

(** [lua_Status] values (lua.h): only the distinctions the program makes. *)
Inductive lua_status := LUA_OK | LUA_YIELD | LUA_ERRRUN | LUA_ERRMEM.

#[export] Instance lua_status_eq_dec : EqDecision lua_status.
Proof. solve_decision. Defined.

Class LuaStack (S : Type) := {
  values : S -> list lvalue;             (* index 1 first *)
  lua_push : S -> lvalue -> S;
  lua_settop : S -> nat -> S;
  lua_replace : S -> nat -> S;
  lua_insert : S -> nat -> S;
  lua_remove : S -> nat -> S;
  lua_checkstack : S -> nat -> bool;

  values_push s v : values (lua_push s v) = values s ++ [v];
  values_settop s n : values (lua_settop s n) = resize n LNil (values s);
  values_replace s i l v :
    values s = l ++ [v] -> (1 <= i <= length l + 1)%nat ->
    values (lua_replace s i) = <[(i - 1)%nat := v]> l;
  values_insert s l1 l2 v :
    values s = l1 ++ l2 ++ [v] ->
    values (lua_insert s (length l1 + 1)) = l1 ++ v :: l2;
  values_remove s l1 l2 v :
    values s = l1 ++ v :: l2 ->
    values (lua_remove s (length l1 + 1)) = l1 ++ l2;
}.

Section api.
Context {St : Type} `{!LuaStack St}.
Implicit Types s : St.

(** [lua_gettop], absolute and top-relative indices. *)
Definition lua_gettop s : nat := length (values s).
Definition lua_absindex s (i : Z) : nat :=
  if i <? 0 then Z.to_nat (Z.of_nat (lua_gettop s) + 1 + i) else Z.to_nat i.

(** The value at an index; [None] is the manual's "none" (outside the stack). *)
Definition lua_at s (i : Z) : option lvalue :=
  let j := lua_absindex s i in
  if (j =? 0)%nat then None else values s !! (j - 1)%nat.

Definition lua_pop s (n : nat) : St := lua_settop s (lua_gettop s - n).

Definition lua_toboolean s i : bool :=
  match lua_at s i with
  | None | Some LNil | Some (LBoolean false) => false
  | Some _ => true
  end.
(** [lua_tointeger] gives 0 when the value is not an integer.  (The manual
    also converts floats and numeric strings; the program applies it to
    integers it has pushed itself.) *)
Definition lua_tointeger s i : Z :=
  match lua_at s i with Some (LInteger n) => n | _ => 0 end.
Definition lua_touserdata s i : option positive :=
  match lua_at s i with
  | Some (LLightUserdata p) => p
  | Some (LUserdata p) => Some p
  | _ => None
  end.

Lemma gettop_push s v : lua_gettop (lua_push s v) = (lua_gettop s + 1)%nat.
Proof. unfold lua_gettop. by rewrite values_push, length_app. Qed.

Lemma gettop_settop s n : lua_gettop (lua_settop s n) = n.
Proof. unfold lua_gettop. by rewrite values_settop, length_resize. Qed.

Lemma values_settop_le s n :
  (n <= lua_gettop s)%nat -> values (lua_settop s n) = take n (values s).
Proof. intros. rewrite values_settop. by rewrite resize_le. Qed.

Lemma values_pop s l1 l2 n :
  values s = l1 ++ l2 -> length l2 = n -> values (lua_pop s n) = l1.
Proof.
  intros Hs Hn. unfold lua_pop, lua_gettop.
  rewrite values_settop, Hs, length_app, Hn.
  rewrite resize_le by (rewrite length_app; lia).
  replace (length l1 + n - n)%nat with (length l1) by lia. by rewrite take_app_length.
Qed.

Lemma values_settop_app s l1 l2 n :
  values s = l1 ++ l2 -> length l1 = n -> values (lua_settop s n) = l1.
Proof.
  intros Hs Hn. rewrite values_settop, Hs.
  rewrite resize_le by (rewrite length_app; lia). subst n. by rewrite take_app_length.
Qed.

(** The slot at a known place of the stack. *)
Lemma at_app s l1 v l2 :
  values s = l1 ++ v :: l2 -> lua_at s (Z.of_nat (length l1 + 1)) = Some v.
Proof.
  intros Hs. unfold lua_at, lua_absindex.
  destruct (Z.ltb_spec (Z.of_nat (length l1 + 1)) 0); [lia |].
  rewrite Nat2Z.id. destruct (Nat.eqb_spec (length l1 + 1) 0); [lia |].
  rewrite Hs, lookup_app_r by lia.
  replace (length l1 + 1 - 1 - length l1)%nat with 0%nat by lia. done.
Qed.

(** The slot [k] places below the top ([k] = 0 is index -1). *)
Lemma at_top s l1 v l2 i :
  values s = l1 ++ v :: l2 -> i = - Z.of_nat (length l2 + 1) ->
  lua_at s i = Some v.
Proof.
  intros Hs ->. rewrite <- (at_app s l1 v l2 Hs).
  assert (lua_absindex s (- Z.of_nat (length l2 + 1))
          = lua_absindex s (Z.of_nat (length l1 + 1))) as E; [| by unfold lua_at; rewrite E].
  unfold lua_absindex, lua_gettop. rewrite Hs.
  destruct (Z.ltb_spec (- Z.of_nat (length l2 + 1)) 0); [| lia].
  destruct (Z.ltb_spec (Z.of_nat (length l1 + 1)) 0); [lia |].
  rewrite length_app. simpl. lia.
Qed.

(** Overwriting a slot of the stack below the popped value. *)
Lemma values_replace_app s l1 x l2 v i :
  values s = l1 ++ x :: l2 ++ [v] -> i = (length l1 + 1)%nat ->
  values (lua_replace s i) = l1 ++ v :: l2.
Proof.
  intros Hs ->.
  rewrite (values_replace s _ (l1 ++ x :: l2) v).
  - replace (length l1 + 1 - 1)%nat with (length l1) by lia. apply insert_app_here.
  - rewrite Hs. by rewrite <- app_assoc.
  - rewrite length_app. simpl. lia.
Qed.

(** ... and the case where the slot is the popped value's own. *)
Lemma values_replace_top s l v i :
  values s = l ++ [v] -> i = (length l + 1)%nat -> values (lua_replace s i) = l.
Proof.
  intros Hs ->. rewrite (values_replace s _ l v Hs) by lia.
  apply list_insert_ge. lia.
Qed.
End api.

(** The instance: a stack is the list of its values. *)
Definition list_replace (s : list lvalue) (i : nat) : list lvalue :=
  match last s with
  | Some v => <[(i - 1)%nat := v]> (take (length s - 1) s)
  | None => s
  end.
Definition list_lua_insert (s : list lvalue) (i : nat) : list lvalue :=
  match last s with
  | Some v => take (i - 1) s ++ v :: drop (i - 1) (take (length s - 1) s)
  | None => s
  end.

#[export, refine] Instance list_stack : LuaStack (list lvalue) := {|
  values s := s;
  lua_push s v := s ++ [v];
  lua_settop s n := resize n LNil s;
  lua_replace := list_replace;
  lua_insert := list_lua_insert;
  lua_remove s i := take (i - 1) s ++ drop i s;
  lua_checkstack _ _ := true;
|}.
Proof.
  - done.
  - done.
  - intros s i l v -> Hi. unfold list_replace. rewrite last_snoc, length_app. simpl.
    by replace (length l + 1 - 1)%nat with (length l) by lia; rewrite take_app_length.
  - intros s l1 l2 v ->. unfold list_lua_insert.
    rewrite app_assoc, last_snoc, length_app. simpl.
    replace (length (l1 ++ l2) + 1 - 1)%nat with (length (l1 ++ l2)) by lia.
    rewrite take_app_length. replace (length l1 + 1 - 1)%nat with (length l1) by lia.
    rewrite <- app_assoc, take_app_length. by rewrite drop_app_length.
  - intros s l1 l2 v ->. replace (length l1 + 1 - 1)%nat with (length l1) by lia.
    rewrite take_app_length. replace (length l1 + 1)%nat with (length (l1 ++ [v]))
      by (rewrite length_app; simpl; lia).
    replace (l1 ++ v :: l2) with ((l1 ++ [v]) ++ l2) by (by rewrite <- app_assoc).
    by rewrite drop_app_length.
Defined.
