(* ===== verification/StateQ.v ===== *)
(** * Queues of suspended Lua states (src/src/lchaux.c lines 14 to 93)

    An [lcu_StateQ] is a singly linked list threaded through the registries of
    the queued states: the successor of a state is stored in its registry under
    [REGKEY_NEXTSTATE].  The model keeps one shared store of successor fields
    for all states, so that two queues alias it the way the code does.

    The second half states what the queues promise to their clients (channels
    and thread pools) as the class [StateQueue], and derives its instance from
    the refinement lemmas. *)
From S2P Require Import Prelude.

(** A [lua_State *] that is not [NULL]. *)
Abbreviation lua_State := positive.

(** [REGKEY_NEXTSTATE] of every state; an absent field is Lua's [nil]. *)
Abbreviation next_store := (gmap lua_State lua_State).

Record lcu_StateQ := StateQ { head : option lua_State; tail : option lua_State }.

#[export] Instance lcu_StateQ_eq_dec : EqDecision lcu_StateQ.
Proof. solve_decision. Defined.

Definition getnextstateq (st : next_store) (L : lua_State) : option lua_State :=
  st !! L.

Definition setnextstateq (st : next_store) (L : lua_State)
    (value : option lua_State) : next_store :=
  match value with
  | Some v => <[L := v]> st
  | None => delete L st
  end.

(** [None] when the code would follow the [NULL] tail of a non-empty queue. *)
Definition appendstateq (st : next_store) (q q2 : lcu_StateQ)
    : option (next_store * lcu_StateQ) :=
  match head q with
  | Some _ =>
      match tail q with
      | Some t => Some (setnextstateq st t (head q2), StateQ (head q) (tail q2))
      | None => None
      end
  | None => Some (st, StateQ (head q2) (tail q2))
  end.

Definition lcuCS_initstateq : lcu_StateQ := StateQ None None.

Definition lcuCS_emptystateq (q : lcu_StateQ) : bool :=
  match head q with None => true | Some _ => false end.

Definition lcuCS_enqueuestateq (st : next_store) (q : lcu_StateQ) (L : lua_State)
    : option (next_store * lcu_StateQ) :=
  let single := StateQ (Some L) (Some L) in
  appendstateq st q single.

Definition lcuCS_dequeuestateq (st : next_store) (q : lcu_StateQ)
    : option lua_State * (next_store * lcu_StateQ) :=
  match head q with
  | Some L =>
      let q' := if decide (Some L = tail q) then StateQ None None
                else StateQ (getnextstateq st L) (tail q) in
      (Some L, (setnextstateq st L None, q'))
  | None => (None, (st, q))
  end.

(** The [while (prev != q->tail)] loop of [lcuCS_removestateq]; [None] when the
    fuel runs out or a [NULL] successor would be followed. *)
Fixpoint removestateq_loop (fuel : nat) (st : next_store) (q : lcu_StateQ)
    (L prev : lua_State) : option (option lua_State * (next_store * lcu_StateQ)) :=
  match fuel with
  | O => None
  | S fuel =>
      if decide (Some prev = tail q) then Some (None, (st, q))
      else
        let current := getnextstateq st prev in
        if decide (current = Some L) then
          let '(st1, q1) :=
            if decide (Some L = tail q)
            then (setnextstateq st prev None, StateQ (head q) (Some prev))
            else (setnextstateq st prev (getnextstateq st L), q) in
          Some (Some L, (setnextstateq st1 L None, q1))
        else
          match current with
          | Some c => removestateq_loop fuel st q L c
          | None => None
          end
  end.

Definition lcuCS_removestateq (fuel : nat) (st : next_store) (q : lcu_StateQ)
    (L : lua_State) : option (option lua_State * (next_store * lcu_StateQ)) :=
  match head q with
  | Some prev =>
      if decide (L = prev) then Some (lcuCS_dequeuestateq st q)
      else removestateq_loop fuel st q L prev
  | None => Some (None, (st, q))
  end.

(** ** What a queue represents *)

(** The successor fields spell the list, and the last one is [nil]. *)
Fixpoint linked (st : next_store) (l : list lua_State) : Prop :=
  match l with
  | [] => True
  | x :: r => st !! x = list.head r /\ linked st r
  end.

Definition q_list (st : next_store) (q : lcu_StateQ) (l : list lua_State) : Prop :=
  NoDup l /\ linked st l /\ head q = list.head l /\ tail q = last l.

Lemma linked_frame st st' l :
  (forall x, x ∈ l -> st' !! x = st !! x) -> linked st l -> linked st' l.
Proof.
  induction l as [| x l IH]; simpl; [done |].
  intros Heq [Hx Hl]. split.
  - rewrite Heq by set_solver. done.
  - apply IH; [set_solver | done].
Qed.

Lemma linked_app st l1 l2 :
  linked st (l1 ++ l2) ->
  linked st l2 /\ (forall x, last l1 = Some x -> st !! x = list.head l2).
Proof.
  induction l1 as [| x l1 IH]; simpl; [done |].
  intros [Hx Hl]. destruct (IH Hl) as [H2 Hlast]. split; [done |].
  intros y Hy. destruct l1 as [| z l1]; simpl in *.
  - by simplify_eq.
  - by apply Hlast.
Qed.

(** Linking the end of one list to the start of another, whatever followed it. *)
Lemma linked_link st l1 m l2 t :
  NoDup (l1 ++ l2) -> last l1 = Some t -> linked st (l1 ++ m) -> linked st l2 ->
  linked (setnextstateq st t (list.head l2)) (l1 ++ l2).
Proof.
  revert t. induction l1 as [| x l1 IH]; intros t Hnd Ht Hl1 Hl2; [done |].
  destruct Hl1 as [Hx Hl1].
  assert (Ht2 : linked (setnextstateq st t (list.head l2)) l2).
  { apply (linked_frame st); [| done]. intros y Hy.
    assert (y <> t).
    { intros ->. apply last_Some_in in Ht. apply NoDup_app in Hnd as (_ & Hnd & _).
      by apply (Hnd t). }
    destruct l2; simpl; [by rewrite lookup_delete_ne | by rewrite lookup_insert_ne]. }
  destruct l1 as [| y l1].
  - simpl in Ht. simplify_eq. simpl. split; [| done].
    destruct l2; simpl; [apply lookup_delete_eq | apply lookup_insert_eq].
  - inversion Hnd as [| ?? Hni Hnd']; subst.
    assert (x <> t) as Hne.
    { intros ->. apply Hni. change (t ∈ (y :: l1) ++ l2). apply elem_of_app. left. by apply last_Some_in. }
    change (st !! x = Some y) in Hx. change (last (y :: l1) = Some t) in Ht.
    split; [| by apply IH].
    destruct l2; simpl; [by rewrite lookup_delete_ne | by rewrite lookup_insert_ne].
Qed.

Lemma q_list_init st : q_list st lcuCS_initstateq [].
Proof. repeat split; constructor. Qed.

Lemma q_list_empty st q l :
  q_list st q l -> lcuCS_emptystateq q = bool_decide (l = []).
Proof.
  intros (_ & _ & Hh & _). unfold lcuCS_emptystateq. rewrite Hh.
  by destruct l.
Qed.

(** Appending a non-empty queue concatenates the lists. *)
Lemma append_refines st q q2 l l2 :
  q_list st q l -> q_list st q2 l2 -> l2 <> [] -> (forall x, x ∈ l -> x ∉ l2) ->
  exists st' q', appendstateq st q q2 = Some (st', q') /\
    q_list st' q' (l ++ l2) /\
    (forall k, k ∉ l -> st' !! k = st !! k).
Proof.
  intros (Hnd & Hlk & Hh & Ht) (Hnd2 & Hlk2 & Hh2 & Ht2) Hne Hdis.
  destruct l as [| x l].
  - unfold appendstateq. rewrite Hh. simpl. by exists st, (StateQ (head q2) (tail q2)).
  - destruct (last (x :: l)) as [t |] eqn:Hlast;
      [| by apply last_None in Hlast].
    assert (NoDup ((x :: l) ++ l2)) as Hnd'.
    { apply NoDup_app. auto. }
    unfold appendstateq. rewrite Hh, Ht. simpl (list.head _). cbv iota.
    exists (setnextstateq st t (head q2)), (StateQ (Some x) (tail q2)).
    split; [done |]. split.
    + split; [done |]. split; [rewrite Hh2; apply (linked_link _ _ []); by rewrite ?app_nil_r |].
      split; [done |]. simpl tail. rewrite Ht2, last_app.
      by destruct (last l2) eqn:E; [| apply last_None in E].
    + intros k Hk. assert (k <> t) by (apply last_Some_in in Hlast; set_solver).
      destruct (head q2); simpl; [by rewrite lookup_insert_ne | by rewrite lookup_delete_ne].
Qed.

(** Enqueuing a state that is in no queue appends it. *)
Lemma enqueue_refines st q l L :
  q_list st q l -> L ∉ l -> st !! L = None ->
  exists st' q', lcuCS_enqueuestateq st q L = Some (st', q') /\
    q_list st' q' (l ++ [L]) /\
    (forall k, k ∉ l -> st' !! k = st !! k).
Proof.
  intros Hq HL Hf. unfold lcuCS_enqueuestateq.
  apply append_refines; [done | | done | set_solver].
  repeat split; try done. apply NoDup_singleton.
Qed.

Lemma dequeue_refines st q l :
  q_list st q l ->
  exists st' q', lcuCS_dequeuestateq st q = (list.head l, (st', q')) /\
    q_list st' q' (list.tail l) /\
    (forall k, Some k <> list.head l -> st' !! k = st !! k) /\
    (forall k, list.head l = Some k -> st' !! k = None).
Proof.
  intros (Hnd & Hlk & Hh & Ht). unfold lcuCS_dequeuestateq. rewrite Hh.
  destruct l as [| x l]; simpl.
  - exists st, q. by repeat split.
  - destruct Hlk as [Hx Hlk]. inversion Hnd as [| ?? Hni Hnd']; subst.
    eexists _, _; split; [done |].
    split; [| split].
    + assert (linked (delete x st) l) as Hlk'.
      { apply (linked_frame st); [| done]. intros y Hy.
        rewrite lookup_delete_ne; [done | set_solver]. }
      case_decide as Hd; rewrite Ht in Hd.
      * destruct l as [| y l]; [by repeat split |].
        exfalso. apply Hni. apply last_Some_in.
        by rewrite list_last_cons2 in Hd.
      * repeat split; simpl; try done. rewrite Ht.
        by destruct l.
    + intros k Hk. rewrite lookup_delete_ne; [done | congruence].
    + intros k [= <-]. apply lookup_delete_eq.
Qed.

(** One removal step from the middle of the list: [l1] ends with the
    predecessor of [L]. *)
Lemma unlink_refines st q l1 l2 L prev :
  q_list st q (l1 ++ L :: l2) -> last l1 = Some prev ->
  let '(st1, q1) :=
    if decide (Some L = tail q)
    then (setnextstateq st prev None, StateQ (head q) (Some prev))
    else (setnextstateq st prev (getnextstateq st L), q) in
  q_list (setnextstateq st1 L None) q1 (l1 ++ l2) /\
  (forall k, k ∉ l1 -> k <> L -> setnextstateq st1 L None !! k = st !! k).
Proof.
  intros (Hnd & Hlk & Hh & Ht) Hlast.
  assert (NoDup (l1 ++ l2) /\ L ∉ l1 ++ l2) as [Hnd' HL].
  { apply NoDup_app in Hnd as (? & Hd & Hn2). apply NoDup_cons in Hn2 as [? ?].
    split; [apply NoDup_app; set_solver |].
    rewrite elem_of_app. intros [? | ?]; set_solver. }
  assert (prev ∈ l1) as Hp by by apply last_Some_in.
  assert (list.head (l1 ++ l2) = head q) as Hhd.
  { rewrite Hh. by destruct l1. }
  assert (linked st l2) as Hl2 by (apply linked_app in Hlk as [[_ Hl2] _]; done).
  assert (st !! L = list.head l2) as HnL by (apply linked_app in Hlk as [[? _] _]; done).
  assert (linked (delete L (setnextstateq st prev (list.head l2))) (l1 ++ l2)) as Hlk'.
  { apply (linked_frame (setnextstateq st prev (list.head l2))).
    - intros x Hx. rewrite lookup_delete_ne; [done | set_solver].
    - by apply (linked_link _ _ (L :: l2)). }
  assert (forall k, k ∉ l1 -> k <> L ->
    delete L (setnextstateq st prev (list.head l2)) !! k = st !! k) as Hfr.
  { intros k Hk HkL. rewrite lookup_delete_ne by done.
    assert (k <> prev) by set_solver.
    destruct (list.head l2); simpl; [by rewrite lookup_insert_ne | by rewrite lookup_delete_ne]. }
  rewrite last_app, last_cons in Ht. unfold getnextstateq. rewrite HnL.
  case_decide as Hd; rewrite Ht in Hd.
  - destruct l2 as [| y l2].
    + split; [| done]. split; [done |]. split; [done |]. split; [done |].
      simpl. by rewrite app_nil_r.
    + exfalso. apply HL, elem_of_app. right. apply last_Some_in.
      destruct (last (y :: l2)) eqn:E; [congruence | by apply last_None in E].
  - split; [| done]. split; [done |]. split; [done |]. split; [done |].
    rewrite Ht, last_app. destruct (last l2) eqn:E; [done |]. by destruct Hd.
Qed.

Lemma remove_loop_spec st q L suf : forall fuel pre prev,
  q_list st q (pre ++ prev :: suf) -> (length suf < fuel)%nat ->
  (L ∉ suf -> removestateq_loop fuel st q L prev = Some (None, (st, q))) /\
  (forall s1 s2, suf = s1 ++ L :: s2 ->
   exists st' q', removestateq_loop fuel st q L prev = Some (Some L, (st', q')) /\
     q_list st' q' (pre ++ prev :: s1 ++ s2) /\ st' !! L = None /\
     (forall k, k ∉ pre ++ prev :: suf -> st' !! k = st !! k)).
Proof.
  induction suf as [| c suf IH]; intros fuel pre prev Hq Hf;
    destruct fuel as [| fuel]; simpl in Hf; try lia; simpl.
  - destruct Hq as (_ & _ & _ & Ht). rewrite last_snoc in Ht.
    rewrite decide_True by done. split; [done |]. intros [] ? ?; done.
  - pose proof Hq as (Hnd & Hlk & Hh & Ht).
    assert (Some prev <> tail q) as Hpt.
    { rewrite Ht, last_app, last_cons. intros Hp.
      apply NoDup_app in Hnd as (_ & _ & Hn2). apply NoDup_cons in Hn2 as [Hni _].
      destruct (last (c :: suf)) eqn:E; [| by apply last_None in E].
      simplify_eq. by apply last_Some_in in E. }
    assert (getnextstateq st prev = Some c) as Hcur
      by (apply linked_app in Hlk as [[? _] _]; done).
    rewrite decide_False by done. rewrite Hcur.
    assert (pre ++ prev :: c :: suf = (pre ++ [prev]) ++ c :: suf) as Eapp
      by by rewrite <- app_assoc.
    destruct (decide (c = L)) as [-> | HcL].
    + rewrite decide_True by done. split; [intros HL; set_solver |].
      intros s1 s2 Hs. destruct s1 as [| x s1]; simplify_eq/=.
      * rewrite Eapp in Hq. pose proof (unlink_refines st q (pre ++ [prev]) _ L prev Hq (last_snoc _ _)) as Hu.
        destruct (if decide (Some L = tail q) then _ else _) as [st1 q1].
        destruct Hu as [Hq' Hfr]. exists (setnextstateq st1 L None), q1.
        rewrite <- app_assoc in Hq'. split; [done |]. split; [done |].
        split; [apply lookup_delete_eq |].
        intros k Hk. apply Hfr; set_solver.
      * exfalso. 
        apply NoDup_app in Hnd as (_ & _ & Hn2). apply NoDup_cons in Hn2 as [? Hn2].
        apply NoDup_cons in Hn2 as [Hni _]. set_solver.
    + rewrite decide_False by congruence. rewrite Eapp in Hq.
      destruct (IH fuel (pre ++ [prev]) c Hq ltac:(lia)) as [IH1 IH2].
      split; [intros HL; apply IH1; set_solver |].
      intros s1 s2 Hs. destruct s1 as [| x s1]; simplify_eq/=.
      destruct (IH2 s1 s2 eq_refl) as (st' & q' & He & Hq' & HL & Hfr).
      exists st', q'. rewrite <- app_assoc in Hq'. split; [done |]. split; [done |].
      split; [done |]. intros k Hk. apply Hfr. by rewrite <- Eapp.
Qed.

(** Removal takes a queued state out and leaves the order of the others. *)
Lemma remove_refines st q l L fuel :
  q_list st q l -> (length l <= fuel)%nat ->
  (L ∉ l -> lcuCS_removestateq fuel st q L = Some (None, (st, q))) /\
  (forall l1 l2, l = l1 ++ L :: l2 ->
   exists st' q', lcuCS_removestateq fuel st q L = Some (Some L, (st', q')) /\
     q_list st' q' (l1 ++ l2) /\ st' !! L = None /\
     (forall k, k ∉ l -> st' !! k = st !! k)).
Proof.
  intros Hq Hf. pose proof Hq as (Hnd & _ & Hh & _).
  unfold lcuCS_removestateq. destruct l as [| x l]; rewrite Hh; simpl.
  - split; [done |]. by intros [] ? ?.
  - destruct (decide (L = x)) as [<- | Hne].
    + split; [intros HL; set_solver |]. intros l1 l2 Hl.
      destruct (dequeue_refines st q (L :: l) Hq) as (st' & q' & He & Hq' & Hfr & Hn).
      exists st', q'. rewrite He. split; [done |].
      destruct l1 as [| y l1]; simplify_list_eq.
      * split; [done |]. split; [by apply Hn |]. intros k Hk. apply Hfr.
        simpl. intros [= ->]. set_solver.
      * apply NoDup_cons in Hnd as [Hni _]. set_solver.
    + destruct (remove_loop_spec st q L l fuel [] x Hq) as [H1 H2]; [simpl in Hf; lia |].
      split; [intros HL; apply H1; set_solver |].
      intros l1 l2 Hl. destruct l1 as [| y l1]; simplify_list_eq.
      destruct (H2 l1 l2 eq_refl) as (st' & q' & ? & ? & ? & ?). eauto 10.
Qed.

(** ** The interface

    What a client may rely on.  [q_repr q l] says that [q] holds the states [l],
    first to be served first. *)
Class StateQueue (Q : Type) := {
  q_repr : Q -> list lua_State -> Prop;
  q_init : Q;
  q_empty : Q -> bool;
  q_enqueue : Q -> lua_State -> option Q;
  q_dequeue : Q -> option lua_State * Q;
  q_remove : Q -> lua_State -> option (option lua_State * Q);

  q_repr_NoDup q l : q_repr q l -> NoDup l;
  q_init_repr : q_repr q_init [];
  q_empty_repr q l : q_repr q l -> q_empty q = bool_decide (l = []);
  q_enqueue_repr q l L :
    q_repr q l -> L ∉ l -> exists q', q_enqueue q L = Some q' /\ q_repr q' (l ++ [L]);
  q_dequeue_repr q l :
    q_repr q l -> exists q', q_dequeue q = (list.head l, q') /\ q_repr q' (list.tail l);
  q_remove_repr q l1 L l2 :
    q_repr q (l1 ++ L :: l2) ->
    exists q', q_remove q L = Some (Some L, q') /\ q_repr q' (l1 ++ l2);
  q_remove_absent q l L :
    q_repr q l -> L ∉ l -> q_remove q L = Some (None, q);
}.

(** The instance: a queue with the successor fields of its states.  No state
    outside the queue has a successor, which is how every operation leaves it.
    The fuel of the removal loop is one more than the number of links. *)
Definition owned_queue : Type := next_store * lcu_StateQ.

Definition owned_repr (oq : owned_queue) (l : list lua_State) : Prop :=
  q_list oq.1 oq.2 l /\ (forall k, k ∉ l -> oq.1 !! k = None).

Definition owned_enqueue (oq : owned_queue) (L : lua_State) : option owned_queue :=
  lcuCS_enqueuestateq oq.1 oq.2 L.
Definition owned_dequeue (oq : owned_queue) : option lua_State * owned_queue :=
  lcuCS_dequeuestateq oq.1 oq.2.
Definition owned_remove (oq : owned_queue) (L : lua_State)
    : option (option lua_State * owned_queue) :=
  lcuCS_removestateq (S (size oq.1)) oq.1 oq.2 L.

Lemma linked_length st l : NoDup l -> linked st l -> (length l <= S (size st))%nat.
Proof.
  intros Hnd Hlk. destruct l as [| x l _] using rev_ind; [simpl; lia |].
  rewrite length_app. simpl.
  enough (length l <= size st)%nat by lia.
  apply NoDup_app in Hnd as (Hnd & _ & _).
  rewrite <- size_dom, <- (size_list_to_set (C := gset lua_State) l) by done.
  apply subseteq_size. intros y Hy. apply elem_of_list_to_set in Hy.
  apply elem_of_dom. apply list_elem_of_split in Hy as (l1 & l2 & ->).
  rewrite <- app_assoc in Hlk. apply linked_app in Hlk as [[Hy _] _].
  rewrite Hy. by destruct l2.
Qed.

#[export, refine] Instance owned_StateQueue : StateQueue owned_queue := {|
  q_repr := owned_repr;
  q_init := (∅, lcuCS_initstateq);
  q_empty oq := lcuCS_emptystateq oq.2;
  q_enqueue := owned_enqueue;
  q_dequeue := owned_dequeue;
  q_remove := owned_remove;
|}.
Proof.
  - by intros q l [(? & _) _].
  - split; [apply q_list_init | done].
  - intros [st q] l [Hq _]. by apply q_list_empty with st.
  - intros [st q] l L [Hq Hf] HL. simpl in *.
    destruct (enqueue_refines st q l L Hq HL (Hf L HL)) as (st' & q' & He & Hq' & Hfr).
    exists (st', q'). split; [done |]. split; [done |]. simpl.
    intros k Hk. rewrite Hfr by set_solver. apply Hf. set_solver.
  - intros [st q] l [Hq Hf]. simpl in *.
    destruct (dequeue_refines st q l Hq) as (st' & q' & He & Hq' & Hfr & Hn).
    exists (st', q'). split; [done |]. split; [done |]. simpl.
    intros k Hk. destruct (decide (list.head l = Some k)) as [E | E]; [by apply Hn |].
    rewrite Hfr by done. apply Hf. destruct l; [done |]. simpl in *. set_solver.
  - intros [st q] l1 L l2 [Hq Hf]. simpl in *.
    destruct (remove_refines st q (l1 ++ L :: l2) L (S (size st)) Hq) as [_ H2].
    { apply linked_length; apply Hq. }
    destruct (H2 l1 l2 eq_refl) as (st' & q' & He & Hq' & Hn & Hfr).
    exists (st', q'). split; [done |]. split; [done |]. simpl.
    intros k Hk. destruct (decide (k = L)) as [-> | Hne]; [done |].
    rewrite Hfr by set_solver. apply Hf. set_solver.
  - intros [st q] l L [Hq Hf] HL. simpl in *.
    destruct (remove_refines st q l L (S (size st)) Hq) as [H1 _].
    { apply linked_length; apply Hq. }
    by apply H1.
Defined.

(** ** Sequences of operations *)

Inductive qop := QEnqueue (L : lua_State) | QDequeue | QRemove (L : lua_State).

(** One operation on the linked queue, with the state it returns. *)
Definition qop_run (st : next_store) (q : lcu_StateQ) (o : qop)
    : option (option lua_State * (next_store * lcu_StateQ)) :=
  match o with
  | QEnqueue L => r ← lcuCS_enqueuestateq st q L; Some (None, r)
  | QDequeue => Some (lcuCS_dequeuestateq st q)
  | QRemove L => lcuCS_removestateq (S (size st)) st q L
  end.

Fixpoint qops_run (st : next_store) (q : lcu_StateQ) (ops : list qop)
    : option (list (option lua_State) * (next_store * lcu_StateQ)) :=
  match ops with
  | [] => Some ([], (st, q))
  | o :: ops =>
      r ← qop_run st q o;
      r' ← qops_run r.2.1 r.2.2 ops;
      Some (r.1 :: r'.1, r'.2)
  end.

(** The same operations on the list of waiting states. *)
Definition qop_spec (l : list lua_State) (o : qop) : option lua_State * list lua_State :=
  match o with
  | QEnqueue L => (None, l ++ [L])
  | QDequeue => (list.head l, list.tail l)
  | QRemove L => if decide (L ∈ l) then (Some L, filter (.≠ L) l) else (None, l)
  end.

Fixpoint qops_spec (l : list lua_State) (ops : list qop)
    : list (option lua_State) * list lua_State :=
  match ops with
  | [] => ([], l)
  | o :: ops =>
      let r := qop_spec l o in
      let r' := qops_spec r.2 ops in
      (r.1 :: r'.1, r'.2)
  end.

(** A state waits in one place at a time: it is enqueued only when it is not
    already in the queue. *)
Fixpoint qops_ok (l : list lua_State) (ops : list qop) : Prop :=
  match ops with
  | [] => True
  | o :: ops =>
      match o with QEnqueue L => L ∉ l | _ => True end /\
      qops_ok (qop_spec l o).2 ops
  end.

Lemma filter_ne_split (l1 l2 : list lua_State) L :
  NoDup (l1 ++ L :: l2) -> filter (.≠ L) (l1 ++ L :: l2) = l1 ++ l2.
Proof.
  intros Hnd. apply NoDup_app in Hnd as (_ & Hd & Hn). apply NoDup_cons in Hn as [Hn _].
  rewrite filter_app, filter_cons_False by (intros Hc; by apply Hc).
  f_equal.
  - clear Hn. induction l1 as [| x l1 IH]; [done |].
    rewrite filter_cons_True by set_solver. f_equal. apply IH. set_solver.
  - clear Hd. induction l2 as [| x l2 IH]; [done |].
    rewrite filter_cons_True by set_solver. f_equal. apply IH. set_solver.
Qed.

Lemma qop_run_refines st q l o :
  owned_repr (st, q) l ->
  match o with QEnqueue L => L ∉ l | _ => True end ->
  exists st' q', qop_run st q o = Some ((qop_spec l o).1, (st', q')) /\
    owned_repr (st', q') (qop_spec l o).2.
Proof.
  intros Hr Hok. destruct o as [L | | L]; simpl.
  - destruct (@q_enqueue_repr owned_queue owned_StateQueue (st, q) l L Hr Hok) as ([st' q'] & He & Hr').
    exists st', q'. change (lcuCS_enqueuestateq st q L = Some (st', q')) in He.
    by rewrite He.
  - destruct (@q_dequeue_repr owned_queue owned_StateQueue (st, q) l Hr) as ([st' q'] & He & Hr').
    exists st', q'. by change (lcuCS_dequeuestateq st q = (list.head l, (st', q'))) in He;
      rewrite He.
  - case_decide as HL.
    + apply list_elem_of_split in HL as (l1 & l2 & ->).
      rewrite filter_ne_split by apply (@q_repr_NoDup owned_queue owned_StateQueue (st, q)), Hr.
      destruct (@q_remove_repr owned_queue owned_StateQueue (st, q) l1 L l2 Hr) as ([st' q'] & He & Hr').
      by exists st', q'.
    + exists st, q. split; [| done]. apply (@q_remove_absent owned_queue owned_StateQueue (st, q) l L Hr HL).
Qed.

(** C1: the linked queues of lchaux.c refine lists served first in, first
    out: whatever sequence of enqueues (of states not already waiting),
    dequeues and removals runs, no [NULL] link is ever followed, every
    operation returns what the list operation returns, in the same order, and
    the links that remain spell the list that remains. *)
Theorem stateq_refines_fifo st q l ops :
  owned_repr (st, q) l -> qops_ok l ops ->
  exists st' q', qops_run st q ops = Some ((qops_spec l ops).1, (st', q')) /\
    owned_repr (st', q') (qops_spec l ops).2.
Proof.
  revert st q l. induction ops as [| o ops IH]; intros st q l Hr Hok; simpl.
  - by exists st, q.
  - destruct Hok as [Ho Hok].
    destruct (qop_run_refines st q l o Hr Ho) as (st1 & q1 & He & Hr1).
    destruct (IH st1 q1 _ Hr1 Hok) as (st2 & q2 & He2 & Hr2).
    exists st2, q2. rewrite He. simpl. by rewrite He2.
Qed.

Definition fifo_example : list qop :=
  [QEnqueue 1; QEnqueue 2; QEnqueue 3; QRemove 2; QDequeue; QEnqueue 1; QDequeue]%positive.

Lemma stateq_refines_fifo_witness :
  exists st' q', qops_run ∅ lcuCS_initstateq fifo_example
    = Some ([None; None; None; Some 2; Some 1; None; Some 3]%positive, (st', q')).
Proof.
  assert (owned_repr (∅, lcuCS_initstateq) []) as Hr by (split; [apply q_list_init | done]).
  assert (qops_ok [] fifo_example) as Hok.
  { simpl. repeat split; apply (bool_decide_unpack _); vm_compute; exact I. }
  destruct (stateq_refines_fifo ∅ lcuCS_initstateq [] fifo_example Hr Hok)
    as (st' & q' & He & _).
  exists st', q'. exact He.
Defined.
