(* ===== verification/ThreadPool.v ===== *)
(** * Thread pools (src/src/lthpool.c)

    First the operations of the pool, one definition per C function (or per
    critical section of a function that releases the mutex in its middle), as
    functions on the [lcu_ThreadPool] record.  Conditions signalled, threads
    created and joined and warnings are returned as a list of effects, in the
    order the code performs them.  The queue of pending tasks is any
    implementation of the interface [StateQueue].

    Then the concurrent system: worker threads, the thread that closes the pool
    and the threads that add, wake, resize and collect, interleaved at the
    granularity of the critical sections. *)
From S2P Require Import Prelude StateQ.

Definition STATUS_MASK : Z := 0x03.
Definition STATUS_OPEN : Z := 0x00.
Definition STATUS_CLOSING : Z := 0x01.
Definition STATUS_CLOSED : Z := 0x02.
Definition JOIN_PENDING : Z := 0x04.

(** Identities of system threads. *)
Abbreviation tid := positive.

Inductive effect :=
  | SignalOnwork
  | BroadcastOnwork
  | SignalOnterm
  | ThreadCreate
  | ThreadJoin (t : tid)
  | WarnErr (err : Z).

#[export] Instance effect_eq_dec : EqDecision effect.
Proof. solve_decision. Defined.

Section pool.
Context {Q : Type} `{!StateQueue Q}.

(** The allocator, the mutex and the conditions have no field: the allocator is
    the host's, mutual exclusion is the granularity of the steps below. *)
Record lcu_ThreadPool := Pool {
  flags : Z;
  size : Z;
  threads : Z;
  idle : Z;
  tasks : Z;
  running : Z;
  pending : Z;
  queue : Q;
  last_terminated : option tid;
}.
Implicit Types p : lcu_ThreadPool.

Definition set_flags v p := Pool v (size p) (threads p) (idle p) (tasks p)
  (running p) (pending p) (queue p) (last_terminated p).
Definition set_size v p := Pool (flags p) v (threads p) (idle p) (tasks p)
  (running p) (pending p) (queue p) (last_terminated p).
Definition set_threads v p := Pool (flags p) (size p) v (idle p) (tasks p)
  (running p) (pending p) (queue p) (last_terminated p).
Definition set_idle v p := Pool (flags p) (size p) (threads p) v (tasks p)
  (running p) (pending p) (queue p) (last_terminated p).
Definition set_tasks v p := Pool (flags p) (size p) (threads p) (idle p) v
  (running p) (pending p) (queue p) (last_terminated p).
Definition set_running v p := Pool (flags p) (size p) (threads p) (idle p) (tasks p)
  v (pending p) (queue p) (last_terminated p).
Definition set_pending n v p := Pool (flags p) (size p) (threads p) (idle p) (tasks p)
  (running p) n v (last_terminated p).
Definition set_last v p := Pool (flags p) (size p) (threads p) (idle p) (tasks p)
  (running p) (pending p) (queue p) v.

Definition getstatus p : Z := Z.land (flags p) STATUS_MASK.
Definition setstatus v p : lcu_ThreadPool :=
  set_flags (Z.lor (Z.land (flags p) (Z.lnot STATUS_MASK)) v) p.

(** ** Helpers called with the mutex held *)

Definition hasextraidle_mx p : bool :=
  (threads p >? size p) && (idle p >? 0).

Definition checkhalted_mx p : lcu_ThreadPool * list effect :=
  if (tasks p =? 0) && (size p >? 0) then (set_size 0 p, [BroadcastOnwork])
  else (p, []).

(** [create_err] is what [uv_thread_create] would return. *)
Definition addthread_mx (create_err : Z) p (L : lua_State)
    : option (bool * (lcu_ThreadPool * list effect)) :=
  let '(p, eff) :=
    if threads p - running p - idle p <=? pending p then
      if idle p >? 0 then (p, [SignalOnwork])
      else if threads p <? size p then
        if create_err =? 0 then (set_threads (threads p + 1) p, [ThreadCreate])
        else (p, [WarnErr create_err])
      else (p, [])
    else (p, []) in
  if getstatus p =? STATUS_CLOSED then Some (false, (p, eff))
  else
    q ← q_enqueue (queue p) L;
    Some (true, (set_pending (pending p + 1) q p, eff)).

(** ** The worker's main loop *)

Inductive pick := PickEnd | PickRun (L : lua_State) | PickWait.

(** The inner loop, from its start (with the mutex held) until it leaves for
    [thread_end], leaves with a task, or waits on [onwork].  [None]: out of
    fuel, or [pending] is positive but the queue is empty. *)
Fixpoint worker_select (fuel : nat) p : option (pick * lcu_ThreadPool) :=
  match fuel with
  | O => None
  | S fuel =>
      if threads p >? size p then Some (PickEnd, p)
      else if ctrue (pending p) then
        match q_dequeue (queue p) with
        | (Some L, q) => Some (PickRun L, set_pending (pending p - 1) q p)
        | (None, _) => None
        end
      else if (getstatus p =? STATUS_CLOSING) && (tasks p =? 0) then
        worker_select fuel (set_size 0 p)
      else Some (PickWait, set_idle (idle p + 1) p)
  end.

(** [uv_cond_wait] returned. *)
Definition worker_wake p : lcu_ThreadPool := set_idle (idle p - 1) p.

(** [pool->running++] before the mutex is released. *)
Definition worker_start p : lcu_ThreadPool := set_running (running p + 1) p.

(** The critical section after a task ran: [enqueue] and [yielded] describe how
    its slice ended. *)
Definition worker_leave (enqueue yielded : bool) (L : lua_State) p
    : option lcu_ThreadPool :=
  let p := set_running (running p - 1) p in
  if enqueue then
    let n := pending p + 1 in
    q ← q_enqueue (queue p) L; Some (set_pending n q p)
  else if negb yielded then Some (set_tasks (tasks p - 1) p)
  else Some p.

(** From the label [thread_end] to the end of [threadmain]. *)
Definition worker_end (self : tid) p : lcu_ThreadPool * list effect :=
  let p := set_threads (threads p - 1) p in
  let '(p, eff) :=
    if hasextraidle_mx p then (p, [SignalOnwork])
    else if getstatus p =? STATUS_CLOSING then
      if threads p =? 0 then (p, [SignalOnterm]) else checkhalted_mx p
    else (p, []) in
  let '(p, eff) :=
    if ctrue (lcuL_maskflag (flags p) JOIN_PENDING)
    then (p, eff ++ option_list (ThreadJoin <$> last_terminated p))
    else (set_flags (lcuL_setflag (flags p) JOIN_PENDING) p, eff) in
  (set_last (Some self) p, eff).

(** ** The interface of the pool *)

Definition lcuTP_createtpool : lcu_ThreadPool :=
  Pool STATUS_OPEN 0 0 0 0 0 0 q_init None.

(** The flag tells the caller whether the task was queued; otherwise its state
    is closed. *)
Definition lcuTP_resumetask (create_err : Z) p (L : lua_State)
    : option (bool * (lcu_ThreadPool * list effect)) :=
  addthread_mx create_err p L.

Definition lcuTP_destroytpool p : option (list effect) :=
  lcu_assert (getstatus p =? STATUS_CLOSED) ≫= λ _,
  lcu_assert (threads p =? 0) ≫= λ _,
  lcu_assert (idle p =? 0) ≫= λ _,
  lcu_assert (tasks p =? 0) ≫= λ _,
  lcu_assert (running p =? 0) ≫= λ _,
  lcu_assert (pending p =? 0) ≫= λ _,
  lcu_assert (q_empty (queue p)) ≫= λ _,
  Some (if ctrue (lcuL_maskflag (flags p) JOIN_PENDING)
        then option_list (ThreadJoin <$> last_terminated p) else []).

(** [lcuTP_closetpool]: its first critical section up to the loop ... *)
Definition closetpool_start p : lcu_ThreadPool := setstatus STATUS_CLOSING p.

(** ... the test of the loop: wait on [onterm] again, or take the pending tasks
    out of the pool and mark it closed. *)
Inductive close_outcome :=
  | CloseWait (p : lcu_ThreadPool) (eff : list effect)
  | CloseDone (ntasks npending : Z) (q : Q) (p : lcu_ThreadPool).

Definition closetpool_loop p : close_outcome :=
  if threads p >? 0 then
    let '(p, eff) := checkhalted_mx p in CloseWait p eff
  else
    CloseDone (tasks p) (pending p) (queue p)
      (setstatus STATUS_CLOSED (set_pending 0 q_init p)).

(** [while ((L = lcuCS_dequeuestateq(&queue))) lua_close(lcuL_tomain(L));] *)
Fixpoint dequeue_all (fuel : nat) (q : Q) : option (list lua_State) :=
  match fuel with
  | O => None
  | S fuel =>
      match q_dequeue q with
      | (None, _) => Some []
      | (Some L, q) => ls ← dequeue_all fuel q; Some (L :: ls)
      end
  end.

(** What follows the last critical section: destroy the pool, or the states to
    close. *)
Inductive close_final := FinalDestroy | FinalClose (states : list lua_State).

Definition closetpool_final (fuel : nat) (ntasks npending : Z) (q : Q)
    : option close_final :=
  if ntasks =? 0 then Some FinalDestroy
  else if npending >? 0 then ls ← dequeue_all fuel q; Some (FinalClose ls)
  else Some (FinalClose []).

(** [while (newthreads--)]: [err i] is the result of the [i]-th creation. *)
Fixpoint resize_create (n : nat) (err : nat -> Z) (i : nat) p
    : Z * (lcu_ThreadPool * list effect) :=
  match n with
  | O => (0, (p, []))
  | S n =>
      if err i =? 0 then
        let '(e, (p, eff)) := resize_create n err (S i) (set_threads (threads p + 1) p) in
        (e, (p, ThreadCreate :: eff))
      else (err i, (p, []))
  end.

Definition lcuTP_resizetpool (err : nat -> Z) p (newsize : Z) (create : bool)
    : Z * (lcu_ThreadPool * list effect) :=
  let newthreads := newsize - size p in
  let p := set_size newsize p in
  if newthreads >? 0 then
    let newthreads :=
      if negb create && (newthreads >? pending p) then pending p else newthreads in
    resize_create (Z.to_nat newthreads) err 0 p
  else if hasextraidle_mx p then (0, (p, [SignalOnwork]))
  else (0, (p, [])).

(** The finalizer of a task's registry entry; the flag tells whether the pool is
    destroyed. *)
Definition collectthreadpool p : bool * lcu_ThreadPool :=
  let status := getstatus p in
  let p := set_tasks (tasks p - 1) p in
  ((status =? STATUS_CLOSED) && (tasks p =? 0), p).

Definition lcuTP_addtpooltask (create_err : Z) p (L : lua_State)
    : option (lcu_ThreadPool * list effect) :=
  r ← addthread_mx create_err p L;
  lcu_assert r.1 ≫= λ _,
  Some (set_tasks (tasks r.2.1 + 1) r.2.1, r.2.2).

Record lcu_ThreadCount := Count {
  c_expected : Z; c_actual : Z; c_running : Z;
  c_pending : Z; c_suspended : Z; c_numoftasks : Z;
}.

Definition count_one p (c : lcu_ThreadCount) (what : Ascii.ascii) : lcu_ThreadCount :=
  let '(Count e a r pd s n) := c in
  match what with
  | "e"%char => Count (size p) a r pd s n
  | "a"%char => Count e (threads p) r pd s n
  | "r"%char => Count e a (running p) pd s n
  | "p"%char => Count e a r (pending p) s n
  | "s"%char => Count e a r pd (tasks p - running p - pending p) n
  | "n"%char => Count e a r pd s (tasks p)
  | _ => c
  end.

Definition lcuTP_counttpool p (c : lcu_ThreadCount) (what : string) : lcu_ThreadCount :=
  fold_left (count_one p) (String.list_ascii_of_string what) c.

End pool.
Arguments lcu_ThreadPool : clear implicits.
Arguments close_outcome : clear implicits.

(** ** Facts about the operations *)

(** Threads created by a list of effects. *)
Definition creates (eff : list effect) : nat :=
  length (filter (.= ThreadCreate) eff).
#[global] Arguments creates : simpl never.

Lemma creates_create eff : creates (ThreadCreate :: eff) = S (creates eff).
Proof. unfold creates. by rewrite filter_cons_True. Qed.

Section facts.
Context {Q : Type} `{!StateQueue Q}.
Implicit Types p : lcu_ThreadPool Q.

Lemma set_threads_same p n eff :
  creates eff = 0%nat -> n = threads p -> set_threads (n + Z.of_nat (creates eff)) p = p.
Proof. intros -> ->. destruct p. unfold set_threads. simpl. f_equal. lia. Qed.

(** The flag word is a status and the join bit. *)
Definition flags_ok p : Prop :=
  flags p ∈ [0; 1; 2; 4; 5; 6].

Ltac flag_cases H :=
  unfold flags_ok in H; set_unfold in H; destruct_or! H.

Lemma getstatus_cases p : flags_ok p ->
  getstatus p = STATUS_OPEN \/ getstatus p = STATUS_CLOSING \/ getstatus p = STATUS_CLOSED.
Proof. intros H. unfold getstatus. flag_cases H; rewrite H; vm_compute; auto. Qed.

Lemma setstatus_spec p v : flags_ok p ->
  v = STATUS_CLOSING \/ v = STATUS_CLOSED ->
  flags_ok (setstatus v p) /\ getstatus (setstatus v p) = v.
Proof.
  intros H Hv. unfold setstatus, getstatus, flags_ok, set_flags. simpl.
  flag_cases H; rewrite H; destruct Hv as [-> | ->]; vm_compute; split;
    try done; set_solver.
Qed.

Lemma setjoin_spec p : flags_ok p ->
  let p' := set_flags (lcuL_setflag (flags p) JOIN_PENDING) p in
  flags_ok p' /\ getstatus p' = getstatus p.
Proof.
  intros H. unfold getstatus, flags_ok, set_flags. simpl.
  flag_cases H; rewrite H; vm_compute; split; try done; set_solver.
Qed.

(** Adding a task: at most one thread is created, only below the expected
    size, and the task is queued unless the pool is closed. *)
Lemma addthread_mx_spec err p L l :
  q_repr (queue p) l -> L ∉ l ->
  exists eff, let p1 := set_threads (threads p + Z.of_nat (creates eff)) p in
    (creates eff <= 1)%nat /\ (creates eff = 1%nat -> threads p < size p) /\
    if getstatus p =? STATUS_CLOSED
    then addthread_mx err p L = Some (false, (p1, eff))
    else exists q, q_enqueue (queue p) L = Some q /\ q_repr q (l ++ [L]) /\
      addthread_mx err p L = Some (true, (set_pending (pending p + 1) q p1, eff)).
Proof.
  intros Hq HL. destruct (q_enqueue_repr _ _ _ Hq HL) as (q & He & Hq').
  assert (p = set_threads (threads p + 0) p) as Hp0.
  { destruct p; unfold set_threads; simpl. f_equal; lia. }
  unfold addthread_mx.
  destruct (threads p - running p - idle p <=? pending p);
    [destruct (idle p >? 0);
      [| destruct (threads p <? size p) eqn:Hlt; [destruct (err =? 0) |]] |].
  1: exists [SignalOnwork]. 2: exists [ThreadCreate]. 3: exists [WarnErr err].
  4, 5: exists [].
  all: split; [vm_compute; lia |]; split; [try (intros Hc; discriminate Hc); intros _; lia |].
  2: { change (creates [ThreadCreate]) with 1%nat. cbn [Z.of_nat Pos.of_succ_nat].
       change (getstatus (set_threads (threads p + 1) p)) with (getstatus p).
       destruct (getstatus p =? STATUS_CLOSED); [done |].
       exists q. change (queue (set_threads _ p)) with (queue p). by rewrite He. }
  all: change (creates _) with 0%nat; change (Z.of_nat 0) with 0; rewrite <- Hp0;
    destruct (getstatus p =? STATUS_CLOSED); [done |];
    exists q; by rewrite He.
Qed.

(** The inner loop of a worker that is counted in [threads] needs at most two
    iterations, and never finds the queue empty. *)
Lemma worker_select_spec p l :
  q_repr (queue p) l -> pending p = Z.of_nat (length l) -> 0 < threads p ->
  (exists sz, worker_select 2 p = Some (PickEnd, set_size sz p) /\ sz < threads p /\
     (sz = size p \/ (sz = 0 /\ l = [] /\ getstatus p = STATUS_CLOSING /\ tasks p = 0))) \/
  (exists L l' q, l = L :: l' /\ q_repr q l' /\
     worker_select 2 p = Some (PickRun L, set_pending (pending p - 1) q p)) \/
  (l = [] /\ threads p <= size p /\
   worker_select 2 p = Some (PickWait, set_idle (idle p + 1) p)).
Proof.
  intros Hq Hp Ht. simpl.
  assert (forall sz, threads (set_size sz p) = threads p) as Hts by done.
  destruct (threads p >? size p) eqn:Hgt.
  { left. exists (size p). split; [by destruct p |]. lia. }
  destruct l as [| L l].
  - rewrite Hp. change (ctrue (Z.of_nat (length (@nil lua_State)))) with false. cbv iota.
    destruct ((getstatus p =? STATUS_CLOSING) && (tasks p =? 0)) eqn:Hc.
    + left. exists 0. rewrite (proj2 (Z.gtb_lt _ _)) by lia. split; [done |].
      split; [lia |]. right. repeat split; try done; lia.
    + right. right. split; [done |]. split; [lia | done].
  - right. left. exists L, l.
    destruct (q_dequeue_repr _ _ Hq) as (q & He & Hq'). exists q.
    rewrite (proj2 (ctrue_true (pending p))) by (rewrite Hp; simpl; lia).
    rewrite He. done.
Qed.

Lemma resize_create_spec n err i p :
  exists eff e, resize_create n err i p
    = (e, (set_threads (threads p + Z.of_nat (creates eff)) p, eff)) /\
    (creates eff <= n)%nat.
Proof.
  revert i p. induction n as [| n IH]; intros i p; simpl.
  - exists [], 0. by rewrite set_threads_same.
  - destruct (err i =? 0).
    + destruct (IH (S i) (set_threads (threads p + 1) p)) as (eff & e & -> & Hle).
      exists (ThreadCreate :: eff), e. rewrite creates_create.
      split; [| lia]. unfold set_threads. simpl. do 3 f_equal. lia.
    + exists [], (err i). rewrite set_threads_same by done. split; [done |].
      change (creates []) with 0%nat. lia.
Qed.

Lemma resizetpool_spec err p newsize create :
  exists eff e, lcuTP_resizetpool err p newsize create
    = (e, (set_threads (threads p + Z.of_nat (creates eff)) (set_size newsize p), eff)).
Proof.
  unfold lcuTP_resizetpool.
  destruct (newsize - size p >? 0).
  - edestruct resize_create_spec as (eff & e & -> & _). exists eff, e. done.
  - destruct (hasextraidle_mx (set_size newsize p)).
    + exists [SignalOnwork], 0. by rewrite set_threads_same.
    + exists [], 0. by rewrite set_threads_same.
Qed.

(** The end of a worker only takes it off [threads], may lower the expected
    size to zero when nothing is left to run, and sets the join bit. *)
Lemma worker_end_spec self p : flags_ok p ->
  let p' := (worker_end self p).1 in
  flags_ok p' /\ getstatus p' = getstatus p /\
  threads p' = threads p - 1 /\ idle p' = idle p /\ tasks p' = tasks p /\
  running p' = running p /\ pending p' = pending p /\ queue p' = queue p /\
  (size p' = size p \/ (size p' = 0 /\ tasks p = 0 /\ getstatus p = STATUS_CLOSING)).
Proof.
  intros Hf. unfold worker_end.
  set (p1 := set_threads (threads p - 1) p).
  assert (flags_ok p1) as Hf1 by done.
  assert (exists sz eff,
    (if hasextraidle_mx p1 then (p1, [SignalOnwork])
     else if getstatus p1 =? STATUS_CLOSING then
       if threads p1 =? 0 then (p1, [SignalOnterm]) else checkhalted_mx p1
     else (p1, [])) = (set_size sz p1, eff) /\
    (sz = size p \/ (sz = 0 /\ tasks p = 0 /\ getstatus p = STATUS_CLOSING))) as (sz & eff & -> & Hsz).
  { assert (p1 = set_size (size p) p1) as Hp1 by (by destruct p).
    destruct (hasextraidle_mx p1); [exists (size p); eexists; rewrite <- Hp1; auto |].
    destruct (getstatus p1 =? STATUS_CLOSING) eqn:Hst;
      [| exists (size p); eexists; rewrite <- Hp1; auto].
    destruct (threads p1 =? 0); [exists (size p); eexists; rewrite <- Hp1; auto |].
    unfold checkhalted_mx.
    destruct ((tasks p1 =? 0) && (size p1 >? 0)) eqn:Hc.
    - exists 0. eexists. split; [done |]. right. split; [done |].
      change (tasks p1) with (tasks p) in Hc. change (getstatus p1) with (getstatus p) in Hst. lia.
    - exists (size p); eexists; rewrite <- Hp1; auto. }
  destruct (ctrue (lcuL_maskflag (flags (set_size sz p1)) JOIN_PENDING)); simpl.
  - repeat split; auto.
  - destruct (setjoin_spec p Hf) as [H1 H2]. repeat split; auto.
Qed.
End facts.
