(* ===== verification/ThreadPoolSys.v ===== *)
(** * The concurrent system around a thread pool

    The workers run [threadmain] (src/src/lthpool.c lines 64 to 154); other
    threads add tasks, wake suspended ones, resize the pool, close it and
    collect the states of its tasks.  A step is one critical section of the
    pool's mutex, or one event outside of it (a task's slice ends, a suspended
    task is dropped).  A worker that waits on [onwork] may be woken at any time:
    the model has every behaviour with signals, and also spurious wake-ups. *)
From S2P Require Import Prelude Steps StateQ ThreadPool.

(** Where a worker is in [threadmain]. *)
Inductive wstate :=
  | WEnter                      (* about to lock the mutex, with no task *)
  | WWait                       (* in [uv_cond_wait(&pool->onwork, ...)] *)
  | WRun (L : lua_State)        (* running a task, mutex released *)
  | WLeave (enqueue yielded : bool) (L : lua_State).  (* about to lock it again *)

(** Where a task is. *)
Inductive place :=
  | TQueued
  | TRunning (t : tid)
  | TSuspended
  | TClosing.                   (* its state is being closed *)

(** How far [lcuTP_closetpool] is. *)
Inductive cstate := CNone | CWaiting | CFinished.

#[export] Instance wstate_eq_dec : EqDecision wstate.
Proof. solve_decision. Defined.
#[export] Instance place_eq_dec : EqDecision place.
Proof. solve_decision. Defined.
#[export] Instance cstate_eq_dec : EqDecision cstate.
Proof. solve_decision. Defined.

Definition is_wait (s : wstate) : bool := match s with WWait => true | _ => false end.
Definition is_busy (s : wstate) : bool :=
  match s with WRun _ | WLeave _ _ _ => true | _ => false end.
(** The worker still answers for its task. *)
Definition owns (s : wstate) : option lua_State :=
  match s with
  | WRun L | WLeave true _ L | WLeave false false L => Some L
  | _ => None
  end.
Definition any {A} (_ : A) : bool := true.

Section system.
Context {Q : Type} `{!StateQueue Q}.

Record world := World {
  wpool : lcu_ThreadPool Q;
  workers : gmap tid wstate;
  places : gmap lua_State place;
  closer : cstate;
  destroyed : bool;
}.

(** New workers get unused identities. *)
Fixpoint spawn (n : nat) (ws : gmap tid wstate) : gmap tid wstate :=
  match n with
  | O => ws
  | S n => spawn n (<[fresh (dom ws) := WEnter]> ws)
  end.

Inductive action :=
  | ASelect (t : tid)
  | AWake (t : tid)
  | AFinish (t : tid)
  | AYield (t : tid) (enqueue : bool)
  | ALeave (t : tid)
  | AAdd (L : lua_State) (err : Z)
  | AResume (L : lua_State) (err : Z)
  | ADrop (L : lua_State)
  | ACollect (L : lua_State)
  | AResize (newsize : Z) (create : bool) (err : nat -> Z)
  | AClose
  | ACloseLoop.

(** What a worker does with the mutex held, up to releasing it. *)
Definition run_worker (w : world) (t : tid) (p : lcu_ThreadPool Q) : option world :=
  r ← worker_select 2 p;
  let '(pk, p) := r in
  match pk with
  | PickEnd =>
      Some (World (worker_end t p).1 (delete t (workers w)) (places w)
              (closer w) (destroyed w))
  | PickRun L =>
      Some (World (worker_start p) (<[t := WRun L]> (workers w))
              (<[L := TRunning t]> (places w)) (closer w) (destroyed w))
  | PickWait =>
      Some (World p (<[t := WWait]> (workers w)) (places w) (closer w) (destroyed w))
  end.

(** The pool is freed: nobody may touch it any more. *)
Definition destroy (w : world) : option world :=
  lcuTP_destroytpool (wpool w) ≫= λ _,
  Some (World (wpool w) (workers w) (places w) (closer w) true).

Definition close_states (ls : list lua_State) (m : gmap lua_State place)
    : gmap lua_State place :=
  foldr (fun L m => <[L := TClosing]> m) m ls.

(** One step; [None] is an assertion failure, an access to a freed pool, or a
    worker that finds [pending] positive and the queue empty. *)
Definition exec (w : world) (a : action) : option world :=
  lcu_assert (negb (destroyed w)) ≫= λ _,
  let p := wpool w in
  match a with
  | ASelect t => run_worker w t p
  | AWake t => run_worker w t (worker_wake p)
  | AFinish t =>
      match workers w !! t with
      | Some (WRun L) =>
          Some (World p (<[t := WLeave false false L]> (workers w)) (places w)
                  (closer w) (destroyed w))
      | _ => None
      end
  | AYield t e =>
      match workers w !! t with
      | Some (WRun L) =>
          Some (World p (<[t := WLeave e true L]> (workers w))
                  (if e then places w else <[L := TSuspended]> (places w))
                  (closer w) (destroyed w))
      | _ => None
      end
  | ALeave t =>
      match workers w !! t with
      | Some (WLeave e y L) =>
          p ← worker_leave e y L p;
          let pl := if e then <[L := TQueued]> (places w)
                    else if y then places w else delete L (places w) in
          run_worker (World p (<[t := WEnter]> (workers w)) pl (closer w) (destroyed w)) t p
      | _ => None
      end
  | AAdd L err =>
      r ← lcuTP_addtpooltask err p L;
      Some (World r.1 (spawn (creates r.2) (workers w)) (<[L := TQueued]> (places w))
              (closer w) (destroyed w))
  | AResume L err =>
      r ← lcuTP_resumetask err p L;
      Some (World r.2.1 (spawn (creates r.2.2) (workers w))
              (<[L := if r.1 : bool then TQueued else TClosing]> (places w))
              (closer w) (destroyed w))
  | ADrop L =>
      Some (World p (workers w) (<[L := TClosing]> (places w)) (closer w) (destroyed w))
  | ACollect L =>
      let '(last, p) := collectthreadpool p in
      let w := World p (workers w) (delete L (places w)) (closer w) (destroyed w) in
      if last : bool then destroy w else Some w
  | AResize n create err =>
      let '(_, (p, eff)) := lcuTP_resizetpool err p n create in
      Some (World p (spawn (creates eff) (workers w)) (places w) (closer w) (destroyed w))
  | AClose =>
      Some (World (closetpool_start p) (workers w) (places w) CWaiting (destroyed w))
  | ACloseLoop =>
      match closetpool_loop p with
      | CloseWait p _ =>
          Some (World p (workers w) (places w) (closer w) (destroyed w))
      | CloseDone nt np q p =>
          f ← closetpool_final (S (Z.to_nat np)) nt np q;
          match f with
          | FinalDestroy =>
              destroy (World p (workers w) (places w) CFinished (destroyed w))
          | FinalClose ls =>
              Some (World p (workers w) (close_states ls (places w)) CFinished (destroyed w))
          end
      end
  end.

(** A reference to the pool is usable by its creator until it closes it, and by
    a task while it runs. *)
Definition has_ref (w : world) : Prop :=
  closer w = CNone \/ exists t L, workers w !! t = Some (WRun L).

(** When each step can be taken.  [G] restricts the states where the close
    completes: [fun _ => True] is the code as it is. *)
Definition enabled (G : world -> Prop) (w : world) (a : action) : Prop :=
  match a with
  | ASelect t => workers w !! t = Some WEnter
  | AWake t => workers w !! t = Some WWait
  | AFinish t | AYield t _ => exists L, workers w !! t = Some (WRun L)
  | ALeave t => exists e y L, workers w !! t = Some (WLeave e y L) /\ (e = true -> y = true)
  | AAdd L _ => has_ref w /\ places w !! L = None
  | AResume L _ => places w !! L = Some TSuspended
  | ADrop L => places w !! L = Some TSuspended
  | ACollect L => places w !! L = Some TClosing
  | AResize n _ _ => has_ref w /\ 0 <= n
  | AClose => closer w = CNone
  | ACloseLoop => closer w = CWaiting /\ (threads (wpool w) = 0 -> G w)
  end.

Definition initial : world := World lcuTP_createtpool ∅ ∅ CNone false.

Abbreviation reachable G := (reached initial (enabled G) exec).

(** ** The invariant *)

Definition queued (w : world) (l : list lua_State) : Prop :=
  q_repr (queue (wpool w)) l /\
  pending (wpool w) = Z.of_nat (length l) /\
  (forall L, L ∈ l <-> places w !! L = Some TQueued).

Definition counters_ok (w : world) : Prop :=
  threads (wpool w) = countm any (workers w) /\
  idle (wpool w) = countm is_wait (workers w) /\
  running (wpool w) = countm is_busy (workers w) /\
  tasks (wpool w) = countm any (places w).

(** A worker owns exactly the tasks placed with it. *)
Definition owners (ws : gmap tid wstate) (pl : gmap lua_State place) : Prop :=
  forall t L, (ws !! t ≫= owns) = Some L <-> pl !! L = Some (TRunning t).

Definition owners_ok (w : world) : Prop := owners (workers w) (places w).

Definition status_ok (w : world) : Prop :=
  flags_ok (wpool w) /\
  getstatus (wpool w) = match closer w with
                        | CNone => STATUS_OPEN
                        | CWaiting => STATUS_CLOSING
                        | CFinished => STATUS_CLOSED
                        end.

(** After the close: nothing is queued and nothing runs. *)
Definition closed_ok (w : world) : Prop :=
  closer w = CFinished ->
  (forall L, places w !! L = Some TQueued -> False) /\
  (forall t s, workers w !! t = Some s -> is_busy s = false).

Record inv (w : world) : Prop := Inv {
  inv_queued : exists l, queued w l;
  inv_counters : counters_ok w;
  inv_owners : owners_ok w;
  inv_status : status_ok w;
  inv_closed : closed_ok w;
}.

(** ** Workers and places, one change at a time *)

Implicit Types (ws : gmap tid wstate) (pl : gmap lua_State place).

Lemma owners_worker ws pl t s s' :
  ws !! t = Some s -> owns s' = owns s -> owners ws pl -> owners (<[t := s']> ws) pl.
Proof.
  intros Ht Hs Ho t' L'. rewrite <- (Ho t' L'). destruct (decide (t = t')) as [<- | Hne].
  - by rewrite lookup_insert_eq, Ht; simpl; rewrite Hs.
  - by rewrite lookup_insert_ne.
Qed.

Lemma owners_delete ws pl t s :
  ws !! t = Some s -> owns s = None -> owners ws pl -> owners (delete t ws) pl.
Proof.
  intros Ht Hs Ho t' L'. rewrite <- (Ho t' L'). destruct (decide (t = t')) as [<- | Hne].
  - by rewrite lookup_delete_eq, Ht; simpl; rewrite Hs.
  - by rewrite lookup_delete_ne.
Qed.

Lemma owners_place ws pl L x y :
  pl !! L = x -> (forall t, x <> Some (TRunning t)) -> (forall t, y <> TRunning t) ->
  owners ws pl -> owners ws (<[L := y]> pl).
Proof.
  intros HL Hx Hy Ho t L'. rewrite (Ho t L'). destruct (decide (L = L')) as [<- | Hne].
  - rewrite lookup_insert_eq, HL. naive_solver.
  - by rewrite lookup_insert_ne.
Qed.

Lemma owners_place_delete ws pl L x :
  pl !! L = Some x -> (forall t, x <> TRunning t) ->
  owners ws pl -> owners ws (delete L pl).
Proof.
  intros HL Hx Ho t L'. rewrite (Ho t L'). destruct (decide (L = L')) as [<- | Hne].
  - rewrite lookup_delete_eq, HL. naive_solver.
  - by rewrite lookup_delete_ne.
Qed.

Lemma owners_take ws pl t s s' L x :
  ws !! t = Some s -> owns s = None -> owns s' = Some L ->
  pl !! L = Some x -> (forall t, x <> TRunning t) ->
  owners ws pl -> owners (<[t := s']> ws) (<[L := TRunning t]> pl).
Proof.
  intros Ht Hs Hs' HL Hx Ho t' L'. specialize (Ho t' L') as HO.
  destruct (decide (t = t')) as [<- | Hne]; destruct (decide (L = L')) as [<- | HLne].
  - by rewrite !lookup_insert_eq; simpl; rewrite Hs'.
  - rewrite lookup_insert_eq, lookup_insert_ne by done. rewrite <- HO, Ht. simpl.
    rewrite Hs, Hs'. naive_solver.
  - rewrite lookup_insert_ne, lookup_insert_eq by done. rewrite HO, HL. naive_solver.
  - by rewrite !lookup_insert_ne by done.
Qed.

(** The owner gives the task up: its place becomes [y], or it is gone. *)
Lemma owners_give ws pl t s s' L (y : option place) :
  ws !! t = Some s -> owns s = Some L -> owns s' = None ->
  (forall t, y <> Some (TRunning t)) ->
  owners ws pl -> owners (<[t := s']> ws) (partial_alter (fun _ => y) L pl).
Proof.
  intros Ht Hs Hs' Hy Ho t' L'. specialize (Ho t' L') as HO.
  assert (pl !! L = Some (TRunning t)) as HL by (apply Ho; by rewrite Ht).
  destruct (decide (t = t')) as [<- | Hne]; destruct (decide (L = L')) as [<- | HLne].
  - rewrite lookup_insert_eq, lookup_partial_alter_eq. simpl. rewrite Hs'. naive_solver.
  - rewrite lookup_insert_eq, lookup_partial_alter_ne by done.
    rewrite <- HO, Ht. simpl. rewrite Hs, Hs'. naive_solver.
  - rewrite lookup_insert_ne, lookup_partial_alter_eq by done. rewrite HO, HL. naive_solver.
  - by rewrite lookup_insert_ne, lookup_partial_alter_ne by done.
Qed.

Lemma spawn_old n ws t s : ws !! t = Some s -> spawn n ws !! t = Some s.
Proof.
  revert ws. induction n as [| n IH]; intros ws Ht; simpl; [done |].
  apply IH. rewrite lookup_insert_ne; [done |].
  intros Heq. apply (is_fresh (dom ws)). rewrite Heq. by apply elem_of_dom_2 in Ht.
Qed.

Lemma spawn_new n ws t s : spawn n ws !! t = Some s -> ws !! t = Some s \/ s = WEnter.
Proof.
  revert ws. induction n as [| n IH]; intros ws; simpl; [by left |].
  intros [Ht | ->]%IH; [| by right].
  apply lookup_insert_Some in Ht as [[_ <-] | [_ Ht]]; auto.
Qed.

Lemma spawn_count n ws f :
  countm f (spawn n ws) = countm f ws + Z.of_nat n * Z.b2z (f WEnter).
Proof.
  revert ws. induction n as [| n IH]; intros ws; cbn [spawn]; [lia |].
  rewrite IH, countm_insert_None; [lia |]. apply not_elem_of_dom, is_fresh.
Qed.

Lemma spawn_owners n ws pl : owners ws pl -> owners (spawn n ws) pl.
Proof.
  intros Ho t L. rewrite <- (Ho t L). destruct (spawn n ws !! t) as [s |] eqn:Hs; simpl.
  - destruct (spawn_new _ _ _ _ Hs) as [-> | ->]; [done |].
    destruct (ws !! t) as [s |] eqn:Ht; simpl; [| done].
    apply (spawn_old n) in Ht. by simplify_eq/=.
  - destruct (ws !! t) as [s |] eqn:Ht; simpl; [| done].
    apply (spawn_old n) in Ht. congruence.
Qed.

(** ** Every step preserves the invariant *)

(** The set of queued tasks after a task enters or leaves the queue. *)
Lemma queued_enter (pl : gmap lua_State place) (l : list lua_State) L :
  (forall L', L' ∈ l <-> pl !! L' = Some TQueued) ->
  forall L', L' ∈ l ++ [L] <-> <[L := TQueued]> pl !! L' = Some TQueued.
Proof.
  intros Hl L'. rewrite elem_of_app, Hl, list_elem_of_singleton.
  destruct (decide (L = L')) as [<- | Hne].
  - rewrite lookup_insert_eq. naive_solver.
  - rewrite lookup_insert_ne by done. naive_solver.
Qed.

Lemma queued_other (pl : gmap lua_State place) (l : list lua_State) L (y : option place) :
  (forall L', L' ∈ l <-> pl !! L' = Some TQueued) ->
  pl !! L <> Some TQueued -> y <> Some TQueued ->
  forall L', L' ∈ l <-> partial_alter (fun _ => y) L pl !! L' = Some TQueued.
Proof.
  intros Hl HL Hy L'. rewrite Hl. destruct (decide (L = L')) as [<- | Hne].
  - rewrite lookup_partial_alter_eq. naive_solver.
  - by rewrite lookup_partial_alter_ne.
Qed.

Lemma queued_leave (pl : gmap lua_State place) (l : list lua_State) L y :
  NoDup (L :: l) -> y <> TQueued ->
  (forall L', L' ∈ L :: l <-> pl !! L' = Some TQueued) ->
  forall L', L' ∈ l <-> <[L := y]> pl !! L' = Some TQueued.
Proof.
  intros [Hni _]%NoDup_cons Hy Hl L'. destruct (decide (L = L')) as [<- | Hne].
  - rewrite lookup_insert_eq. naive_solver.
  - rewrite lookup_insert_ne, <- Hl by done. set_solver.
Qed.

Ltac counts H := rewrite !(countm_insert_Some _ _ _ _ _ H); cbn [is_wait is_busy any Z.b2z].

(** A worker that holds the mutex with no task. *)
Lemma run_worker_inv w t p :
  inv (World p (<[t := WEnter]> (workers w)) (places w) (closer w) (destroyed w)) ->
  exists w', run_worker w t p = Some w' /\ inv w' /\ destroyed w' = destroyed w /\
    closer w' = closer w.
Proof.
  intros [[l (Hq & Hp & Hl)] (Ht & Hi & Hr & Hk) Ho [Hf Hst] Hc].
  unfold owners_ok in Ho. cbn [wpool workers places closer destroyed] in *.
  set (ws := <[t := WEnter]> (workers w)) in *.
  assert (ws !! t = Some WEnter) as Hwt by apply lookup_insert_eq.
  assert (0 < threads p) as Htp by (rewrite Ht; by apply (countm_pos _ _ t WEnter)).
  unfold run_worker.
  destruct (worker_select_spec p l Hq Hp Htp)
    as [(sz & -> & Hsz & Hwhy) | [(L & l' & q & -> & Hq' & ->) | (-> & Hle & ->)]]; simpl.
  - destruct (worker_end_spec t (set_size sz p) Hf)
      as (Hf' & Hst' & Ht' & Hi' & Hk' & Hr' & Hp' & Hq' & Hs').
    eexists. split; [done |].
    assert (delete t (workers w) = delete t ws) as Hdel by (unfold ws; by rewrite delete_insert_eq).
    split; [constructor |].
    + exists l. unfold queued. cbn [wpool places]. by rewrite Hq', Hp'.
    + unfold counters_ok. cbn [wpool workers places].
      rewrite Hdel, Ht', Hi', Hr', Hk', !(countm_delete _ _ _ _ Hwt).
      cbn [is_wait is_busy any Z.b2z]. simpl. lia.
    + unfold owners_ok. cbn [workers places]. rewrite Hdel.
      by apply owners_delete with WEnter.
    + split; [done |]. cbn [wpool closer]. by rewrite Hst'.
    + intros Hcl. cbn [closer] in Hcl. destruct (Hc Hcl) as [Hc1 Hc2].
      split; [done |]. intros t' s'. cbn [workers]. rewrite Hdel.
      intros [_ ?]%lookup_delete_Some. by apply (Hc2 t').
    + done.
  - pose proof (q_repr_NoDup _ _ Hq) as Hnd.
    assert (places w !! L = Some TQueued) as HL by (apply Hl; set_solver).
    assert (<[t := WRun L]> (workers w) = <[t := WRun L]> ws) as Hins
      by (unfold ws; by rewrite insert_insert_eq).
    eexists. split; [done |]. split; [constructor |].
    + exists l'. split; [done |]. split; [cbn; simpl in Hp; lia |].
      by apply (queued_leave _ _ L).
    + unfold counters_ok. cbn [wpool workers places]. rewrite Hins.
      counts Hwt. rewrite (countm_insert_Some _ _ _ _ _ HL). simpl. lia.
    + unfold owners_ok. cbn [workers places]. rewrite Hins.
      by apply owners_take with WEnter TQueued.
    + done.
    + intros Hcl. cbn [closer] in Hcl. destruct (Hc Hcl) as [Hc1 _]. by destruct (Hc1 L).
    + done.
  - assert (<[t := WWait]> (workers w) = <[t := WWait]> ws) as Hins
      by (unfold ws; by rewrite insert_insert_eq).
    eexists. split; [done |]. split; [constructor |].
    + exists []. done.
    + unfold counters_ok. cbn [wpool workers places]. rewrite Hins. counts Hwt. simpl. lia.
    + unfold owners_ok. cbn [workers places]. rewrite Hins.
      by apply owners_worker with WEnter.
    + done.
    + intros Hcl. cbn [closer] in Hcl. destruct (Hc Hcl) as [Hc1 Hc2].
      split; [done |]. intros t' s'. cbn [workers]. rewrite Hins.
      intros [[_ <-] | [_ ?]]%lookup_insert_Some; [done |]. by apply (Hc2 t').
    + done.
Qed.

(** What a step outside of the closing of the pool does. *)
Definition quiet (w : world) (r : option world) : Prop :=
  exists w', r = Some w' /\ inv w' /\ destroyed w' = destroyed w /\ closer w' = closer w /\
    (workers w = ∅ -> size (wpool w) = 0 -> workers w' = ∅ /\ size (wpool w') = 0).

Lemma quiet_worker w w0 r t s :
  workers w !! t = Some s -> closer w0 = closer w -> destroyed w0 = destroyed w ->
  (exists w', r = Some w' /\ inv w' /\ destroyed w' = destroyed w0 /\ closer w' = closer w0) ->
  quiet w r.
Proof.
  intros Ht Hc Hd (w' & -> & Hi & Hd' & Hc'). exists w'. split; [done |]. split; [done |].
  split; [congruence |]. split; [congruence |]. intros He. by rewrite He in Ht.
Qed.

Lemma step_select w t : inv w -> workers w !! t = Some WEnter ->
  quiet w (run_worker w t (wpool w)).
Proof.
  intros Hi Ht. eapply (quiet_worker w w); [done.. |]. apply run_worker_inv.
  rewrite insert_id by done. by destruct w.
Qed.

Lemma step_wake w t : inv w -> workers w !! t = Some WWait ->
  quiet w (run_worker w t (worker_wake (wpool w))).
Proof.
  intros [Hq (Ht & Hi & Hr & Hk) Ho Hs Hc] Hwt. eapply (quiet_worker w w); [done.. |].
  apply run_worker_inv. constructor.
  - done.
  - unfold counters_ok. cbn [wpool workers places]. counts Hwt. simpl. lia.
  - by apply owners_worker with WWait.
  - done.
  - intros Hcl. cbn in Hcl. destruct (Hc Hcl) as [H1 H2]. split; [done |]. cbn.
    intros t' s'. intros [[_ <-] | [_ ?]]%lookup_insert_Some; [done |]. by apply (H2 t').
Qed.

(** A worker with a task excludes that the close has finished. *)
Lemma busy_not_closed w t s :
  inv w -> workers w !! t = Some s -> is_busy s = true -> closer w <> CFinished.
Proof. intros Hi Ht Hb Hc. destruct (inv_closed _ Hi Hc) as [_ H2]. apply H2 in Ht. congruence. Qed.

Lemma step_slice w t L s' (y : option place) :
  inv w -> workers w !! t = Some (WRun L) -> is_busy s' = true ->
  (owns s' = Some L /\ y = Some (TRunning t)) \/ (owns s' = None /\ y = Some TSuspended) ->
  quiet w (Some (World (wpool w) (<[t := s']> (workers w))
                   (partial_alter (fun _ => y) L (places w)) (closer w) (destroyed w))).
Proof.
  intros Hi Hwt Hb Hy. pose proof (busy_not_closed _ _ _ Hi Hwt eq_refl) as Hnc.
  destruct Hi as [[l (Hq & Hp & Hl)] (Ht & Hi & Hr & Hk) Ho Hs _].
  assert (places w !! L = Some (TRunning t)) as HL by (apply (Ho t L); by rewrite Hwt).
  eapply (quiet_worker w w); [done.. |]. eexists. split; [done |]. split; [constructor |].
  - exists l. split; [done |]. split; [done |]. cbn. apply queued_other; [done | by rewrite HL |].
    by destruct Hy as [[_ ->] | [_ ->]].
  - unfold counters_ok. cbn [wpool workers places]. counts Hwt. rewrite Hb.
    destruct s'; [discriminate Hb.. | |];
    destruct Hy as [[_ ->] | [_ ->]]; unfold counters_ok;
      change (partial_alter (fun _ => Some ?z) L (places w)) with (<[L := z]> (places w));
      counts HL; simpl; lia.
  - unfold owners_ok. cbn. destruct Hy as [[Hw ->] | [Hw ->]].
    + rewrite <- HL, partial_alter_self. by apply owners_worker with (WRun L).
    + by apply owners_give with (WRun L).
  - done.
  - done.
  - done.
Qed.

(** The places after a worker gave its task up. *)
Definition leave_places (e y : bool) (L : lua_State) (pl : gmap lua_State place)
    : gmap lua_State place :=
  if e then <[L := TQueued]> pl else if y then pl else delete L pl.

Lemma leave_inv w t e y L :
  inv w -> workers w !! t = Some (WLeave e y L) -> (e = true -> y = true) ->
  exists p, worker_leave e y L (wpool w) = Some p /\
    inv (World p (<[t := WEnter]> (workers w)) (leave_places e y L (places w))
           (closer w) (destroyed w)).
Proof.
  intros Hi Hwt Hey. pose proof (busy_not_closed _ _ _ Hi Hwt eq_refl) as Hnc.
  destruct Hi as [[l (Hq & Hp & Hl)] (Ht & Hi & Hr & Hk) Ho Hs _].
  unfold worker_leave, leave_places. set (p1 := set_running (running (wpool w) - 1) (wpool w)).
  destruct e; [| destruct y]; cbn [negb];
    try (assert (places w !! L = Some (TRunning t)) as HL by (apply (Ho t L); by rewrite Hwt)).
  - destruct (q_enqueue_repr (queue p1) l L) as (q & -> & Hq');
      [done | rewrite Hl, HL; naive_solver |].
    eexists. split; [done |]. constructor; [| | | done | done].
    + exists (l ++ [L]). split; [done |]. split; [| by apply queued_enter].
      cbn. rewrite length_app. simpl. lia.
    + unfold counters_ok. cbn [wpool workers places]. counts Hwt. counts HL. simpl. lia.
    + by apply owners_give with (WLeave true y L).
  - eexists. split; [done |]. constructor; [| | | done | done].
    + by exists l.
    + unfold counters_ok. cbn [wpool workers places]. counts Hwt. simpl. lia.
    + by apply owners_worker with (WLeave false true L).
  - eexists. split; [done |]. constructor; [| | | done | done].
    + exists l. split; [done |]. split; [done |]. cbn. unfold delete, map_delete.
      apply queued_other; [done | by rewrite HL | done].
    + unfold counters_ok. cbn [wpool workers places]. counts Hwt.
      rewrite (countm_delete _ _ _ _ HL). simpl. lia.
    + by apply owners_give with (WLeave false false L).
Qed.

Lemma step_leave w t e y L :
  inv w -> destroyed w = false -> workers w !! t = Some (WLeave e y L) ->
  (e = true -> y = true) -> quiet w (exec w (ALeave t)).
Proof.
  intros Hi Hd Hwt Hey. unfold exec. rewrite Hd. cbn [negb lcu_assert mbind option_bind].
  rewrite Hwt. destruct (leave_inv _ _ _ _ _ Hi Hwt Hey) as (p & -> & Hi').
  rewrite Hd in Hi'. eapply (quiet_worker w); [done | | |]; last first.
  - apply run_worker_inv. cbn [workers places closer destroyed mbind option_bind].
    rewrite insert_insert_eq. exact Hi'.
  - done.
  - done.
Qed.

(** A place that is neither queued nor running changes. *)
Lemma place_inv w L x y :
  inv w -> places w !! L = Some x -> x <> TQueued -> (forall t, x <> TRunning t) ->
  y <> TQueued -> (forall t, y <> TRunning t) ->
  inv (World (wpool w) (workers w) (<[L := y]> (places w)) (closer w) (destroyed w)).
Proof.
  intros [[l (Hq & Hp & Hl)] (Ht & Hi & Hr & Hk) Ho Hs Hc] HL Hx1 Hx2 Hy1 Hy2.
  constructor; [| | | done |].
  - exists l. split; [done |]. split; [done |]. cbn.
    apply queued_other; [done | rewrite HL |]; naive_solver.
  - unfold counters_ok. cbn [wpool workers places]. counts HL. simpl. lia.
  - eapply owners_place; [done | naive_solver | done | done].
  - intros Hcl. destruct (Hc Hcl) as [H1 H2]. split; [| done]. cbn. intros L'.
    intros [[_ ?] | [_ ?]]%lookup_insert_Some; [done | by apply (H1 L')].
Qed.

(** The pool after a task was queued, with maybe one more worker. *)
Lemma enqueue_inv w L err n :
  inv w -> closer w <> CFinished \/ getstatus (wpool w) <> STATUS_CLOSED ->
  n = Z.b2z (bool_decide (places w !! L = None)) ->
  (forall s, places w !! L = Some s -> s = TSuspended) ->
  exists p eff, addthread_mx err (wpool w) L = Some (true, (p, eff)) /\
    inv (World (set_tasks (tasks p + n) p) (spawn (creates eff) (workers w))
           (<[L := TQueued]> (places w)) (closer w) (destroyed w)).
Proof.
  intros Hi0 Hnc Hn HL. destruct Hi0 as [[l (Hq & Hp & Hl)] (Ht & Hi & Hr & Hk) Ho [Hf Hst] _].
  assert (closer w <> CFinished /\ getstatus (wpool w) <> STATUS_CLOSED) as [Hnc1 Hnc2].
  { destruct (closer w), Hnc; split; try congruence; by rewrite Hst. }
  destruct (addthread_mx_spec err (wpool w) L l) as (eff & _ & _ & Hadd);
    [done | rewrite Hl; naive_solver |].
  rewrite (proj2 (Z.eqb_neq _ _) Hnc2) in Hadd. destruct Hadd as (q & _ & Hq' & ->).
  eexists _, eff. split; [done |]. constructor; [| | | done | done].
  - exists (l ++ [L]). split; [done |]. split; [| by apply queued_enter].
    cbn. rewrite length_app. simpl. lia.
  - unfold counters_ok. cbn [wpool workers places set_tasks threads idle tasks running set_pending set_threads].
    rewrite !spawn_count. cbn [is_wait is_busy any Z.b2z].
    destruct (places w !! L) as [x |] eqn:Hx.
    + rewrite (countm_insert_Some _ _ _ _ _ Hx). simpl. simpl in Hn. lia.
    + rewrite (countm_insert_None _ _ _ _ Hx). simpl. simpl in Hn. lia.
  - unfold owners_ok. cbn. apply spawn_owners.
    eapply owners_place; [done | | done | done]. intros t Heq.
    by apply HL in Heq.
Qed.

Lemma addthread_quiet err p L b p' eff :
  addthread_mx err p L = Some (b, (p', eff)) ->
  size p' = size p /\ (threads p >= size p -> creates eff = 0%nat).
Proof.
  unfold addthread_mx.
  destruct (threads p - running p - idle p <=? pending p);
    [destruct (idle p >? 0);
      [| destruct (threads p <? size p) eqn:Hlt; [destruct (err =? 0) |]] |];
    match goal with |- context [getstatus ?p =? _] => destruct (getstatus p =? STATUS_CLOSED) end;
    intros Ha; simplify_option_eq; split; try done; lia.
Qed.

Lemma threads_nil w : inv w -> workers w = ∅ -> threads (wpool w) = 0.
Proof. intros [_ [-> _] _ _ _] ->. apply countm_empty. Qed.

Lemma has_ref_open w : inv w -> has_ref w -> closer w <> CFinished.
Proof.
  intros Hi [-> | (t & L & Ht)]; [done |]. by apply (busy_not_closed _ _ _ Hi Ht).
Qed.

Lemma step_add w L err :
  inv w -> destroyed w = false -> has_ref w -> places w !! L = None ->
  quiet w (exec w (AAdd L err)).
Proof.
  intros Hi Hd Hr HL. pose proof (has_ref_open _ Hi Hr) as Hnc.
  destruct (enqueue_inv w L err 1) as (p & eff & Ha & Hi'); [done | by left | | |].
  { by rewrite HL. }
  { congruence. }
  destruct (addthread_quiet _ _ _ _ _ _ Ha) as [Hs Hcr].
  unfold exec. rewrite Hd. cbn [negb lcu_assert mbind option_bind].
  unfold lcuTP_addtpooltask. rewrite Ha. cbn. rewrite Hd in Hi'.
  eexists. split; [done |]. split; [done |]. split; [done |]. split; [done |].
  cbn. intros Hw Hz. rewrite Hcr, Hs; [by rewrite Hw |].
  rewrite (threads_nil _ Hi Hw). lia.
Qed.

Lemma step_resume w L err :
  inv w -> destroyed w = false -> places w !! L = Some TSuspended ->
  quiet w (exec w (AResume L err)).
Proof.
  intros Hi Hd HL. unfold exec. rewrite Hd. cbn [negb lcu_assert mbind option_bind].
  unfold lcuTP_resumetask.
  destruct (decide (getstatus (wpool w) = STATUS_CLOSED)) as [Hcl | Hcl].
  - pose proof (place_inv w L TSuspended TClosing Hi HL) as Hi2. rewrite Hd in Hi2.
    destruct Hi as [[l (Hq & _ & Hl)] Hcn Ho Hs Hc].
    destruct (addthread_mx_spec err (wpool w) L l) as (eff & _ & _ & Ha);
      [done | rewrite Hl, HL; naive_solver |].
    rewrite Hcl, Z.eqb_refl in Ha. destruct (addthread_quiet _ _ _ _ _ _ Ha) as [Hsz Hcr].
    rewrite Ha. cbn. destruct Hi2 as [Hiq (Hit & Hii & Hir & Hik) Hio His Hic]; [done.. |].
    eexists. split; [done |]. split; [constructor | split; [done | split; [done |]]].
    + done.
    + unfold counters_ok. cbn in Hit, Hii, Hir, Hik |- *. rewrite !spawn_count.
      cbn [is_wait is_busy any Z.b2z]. lia.
    + unfold owners_ok. cbn. by apply spawn_owners.
    + done.
    + intros Hfin. destruct (Hic Hfin) as [H1 H2]. split; [done |]. cbn.
      intros t s [Hold | ->]%spawn_new; [by apply (H2 t) | done].
    + cbn. intros Hw Hz. rewrite Hcr; [by rewrite Hw |].
      destruct Hcn as [-> _]. rewrite Hw, countm_empty. lia.
  - destruct (enqueue_inv w L err 0) as (p & eff & Ha & Hi'); [done | by right | | |].
    { by rewrite HL. }
    { congruence. }
    destruct (addthread_quiet _ _ _ _ _ _ Ha) as [Hs Hcr].
    rewrite Ha. cbn. rewrite Hd in Hi'.
    assert (set_tasks (tasks p + 0) p = p) as Hp.
    { destruct p. unfold set_tasks. simpl. f_equal. lia. }
    rewrite Hp in Hi'.
    eexists. split; [done |]. split; [done |]. split; [done |]. split; [done |].
    cbn. intros Hw Hz. rewrite Hcr, Hs; [by rewrite Hw |].
    rewrite (threads_nil _ Hi Hw). lia.
Qed.

Lemma step_drop w L :
  inv w -> destroyed w = false -> places w !! L = Some TSuspended ->
  quiet w (exec w (ADrop L)).
Proof.
  intros Hi Hd HL. unfold exec. rewrite Hd. cbn [negb lcu_assert mbind option_bind].
  pose proof (place_inv w L TSuspended TClosing Hi HL) as Hi2. rewrite Hd in Hi2.
  eexists. split; [done |]. split; [by apply Hi2 | done].
Qed.

Lemma step_resize w n create err :
  inv w -> destroyed w = false -> has_ref w ->
  exists w', exec w (AResize n create err) = Some w' /\ inv w' /\
    destroyed w' = false /\ closer w' = closer w.
Proof.
  intros Hi Hd Hr. pose proof (has_ref_open _ Hi Hr) as Hnc.
  destruct Hi as [[l (Hq & Hp & Hl)] (Ht & Hi & Hru & Hk) Ho Hs Hc].
  unfold exec. rewrite Hd. cbn [negb lcu_assert mbind option_bind].
  destruct (resizetpool_spec err (wpool w) n create) as (eff & e & ->).
  eexists. split; [done |]. split; [constructor; [| | | done | done] | done].
  - by exists l.
  - unfold counters_ok. cbn. rewrite !spawn_count. cbn [is_wait is_busy any Z.b2z]. lia.
  - by apply spawn_owners.
Qed.

(** ** Closing *)

Lemma inv_destroyed w b :
  inv w -> inv (World (wpool w) (workers w) (places w) (closer w) b).
Proof. by intros []. Qed.

Lemma destroy_some w w' : destroy w = Some w' ->
  w' = World (wpool w) (workers w) (places w) (closer w) true.
Proof. unfold destroy. destruct (lcuTP_destroytpool (wpool w)); naive_solver. Qed.

Lemma destroy_ok w :
  inv w -> closer w = CFinished -> workers w = ∅ -> places w = ∅ ->
  destroy w = Some (World (wpool w) (workers w) (places w) (closer w) true).
Proof.
  intros [[l (Hq & Hp & Hl)] (Ht & Hi & Hr & Hk) _ [_ Hst] _] Hc Hw Hpl.
  rewrite Hw, countm_empty in Ht, Hi, Hr. rewrite Hpl, countm_empty in Hk.
  rewrite Hc in Hst.
  assert (l = []) as ->.
  { destruct l as [| L l]; [done |]. assert (L ∈ L :: l) as HL by set_solver.
    apply Hl in HL. by rewrite Hpl in HL. }
  unfold destroy, lcuTP_destroytpool.
  rewrite Hst, Ht, Hi, Hr, Hk, Hp, (q_empty_repr _ _ Hq). done.
Qed.

Lemma step_collect w L :
  inv w -> destroyed w = false -> places w !! L = Some TClosing ->
  exists w1 b, inv w1 /\ exec w (ACollect L) = (if b : bool then destroy w1 else Some w1) /\
    workers w1 = workers w /\ closer w1 = closer w /\ destroyed w1 = false /\
    size (wpool w1) = size (wpool w) /\
    (b = true -> closer w1 = CFinished /\ places w1 = ∅).
Proof.
  intros [[l (Hq & Hp & Hl)] (Ht & Hi & Hr & Hk) Ho [Hf Hst] Hc] Hd HL.
  unfold exec. rewrite Hd. cbn [negb lcu_assert mbind option_bind collectthreadpool].
  set (w1 := World _ _ (delete L _) _ _).
  assert (tasks (wpool w1) = countm any (places w1)) as Hk1.
  { cbn. rewrite (countm_delete _ _ _ _ HL). simpl. lia. }
  exists w1. eexists. split; [| split; [done |]]; [constructor | repeat (split; [done |])].
  - exists l. split; [done |]. split; [done |]. cbn. unfold delete, map_delete.
    apply queued_other; [done | by rewrite HL | done].
  - done.
  - by apply owners_place_delete with TClosing.
  - done.
  - intros Hcl. destruct (Hc Hcl) as [H1 H2]. split; [| done]. cbn.
    intros L' [_ ?]%lookup_delete_Some. by apply (H1 L').
  - intros [Hs Hz]%andb_true_iff. split.
    + cbn. apply Z.eqb_eq in Hs. rewrite Hst in Hs. by destruct (closer w).
    + change (tasks (wpool w1) =? 0 = true) in Hz. rewrite Hk1 in Hz.
      apply Z.eqb_eq in Hz. apply map_empty. intros L'.
      destruct (places w1 !! L') as [x |] eqn:Hx; [| done].
      by apply (proj1 (countm_zero _ _) Hz) in Hx.
Qed.

Lemma dequeue_all_ok (q : Q) l : q_repr q l -> dequeue_all (S (length l)) q = Some l.
Proof.
  revert q. induction l as [| L l IH]; intros q Hq.
  - cbn. by destruct (q_dequeue_repr _ _ Hq) as (q' & -> & _).
  - destruct (q_dequeue_repr _ _ Hq) as (q' & Hd & Hq').
    change (dequeue_all (S (length (L :: l))) q) with
      (match q_dequeue q with
       | (None, _) => Some []
       | (Some L, q) => ls ← dequeue_all (S (length l)) q; Some (L :: ls)
       end).
    by rewrite Hd, (IH _ Hq').
Qed.

Lemma close_states_lookup ls pl L :
  close_states ls pl !! L = if decide (L ∈ ls) then Some TClosing else pl !! L.
Proof.
  induction ls as [| L' ls IH]; cbn [close_states foldr].
  - by rewrite decide_False by set_solver.
  - destruct (decide (L' = L)) as [<- | Hne].
    + rewrite lookup_insert_eq, decide_True by set_solver. done.
    + rewrite lookup_insert_ne by done. fold (close_states ls pl). rewrite IH.
      destruct (decide (L ∈ ls)); [rewrite decide_True | rewrite decide_False]; set_solver.
Qed.

Lemma close_states_count ls pl :
  (forall L, L ∈ ls -> is_Some (pl !! L)) -> countm any (close_states ls pl) = countm any pl.
Proof.
  induction ls as [| L ls IH]; intros Hls; cbn [close_states foldr]; [done |].
  fold (close_states ls pl).
  assert (exists x, close_states ls pl !! L = Some x) as [x Hx].
  { rewrite close_states_lookup. destruct (decide (L ∈ ls)); [by eexists |].
    apply Hls. set_solver. }
  rewrite (countm_insert_Some _ _ _ _ _ Hx), IH by (intros; apply Hls; set_solver).
  cbn. lia.
Qed.

Lemma closetpool_wait_inv w p eff :
  inv w -> closer w = CWaiting -> closetpool_loop (wpool w) = CloseWait p eff ->
  inv (World p (workers w) (places w) (closer w) (destroyed w)).
Proof.
  intros [Hq Hcn Ho [Hf Hst] Hc] Hcl. unfold closetpool_loop, checkhalted_mx.
  destruct (threads (wpool w) >? 0); [| done].
  destruct ((tasks (wpool w) =? 0) && (size (wpool w) >? 0));
    intros Heq; injection Heq as <- <-; by constructor.
Qed.

Lemma threads_zero w : inv w -> threads (wpool w) <= 0 -> workers w = ∅.
Proof.
  intros Hi Hz. destruct Hi as [_ (Ht & _) _ _ _].
  pose proof (countm_nonneg (@any wstate) (workers w)). apply map_empty. intros t.
  destruct (workers w !! t) as [s |] eqn:Hs; [| done].
  assert (countm any (workers w) = 0) as Hz' by lia.
  by apply (proj1 (countm_zero _ _) Hz') in Hs.
Qed.

Lemma step_closed w nt np q p :
  inv w -> closer w = CWaiting -> closetpool_loop (wpool w) = CloseDone nt np q p ->
  workers w = ∅ /\ size p = size (wpool w) /\
  exists f, closetpool_final (S (Z.to_nat np)) nt np q = Some f /\
    match f with
    | FinalDestroy => places w = ∅ /\ forall b, inv (World p (workers w) (places w) CFinished b)
    | FinalClose ls =>
        forall b, inv (World p (workers w) (close_states ls (places w)) CFinished b)
    end.
Proof.
  intros Hi Hcl. unfold closetpool_loop.
  destruct (threads (wpool w) >? 0) eqn:Hth.
  { by destruct (checkhalted_mx (wpool w)). }
  intros Heq. injection Heq as <- <- <- <-.
  assert (workers w = ∅) as Hw by (apply threads_zero; [done | lia]).
  split; [done |]. split; [done |].
  destruct Hi as [[l (Hq & Hp & Hl)] (Ht & Hi & Hr & Hk) Ho [Hf Hst] Hc].
  assert (forall pl b, countm any pl = tasks (wpool w) -> owners (workers w) pl ->
    (forall L, pl !! L = Some TQueued -> False) ->
    inv (World (setstatus STATUS_CLOSED (set_pending 0 q_init (wpool w)))
           (workers w) pl CFinished b)) as Hinv.
  { intros pl b Hk' Ho' Hnq. constructor; [| done | done | |].
    - exists []. split; [apply q_init_repr |]. split; [done |].
      intros L. cbn. split; [set_solver | by intros ?%Hnq].
    - by apply (setstatus_spec (set_pending 0 q_init (wpool w))); [| right].
    - intros _. cbn. split; [done |]. rewrite Hw. done. }
  unfold closetpool_final. destruct (tasks (wpool w) =? 0) eqn:Hz.
  - exists FinalDestroy. split; [done |].
    assert (places w = ∅) as He.
    { apply map_empty. intros L. destruct (places w !! L) as [x |] eqn:Hx; [| done].
      assert (countm any (places w) = 0) as Hz' by lia.
      by apply (proj1 (countm_zero _ _) Hz') in Hx. }
    split; [done |]. intros b. apply Hinv; [done | done |]. by rewrite He.
  - exists (FinalClose l). split.
    { destruct (pending (wpool w) >? 0) eqn:Hpp.
      - rewrite Hp, Nat2Z.id, (dequeue_all_ok _ _ Hq). done.
      - destruct l; [done | simpl in Hp; lia]. }
    intros b. apply Hinv.
    + rewrite close_states_count; [done |]. intros L HL%Hl. by eexists.
    + intros t L. rewrite Hw. cbn. rewrite close_states_lookup.
      split; [done |]. destruct (decide (L ∈ l)); [done |].
      intros HL%Ho. by rewrite Hw in HL.
    + intros L. rewrite close_states_lookup. destruct (decide (L ∈ l)) as [? | HL]; [done |].
      intros ?%Hl. done.
Qed.

(** ** The two invariants *)

(** As long as the close completes at size zero, the pool has no worker after
    it, and it is destroyed only once its last task is gone. *)
Definition tame (w : world) : Prop :=
  (closer w = CFinished -> workers w = ∅ /\ size (wpool w) = 0) /\
  (destroyed w = true -> closer w = CFinished /\ places w = ∅).

Definition quiescent (w : world) : Prop := size (wpool w) = 0.

Lemma initial_pool_inv : inv initial.
Proof.
  constructor.
  - exists []. split; [apply q_init_repr |]. split; [done |]. set_solver.
  - repeat split.
  - intros t L. done.
  - split; [| done]. unfold flags_ok. vm_compute. set_solver.
  - done.
Qed.

(** Every enabled step does one of three things: a quiet step, a step before
    the close has finished, or a step that may be the last one of the pool. *)
Definition last_step (G : world -> Prop) (w : world) (r : option world) : Prop :=
  exists w1 b, r = (if b : bool then destroy w1 else Some w1) /\
    inv w1 /\ destroyed w1 = false /\
    (workers w = ∅ -> size (wpool w) = 0 -> workers w1 = ∅ /\ size (wpool w1) = 0) /\
    (b = true -> closer w1 = CFinished /\ places w1 = ∅) /\
    (closer w1 = CFinished -> closer w = CFinished \/ (workers w = ∅ /\ G w)).

Definition open_step (r : option world) : Prop :=
  exists w', r = Some w' /\ inv w' /\ destroyed w' = false /\ closer w' <> CFinished.

Lemma step_close w : inv w -> destroyed w = false -> closer w = CNone ->
  open_step (exec w AClose).
Proof.
  intros [Hq Hcn Ho [Hf Hst] Hc] Hd Hcl.
  unfold exec. rewrite Hd. cbn [negb lcu_assert mbind option_bind].
  eexists. split; [done |]. split; [| done]. constructor; try done.
  by apply setstatus_spec; [| left].
Qed.

Lemma step_closeloop G w : inv w -> destroyed w = false -> closer w = CWaiting ->
  (threads (wpool w) = 0 -> G w) ->
  open_step (exec w ACloseLoop) \/ last_step G w (exec w ACloseLoop).
Proof.
  intros Hi Hd Hcl HG. unfold exec. rewrite Hd. cbn [negb lcu_assert mbind option_bind].
  destruct (closetpool_loop (wpool w)) as [p eff | nt np q p] eqn:Hloop.
  - left. eexists. split; [done |].
    pose proof (closetpool_wait_inv _ _ _ Hi Hcl Hloop) as Hi'. rewrite Hd in Hi'.
    split; [done |]. split; [done |]. cbn. congruence.
  - right. destruct (step_closed _ _ _ _ _ Hi Hcl Hloop) as (Hw & Hs & f & -> & Hf).
    pose proof (threads_nil _ Hi Hw) as Hz.
    cbn [mbind option_bind]. destruct f as [| ls].
    + destruct Hf as [Hpl Hf]. exists (World p (workers w) (places w) CFinished false), true.
      split; [done |]. split; [done |]. cbn. rewrite Hs. naive_solver.
    + exists (World p (workers w) (close_states ls (places w)) CFinished false), false.
      split; [done |]. split; [done |]. cbn. rewrite Hs. naive_solver.
Qed.

Lemma step_cases G w a : inv w -> destroyed w = false -> enabled G w a ->
  quiet w (exec w a) \/ open_step (exec w a) \/ last_step G w (exec w a).
Proof.
  intros Hi Hd He. destruct a as [t | t | t | t e | t | L err | L err | L | L | n c err | |];
    cbn [enabled] in He.
  - left. unfold exec. rewrite Hd. by apply step_select.
  - left. unfold exec. rewrite Hd. by apply step_wake.
  - left. unfold exec. rewrite Hd. destruct He as [L HL]. cbn. rewrite HL.
    pose proof (step_slice w t L (WLeave false false L) (Some (TRunning t)) Hi HL eq_refl) as Hs.
    assert (places w !! L = Some (TRunning t)) as Hp by (apply (inv_owners _ Hi); by rewrite HL).
    rewrite <- Hp, partial_alter_self, Hd in Hs. apply Hs. auto.
  - left. unfold exec. rewrite Hd. destruct He as [L HL]. cbn. rewrite HL. destruct e.
    + pose proof (step_slice w t L (WLeave true true L) (Some (TRunning t)) Hi HL eq_refl) as Hs.
      assert (places w !! L = Some (TRunning t)) as Hp by (apply (inv_owners _ Hi); by rewrite HL).
      rewrite <- Hp, partial_alter_self, Hd in Hs. apply Hs. auto.
    + pose proof (step_slice w t L (WLeave false true L) (Some TSuspended) Hi HL eq_refl) as Hs.
      rewrite Hd in Hs. apply Hs. auto.
  - left. destruct He as (e & y & L & HL & Hey). by apply step_leave with e y L.
  - left. destruct He. by apply step_add.
  - left. by apply step_resume.
  - left. by apply step_drop.
  - right; right. destruct (step_collect w L) as (w1 & b & Hi1 & Hx & Hw & Hc & Hd1 & Hs & Hb);
      [done.. |]. exists w1, b. split_and!; [done.. | by rewrite Hw, Hs | done | rewrite Hc; by left].
  - right; left. destruct He as [Hr _].
    destruct (step_resize w n c err Hi Hd Hr) as (w' & Hx & Hi' & Hd' & Hc').
    exists w'. rewrite Hc'. pose proof (has_ref_open _ Hi Hr). naive_solver.
  - right; left. by apply step_close.
  - right. destruct He. by apply step_closeloop.
Qed.

Lemma step_inv G w a w' : inv w -> enabled G w a -> exec w a = Some w' -> inv w'.
Proof.
  intros Hi He Hx. destruct (destroyed w) eqn:Hd; [unfold exec in Hx; by rewrite Hd in Hx |].
  destruct (step_cases G w a Hi Hd He) as [Hq | [Ho | Hl]].
  - destruct Hq as (w1 & Hq & Hi1 & _). congruence.
  - destruct Ho as (w1 & Hq & Hi1 & _). congruence.
  - destruct Hl as (w1 & b & Hq & Hi1 & _). rewrite Hq in Hx. destruct b; [| congruence].
    apply destroy_some in Hx as ->. by apply inv_destroyed.
Qed.

Lemma pool_inv G w : reachable G w -> inv w.
Proof. apply reached_preserved; [apply initial_pool_inv |]. intros ? ? ?. apply step_inv. Qed.

(** Nothing happens to a destroyed pool. *)
Lemma destroyed_disabled G w a : inv w -> tame w -> destroyed w = true -> ~ enabled G w a.
Proof.
  intros Hi [Ht1 Ht2] Hd He. destruct (Ht2 Hd) as [Hc Hp]. destruct (Ht1 Hc) as [Hw _].
  assert (has_ref w -> False) as Hr by (intros ?%has_ref_open; done).
  destruct a; cbn in He; rewrite ?Hw, ?Hp in He;
    repeat match goal with H : exists _, _ |- _ => destruct H end; destruct_and?;
    solve [done | auto | congruence].
Qed.

Lemma step_tame w a : inv w -> tame w -> enabled quiescent w a ->
  exists w', exec w a = Some w' /\ tame w'.
Proof.
  intros Hi Ht He. destruct (destroyed w) eqn:Hd.
  { by apply (destroyed_disabled _ _ _ Hi Ht Hd) in He. }
  destruct Ht as [Ht1 _].
  destruct (step_cases quiescent w a Hi Hd He) as [Hq | [Ho | Hl]].
  - destruct Hq as (w1 & Hq & Hi1 & Hd1 & Hc1 & Hw1). exists w1. split; [done |].
    split; [| congruence]. rewrite Hc1. intros [? ?]%Ht1. auto.
  - destruct Ho as (w1 & Hq & Hi1 & Hd1 & Hc1). exists w1. split; [done |].
    split; [done | congruence].
  - destruct Hl as (w1 & b & Hq & Hi1 & Hd1 & Hw1 & Hb & Hc1).
    assert (closer w1 = CFinished -> workers w1 = ∅ /\ size (wpool w1) = 0) as Hf.
    { intros [[? ?]%Ht1 | [? ?]]%Hc1; auto. }
    destruct b.
    + destruct (Hb eq_refl) as [Hcf Hpl]. rewrite (destroy_ok w1) in Hq; try done; [| by apply Hf].
      eexists. split; [done |]. split; [done |]. auto.
    + eexists. split; [done |]. split; [done | congruence].
Qed.

End system.
Arguments world : clear implicits.

(** ** Runs on concrete inputs *)

Abbreviation reachable G := (reached initial (enabled G) exec).

Ltac solve_run :=
  vm_compute; repeat (split; [solve [eauto 10 | done | discriminate] |]);
  try solve [eauto 20 | repeat split; try done; try discriminate; eauto 10].

(** No restriction on the close: the code as it is. *)
Abbreviation anywhere := (fun _ : world _ => True).

(** Two workers: one task is put back in the queue, another one suspended. *)
Definition sample_run : list action :=
  [AResize 2 true (fun _ => 0); AAdd 10 0; AAdd 11 0; ASelect 1; ASelect 2;
   AYield 1 true; ALeave 1; AYield 2 false; ALeave 2].

(** The pool is closed while a task is suspended; the task is dropped later. *)
Definition closing_run : list action :=
  [AResize 1 true (fun _ => 0); AAdd 10 0; ASelect 1; AYield 1 false; ALeave 1;
   AResize 0 true (fun _ => 0); AWake 1; AClose; ACloseLoop; ADrop 10].

(** A suspended task outlives its pool: the pool gets a new size after its only
    worker left, it is closed, and then the task is resumed. *)
Definition late_resume_run : list action :=
  [AResize 1 true (fun _ => 0); AAdd 10 0; ASelect 1; AYield 1 false; ALeave 1;
   AResize 0 true (fun _ => 0); AWake 1; AResize 1 false (fun _ => 0);
   AClose; ACloseLoop; AResume 10 0].

(** C2: in every reachable state of the system (any interleaving of workers,
    task creators, resumers, resizes, closes and collections), the counters of
    the pool are exact: [threads], [idle], [running] and [tasks] count the
    workers, the waiting workers, the workers with a task and the tasks;
    [pending] is the length of the queue, which holds exactly the queued tasks,
    each once; and a task that runs is run by exactly one worker. *)
Theorem pool_counters_exact Q (SQ : StateQueue Q) (w : world Q)
    (Hr : reachable anywhere w) :
  threads (wpool w) = countm any (workers w) /\
  idle (wpool w) = countm is_wait (workers w) /\
  running (wpool w) = countm is_busy (workers w) /\
  tasks (wpool w) = countm any (places w) /\
  (exists l, NoDup l /\ q_repr (queue (wpool w)) l /\
     pending (wpool w) = Z.of_nat (length l) /\
     forall L, L ∈ l <-> places w !! L = Some TQueued) /\
  (forall t L, places w !! L = Some (TRunning t) <-> (workers w !! t ≫= owns) = Some L).
Proof.
  destruct (pool_inv _ _ Hr) as [[l (Hq & Hp & Hl)] (Ht & Hi & Hru & Hk) Ho _ _].
  split_and!; [done.. | exists l; split; [by apply (q_repr_NoDup _ _ Hq) | done] |].
  intros t L. symmetry. apply Ho.
Qed.

Lemma pool_counters_exact_witness :
  exists w : world owned_queue, reachable anywhere w /\
    (threads (wpool w) = 2 /\ running (wpool w) = 1 /\ pending (wpool w) = 0 /\
     tasks (wpool w) = 2 /\ idle (wpool w) = 1) /\
    threads (wpool w) = countm any (workers w).
Proof.
  destruct (reached_run initial (enabled anywhere) exec sample_run (fun w : world owned_queue =>
    threads (wpool w) = 2 /\ running (wpool w) = 1 /\ pending (wpool w) = 0 /\
    tasks (wpool w) = 2 /\ idle (wpool w) = 1)) as (w & Hr & HP).
  { solve_run. }
  exists w. split; [exact Hr |]. split; [exact HP |].
  exact (proj1 (pool_counters_exact _ _ w Hr)).
Defined.

(** C3: as long as [lcuTP_closetpool] completes with an expected size of zero,
    no step of the pool fails: the queue is never empty when [pending] is
    positive, a task is never added to a closed pool, every assertion of
    [lcuTP_destroytpool] holds when the pool is destroyed, and nobody touches
    the pool after that. *)
Theorem pool_never_fails Q (SQ : StateQueue Q) (w : world Q) (a : action)
    (Hr : reachable quiescent w) (He : enabled quiescent w a) :
  is_Some (exec w a).
Proof.
  assert (forall w, reachable quiescent w -> tame w) as Ht.
  { induction 1 as [| w1 a1 w2 Hr1 IH He1 Hx]; [done |].
    destruct (step_tame w1 a1 (pool_inv _ _ Hr1) IH He1) as (w3 & ? & ?). congruence. }
  destruct (step_tame w a (pool_inv _ _ Hr) (Ht w Hr) He) as (w' & -> & _). done.
Qed.

Lemma pool_never_fails_witness :
  exists w : world owned_queue, reachable quiescent w /\
    enabled quiescent w (ACollect 10) /\ is_Some (exec w (ACollect 10)).
Proof.
  destruct (reached_run initial (enabled quiescent) exec closing_run (fun w : world owned_queue =>
    enabled quiescent w (ACollect 10))) as (w & Hr & He).
  { solve_run. }
  exists w. split; [exact Hr |]. split; [exact He |].
  exact (pool_never_fails _ _ w _ Hr He).
Defined.

Lemma destroyed_finished Q (SQ : StateQueue Q) G (w : world Q) :
  reachable G w -> destroyed w = true -> closer w = CFinished.
Proof.
  induction 1 as [| w a w' Hr IH He Hx]; [done |].
  destruct (destroyed w) eqn:Hd; [unfold exec in Hx; by rewrite Hd in Hx |].
  destruct (step_cases G w a (pool_inv _ _ Hr) Hd He) as [Hq | [Ho | Hl]].
  - destruct Hq as (w1 & Hq & _ & Hd1 & _). congruence.
  - destruct Ho as (w1 & Hq & _ & Hd1 & _). congruence.
  - destruct Hl as (w1 & b & Hq & _ & Hd1 & _ & Hb & _). rewrite Hq in Hx. destruct b; [| congruence].
    apply destroy_some in Hx as ->. intros _. by apply Hb.
Qed.

(** C4: while the pool is closing and has no task left, every worker that
    selects or is woken up leaves the pool, so the closing thread waits for at
    most as many steps as there are workers. *)
Theorem pool_closing_workers_leave Q (SQ : StateQueue Q) (w : world Q) (t : tid)
    (Hr : reachable anywhere w) (Hc : closer w = CWaiting) (Hn : tasks (wpool w) = 0)
    (Ht : workers w !! t = Some WEnter \/ workers w !! t = Some WWait) :
  exists w', exec w (if decide (workers w !! t = Some WWait) then AWake t else ASelect t)
    = Some w' /\ workers w' = delete t (workers w) /\
    threads (wpool w') = threads (wpool w) - 1.
Proof.
  destruct (destroyed w) eqn:Hd; [by rewrite (destroyed_finished _ _ _ _ Hr Hd) in Hc |].
  destruct (pool_inv _ _ Hr) as [[l (Hq & Hp & Hl)] (Hth & _ & _ & Hk) _ [Hf Hst] _].
  rewrite Hc in Hst. assert (l = []) as ->.
  { destruct l as [| L l]; [done |]. assert (L ∈ L :: l) as HL by set_solver.
    apply Hl in HL. pose proof (countm_pos any (places w) L TQueued HL eq_refl). lia. }
  assert (0 < threads (wpool w)) as Hpos.
  { rewrite Hth. by destruct Ht as [Ht | Ht]; apply (countm_pos _ _ t _ Ht). }
  assert (forall p, queue p = queue (wpool w) -> pending p = pending (wpool w) ->
    threads p = threads (wpool w) -> flags p = flags (wpool w) -> tasks p = 0 ->
    exists w', run_worker w t p = Some w' /\ workers w' = delete t (workers w) /\
      threads (wpool w') = threads (wpool w) - 1) as Hrun.
  { intros p H1 H2 H3 H4 H5. unfold run_worker.
    assert (exists sz, worker_select 2 p = Some (PickEnd, set_size sz p)) as [sz ->].
    { cbn. destruct (threads p >? size p); [exists (size p); by destruct p |].
      rewrite H2, Hp. cbn. assert (getstatus p = STATUS_CLOSING) as ->.
      { unfold getstatus in *. by rewrite H4. }
      rewrite H5. cbn. exists 0. by rewrite H3, (proj2 (Z.gtb_lt _ _) Hpos). }
    eexists. split; [done |]. split; [done |]. cbn [wpool].
    destruct (worker_end_spec t (set_size sz p)) as (_ & _ & -> & _); [| cbn; lia].
    unfold flags_ok in *. cbn. by rewrite H4. }
  unfold exec. rewrite Hd. cbn [negb lcu_assert mbind option_bind].
  destruct (decide (workers w !! t = Some WWait)); by apply Hrun.
Qed.

Lemma pool_closing_workers_leave_witness :
  exists w w' : world owned_queue, reachable anywhere w /\ threads (wpool w) = 2 /\
    exec w (ASelect 2) = Some w' /\ threads (wpool w') = threads (wpool w) - 1.
Proof.
  destruct (reached_run initial (enabled anywhere) exec
    [AResize 2 true (fun _ => 0); ASelect 1; AClose] (fun w : world owned_queue =>
    threads (wpool w) = 2 /\ closer w = CWaiting /\ tasks (wpool w) = 0 /\
    workers w !! (2%positive) = Some WEnter)) as (w & Hr & H1 & H2 & H3 & H4).
  { solve_run. }
  destruct (pool_closing_workers_leave _ _ w 2 Hr H2 H3 (or_introl H4)) as (w' & Hx & _ & Ht).
  rewrite decide_False in Hx by (rewrite H4; discriminate).
  exists w, w'. exact (conj Hr (conj H1 (conj Hx Ht))).
Defined.

(** Without that restriction the pool can fail.  Resuming a suspended task
    of a closed pool that has a positive size and no worker creates a thread
    before the status is tested, and when the task is collected the assertions
    of [lcuTP_destroytpool] do not hold. *)
Theorem pool_late_resume_fails :
  exists w : world owned_queue, reachable anywhere w /\
    getstatus (wpool w) = STATUS_CLOSED /\ threads (wpool w) = 1 /\
    enabled anywhere w (ACollect 10) /\ exec w (ACollect 10) = None.
Proof.
  apply (reached_run initial (enabled anywhere) exec late_resume_run). solve_run.
Qed.
