(* ===== verification/Buffers.v ===== *)
(** * Buffers and strings handed to libuv (src/src/lmodaux.c, lines 49 to 105)

    [setupbuf] turns the optional positions that a script gives with a memory
    or string argument into the area that libuv reads or writes; the area must
    stay inside the memory.  [lcu_pushstrout] calls a libuv getter that writes a
    string of unknown length. *)
From S2P Require Import Prelude.

Module Buf.

(** Positions are [lua_Integer]s, lengths and offsets [size_t]s; every
    operation on a [size_t] wraps around. *)
Definition posrelatI (pos len : Z) : Z :=
  if pos >? 0 then size_t pos
  else if pos =? 0 then 1
  else if pos <? - lua_Integer len then 1
  else size_t (size_t (len + size_t pos) + 1).

(** [pos]: the argument, [None] if it is absent or nil. *)
Definition getendpos (pos : option Z) (def len : Z) : Z :=
  let pos := default def pos in
  if pos >? lua_Integer len then len
  else if pos >=? 0 then size_t pos
  else if pos <? - lua_Integer len then 0
  else size_t (size_t (len + size_t pos) + 1).

(** [uv_buf_t]: the base is an offset from the start of the memory. *)
Record uv_buf_t := Buf { base : Z; len : Z }.

Definition setupbuf (i j : option Z) (sz : Z) : uv_buf_t :=
  let start := posrelatI (default 1 i) sz in
  let stop := getendpos j (-1) sz in
  Buf (start - 1) (if start <=? stop then size_t (size_t (stop - start) + 1) else 0).

(** The bytes of a memory that a buffer gives access to. *)
Definition buf_bytes {A} (b : uv_buf_t) (data : list A) : list A :=
  take (Z.to_nat (len b)) (drop (Z.to_nat (base b)) data).

(** The reference: [string.sub(s, i, j)] of the Lua manual (section 6.4). *)
Definition lua_sub {A} (data : list A) (i j : Z) : list A :=
  let n := Z.of_nat (length data) in
  let i := Z.max 1 (if i <? 0 then n + i + 1 else i) in
  let j := Z.min n (if j <? 0 then n + j + 1 else j) in
  take (Z.to_nat (j - i + 1)) (drop (Z.to_nat (i - 1)) data).

Definition is_integer (z : Z) : Prop := - 2 ^ 63 <= z < 2 ^ 63.
Definition is_position (z : option Z) : Prop := from_option is_integer True z.

(** Positions and lengths without the machine arithmetic. *)
Lemma size_t_relative pos len :
  pos < 0 -> - len <= pos -> 0 <= len < 2 ^ 63 ->
  size_t (size_t (len + size_t pos) + 1) = len + pos + 1.
Proof.
  intros. rewrite wrapu_add, <- Z.add_assoc, (Z.add_comm (size_t pos)), Z.add_assoc by lia.
  rewrite wrapu_add_r by lia. rewrite wrapu_id; lia.
Qed.

Lemma posrelatI_spec pos len :
  is_integer pos -> 0 <= len < 2 ^ 63 ->
  posrelatI pos len = Z.max 1 (if pos <? 0 then len + pos + 1 else pos).
Proof.
  unfold is_integer, posrelatI. intros Hp Hl. rewrite (wraps_id 64 len) by lia.
  destruct (Z.gtb_spec pos 0); [rewrite wrapu_id by lia; destruct (Z.ltb_spec pos 0); lia |].
  destruct (Z.eqb_spec pos 0) as [-> |]; [done |].
  destruct (Z.ltb_spec pos (- len)); destruct (Z.ltb_spec pos 0); try lia.
  rewrite size_t_relative; lia.
Qed.

Lemma getendpos_spec pos def len :
  is_integer (default def pos) -> 0 <= len < 2 ^ 63 ->
  getendpos pos def len =
    Z.max 0 (Z.min len (if default def pos <? 0 then len + default def pos + 1
                        else default def pos)).
Proof.
  unfold is_integer, getendpos. intros Hp Hl. rewrite (wraps_id 64 len) by lia.
  set (p := default def pos) in *.
  destruct (Z.gtb_spec p len); [destruct (Z.ltb_spec p 0); lia |].
  destruct (Z.geb_spec p 0); [rewrite wrapu_id by lia; destruct (Z.ltb_spec p 0); lia |].
  destruct (Z.ltb_spec p (- len)); destruct (Z.ltb_spec p 0); try lia.
  rewrite size_t_relative; lia.
Qed.

(** The buffer is the part that [string.sub] selects. *)
Lemma setupbuf_sub (A : Type) (data : list A) (i j : option Z)
    (Hi : is_position i) (Hj : is_position j) (Hd : Z.of_nat (length data) < 2 ^ 63) :
  let b := setupbuf i j (Z.of_nat (length data)) in
  buf_bytes b data = lua_sub data (default 1 i) (default (-1) j) /\
  0 <= len b /\ 0 <= base b /\ (0 < len b -> base b + len b <= Z.of_nat (length data)).
Proof.
  assert (is_integer (default 1 i)) as Hi' by (destruct i; [done | cbv; split; congruence]).
  assert (is_integer (default (-1) j)) as Hj' by (destruct j; [done | cbv; split; congruence]).
  unfold setupbuf, buf_bytes, lua_sub. cbn [len base].
  rewrite posrelatI_spec, getendpos_spec by (done || lia).
  set (n := Z.of_nat (length data)) in *.
  set (s := Z.max 1 _). set (e := if default (-1) j <? 0 then _ else _).
  assert (0 < 2 ^ 63 < 2 ^ 64) as Hpow by lia.
  destruct (Z.leb_spec s (Z.max 0 (Z.min n e))) as [Hle | Hgt].
  - rewrite wrapu_add, wrapu_id by lia.
    split; [do 2 f_equal; lia | lia].
  - split; [| lia]. by replace (Z.to_nat (Z.min n e - s + 1)) with 0%nat by lia.
Qed.

(** C5: for all optional positions, the buffer is the part of the memory that
    [string.sub] selects for the same positions, and a buffer that is not empty
    lies inside the memory: no position makes libuv touch memory outside of
    the argument.  Memories have less than 2^63 bytes. *)
Theorem setupbuf_is_string_sub (A : Type) (data : list A) (i j : option Z)
    (Hi : is_position i) (Hj : is_position j) (Hd : Z.of_nat (length data) < 2 ^ 63) :
  let b := setupbuf i j (Z.of_nat (length data)) in
  buf_bytes b data = lua_sub data (default 1 i) (default (-1) j) /\
  0 <= len b /\ 0 <= base b /\ (0 < len b -> base b + len b <= Z.of_nat (length data)).
Proof. by apply setupbuf_sub. Qed.

Lemma setupbuf_is_string_sub_witness :
  let data := [10; 20; 30; 40; 50] in
  let b := setupbuf (Some (-4)) (Some 100) 5 in
  buf_bytes b data = [20; 30; 40; 50] /\
  buf_bytes b data = lua_sub data (-4) 100.
Proof.
  split; [reflexivity |].
  apply (setupbuf_is_string_sub Z [10; 20; 30; 40; 50] (Some (-4)) (Some 100));
    [cbv; split; congruence | cbv; split; congruence | reflexivity].
Defined.

End Buf.

(** ** Strings written by libuv *)

Module StrOut.
Section strout.
(** Constants of libuv: an error code, which is negative, and the size of the
    local array. *)
Context (UV_ENOBUFS UV_MAXHOSTNAMESIZE : Z).

(** A getter of libuv, called for the [n]-th time with a buffer of [cap]
    bytes: its result, the value it leaves in [*len], and what it wrote. *)
Definition getter_t : Type := nat -> Z -> Z * Z * string.

(** What the function does to the stack, and whether it freed a buffer. *)
Inductive strout :=
  | Pushed (s : string)
  | Raised (err : Z).

(** Together with the number of blocks it allocated and freed. *)
Definition lcu_pushstrout (getter : getter_t) : strout * (nat * nat) :=
  let '(err, sz, str) := getter 0%nat UV_MAXHOSTNAMESIZE in
  let '(err, str, blocks) :=
    if err =? UV_ENOBUFS then
      let '(err, _, str) := getter 1%nat sz in (err, str, 1%nat)
    else (err, str, 0%nat) in
  (if err >=? 0 then Pushed str else Raised err, (blocks, blocks)).

(** What libuv documents of such a getter for a string [s]: if the buffer holds
    [s] and its final zero it is written, otherwise the needed size (with the
    final zero) is. *)
Definition writes (getter : getter_t) (s : string) : Prop :=
  forall n cap,
    getter n cap =
      if Z.of_nat (String.length s) <? cap then (0, Z.of_nat (String.length s), s)
      else (UV_ENOBUFS, Z.of_nat (String.length s) + 1, EmptyString).

(** A getter that fails with [e] whatever the buffer. *)
Definition fails (getter : getter_t) (e : Z) : Prop :=
  forall n cap, exists sz s, getter n cap = (e, sz, s).

Lemma pushstrout_whole (getter : getter_t) s :
  UV_ENOBUFS < 0 -> writes getter s -> (lcu_pushstrout getter).1 = Pushed s.
Proof.
  intros Hneg Hw. unfold lcu_pushstrout. rewrite !Hw.
  destruct (Z.ltb_spec (Z.of_nat (String.length s)) UV_MAXHOSTNAMESIZE).
  - destruct (Z.eqb_spec 0 UV_ENOBUFS); [lia | done].
  - rewrite Z.eqb_refl, Hw. rewrite (proj2 (Z.ltb_lt _ _)) by lia. done.
Qed.

Lemma pushstrout_raises (getter : getter_t) e :
  UV_ENOBUFS < 0 -> e < 0 -> e <> UV_ENOBUFS -> fails getter e -> (lcu_pushstrout getter).1 = Raised e.
Proof.
  intros Hneg He Hne Hf. destruct (Hf 0%nat UV_MAXHOSTNAMESIZE) as (sz & s & Hg).
  unfold lcu_pushstrout. rewrite Hg, (proj2 (Z.eqb_neq _ _) Hne).
  cbn. destruct (Z.geb_spec e 0); [lia | done].
Qed.

(** A string of any length is pushed whole, also when it does not fit the
    local array; any other error of the getter is raised; and no block of
    memory is leaked in either case. *)
Theorem pushstrout_any_length (getter : getter_t) (Hneg : UV_ENOBUFS < 0) :
  (forall s, writes getter s ->
     (lcu_pushstrout getter).1 = Pushed s) /\
  (forall e, e < 0 -> e <> UV_ENOBUFS -> fails getter e ->
     (lcu_pushstrout getter).1 = Raised e) /\
  (lcu_pushstrout getter).2.1 = (lcu_pushstrout getter).2.2.
Proof.
  split; [| split].
  - intros s. by apply pushstrout_whole.
  - intros e. by apply pushstrout_raises.
  - unfold lcu_pushstrout. destruct (getter 0%nat UV_MAXHOSTNAMESIZE) as [[e sz] s].
    destruct (e =? UV_ENOBUFS); [by destruct (getter 1%nat sz) as [[? ?] ?] | done].
Qed.
End strout.

Lemma pushstrout_any_length_witness :
  let getter := fun (_ : nat) cap =>
    if 11 <? cap then (0, 11, "workstation"%string) else (-105, 12, EmptyString) in
  (lcu_pushstrout (-105) 8 getter).1 = Pushed "workstation".
Proof.
  intros getter.
  apply (pushstrout_any_length (-105) 8 getter); [reflexivity |].
  intros n cap. reflexivity.
Defined.

End StrOut.
