(* ===== verification/Results.v ===== *)
(** * Results, warnings and module tables (src/src/lmodaux.c)

    [lcuL_pusherrres] and [lcuL_pushresults] make the results of almost every
    function of the library; [lcuL_warnmsg] and [warnf] report problems of
    threads and new states; [lcuM_setfuncs] fills the tables of functions. *)
From S2P Require Import Prelude LuaApi.

Module Results.
Section results.
Context {St : Type} `{!LuaStack St}.
(** [uv_strerror], a function of libuv. *)
Context (uv_strerror : Z -> string).

Definition lcu_pusherror (L : St) (err : Z) : St := lua_push L (LString (uv_strerror err)).

Definition lcuL_pusherrres (L : St) (err : Z) : nat * St :=
  let L := lua_push L (LBoolean false) in
  let L := lcu_pusherror L err in
  let L := lua_push L (LInteger (- err)) in
  (3%nat, L).

Definition lcuL_pushresults (L : St) (n : nat) (err : Z) : nat * St :=
  if err <? 0 then
    let L := lua_pop L n in
    lcuL_pusherrres L err
  else if (n =? 0)%nat then (1%nat, lua_push L (LBoolean true))
  else (n, L).

(** A function that has pushed its [n] results ends with them on the top of
    the stack, or with a single true if it has none; on an error of libuv its
    results are discarded, and it returns false, the message and the positive
    error number.  What was below the results is kept, and the number returned
    is the number of values above it. *)
Theorem pushresults_shape (L : St) (below res : list lvalue) (err : Z)
    (HL : values L = below ++ res) :
  let r := lcuL_pushresults L (length res) err in
  values r.2 = below ++
    (if decide (err < 0)
     then [LBoolean false; LString (uv_strerror err); LInteger (- err)]
     else if decide (res = []) then [LBoolean true] else res) /\
  values r.2 = below ++ drop (length below) (values r.2) /\
  r.1 = length (drop (length below) (values r.2)).
Proof.
  assert (forall l : list lvalue, below ++ l = below ++ drop (length below) (below ++ l)) as Hd.
  { intros l. by rewrite drop_app_length. }
  unfold lcuL_pushresults, lcuL_pusherrres, lcu_pusherror.
  destruct (Z.ltb_spec err 0).
  - cbn [fst snd]. rewrite !values_push, (values_pop L below res) by done.
    rewrite decide_True, <- !app_assoc by done. simpl.
    rewrite drop_app_length. by split_and!.
  - rewrite (decide_False (P := err < 0)) by lia. destruct res as [| v res].
    + cbn. rewrite values_push, HL, app_nil_r, drop_app_length. by split_and!.
    + rewrite decide_False by done. cbn [length Nat.eqb fst snd].
      rewrite HL, drop_app_length. by split_and!.
Qed.
End results.

Lemma pushresults_shape_witness :
  let L := [LInteger 7; LString "data"] in
  let strerror := fun _ : Z => "end of file"%string in
  (lcuL_pushresults strerror L 1 (-4095)).2 =
    [LInteger 7; LBoolean false; LString "end of file"; LInteger 4095].
Proof.
  intros L strerror.
  exact (proj1 (pushresults_shape strerror L [LInteger 7] [LString "data"] (-4095) eq_refl)).
Defined.
End Results.

(** ** Warnings *)

Module Warn.

(** [warnf] keeps one [int]: 0 warnings are off, 1 on, 2 in the middle of a
    message.  The second result is what it writes to the standard error. *)
Definition warnf (warnstate : Z) (message : string) (tocont : bool) : Z * string :=
  if negb (warnstate =? 2) && negb tocont &&
     (match String.get 0 message with Some "@"%char => true | _ => false end) then
    (if String.eqb message "@off" then 0
     else if String.eqb message "@on" then 1
     else warnstate, EmptyString)
  else if warnstate =? 0 then (warnstate, EmptyString)
  else
    let out := ((if (warnstate =? 1)%Z then "Lua warning: " else "") ++ message)%string in
    if tocont then (2, out) else (1, (out ++ String "010" EmptyString)%string).

(** [lua_warning] of the host calls the warning function of the state. *)
Definition lua_warning (s : Z * string) (message : string) (tocont : bool) : Z * string :=
  let '(st, out) := warnf s.1 message tocont in (st, (s.2 ++ out)%string).

Definition LCU_WARNPREFIX : string := "[coutil] ".

Definition lcuL_warnmsg (s : Z * string) (prefix : string) (msg : option string)
    : Z * string :=
  let s := lua_warning s LCU_WARNPREFIX true in
  let s := lua_warning s prefix true in
  let s := lua_warning s ": " true in
  lua_warning s (default "(null)"%string msg) false.

Definition lcuL_warnerr (uv_strerror : Z -> string) (s : Z * string) (prefix : string)
    (err : Z) : Z * string :=
  lcuL_warnmsg s prefix (Some (uv_strerror err)).

(** Between two messages, [lcuL_warnmsg] writes one whole line when the
    warnings are on, whatever the message (also one that looks like a control
    message), and writes nothing when they are off.  The state is left as it
    was, with one exception: when the warnings are off, the last part of the
    message is taken for a control message, so the message "@on" of a script
    turns them on. *)
Theorem warnmsg_one_line (st : Z) (out prefix : string) (msg : option string)
    (Hst : st = 0 \/ st = 1) :
  lcuL_warnmsg (st, out) prefix msg =
    if st =? 0 then (if decide (msg = Some "@on"%string) then 1 else 0, out)
    else (1, (out ++ "Lua warning: " ++ LCU_WARNPREFIX ++ prefix ++ ": "
                ++ default "(null)" msg ++ String "010" "")%string).
Proof.
  destruct Hst as [-> | ->]; unfold lcuL_warnmsg, lua_warning, warnf; cbn -[String.append].
  - destruct msg as [m |]; cbn -[String.append]; [| by rewrite !string_app_nil_r].
    destruct (String.eqb_spec m "@on") as [-> | Hne].
    + rewrite decide_True by done. cbn -[String.append]. by rewrite !string_app_nil_r.
    + rewrite decide_False by congruence.
      destruct (String.get 0 m) as [c |]; [| by rewrite !string_app_nil_r].
      destruct (bool_decide_reflect (c = "@"%char)) as [-> | Hc].
      * destruct (String.eqb m "@off"); by rewrite !string_app_nil_r.
      * assert (match c with "@"%char => true | _ => false end = false) as ->.
        { destruct c as [[] [] [] [] [] [] [] []]; try done. }
        by rewrite !string_app_nil_r.
  - by rewrite !string_app_assoc.
Qed.

Lemma warnmsg_one_line_witness :
  (lcuL_warnmsg (1, EmptyString) "threads" (Some "@off"%string)).2 =
    ("Lua warning: [coutil] threads: @off" ++ String "010" "")%string.
Proof.
  rewrite (warnmsg_one_line 1 EmptyString "threads" (Some "@off"%string) (or_intror eq_refl)).
  reflexivity.
Defined.
End Warn.

(** ** Tables of functions *)

Module SetFuncs.
Section setfuncs.
Context {St : Type} `{!LuaStack St}.

(** A closure: the C function and its upvalues. *)
Record closure := Closure { cfunc : positive; upvalues : list lvalue }.

(** The inner loop: [lua_pushvalue(L, -(nup+1))], [nup] times. *)
Fixpoint copy_upvalues (n nup : nat) (L : St) : option St :=
  match n with
  | O => Some L
  | S n =>
      v ← lua_at L (- (Z.of_nat nup + 1));
      copy_upvalues n nup (lua_push L v)
  end.

(** [lua_pushcclosure] takes [nup] values from the top; the closure it pushes
    is taken at once by [lua_setfield], so the two are one step here. *)
Definition pushcclosure_setfield (L : St) (f : positive) (nup : nat) : closure * St :=
  (Closure f (drop (lua_gettop L - nup) (values L)), lua_pop L nup).

(** The entries set in the table, in order. *)
Fixpoint lcuM_setfuncs (L : St) (l : list (string * positive)) (nup : nat)
    : option (list (string * closure) * St) :=
  match l with
  | [] => Some ([], L)
  | (name, func) :: l =>
      L ← copy_upvalues nup nup L;
      let '(c, L) := pushcclosure_setfield L func nup in
      r ← lcuM_setfuncs L l nup;
      Some ((name, c) :: r.1, r.2)
  end.

Lemma copy_upvalues_spec n nup L (l ups1 ups2 : list lvalue) tab :
  values L = l ++ (ups1 ++ ups2) ++ tab :: ups1 ->
  length (ups1 ++ ups2) = nup -> length ups2 = n ->
  exists L', copy_upvalues n nup L = Some L' /\
    values L' = l ++ (ups1 ++ ups2) ++ tab :: (ups1 ++ ups2).
Proof.
  revert L ups1 ups2. induction n as [| n IH]; intros L ups1 ups2 HL Hnup Hn.
  - destruct ups2; [| done]. exists L. rewrite !app_nil_r in *. done.
  - destruct ups2 as [| v ups2]; [done |]. cbn [copy_upvalues].
    assert (lua_at L (- (Z.of_nat nup + 1)) = Some v) as ->.
    { eapply (at_top L (l ++ ups1) v (ups2 ++ tab :: ups1)).
      - rewrite HL. by rewrite <- !app_assoc.
      - rewrite length_app in Hnup |- *. simpl in Hnup |- *. lia. }
    cbn. destruct (IH (lua_push L v) (ups1 ++ [v]) ups2) as (L' & -> & HL').
    + rewrite values_push, HL. by simplify_list_eq.
    + by rewrite <- app_assoc.
    + simpl in Hn. lia.
    + exists L'. split; [done |]. rewrite <- (app_assoc ups1 [v] ups2) in HL'. exact HL'.
Qed.

(** With the upvalues below the table on the top of the stack, every
    function is set with exactly these upvalues in their order, and the stack is
    left as it was. *)
Theorem setfuncs_upvalues (L : St) (l : list (string * positive))
    (below ups : list lvalue) (tab : lvalue)
    (HL : values L = below ++ ups ++ [tab]) :
  exists L', lcuM_setfuncs L l (length ups)
      = Some ((fun nf => (nf.1, Closure nf.2 ups)) <$> l, L') /\
    values L' = values L.
Proof.
  revert L HL. induction l as [| [name f] l IH]; intros L HL; [by exists L |].
  cbn [lcuM_setfuncs].
  destruct (copy_upvalues_spec (length ups) (length ups) L below [] ups tab)
    as (L1 & -> & HL1); [done.. |].
  cbn [mbind option_bind pushcclosure_setfield app] in *.
  assert (values (lua_pop L1 (length ups)) = values L) as Hpop.
  { rewrite (values_pop L1 (below ++ ups ++ [tab]) ups); [done | | done].
    rewrite HL1. by rewrite <- !app_assoc. }
  destruct (IH (lua_pop L1 (length ups))) as (L' & -> & HL'); [by rewrite Hpop |].
  exists L'. cbn. split; [| congruence]. do 4 f_equal.
  unfold lua_gettop. rewrite HL1.
  replace (below ++ ups ++ tab :: ups) with ((below ++ ups ++ [tab]) ++ ups)
    by (by rewrite <- !app_assoc).
  rewrite (length_app (below ++ ups ++ [tab]) ups), Nat.add_sub.
  by rewrite drop_app_length.
Qed.
End setfuncs.

Lemma setfuncs_upvalues_witness :
  exists L', lcuM_setfuncs [LNil; LInteger 1; LInteger 2; LTable 9]
      [("run", 5%positive); ("stop", 6%positive)]%string 2
    = Some ([("run", Closure 5 [LInteger 1; LInteger 2]);
             ("stop", Closure 6 [LInteger 1; LInteger 2])]%string, L') /\
    values L' = [LNil; LInteger 1; LInteger 2; LTable 9].
Proof.
  exact (setfuncs_upvalues [LNil; LInteger 1; LInteger 2; LTable 9]
    [("run", 5%positive); ("stop", 6%positive)]%string
    [LNil] [LInteger 1; LInteger 2] (LTable 9) eq_refl).
Defined.
End SetFuncs.
