(* ===== verification/Transfer.v ===== *)
(** * Values copied between Lua states (src/src/lmodaux.c, lines 237 to 353)

    Coroutines with a state of their own, tasks and channels exchange values by
    copying them from the stack of one state to the stack of another.  Only
    values without identity can be copied. *)
From S2P Require Import Prelude LuaApi.

(** [lua_type] and [luaL_typename] (Lua manual); [None] is an index without a
    value. *)
Definition luaL_typename (v : option lvalue) : string :=
  match v with
  | None => "no value"
  | Some LNil => "nil"
  | Some (LBoolean _) => "boolean"
  | Some (LInteger _) | Some (LNumber _) => "number"
  | Some (LString _) => "string"
  | Some (LLightUserdata _) | Some (LUserdata _) => "userdata"
  | Some (LTable _) => "table"
  | Some (LFunction _) => "function"
  | Some (LThread _) => "thread"
  end.

(** The types of the case labels of [lcuL_canmove] and [pushfrom]. *)
Definition transferable (v : lvalue) : bool :=
  match v with
  | LNil | LBoolean _ | LInteger _ | LNumber _ | LString _ | LLightUserdata _ => true
  | _ => false
  end.

Definition doerrmsg (I : Z) (M T : string) : string :=
  if I >? 0 then "unable to transfer " +:+ M +:+ " #" +:+ fmt_int I +:+ " (got " +:+ T +:+ ")"
  else "unable to transfer " +:+ M +:+ " (got " +:+ T +:+ ")".

Section transfer.
Context {St : Type} `{!LuaStack St}.
Implicit Types (L to from : St).

(** The loop of [lcuL_canmove], from [i = -n] on. *)
Fixpoint canmove_loop (n : nat) L (narg : Z) (msg : string) : bool * St :=
  match n with
  | O => (true, L)
  | S n' =>
      let i := - Z.of_nat n in
      match lua_at L i with
      | Some v =>
          if transferable v then canmove_loop n' L narg msg
          else (false, lua_push L (LString (doerrmsg (3 + narg + i) msg (luaL_typename (Some v)))))
      | None =>
          (false, lua_push L (LString (doerrmsg (3 + narg + i) msg (luaL_typename None))))
      end
  end.

Definition lcuL_canmove L (narg : nat) (msg : string) : bool * St :=
  canmove_loop narg L (Z.of_nat narg) msg.

(** [pushfrom] raises an error, or gives the value it pushes. *)
Definition pushfrom (v : option lvalue) (idx : Z) (msg : string) : string + lvalue :=
  match v with
  | Some LNil => inr LNil
  | Some (LBoolean b) => inr (LBoolean b)
  | Some (LInteger i) => inr (LInteger i)
  | Some (LNumber n) => inr (LNumber n)
  | Some (LString s) => inr (LString s)
  | Some (LLightUserdata p) => inr (LLightUserdata p)
  | v => inl (doerrmsg idx msg (luaL_typename v))
  end.

(** The host's memory: whether the [k]-th value pushed by the protected function
    has the memory it needs; an error leaves [memmsg]. *)
Context (mem : nat -> bool) (memmsg : lvalue).

(** The loop of [auxmovefrom], run by [lua_pcall]: an error with its value, or
    the values pushed. *)
Fixpoint movefrom_loop (n : nat) (k : nat) from (idx : Z) (msg : string)
    : (lua_status * lvalue) + list lvalue :=
  match n with
  | O => inr []
  | S n =>
      match pushfrom (lua_at from idx) idx msg with
      | inl e => inl (LUA_ERRRUN, LString e)
      | inr v =>
          if mem k then
            match movefrom_loop n (S k) from (idx + 1) msg with
            | inl e => inl e
            | inr vs => inr (v :: vs)
            end
          else inl (LUA_ERRMEM, memmsg)
      end
  end.

Definition auxmovefrom from (n : nat) (msg : string)
    : (lua_status * lvalue) + list lvalue :=
  movefrom_loop n 0 from (1 + Z.of_nat (lua_gettop from) - Z.of_nat n) msg.

Definition auxpushfrom from (idx : Z) (msg : string) : (lua_status * lvalue) + list lvalue :=
  match pushfrom (lua_at from idx) idx msg with
  | inl e => inl (LUA_ERRRUN, LString e)
  | inr v => if mem 0%nat then inr [v] else inl (LUA_ERRMEM, memmsg)
  end.

Definition push_all (s : St) (vs : list lvalue) : St := foldl lua_push s vs.

(** [lua_xmove(from, to, n)] (Lua manual): pops [n] values, pushes them on the
    other state. *)
Definition lua_xmove from to (n : nat) : St * St :=
  (lua_pop from n, push_all to (drop (lua_gettop from - n) (values from))).

(** [lua_pcall] of a function with its three arguments, pushed before it. *)
Definition pcall3 L (args : list lvalue) (r : (lua_status * lvalue) + list lvalue)
    : lua_status * St :=
  let L := push_all L args in
  match r with
  | inr vs => (LUA_OK, push_all (lua_pop L 4) vs)
  | inl (st, e) => (st, push_all (lua_pop L 4) [e])
  end.

Definition EXTRA : nat := 3.

(** [L] is the state that makes the protected call; [None] stands for the
    pointer [NULL] when [to] itself is the state found by [state2normal]. *)
Definition lcuL_movefrom (aux : list lvalue) (L : option St) to from (n : nat) (msg : string)
    : option (lua_status * option St * St * St) :=
  let C := default to L in
  lcu_assert (n <=? lua_gettop from)%nat ≫= λ _,
  Some (
    if negb (lua_checkstack C (if (3 <? n)%nat then n + 1 + EXTRA else 4 + EXTRA))
       || negb (lua_checkstack to (n + EXTRA))
    then (LUA_ERRMEM, L, to, from)
    else
      let '(status, C) := pcall3 C aux (auxmovefrom from n msg) in
      let from := if decide (status = LUA_OK) then lua_pop from n else from in
      match L with
      | Some _ =>
          let '(C, to) := lua_xmove C to (if decide (status = LUA_OK) then n else 1) in
          (status, Some C, to, from)
      | None => (status, None, C, from)
      end).

Definition lcuL_pushfrom (aux : list lvalue) (L : option St) to from (idx : Z) (msg : string)
    : lua_status * option St * St :=
  let C := default to L in
  if negb (lua_checkstack to 4) then (LUA_ERRMEM, L, to)
  else
    let '(status, C) := pcall3 C aux (auxpushfrom from idx msg) in
    match L with
    | Some _ => let '(C, to) := lua_xmove C to 1 in (status, Some C, to)
    | None => (status, None, C)
    end.

(** ** Lemmas *)

Lemma values_push_all s vs : values (push_all s vs) = values s ++ vs.
Proof.
  revert s. induction vs as [| v vs IH]; intros s; simpl; [by rewrite app_nil_r |].
  rewrite IH, values_push. by rewrite <- app_assoc.
Qed.

Lemma pushfrom_spec v idx msg :
  pushfrom (Some v) idx msg =
    if transferable v then inr v else inl (doerrmsg idx msg (luaL_typename (Some v))).
Proof. by destruct v. Qed.

Lemma movefrom_loop_spec n k from l vs msg :
  values from = l ++ vs -> length vs = n ->
  (forall v, v ∈ vs -> transferable v = true) -> (forall i, mem i = true) ->
  movefrom_loop n k from (1 + Z.of_nat (length l)) msg = inr vs.
Proof.
  revert k l vs. induction n as [| n IH]; intros k l vs Hf Hn Ht Hm.
  - by destruct vs.
  - destruct vs as [| v vs]; [done |]. cbn [movefrom_loop].
    replace (1 + Z.of_nat (length l)) with (Z.of_nat (length l + 1)) by lia.
    rewrite (at_app _ _ _ _ Hf), pushfrom_spec, Ht, Hm by set_solver.
    replace (Z.of_nat (length l + 1) + 1) with (1 + Z.of_nat (length (l ++ [v])))
      by (rewrite length_app; simpl; lia).
    rewrite (IH _ _ vs); [done | by rewrite <- app_assoc | simpl in Hn; lia | | done].
    intros v' Hv'. apply Ht. set_solver.
Qed.

(** A value that cannot be copied makes the call fail, wherever it is. *)
Lemma movefrom_loop_error n k from l vs msg :
  values from = l ++ vs -> length vs = n ->
  (exists v, v ∈ vs /\ transferable v = false) ->
  exists st e, movefrom_loop n k from (1 + Z.of_nat (length l)) msg = inl (st, e) /\
    st <> LUA_OK.
Proof.
  revert k l vs. induction n as [| n IH]; intros k l vs Hf Hn (v & Hv & Ht).
  - destruct vs; [set_solver | done].
  - destruct vs as [| x vs]; [done |]. cbn [movefrom_loop].
    replace (1 + Z.of_nat (length l)) with (Z.of_nat (length l + 1)) by lia.
    rewrite (at_app _ _ _ _ Hf), pushfrom_spec.
    destruct (transferable x) eqn:Hx; [| by eexists _, _].
    destruct (mem k); [| by eexists _, _].
    replace (Z.of_nat (length l + 1) + 1) with (1 + Z.of_nat (length (l ++ [x])))
      by (rewrite length_app; simpl; lia).
    destruct (IH (S k) (l ++ [x]) vs) as (st & e & -> & Hst);
      [by rewrite <- app_assoc | simpl in Hn; lia | | by eexists _, _].
    exists v. split; [| done]. apply elem_of_cons in Hv as [-> |]; [congruence | done].
Qed.

Lemma pcall3_values s aux r :
  length aux = 4%nat ->
  values (pcall3 s aux r).2 =
    values s ++ match r with inr vs => vs | inl (_, e) => [e] end.
Proof.
  intros Ha. unfold pcall3.
  assert (values (lua_pop (push_all s aux) 4) = values s) as Hp.
  { apply values_pop with aux; [apply values_push_all | done]. }
  destruct r as [[st e] | vs]; cbn [snd]; by rewrite values_push_all, Hp.
Qed.

(** What the call pushed is what was asked for. *)
Lemma movefrom_loop_ok n k from l vs msg ws :
  values from = l ++ vs -> length vs = n ->
  movefrom_loop n k from (1 + Z.of_nat (length l)) msg = inr ws ->
  ws = vs /\ (forall v, v ∈ vs -> transferable v = true).
Proof.
  intros Hf Hn. revert k l vs ws Hf Hn. induction n as [| n IH]; intros k l vs ws Hf Hn.
  - destruct vs; [| done]. cbn. intros [= <-]. split; [done | set_solver].
  - destruct vs as [| x vs]; [done |]. cbn [movefrom_loop].
    replace (1 + Z.of_nat (length l)) with (Z.of_nat (length l + 1)) by lia.
    rewrite (at_app _ _ _ _ Hf), pushfrom_spec.
    destruct (transferable x) eqn:Hx; [| done]. destruct (mem k); [| done].
    replace (Z.of_nat (length l + 1) + 1) with (1 + Z.of_nat (length (l ++ [x])))
      by (rewrite length_app; simpl; lia).
    destruct (movefrom_loop n (S k) from _ msg) as [| ws'] eqn:Hl; [done |].
    intros [= <-]. destruct (IH (S k) (l ++ [x]) vs ws') as [-> Ht];
      [by rewrite <- app_assoc | simpl in Hn; lia | done |].
    split; [done |]. intros v [-> | Hv]%elem_of_cons; auto.
Qed.

(** Why the call may have failed. *)
Lemma movefrom_loop_failed n k from l vs msg st e :
  values from = l ++ vs -> length vs = n ->
  movefrom_loop n k from (1 + Z.of_nat (length l)) msg = inl (st, e) ->
  st <> LUA_OK /\
  ((forall i, mem i = true) -> ~ Forall (fun v => transferable v = true) vs).
Proof.
  intros Hf Hn Hr. split.
  - clear -Hr. revert k Hr. generalize (1 + Z.of_nat (length l)).
    induction n as [| n IH]; intros i k; cbn [movefrom_loop]; [done |].
    destruct (pushfrom _ _ _); [by intros [= <- _] |].
    destruct (mem k); [| by intros [= <- _]].
    destruct (movefrom_loop n (S k) from (i + 1) msg) as [[] |] eqn:Hl; [| done].
    intros [= <- <-]. by apply (IH _ _ Hl).
  - intros Hm Hall. rewrite (movefrom_loop_spec n k from l vs msg) in Hr; try done.
    by apply Forall_forall.
Qed.

Lemma auxmovefrom_eq from l vs msg :
  values from = l ++ vs ->
  auxmovefrom from (length vs) msg
    = movefrom_loop (length vs) 0 from (1 + Z.of_nat (length l)) msg.
Proof.
  intros Hf. unfold auxmovefrom, lua_gettop. rewrite Hf, length_app. f_equal. lia.
Qed.

(** The stacks after [lua_xmove]. *)
Lemma xmove_values from to l vs n :
  values from = l ++ vs -> length vs = n ->
  values (lua_xmove from to n).1 = l /\ values (lua_xmove from to n).2 = values to ++ vs.
Proof.
  intros Hf <-. unfold lua_xmove. cbn [fst snd]. rewrite values_push_all. split.
  - by apply values_pop with vs.
  - unfold lua_gettop. by rewrite Hf, length_app, Nat.add_sub, drop_app_length.
Qed.

Definition same_stack (a b : option St) : Prop :=
  match a, b with
  | Some a, Some b => values a = values b
  | None, None => True
  | _, _ => False
  end.

(** The outcomes of a move. *)
Lemma movefrom_spec (aux : list lvalue) (L : option St) to from
    (l vs : list lvalue) (msg : string)
    (Ha : length aux = 4%nat) (Hf : values from = l ++ vs) :
  exists status C to' from',
    lcuL_movefrom aux L to from (length vs) msg = Some (status, C, to', from') /\
    same_stack C L /\
    ((status = LUA_OK /\ values from' = l /\ values to' = values to ++ vs /\
      Forall (fun v => transferable v = true) vs) \/
     (status <> LUA_OK /\ from' = from /\
      (to' = to \/ exists e, values to' = values to ++ [e]))) /\
    ((forall n s, lua_checkstack (s : St) n = true) -> (forall i, mem i = true) ->
     Forall (fun v => transferable v = true) vs -> status = LUA_OK).
Proof.
  unfold lcuL_movefrom. rewrite lcu_assert_true; cbn [mbind option_bind]; last first.
  { apply Nat.leb_le. unfold lua_gettop. rewrite Hf, length_app. lia. }
  set (full := negb _ || negb _). destruct full eqn:Hfull.
  { eexists _, _, _, _. split; [done |]. split; [by destruct L |]. split; [auto |].
    intros Hc. unfold full in Hfull. by rewrite !Hc in Hfull. }
  rewrite (auxmovefrom_eq _ _ _ _ Hf).
  destruct (movefrom_loop (length vs) 0 from _ msg) as [[st e] | ws] eqn:Hr.
  - destruct (movefrom_loop_failed _ _ _ _ _ _ _ _ Hf eq_refl Hr) as [Hst Hno].
    pose proof (pcall3_values (default to L) aux (inl (st, e)) Ha) as Hp.
    unfold pcall3 in Hp |- *. cbn [snd] in Hp.
    rewrite !(decide_False (P := st = LUA_OK)) by done.
    destruct L as [C |]; cbn [default from_option] in Hp |- *.
    + destruct (xmove_values _ to _ _ 1 Hp eq_refl) as [H1 H2].
      destruct (lua_xmove _ to 1) as [C' to']. eexists _, _, _, _. split; [done |].
      split; [done |]. split; [right; eauto 10 |]. naive_solver.
    + eexists _, _, _, _. split; [done |]. split; [done |]. split; [right; eauto 10 |].
      naive_solver.
  - destruct (movefrom_loop_ok _ _ _ _ _ _ _ Hf eq_refl Hr) as [-> Ht].
    pose proof (pcall3_values (default to L) aux (inr vs) Ha) as Hp.
    unfold pcall3 in Hp |- *. cbn [snd] in Hp. rewrite !decide_True by done.
    assert (values (lua_pop from (length vs)) = l) as Hpop by (by apply values_pop with vs).
    apply Forall_forall in Ht.
    destruct L as [C |]; cbn [default from_option] in Hp |- *.
    + destruct (xmove_values _ to _ _ (length vs) Hp eq_refl) as [H1 H2].
      destruct (lua_xmove _ to (length vs)) as [C' to']. eexists _, _, _, _. split; [done |].
      split; [done |]. split; [left; auto | done].
    + eexists _, _, _, _. split; [done |]. split; [done |]. split; [left; auto | done].
Qed.

(** C6: moving the last [n] values of a state to another one succeeds with all
    of them or changes nothing but an error value: on success the source loses
    exactly these values and the target gains them in their order; otherwise the
    source is as it was and the target gains at most one value.  The state that
    makes the protected call is left as it was in both cases.  With values that
    can be copied, and memory and stack space for them, the call succeeds. *)
Theorem movefrom_all_or_nothing (aux : list lvalue) (L : option St) to from
    (l vs : list lvalue) (msg : string)
    (Ha : length aux = 4%nat) (Hf : values from = l ++ vs) :
  exists status C to' from',
    lcuL_movefrom aux L to from (length vs) msg = Some (status, C, to', from') /\
    same_stack C L /\
    ((status = LUA_OK /\ values from' = l /\ values to' = values to ++ vs /\
      Forall (fun v => transferable v = true) vs) \/
     (status <> LUA_OK /\ from' = from /\
      (to' = to \/ exists e, values to' = values to ++ [e]))) /\
    ((forall n s, lua_checkstack (s : St) n = true) -> (forall i, mem i = true) ->
     Forall (fun v => transferable v = true) vs -> status = LUA_OK).
Proof. by apply movefrom_spec. Qed.

(** Values that can be copied are accepted. *)
Lemma canmove_transferable L (l vs : list lvalue) (msg : string) :
  values L = l ++ vs -> Forall (fun v => transferable v = true) vs ->
  lcuL_canmove L (length vs) msg = (true, L).
Proof.
  intros HL Ht. unfold lcuL_canmove. generalize (Z.of_nat (length vs)) as N. intros N.
  revert l HL. induction Ht as [| v vs Hv Ht IH]; intros l HL; [done |]. cbn [length canmove_loop].
  rewrite (at_top L l v vs) by (done || cbn [length]; lia). rewrite Hv.
  apply (IH (l ++ [v])). by rewrite <- app_assoc.
Qed.

(** [LcuL_canmove] accepts the last [narg] values exactly when each of them
    can be copied; it then leaves the stack as it was, and otherwise it pushes a
    message about the first value that cannot be. *)
Theorem canmove_exact L (l vs : list lvalue) (msg : string) (HL : values L = l ++ vs) :
  let r := lcuL_canmove L (length vs) msg in
  (r.1 = true <-> Forall (fun v => transferable v = true) vs) /\
  (r.1 = true -> r.2 = L) /\
  (forall vs1 v vs2, vs = vs1 ++ v :: vs2 -> Forall (fun v => transferable v = true) vs1 ->
     transferable v = false ->
     values r.2 = values L ++
       [LString (doerrmsg (3 + Z.of_nat (length vs1)) msg (luaL_typename (Some v)))]).
Proof.
  unfold lcuL_canmove. set (N := Z.of_nat (length vs)).
  assert (forall vs2 vs1, vs = vs1 ++ vs2 ->
    let r := canmove_loop (length vs2) L N msg in
    (r.1 = true <-> Forall (fun v => transferable v = true) vs2) /\
    (r.1 = true -> r.2 = L) /\
    (forall vs3 v vs4, vs2 = vs3 ++ v :: vs4 -> Forall (fun v => transferable v = true) vs3 ->
      transferable v = false ->
      values r.2 = values L ++ [LString (doerrmsg (3 + Z.of_nat (length (vs1 ++ vs3))) msg
        (luaL_typename (Some v)))])) as Hloop.
  { induction vs2 as [| x vs2 IH]; intros vs1 Hvs.
    - cbn. split_and!; [by split | done |]. by intros [] ? ?.
    - cbn [length canmove_loop].
      rewrite (at_top L (l ++ vs1) x vs2) by (rewrite ?HL, ?Hvs, <- ?app_assoc; done || simpl; lia).
      destruct (transferable x) eqn:Hx.
      + specialize (IH (vs1 ++ [x])). rewrite <- app_assoc in IH. destruct (IH Hvs) as (H1 & H2 & H3).
        cbn zeta in *. split_and!; [by rewrite Forall_cons, H1; naive_solver | done |].
        intros [| y vs3] v vs4; intros [= -> ->]; [congruence |].
        intros [_ Hall]%Forall_cons Hv. rewrite (H3 _ _ _ eq_refl Hall Hv).
        by rewrite <- app_assoc.
      + cbn [fst snd]. split_and!; [| done |].
        * split; [done |]. intros [? _]%Forall_cons. congruence.
        * intros [| y vs3] v vs4; intros [= -> ->]; last (intros [? _]%Forall_cons; congruence).
          intros _ _. rewrite values_push, app_nil_r. do 4 f_equal.
          unfold N. rewrite Hvs, length_app. simpl. lia. }
  exact (Hloop vs [] eq_refl).
Qed.
End transfer.

Lemma movefrom_all_or_nothing_witness :
  exists C to' from',
    lcuL_movefrom (fun _ => true) LNil [LNil; LNil; LNil; LNil] (Some [LInteger 0])
      [LString "t"] [LString "f"; LInteger 5; LBoolean true] 2 "argument"
      = Some (LUA_OK, C, to', from') /\
    from' = [LString "f"] /\ to' = [LString "t"; LInteger 5; LBoolean true].
Proof.
  destruct (movefrom_all_or_nothing (LuaStack0 := list_stack) (fun _ => true) LNil [LNil; LNil; LNil; LNil]
    (Some [LInteger 0]) [LString "t"] [LString "f"; LInteger 5; LBoolean true]
    [LString "f"] [LInteger 5; LBoolean true] "argument" eq_refl eq_refl)
    as (st & C & to' & from' & Hm & _ & Hcase & Hok).
  assert (st = LUA_OK) as -> by (apply Hok; [done | done | by repeat constructor]).
  exists C, to', from'. split; [exact Hm |].
  destruct Hcase as [(_ & H1 & H2 & _) | [H _]]; [| done].
  exact (conj H1 H2).
Defined.

Lemma canmove_exact_witness :
  (lcuL_canmove [LInteger 1; LString "x"; LTable 4] 2 "argument").1 = false /\
  values (lcuL_canmove [LInteger 1; LString "x"; LTable 4] 2 "argument").2 =
    [LInteger 1; LString "x"; LTable 4;
     LString "unable to transfer argument #4 (got table)"].
Proof.
  split; [reflexivity |].
  exact (proj2 (proj2 (canmove_exact (LuaStack0 := list_stack) [LInteger 1; LString "x"; LTable 4] [LInteger 1]
    [LString "x"; LTable 4] "argument" eq_refl))
    [LString "x"] (LTable 4) [] eq_refl ltac:(by repeat constructor) eq_refl).
Defined.
