(* ===== verification/ChannelSwap.v ===== *)
(** * The exchange of arguments between two endpoints of a channel
    (src/src/lchaux.c, lines 93 to 175)

    When two endpoints match, [swapvalues] exchanges the arguments on the stacks
    of the two states in place, and leaves on each of them the results of its
    operation: true and the arguments of the other side, followed by their
    number. *)
From S2P Require Import Prelude LuaApi Transfer.

Definition LCU_CHSYNCIN : Z := 0x01.
Definition LCU_CHSYNCOUT : Z := 0x02.
Definition LCU_CHSYNCANY : Z := Z.lor LCU_CHSYNCIN LCU_CHSYNCOUT.

Section endpoints.
Context {St : Type} `{!LuaStack St}.
Implicit Types L : St.

(** How Lua writes a float: a function of the host. *)
Context (num2str : Z -> string).

(** [luaL_optstring(L, idx, "any")]: an absent or nil argument is "any"; another
    value that is neither a string nor a number raises an error ([None]). *)
Definition luaL_optstring L (idx : nat) (def : string) : option string :=
  match lua_at L (Z.of_nat idx) with
  | None | Some LNil => Some def
  | Some (LString s) => Some s
  | Some (LInteger i) => Some (fmt_int i)
  | Some (LNumber n) => Some (num2str n)
  | Some _ => None
  end.

Definition endpoint_of (name : string) : option Z :=
  if String.eqb name "in" then Some LCU_CHSYNCIN
  else if String.eqb name "out" then Some LCU_CHSYNCOUT
  else if String.eqb name "any" then Some LCU_CHSYNCANY
  else None.

(** The endpoint, or -1 with a message on the top of the stack. *)
Definition lcuCS_checksyncargs L (idx : nat) : option (Z * St) :=
  name ← luaL_optstring L idx "any";
  Some match endpoint_of name with
  | Some endpoint =>
      let narg := Z.of_nat (lua_gettop L) - Z.of_nat idx in
      if narg <=? 0 then (endpoint, L)
      else
        let '(ok, L) := lcuL_canmove L (Z.to_nat narg) "argument" in
        if ok : bool then (endpoint, L) else (-1, L)
  | None =>
      (-1, lua_push L (LString ("bad argument #2 (invalid option '" +:+ name +:+ "')")))
  end.

End endpoints.

(** Writing the first slot of the rest moves its border by one. *)
Lemma shift_slot (z : list lvalue) x :
  exists z' w, length z' = length z /\ forall y, z ++ x :: y = w :: z' ++ y.
Proof.
  destruct z as [| w z]; [by exists [], x |]. exists (z ++ [x]), w.
  rewrite length_app. cbn. split; [lia |]. intros y. by rewrite <- app_assoc.
Qed.

Section swap.
Context {St : Type} `{!LuaStack St}.
Implicit Types (L src dst : St).

(** The protected calls of an exchange are numbered; [mem k i] tells whether the
    [i]-th value pushed by the [k]-th of them has the memory it needs.  [aux]
    are the function and the arguments of a protected call. *)
Context (mem : nat -> nat -> bool) (memmsg : lvalue) (aux : list lvalue).

(** A protected call is made on the state itself or on its main state
    ([state2normal]), which it leaves as it was; only the target matters. *)
Definition pushfrom_k (k : nat) (to from : St) (idx : Z) (msg : string) : lua_status * St :=
  let '(status, _, to) := lcuL_pushfrom (mem k) memmsg aux None to from idx msg in
  (status, to).

Definition pusherrfrom (k : nat) L (base : nat) (failed : St) (bfailed : nat) : St * St :=
  let failed := lua_replace failed (bfailed + 1) in
  let failed := lua_settop failed (bfailed + 1) in
  let failed := lua_push failed (LBoolean false) in
  let failed := lua_insert failed (bfailed + 1) in
  let failed := lua_push failed (LInteger 2) in
  let L := lua_settop L base in
  let L := lua_push L (LBoolean false) in
  let L := (pushfrom_k k L failed (-1) "error").2 in
  (lua_push L (LInteger 2), failed).

(** The loop, with [n] iterations left and the counter at [i]: [inl] when one
    of the two copies failed. *)
Fixpoint swap_loop (n i k : nat) src (bsrc tsrc : nat) dst (bdst tdst : nat)
    : (St * St) + (St * St) :=
  match n with
  | O => inr (src, dst)
  | S n =>
      let '(err, src) := pushfrom_k k src dst (Z.of_nat (tdst + i)) "argument" in
      if decide (err <> LUA_OK) then
        let '(dst, src) := pusherrfrom (k + 1) dst bdst src bsrc in inl (src, dst)
      else
        let '(err, dst) := pushfrom_k (k + 1) dst src (Z.of_nat (tsrc + i)) "argument" in
        if decide (err <> LUA_OK) then
          let '(src, dst) := pusherrfrom (k + 2) src bsrc dst bdst in inl (src, dst)
        else
          let src := lua_replace src (bsrc + i + 1) in
          let dst := lua_replace dst (bdst + i + 1) in
          swap_loop n (i + 1) (k + 2) src bsrc tsrc dst bdst tdst
  end.

(** From the test of [ndst] on, with [ndst <= nsrc]; [None]: an assertion
    fails. *)
Definition swap_ordered src (bsrc nsrc : nat) dst (bdst ndst : nat) : option (St * St) :=
  let tsrc := (lua_gettop src - nsrc)%nat in
  let tdst := (lua_gettop dst - ndst)%nat in
  (if (ndst =? 0)%nat then Some tt
   else lcu_assert (bsrc <? tsrc)%nat ≫= λ _, lcu_assert (bdst <? tdst)%nat) ≫= λ _,
  match swap_loop ndst 1 0 src bsrc tsrc dst bdst tdst with
  | inl failed => Some failed
  | inr (src, dst) =>
      let dst := lua_settop dst (bdst + ndst + 1) in
      let k := (2 * ndst)%nat in
      r ← lcuL_movefrom (mem k) memmsg aux None dst src (nsrc - ndst) "argument";
      let '(err, _, dst, src) := r in
      if decide (err <> LUA_OK) then Some (pusherrfrom (k + 1) src bsrc dst bdst)
      else
        let src := lua_settop src (bsrc + ndst + 1) in
        let src := lua_push src (LBoolean true) in
        let src := lua_replace src (bsrc + 1) in
        lcu_assert (lua_gettop src =? bsrc + ndst + 1)%nat ≫= λ _,
        let src := lua_push src (LInteger (Z.of_nat (ndst + 1))) in
        let dst := lua_push dst (LBoolean true) in
        let dst := lua_replace dst (bdst + 1) in
        lcu_assert (lua_gettop dst =? bdst + nsrc + 1)%nat ≫= λ _,
        let dst := lua_push dst (LInteger (Z.of_nat (nsrc + 1))) in
        Some (src, dst)
  end.

(** The stacks of [src] and [dst] afterwards. *)
Definition swapvalues src (bsrc nsrc : nat) dst : option (St * St) :=
  let bdst := Z.to_nat (lua_tointeger dst (-2)) in
  let ndst := Z.to_nat (lua_tointeger dst (-1)) in
  let dst := lua_pop dst 2 in
  if (nsrc <? ndst)%nat then
    r ← swap_ordered dst bdst ndst src bsrc nsrc; Some (r.2, r.1)
  else swap_ordered src bsrc nsrc dst bdst ndst.

(** ** The exchange succeeds *)

Definition is_transferable (l : list lvalue) : Prop :=
  Forall (fun v => transferable v = true) l.

(** Memory and stack space are available. *)
Definition resources : Prop :=
  (forall k i, mem k i = true) /\ (forall (s : St) n, lua_checkstack s n = true).

Hypothesis Haux : length aux = 4%nat.

Lemma pushfrom_k_ok k to from l1 v l2 msg :
  resources -> values from = l1 ++ v :: l2 -> transferable v = true ->
  exists to', pushfrom_k k to from (Z.of_nat (length l1 + 1)) msg = (LUA_OK, to') /\
    values to' = values to ++ [v].
Proof using All.
  intros [Hm Hc] Hf Hv. unfold pushfrom_k, lcuL_pushfrom, auxpushfrom.
  rewrite Hc, (at_app _ _ _ _ Hf), pushfrom_spec, Hv, Hm. cbn [negb].
  eexists. split; [done |]. exact (pcall3_values to aux (inr [v]) Haux).
Qed.

(** After the loop the first [n] slots past the base hold the other side's
    values; what is left of the own arguments follows. *)
Lemma swap_loop_ok n i k src dst ls zs as1 as2 ld zd ad bsrc tsrc bdst tdst :
  resources -> is_transferable as1 -> is_transferable ad ->
  length as1 = n -> length ad = n ->
  values src = ls ++ zs ++ as1 ++ as2 -> values dst = ld ++ zd ++ ad ->
  (bsrc + i = length ls)%nat -> (tsrc + i = length ls + length zs + 1)%nat ->
  (bdst + i = length ld)%nat -> (tdst + i = length ld + length zd + 1)%nat ->
  exists src' dst', swap_loop n i k src bsrc tsrc dst bdst tdst = inr (src', dst') /\
    values src' = ls ++ ad ++ drop n (zs ++ as1) ++ as2 /\
    values dst' = ld ++ as1 ++ drop n (zd ++ ad).
Proof using All.
  intros Hres. revert i k src dst ls zs as1 ld zd ad.
  induction n as [| n IH]; intros i k src dst ls zs as1 ld zd ad Ht1 Ht2 Hn1 Hn2 Hs Hd H1 H2 H3 H4.
  - destruct as1, ad; try done. exists src, dst. cbn. rewrite drop_0, !app_nil_r in *.
    by rewrite drop_0.
  - destruct as1 as [| a as1], ad as [| b ad]; try done. cbn [swap_loop].
    apply Forall_cons in Ht1 as [Ha Ht1], Ht2 as [Hb Ht2].
    destruct (pushfrom_k_ok k src dst (ld ++ zd) b ad "argument") as (src1 & Hp1 & Hv1);
      [done | by rewrite <- app_assoc | done |].
    replace (tdst + i)%nat with (length (ld ++ zd) + 1)%nat by (rewrite length_app; lia).
    rewrite Hp1, decide_False by naive_solver. rewrite Hs in Hv1.
    destruct (pushfrom_k_ok (k + 1) dst src1 (ls ++ zs) a (as1 ++ as2 ++ [b]) "argument")
      as (dst1 & Hp2 & Hv2); [done | rewrite Hv1; by simplify_list_eq | done |].
    replace (tsrc + i)%nat with (length (ls ++ zs) + 1)%nat by (rewrite length_app; lia).
    rewrite Hp2, decide_False by naive_solver. rewrite Hd in Hv2.
    destruct (shift_slot zs a) as (zs' & ws & Hlzs & Hzs).
    destruct (shift_slot zd b) as (zd' & wd & Hlzd & Hzd).
    assert (values (lua_replace src1 (bsrc + i + 1)) = (ls ++ [b]) ++ zs' ++ as1 ++ as2) as Hv3.
    { rewrite (values_replace_app src1 ls ws (zs' ++ as1 ++ as2) b); [by simplify_list_eq | | lia].
      rewrite Hv1. cbn. simplify_list_eq. by rewrite Hzs. }
    assert (values (lua_replace dst1 (bdst + i + 1)) = (ld ++ [a]) ++ zd' ++ ad) as Hv4.
    { rewrite (values_replace_app dst1 ld wd (zd' ++ ad) a); [by simplify_list_eq | | lia].
      rewrite Hv2. simplify_list_eq. by rewrite Hzd. }
    destruct (IH (i + 1)%nat (k + 2)%nat (lua_replace src1 (bsrc + i + 1))
      (lua_replace dst1 (bdst + i + 1)) (ls ++ [b]) zs' as1 (ld ++ [a]) zd' ad Ht1 Ht2)
      as (src' & dst' & -> & Hr1 & Hr2); try done; try (rewrite length_app; simpl; lia);
      try (simpl in Hn1, Hn2; lia).
    exists src', dst'. split; [done |]. rewrite Hr1, Hr2, Hzs, Hzd. by simplify_list_eq.
Qed.
(** Where the arguments of an operation are: [args] are on the top of the stack,
    and past the base there is a slot below them (the channel, or a
    placeholder). *)
Definition args_at (s : list lvalue) (b args : list lvalue) : Prop :=
  exists z, s = b ++ z ++ args /\ (args <> [] -> z <> []).

(** The results of an operation that succeeded. *)
Definition results (b args : list lvalue) : list lvalue :=
  b ++ LBoolean true :: args ++ [LInteger (Z.of_nat (length args + 1))].

(** The first result and the count, once the other results are in place. *)
Lemma finish_side s b x args n :
  values s = b ++ x :: args -> n = length args ->
  let s := lua_replace (lua_push s (LBoolean true)) (length b + 1) in
  lua_gettop s = (length b + n + 1)%nat /\
  values (lua_push s (LInteger (Z.of_nat (n + 1)))) = results b args.
Proof using All.
  intros Hs -> s1. assert (values s1 = b ++ LBoolean true :: args) as Hv.
  { apply (values_replace_app _ b x args); [| done]. rewrite values_push, Hs.
    by simplify_list_eq. }
  split.
  - unfold lua_gettop. rewrite Hv, length_app. simpl. lia.
  - rewrite values_push, Hv. unfold results. by simplify_list_eq.
Qed.

(** A target without arguments may have no slot past the base. *)
Lemma settop_slot s b z :
  values s = b ++ z -> exists x, values (lua_settop s (length b + 0 + 1)) = b ++ [x].
Proof using All.
  intros Hs. rewrite values_settop, Hs. destruct z as [| x z].
  - exists LNil. rewrite app_nil_r, resize_ge by lia.
    by replace (length b + 0 + 1 - length b)%nat with 1%nat by lia.
  - exists x. rewrite (resize_app_ge b) by lia.
    replace (length b + 0 + 1 - length b)%nat with 1%nat by lia. cbn. by rewrite resize_0.
Qed.

Lemma movefrom_ok k (to from : St) l vs msg :
  resources -> is_transferable vs -> values from = l ++ vs ->
  exists to' from',
    lcuL_movefrom (mem k) memmsg aux None to from (length vs) msg
      = Some (LUA_OK, None, to', from') /\
    values to' = values to ++ vs /\ values from' = l.
Proof using All.
  intros [Hm Hc] Ht Hf.
  destruct (movefrom_spec (mem k) memmsg aux None to from l vs msg Haux Hf)
    as (st & C & to' & from' & -> & HC & Hcase & Hok).
  rewrite Hok in Hcase |- * by done.
  destruct Hcase as [(_ & ? & ? & _) | [? _]]; [| done].
  destruct C; [done |]. by exists to', from'.
Qed.

(** What follows the loop, in terms of the stacks it leaves. *)
Definition after_loop (src : St) (bsrc nsrc : nat) (dst : St) (bdst ndst : nat)
    : option (St * St) :=
  let dst := lua_settop dst (bdst + ndst + 1) in
  let k := (2 * ndst)%nat in
  r ← lcuL_movefrom (mem k) memmsg aux None dst src (nsrc - ndst) "argument";
  let '(err, _, dst, src) := r in
  if decide (err <> LUA_OK) then Some (pusherrfrom (k + 1) src bsrc dst bdst)
  else
    let src := lua_settop src (bsrc + ndst + 1) in
    let src := lua_push src (LBoolean true) in
    let src := lua_replace src (bsrc + 1) in
    lcu_assert (lua_gettop src =? bsrc + ndst + 1)%nat ≫= λ _,
    let src := lua_push src (LInteger (Z.of_nat (ndst + 1))) in
    let dst := lua_push dst (LBoolean true) in
    let dst := lua_replace dst (bdst + 1) in
    lcu_assert (lua_gettop dst =? bdst + nsrc + 1)%nat ≫= λ _,
    let dst := lua_push dst (LInteger (Z.of_nat (nsrc + 1))) in
    Some (src, dst).

Lemma after_loop_ok src dst bs bd m c d ad as1 as2 nsrc :
  resources -> is_transferable as2 -> length as1 = length ad ->
  nsrc = (length as1 + length as2)%nat ->
  values (lua_settop dst (length bd + length ad + 1)) = bd ++ d :: as1 ->
  values src = m ++ as2 ->
  (forall s, values s = m -> values (lua_settop s (length bs + length ad + 1)) = bs ++ c :: ad) ->
  exists src' dst',
    after_loop src (length bs) nsrc dst (length bd) (length ad) = Some (src', dst') /\
    values src' = results bs ad /\ values dst' = results bd (as1 ++ as2).
Proof using All.
  intros Hres Ht Hl -> Hd Hs Hm. unfold after_loop. set (dst1 := lua_settop dst _) in *.
  replace (length as1 + length as2 - length ad)%nat with (length as2) by lia.
  destruct (movefrom_ok (2 * length ad) dst1 src m as2 "argument" Hres Ht Hs)
    as (dst2 & src2 & -> & Hd2 & Hs2).
  cbn [mbind option_bind]. rewrite decide_False by naive_solver.
  destruct (finish_side (lua_settop src2 (length bs + length ad + 1)) bs c ad (length ad))
    as [Hg1 Hr1]; [by apply Hm | done |].
  rewrite Hd, <- app_assoc in Hd2. cbn [app] in Hd2.
  destruct (finish_side dst2 bd d (as1 ++ as2) (length as1 + length as2)) as [Hg2 Hr2];
    [done | by rewrite length_app |].
  cbn zeta. rewrite Hg1, Nat.eqb_refl. cbn [lcu_assert mbind option_bind].
  rewrite Hg2, Nat.eqb_refl.
  cbn [lcu_assert mbind option_bind]. eexists _, _. split; [done |]. split; [done |].
  exact Hr2.
Qed.

Lemma swap_ordered_ok src dst bs bd ss sd args1 args2 :
  resources -> is_transferable args1 -> is_transferable args2 ->
  (length args2 <= length args1)%nat ->
  values src = ss -> args_at ss bs args1 -> values dst = sd -> args_at sd bd args2 ->
  exists src' dst',
    swap_ordered src (length bs) (length args1) dst (length bd) (length args2)
      = Some (src', dst') /\
    values src' = results bs args2 /\ values dst' = results bd args1.
Proof using All.
  intros Hres Ht1 Ht2 Hle Hs (zs & -> & Hzs) Hd (zd & -> & Hzd).
  unfold swap_ordered. destruct args2 as [| a2 args2].
  - cbn [length Nat.eqb mbind option_bind swap_loop]. rewrite app_nil_r in Hd.
    destruct (settop_slot dst bd zd Hd) as [d Hd1].
    apply (after_loop_ok src dst bs bd (bs ++ zs) (default LNil (list.head zs)) d [] [] args1);
      try done; [by rewrite <- app_assoc |].
    intros s Hsv. rewrite values_settop, Hsv. cbn [length].
    rewrite (resize_app_ge bs) by lia.
    replace (length bs + 0 + 1 - length bs)%nat with 1%nat by lia.
    destruct zs; [done |]. cbn. by rewrite resize_0.
  - destruct args1 as [| a1 args1]; [cbn in Hle; lia |].
    destruct zs as [| c zs]; [by destruct (Hzs ltac:(done)) |].
    destruct zd as [| d zd]; [by destruct (Hzd ltac:(done)) |].
    set (A := a1 :: args1) in *. set (B := a2 :: args2) in *.
    assert ((length B =? 0)%nat = false) as -> by done. clearbody A B.
    assert (lua_gettop src = length bs + (1 + length zs + length A))%nat as Hgs
      by (unfold lua_gettop; rewrite Hs, !length_app; done).
    assert (lua_gettop dst = length bd + (1 + length zd + length B))%nat as Hgd
      by (unfold lua_gettop; rewrite Hd, !length_app; done).
    rewrite !lcu_assert_true; cbn [mbind option_bind]; [| apply Nat.ltb_lt; lia ..].
    rewrite <- (take_drop (length B) A) in Ht1, Hs. apply Forall_app in Ht1 as [Hta Htb].
    assert (length (take (length B) A) = length B) as Hlt by (rewrite length_take; lia).
    destruct (swap_loop_ok (length B) 1 0 src dst (bs ++ [c]) zs (take (length B) A)
      (drop (length B) A) (bd ++ [d]) zd B (length bs) (lua_gettop src - length A)
      (length bd) (lua_gettop dst - length B)) as (src1 & dst1 & -> & Hs1 & Hd1);
      try done; try (by simplify_list_eq); try (rewrite ?Hgs, ?Hgd, length_app; simpl; lia).
    destruct (after_loop_ok src1 dst1 bs bd
      (bs ++ c :: B ++ drop (length B) (zs ++ take (length B) A)) c d B
      (take (length B) A) (drop (length B) A) (length A)) as (s' & d' & Hx & Hr1 & Hr2); try done.
    + rewrite length_drop, Hlt. lia.
    + apply (values_settop_app dst1 _ (drop (length B) (zd ++ B))); [by simplify_list_eq |].
      rewrite length_app. simpl. lia.
    + rewrite Hs1. by simplify_list_eq.
    + intros s Hsv. apply (values_settop_app s _ (drop (length B) (zs ++ take (length B) A)));
        [rewrite Hsv; by simplify_list_eq |].
      rewrite length_app. simpl. lia.
    + exists s', d'. split; [exact Hx |]. by rewrite take_drop in Hr2.
Qed.

(** The exchange between an operation and a suspended one. *)
Lemma swap_exchanged (src dst : St) (bs bd ss sd args1 args2 : list lvalue)
    (Hres : resources) (Ht1 : is_transferable args1) (Ht2 : is_transferable args2)
    (Hs : values src = ss) (Hss : args_at ss bs args1)
    (Hd : values dst = sd ++ [LInteger (Z.of_nat (length bd));
                              LInteger (Z.of_nat (length args2))])
    (Hsd : args_at sd bd args2) :
  exists src' dst',
    swapvalues src (length bs) (length args1) dst = Some (src', dst') /\
    values src' = results bs args2 /\ values dst' = results bd args1.
Proof using All.
  unfold swapvalues, lua_tointeger.
  rewrite (at_top dst _ _ _ (-2) Hd) by done.
  rewrite (at_top dst (sd ++ [LInteger (Z.of_nat (length bd))]) _ [] (-1))
    by (rewrite ?Hd, <- ?app_assoc; done).
  rewrite !Nat2Z.id.
  assert (values (lua_pop dst 2) = sd) as Hp by (by apply (values_pop _ _ _ _ Hd)).
  destruct (Nat.ltb_spec (length args1) (length args2)).
  - destruct (swap_ordered_ok (lua_pop dst 2) src bd bs sd ss args2 args1)
      as (dst' & src' & -> & H1 & H2); try done; [lia |]. by exists src', dst'.
  - by apply (swap_ordered_ok src (lua_pop dst 2) bs bd ss sd).
Qed.

(** C7: for any numbers of arguments on the two sides (also none), when an
    operation with the arguments [args1] meets a suspended one with the
    arguments [args2], both stacks keep what is below their base and each side
    gets true followed by exactly the arguments of the other side, in order,
    and the number of these results; no assertion fails.  [dst] is the
    suspended side: its base and number of arguments are on the top. *)
Theorem swap_exchanges (src dst : St) (bs bd ss sd args1 args2 : list lvalue)
    (Hres : resources) (Ht1 : is_transferable args1) (Ht2 : is_transferable args2)
    (Hs : values src = ss) (Hss : args_at ss bs args1)
    (Hd : values dst = sd ++ [LInteger (Z.of_nat (length bd));
                              LInteger (Z.of_nat (length args2))])
    (Hsd : args_at sd bd args2) :
  exists src' dst',
    swapvalues src (length bs) (length args1) dst = Some (src', dst') /\
    values src' = results bs args2 /\ values dst' = results bd args1.
Proof using All. by apply swap_exchanged with ss sd. Qed.

(** When a copy fails, the side where it failed gets false and the error
    [e], as documented; but the other side gets false and the integer 2, not the
    error: the index -1 that [pusherrfrom] copies from is by then the number of
    results it has just pushed. *)
Theorem pusherrfrom_loses_error (L failed : St) (k : nat)
    (bl below bf mid : list lvalue) (slot e : lvalue)
    (Hres : resources) (HL : values L = bl ++ below)
    (Hf : values failed = bf ++ slot :: mid ++ [e]) :
  let '(L', failed') := pusherrfrom k L (length bl) failed (length bf) in
  values failed' = bf ++ [LBoolean false; e; LInteger 2] /\
  values L' = bl ++ [LBoolean false; LInteger 2; LInteger 2].
Proof using All.
  unfold pusherrfrom.
  set (f1 := lua_settop (lua_replace failed (length bf + 1)) (length bf + 1)).
  assert (values f1 = bf ++ [e]) as Hf1.
  { apply (values_settop_app _ _ mid); [| by rewrite length_app].
    rewrite (values_replace_app failed bf slot mid e) by done. by rewrite <- app_assoc. }
  set (f2 := lua_insert _ _).
  assert (values f2 = bf ++ [LBoolean false; e]) as Hf2.
  { apply (values_insert _ bf [e]). rewrite values_push, Hf1. by rewrite <- app_assoc. }
  set (L1 := lua_push (lua_settop L (length bl)) _).
  assert (values L1 = bl ++ [LBoolean false]) as HL1.
  { unfold L1. by rewrite values_push, (values_settop_app L bl below). }
  set (f3 := lua_push f2 _).
  assert (values f3 = (bf ++ [LBoolean false; e]) ++ [LInteger 2]) as Hf3
    by (unfold f3; by rewrite values_push, Hf2).
  split; [rewrite Hf3; by simplify_list_eq |].
  unfold pushfrom_k, lcuL_pushfrom, auxpushfrom. destruct Hres as [Hm Hc].
  rewrite Hc, (at_top f3 _ _ [] (-1) Hf3) by done. cbn [pushfrom negb].
  rewrite Hm. rewrite values_push.
  pose proof (pcall3_values L1 aux (inr [LInteger 2]) Haux) as Hp.
  cbn [default from_option pcall3 snd] in Hp |- *. rewrite Hp, HL1. by simplify_list_eq.
Qed.
End swap.

Lemma resources_list : resources (St := list lvalue) (fun _ _ => true).
Proof. by split. Qed.

Lemma swap_exchanges_witness :
  exists src' dst' : list lvalue,
    swapvalues (fun _ _ => true) LNil [LNil; LNil; LNil; LNil]
      [LUserdata 3; LString "out"; LString "hello"; LInteger 5] 1 2
      [LString "chan"; LString "in"; LBoolean true; LInteger 0; LInteger 1]
      = Some (src', dst') /\
    src' = [LUserdata 3; LBoolean true; LBoolean true; LInteger 2] /\
    dst' = [LBoolean true; LString "hello"; LInteger 5; LInteger 3].
Proof.
  refine (swap_exchanges (LuaStack0 := list_stack) (fun _ _ => true) LNil
    [LNil; LNil; LNil; LNil] eq_refl
    [LUserdata 3; LString "out"; LString "hello"; LInteger 5]
    [LString "chan"; LString "in"; LBoolean true; LInteger 0; LInteger 1]
    [LUserdata 3] [] _ [LString "chan"; LString "in"; LBoolean true]
    [LString "hello"; LInteger 5] [LBoolean true] resources_list _ _ eq_refl _ eq_refl _).
  - by repeat constructor.
  - by repeat constructor.
  - by exists [LString "out"].
  - by exists [LString "chan"; LString "in"].
Defined.

Lemma pusherrfrom_loses_error_witness :
  (pusherrfrom (fun _ _ => true) LNil [LNil; LNil; LNil; LNil] 0
     [LUserdata 3; LString "out"] 1 [LNil; LString "x"; LString "not enough memory"] 0).1
  = [LUserdata 3; LBoolean false; LInteger 2; LInteger 2].
Proof.
  exact (proj2 (pusherrfrom_loses_error (LuaStack0 := list_stack) (fun _ _ => true) LNil
    [LNil; LNil; LNil; LNil] eq_refl [LUserdata 3; LString "out"]
    [LNil; LString "x"; LString "not enough memory"] 0 [LUserdata 3] [LString "out"] []
    [LString "x"] LNil (LString "not enough memory") resources_list eq_refl eq_refl)).
Defined.
