(* ===== verification/ChannelSync.v ===== *)
(** * Matching of channel operations (src/src/lchaux.c, lines 200 to 240)

    [lcuCS_matchchsync] decides, for an operation on a channel, whether it meets
    a suspended one or has to wait.  The queue of suspended operations and the
    mask of the endpoints they expect refine the list of those that wait. *)
From S2P Require Import Prelude LuaApi StateQ Transfer ChannelSwap.

(** ** Matching *)

Module Match.
Section matching.
Context {Q : Type} `{!StateQueue Q}.

Record lcu_ChannelSync := Sync { refcount : Z; expected : Z; squeue : Q }.
Implicit Types sync : lcu_ChannelSync.

Definition set_expected e sync := Sync (refcount sync) e (squeue sync).
Definition set_queue q sync := Sync (refcount sync) (expected sync) q.

(** The test of [lcuCS_matchchsync], up to the state it dequeues.  [None]: the
    queue is not empty and no state is dequeued. *)
Definition matchsync_select sync (endpoint : Z)
    : option (option lua_State * lcu_ChannelSync) :=
  if q_empty (squeue sync) then
    Some (None, set_expected
      (if endpoint =? LCU_CHSYNCANY then LCU_CHSYNCANY
       else Z.lxor endpoint LCU_CHSYNCANY) sync)
  else if ctrue (Z.land (expected sync) endpoint) then
    match q_dequeue (squeue sync) with
    | (Some L, q) => Some (Some L, set_queue q sync)
    | (None, _) => None
    end
  else Some (None, sync).

Definition matchsync_wait sync (L : lua_State) : option lcu_ChannelSync :=
  q ← q_enqueue (squeue sync) L; Some (set_queue q sync).

(** The whole function, on the stacks of all states.  [getstate] gives the state
    to suspend in place of [L], if any; [swap] is [swapvalues].  The results are
    the value returned and the state that matched. *)
Context {St : Type} `{!LuaStack St}.

Definition lcuCS_matchchsync
    (swap : St -> nat -> nat -> St -> option (St * St))
    (getstate : option (gmap lua_State St -> option lua_State * gmap lua_State St))
    sync (endpoint : Z) (stacks : gmap lua_State St) (L : lua_State) (base narg : nat)
    : option (bool * option lua_State * lcu_ChannelSync * gmap lua_State St) :=
  let narg := if (2 <? narg)%nat then (narg - 2)%nat else 0%nat in
  r ← matchsync_select sync endpoint;
  let '(found, sync) := r in
  match found with
  | Some m =>
      src ← stacks !! L;
      dst ← stacks !! m;
      s ← swap src base narg dst;
      Some (true, Some m, sync, <[m := s.2]> (<[L := s.1]> stacks))
  | None =>
      match getstate with
      | Some getstate =>
          match getstate stacks with
          | (None, stacks) => Some (true, None, sync, stacks)
          | (Some cL, stacks) =>
              sync ← matchsync_wait sync cL; Some (false, None, sync, stacks)
          end
      | None =>
          src ← stacks !! L;
          let src := lua_push src (LInteger (Z.of_nat base)) in
          let src := lua_push src (LInteger (Z.of_nat narg)) in
          sync ← matchsync_wait sync L;
          Some (false, None, sync, <[L := src]> stacks)
      end
  end.

(** *** What a channel promises

    Operations are served in the order of their arrival; an operation meets the
    oldest suspended one when their endpoints are compatible, and waits
    otherwise. *)
Definition is_endpoint (e : Z) : Prop :=
  e = LCU_CHSYNCIN \/ e = LCU_CHSYNCOUT \/ e = LCU_CHSYNCANY.

Definition compatible (e1 e2 : Z) : bool :=
  (e1 =? LCU_CHSYNCANY) || (e2 =? LCU_CHSYNCANY) || negb (e1 =? e2).

(** An operation arrives at the channel, or a suspended one is cancelled. *)
Inductive sync_op := Arrive (L : lua_State) (endpoint : Z) | Cancel (L : lua_State).

Definition sync_run sync (o : sync_op) : option (option lua_State * lcu_ChannelSync) :=
  match o with
  | Arrive L e =>
      r ← matchsync_select sync e;
      match r.1 with
      | Some m => Some r
      | None => sync ← matchsync_wait r.2 L; Some (None, sync)
      end
  | Cancel L => r ← q_remove (squeue sync) L; Some (r.1, set_queue r.2 sync)
  end.

Fixpoint syncs_run sync (ops : list sync_op)
    : option (list (option lua_State) * lcu_ChannelSync) :=
  match ops with
  | [] => Some ([], sync)
  | o :: ops =>
      r ← sync_run sync o; r' ← syncs_run r.2 ops; Some (r.1 :: r'.1, r'.2)
  end.

Definition waiting := list (lua_State * Z).

Definition sync_spec (ws : waiting) (o : sync_op) : option lua_State * waiting :=
  match o with
  | Arrive L e =>
      match ws with
      | (m, e') :: ws' => if compatible e' e then (Some m, ws') else (None, ws ++ [(L, e)])
      | [] => (None, [(L, e)])
      end
  | Cancel L =>
      if decide (L ∈ ws.*1) then (Some L, filter (fun w => w.1 <> L) ws) else (None, ws)
  end.

Fixpoint syncs_spec (ws : waiting) (ops : list sync_op) : list (option lua_State) * waiting :=
  match ops with
  | [] => ([], ws)
  | o :: ops =>
      let r := sync_spec ws o in let r' := syncs_spec r.2 ops in (r.1 :: r'.1, r'.2)
  end.

(** A suspended state does not start another operation. *)
Fixpoint syncs_ok (ws : waiting) (ops : list sync_op) : Prop :=
  match ops with
  | [] => True
  | o :: ops =>
      match o with
      | Arrive L e => is_endpoint e /\ L ∉ ws.*1
      | Cancel _ => True
      end /\ syncs_ok (sync_spec ws o).2 ops
  end.

(** The suspended operations of a channel have the same endpoint, and the mask
    is made of the endpoints that meet it. *)
Definition sync_repr sync (ws : waiting) : Prop :=
  q_repr (squeue sync) ws.*1 /\
  exists e, is_endpoint e /\ Forall (fun w => w.2 = e) ws /\
    (ws <> [] -> expected sync = if e =? LCU_CHSYNCANY then e else Z.lxor e LCU_CHSYNCANY) /\
    (e = LCU_CHSYNCANY -> (length ws <= 1)%nat).

Lemma expected_compatible e1 e2 : is_endpoint e1 -> is_endpoint e2 ->
  ctrue (Z.land (if e1 =? LCU_CHSYNCANY then e1 else Z.lxor e1 LCU_CHSYNCANY) e2)
    = compatible e1 e2.
Proof. by intros [-> | [-> | ->]] [-> | [-> | ->]]. Qed.

Lemma incompatible_same e1 e2 :
  compatible e1 e2 = false -> e1 = e2 /\ e1 <> LCU_CHSYNCANY.
Proof. unfold compatible. intros H. split; lia. Qed.

Lemma sync_run_refines sync ws o :
  sync_repr sync ws ->
  match o with Arrive L e => is_endpoint e /\ L ∉ ws.*1 | Cancel _ => True end ->
  exists sync', sync_run sync o = Some ((sync_spec ws o).1, sync') /\
    sync_repr sync' (sync_spec ws o).2.
Proof.
  intros (Hq & e & He & Hall & Hexp & Hany) Hok. destruct o as [L e' | L]; cbn [sync_run].
  - destruct Hok as [He' HL]. unfold matchsync_select. rewrite (q_empty_repr _ _ Hq).
    destruct ws as [| [m em] ws].
    + rewrite bool_decide_true by done. cbn [mbind option_bind fst snd].
      unfold matchsync_wait. set (sync1 := set_expected _ sync).
      destruct (q_enqueue_repr (squeue sync1) [] L Hq) as (q & -> & Hq'); [set_solver |].
      eexists. split; [done |]. split; [done |]. exists e'.
      split; [done |]. split; [by repeat constructor |]. split; [| done].
      intros _. cbn. destruct (Z.eqb_spec e' LCU_CHSYNCANY) as [-> |]; done.
    + rewrite bool_decide_false by done. rewrite (Hexp ltac:(done)).
      apply Forall_cons in Hall as [<- Hall]. cbn [snd] in *.
      rewrite expected_compatible by done. cbn [sync_spec fmap list_fmap].
      destruct (compatible em e') eqn:Hcomp.
      * destruct (q_dequeue_repr _ _ Hq) as (q & Hdq & Hq'). cbn [list.head fmap list_fmap fst] in Hdq.
        rewrite Hdq. cbn. eexists. split; [done |]. split; [done |]. exists em.
        split; [done |]. split; [done |]. split; [intros _; by apply Hexp |].
        intros ->. specialize (Hany eq_refl). simpl in Hany. simpl. lia.
      * apply incompatible_same in Hcomp as [<- Hne]. cbn [mbind option_bind fst snd].
        unfold matchsync_wait.
        destruct (q_enqueue_repr (squeue sync) _ L Hq HL) as (q & -> & Hq').
        eexists. split; [done |]. split; [cbn; by rewrite fmap_app |]. exists em.
        split; [done |]. split; [| split; [intros _; by apply Hexp | done]].
        constructor; [done |]. apply Forall_app. split; [done | by repeat constructor].
  - cbn [sync_spec]. destruct (decide (L ∈ ws.*1)) as [Hin | Hin].
    + apply list_elem_of_fmap in Hin as ([L' el] & -> & Hin).
      apply list_elem_of_split in Hin as (w1 & w2 & ->). cbn [fst].
      pose proof (q_repr_NoDup _ _ Hq) as Hnd. rewrite fmap_app in Hq. cbn in Hq.
      destruct (q_remove_repr _ _ _ _ Hq) as (q & -> & Hq').
      cbn [mbind option_bind fst snd]. rewrite (filter_key w1 w2 L' el Hnd).
      eexists. split; [done |]. split; [by rewrite fmap_app |].
      exists e. split; [done |].
      apply Forall_app in Hall as [Ha1 [_ Ha2]%Forall_cons].
      split; [by apply Forall_app |]. split; [intros _; apply Hexp; by destruct w1 |].
      intros ->. specialize (Hany eq_refl). rewrite !length_app in *. simpl in Hany. lia.
    + rewrite (q_remove_absent _ _ _ Hq Hin). eexists. split; [done |].
      split; [done |]. by exists e.
Qed.

(** C8: whatever the sequence of operations and cancellations, the queue and
    the mask of expected endpoints of a channel behave as the list of suspended
    operations: an operation meets the oldest suspended one exactly when their
    endpoints are compatible (different, or one of them "any") and waits
    otherwise.  In particular two suspended operations are never compatible:
    all of them have the same endpoint, and "any" never waits behind another. *)
Theorem matchchsync_refines sync (ws : waiting) (ops : list sync_op)
    (Hs : sync_repr sync ws) (Hok : syncs_ok ws ops) :
  exists sync', syncs_run sync ops = Some ((syncs_spec ws ops).1, sync') /\
    q_repr (squeue sync') (syncs_spec ws ops).2.*1 /\
    (forall w1 w2 l1 l2 l3, (syncs_spec ws ops).2 = l1 ++ w1 :: l2 ++ w2 :: l3 ->
       compatible w1.2 w2.2 = false).
Proof.
  revert sync ws Hs Hok. induction ops as [| o ops IH]; intros sync ws Hs Hok.
  - exists sync. split; [done |]. destruct Hs as (Hq & e & He & Hall & _ & Hany).
    split; [done |]. intros w1 w2 l1 l2 l3 Hws. cbn in Hws.
    rewrite Hws in Hall, Hany.
    apply Forall_app in Hall as [_ [H1 [_ [H2 _]%Forall_cons]%Forall_app]%Forall_cons].
    rewrite H1, H2. destruct He as [-> | [-> | ->]]; try done.
    specialize (Hany eq_refl). rewrite !length_app in Hany. simpl in Hany.
    rewrite length_app in Hany. simpl in Hany. lia.
  - destruct Hok as [Ho Hok]. cbn [syncs_run syncs_spec].
    destruct (sync_run_refines sync ws o Hs Ho) as (sync1 & -> & Hs1). cbn.
    destruct (IH sync1 _ Hs1 Hok) as (sync' & -> & Hq & Hc). cbn. by exists sync'.
Qed.
End matching.
Arguments lcu_ChannelSync : clear implicits.

(** Two readers wait, one gives up, and a writer meets the other. *)
Lemma matchchsync_refines_witness :
  let sync := Sync 1 0 (q_init (Q := owned_queue)) in
  let ops := [Arrive 10 LCU_CHSYNCIN; Arrive 11 LCU_CHSYNCIN; Cancel 10;
              Arrive 12 LCU_CHSYNCOUT; Arrive 13 LCU_CHSYNCANY]%positive in
  exists sync', syncs_run sync ops
    = Some ([None; None; Some 10%positive; Some 11%positive; None], sync') /\
    q_repr (squeue sync') [13%positive].
Proof.
  intros sync ops.
  destruct (matchchsync_refines sync [] ops) as (sync' & Hr & Hq & _).
  - split; [apply q_init_repr |]. exists LCU_CHSYNCIN.
    split; [by left |]. split; [constructor |]. done.
  - cbn. unfold is_endpoint. repeat split; auto; set_solver.
  - exists sync'. exact (conj Hr Hq).
Defined.
End Match.
