(* ===== verification/ChannelMap.v ===== *)
(** * Named channels and the tasks that wait on them
    (src/src/lchaux.c, lines 177 to 198 and 235 to 350)

    A task suspends itself on all of its channel objects at once
    ([lcuCS_suspendedchtask]) and is resumed by the first of them that is
    matched ([getsuspendedtask]).  Channels are found by name in a map that
    counts the references to each of them; when the process ends
    [channelmap_gc] closes the states that still wait. *)
From S2P Require Import Prelude StateQ ChannelSync.
Import Match.

(** ** Suspension and wake-up of a task *)

Module ChannelTask.

Record lcu_ChannelTask := CTask { wakes : Z; taskL : option lua_State }.

(** What the registry of a state has in [LCU_CHANNELTASKREGKEY]: a light
    userdata (maybe a null one) in the state of a channel, anything else in
    others. *)
Inductive chreg := RegOther | RegLight (channeltask : option positive).

Inductive wake_effect := AsyncSend (channel : lua_State).

Definition task_store := gmap positive lcu_ChannelTask.

(** The task to resume, if any.  [None]: the task pointer is dangling. *)
Definition getsuspendedtask (reg : lua_State -> chreg) (tasks : task_store) (L : lua_State)
    : option (option lua_State * task_store * list wake_effect) :=
  match reg L with
  | RegLight channeltask =>
      match channeltask with
      | None => Some (None, tasks, [AsyncSend L])
      | Some p =>
          t ← tasks !! p;
          Some (taskL t, <[p := CTask (wakes t + 1) None]> tasks, [AsyncSend L])
      end
  | RegOther => Some (Some L, tasks, [])
  end.

(** [arg]: the channel task that the task yielded, if it is one.  The result
    tells whether the task is suspended. *)
Definition lcuCS_suspendedchtask (tasks : task_store) (arg : option positive) (L : lua_State)
    : option (bool * task_store) :=
  match arg with
  | None => Some (false, tasks)
  | Some p =>
      t ← tasks !! p;
      if wakes t =? 0 then Some (true, <[p := CTask (wakes t) (Some L)]> tasks)
      else Some (false, tasks)
  end.

(** The part of [uv_onsynced] (lchannem.c) that takes the wake-up back. *)
Definition onsynced_wake (tasks : task_store) (p : positive) : option task_store :=
  t ← tasks !! p; Some (<[p := CTask (wakes t - 1) (taskL t)]> tasks).

(** *** The life of a task [L] with the channel task [p] *)

Inductive task_event := TSuspend | TWake (channel : lua_State) | TSynced.

(** What has happened: suspensions accepted, tasks resumed, channels matched,
    and wake-ups taken back; and whether the last suspension was accepted. *)
Record history := Hist {
  accepted : Z; resumed : Z; matched : Z; synced : Z; last_accepted : bool;
}.

Section life.
Context (reg : lua_State -> chreg) (p : positive) (L : lua_State).

Definition task_step (s : task_store * history) (e : task_event)
    : option (task_store * history) :=
  let '(tasks, h) := s in
  match e with
  | TSuspend =>
      r ← lcuCS_suspendedchtask tasks (Some p) L;
      let '(suspended, tasks) := r in
      Some (tasks, Hist (accepted h + Z.b2z suspended) (resumed h) (matched h) (synced h)
                        suspended)
  | TWake channel =>
      r ← getsuspendedtask reg tasks channel;
      let '(found, tasks, _) := r in
      Some (tasks, Hist (accepted h)
                        (resumed h + match found with Some _ => 1 | None => 0 end)
                        (matched h + 1) (synced h) (last_accepted h))
  | TSynced =>
      tasks ← onsynced_wake tasks p;
      Some (tasks, Hist (accepted h) (resumed h) (matched h) (synced h + 1) (last_accepted h))
  end.

(** The task suspends itself only while it runs, a match is on one of its
    channels, and each match is taken back at most once. *)
Definition event_ok (h : history) (e : task_event) : Prop :=
  match e with
  | TSuspend => accepted h = resumed h
  | TWake channel => reg channel = RegLight (Some p)
  | TSynced => synced h < matched h
  end.

Inductive lives (tasks0 : task_store) : task_store -> history -> Prop :=
  | lives_init : lives tasks0 tasks0 (Hist 0 0 0 0 false)
  | lives_step tasks h e s' :
      lives tasks0 tasks h -> event_ok h e -> task_step (tasks, h) e = Some s' ->
      lives tasks0 s'.1 s'.2.

(** What is true between two events. *)
Definition task_inv (tasks : task_store) (h : history) : Prop :=
  exists t, tasks !! p = Some t /\ wakes t = matched h - synced h /\ 0 <= wakes t /\
    match taskL t with
    | Some L' => L' = L /\ wakes t = 0 /\ accepted h = resumed h + 1
    | None => accepted h = resumed h
    end.

Lemma lives_inv tasks0 tasks h :
  tasks0 !! p = Some (CTask 0 None) -> lives tasks0 tasks h -> task_inv tasks h.
Proof.
  intros H0. induction 1 as [| tasks h e s' _ (t & Ht & Hw & Hpos & Hl) Hok Hs].
  - exists (CTask 0 None). split; [done |]. cbn. split; [done |]. split; [lia | done].
  - destruct e as [| channel |]; cbn in Hs, Hok.
    + unfold lcuCS_suspendedchtask in Hs. rewrite Ht in Hs. cbn in Hs.
      destruct (taskL t) eqn:HtL; [lia |].
      destruct (Z.eqb_spec (wakes t) 0) as [Hz | Hz]; injection Hs as <-; cbn [fst snd].
      * eexists. split; [apply lookup_insert_eq |]. cbn. repeat split; try done; lia.
      * exists t. split; [done |]. cbn. rewrite HtL. repeat split; try done; lia.
    + unfold getsuspendedtask in Hs. rewrite Hok, Ht in Hs. injection Hs as <-. cbn [fst snd].
      eexists. split; [apply lookup_insert_eq |]. cbn.
      destruct (taskL t); repeat split; lia.
    + unfold onsynced_wake in Hs. rewrite Ht in Hs. injection Hs as <-. cbn [fst snd].
      eexists. split; [apply lookup_insert_eq |]. cbn.
      destruct (taskL t) as [L' |]; repeat split; try lia; naive_solver lia.
Qed.
End life.


End ChannelTask.

(** ** The map of channels *)

Module Channels.
Section channels.
Context {Q : Type} `{!StateQueue Q}.

(** The globals of the state of the map: a light userdata is a channel. *)
Abbreviation channel_map := (gmap string (lcu_ChannelSync Q)).

(** [alloc]: whether the allocator has memory for a new channel. *)
Definition lcuCS_getchsync (alloc : bool) (map : channel_map) (name : string)
    : bool * channel_map :=
  match map !! name with
  | Some sync =>
      (true, <[name := Sync (refcount sync + 1) (expected sync) (squeue sync)]> map)
  | None =>
      if alloc then (true, <[name := Sync 1 0 q_init]> map) else (false, map)
  end.

Definition lcuCS_freechsync (map : channel_map) (name : string) : channel_map :=
  match map !! name with
  | Some sync =>
      let sync := Sync (refcount sync - 1) (expected sync) (squeue sync) in
      if (refcount sync =? 0) && q_empty (squeue sync)
      then delete name map else <[name := sync]> map
  | None => map
  end.

(** What happens to the channels: references are taken and given back, and a
    holder of a reference suspends a state or takes one out. *)
Inductive map_op :=
  | MGet (name : string) (alloc : bool)
  | MFree (name : string)
  | MEnqueue (name : string) (L : lua_State)
  | MDequeue (name : string)
  | MRemove (name : string) (L : lua_State).

(** [None]: a holder of a reference does not find its channel. *)
Definition map_run (map : channel_map) (o : map_op) : option channel_map :=
  match o with
  | MGet name alloc => Some (lcuCS_getchsync alloc map name).2
  | MFree name => Some (lcuCS_freechsync map name)
  | MEnqueue name L =>
      sync ← map !! name; q ← q_enqueue (squeue sync) L;
      Some (<[name := set_queue q sync]> map)
  | MDequeue name =>
      sync ← map !! name; Some (<[name := set_queue (q_dequeue (squeue sync)).2 sync]> map)
  | MRemove name L =>
      sync ← map !! name; r ← q_remove (squeue sync) L;
      Some (<[name := set_queue r.2 sync]> map)
  end.

Fixpoint maps_run (map : channel_map) (ops : list map_op) : option channel_map :=
  match ops with
  | [] => Some map
  | o :: ops => map ← map_run map o; maps_run map ops
  end.

(** What is known of a channel: the references held and the states that wait. *)
Definition known := string -> Z * list lua_State.

Definition update (k : known) (name : string) (x : Z * list lua_State) : known :=
  fun n => if decide (n = name) then x else k n.

Definition map_spec (k : known) (o : map_op) : known :=
  match o with
  | MGet name alloc =>
      let '(r, ws) := k name in
      if alloc || negb ((r =? 0) && bool_decide (ws = []))
      then update k name (r + 1, ws) else k
  | MFree name => let '(r, ws) := k name in update k name (r - 1, ws)
  | MEnqueue name L => let '(r, ws) := k name in update k name (r, ws ++ [L])
  | MDequeue name => let '(r, ws) := k name in update k name (r, list.tail ws)
  | MRemove name L => let '(r, ws) := k name in update k name (r, filter (.≠ L) ws)
  end.

Definition maps_spec (k : known) (ops : list map_op) : known := foldl map_spec k ops.

(** Only a holder of a reference uses a channel. *)
Definition op_ok (k : known) (o : map_op) : Prop :=
  match o with
  | MGet _ _ => True
  | MFree name | MDequeue name | MRemove name _ => 0 < (k name).1
  | MEnqueue name L => 0 < (k name).1 /\ L ∉ (k name).2
  end.

Fixpoint ops_ok (k : known) (ops : list map_op) : Prop :=
  match ops with [] => True | o :: ops => op_ok k o /\ ops_ok (map_spec k o) ops end.

(** A channel is in the map exactly while it is referenced or states wait on
    it. *)
Definition entry_repr (e : option (lcu_ChannelSync Q)) (x : Z * list lua_State) : Prop :=
  match e with
  | Some sync => refcount sync = x.1 /\ q_repr (squeue sync) x.2 /\ 0 <= x.1 /\
                 (x.1 = 0 -> x.2 <> [])
  | None => x = (0, [])
  end.

Definition map_repr (map : channel_map) (k : known) : Prop :=
  forall name, entry_repr (map !! name) (k name).

Lemma map_repr_insert map k name sync x :
  map_repr map k -> entry_repr (Some sync) x ->
  map_repr (<[name := sync]> map) (update k name x).
Proof.
  intros Hm He n. unfold update. destruct (decide (n = name)) as [-> | Hne].
  - by rewrite lookup_insert_eq.
  - by rewrite lookup_insert_ne.
Qed.

Lemma map_repr_delete map k name :
  map_repr map k -> map_repr (delete name map) (update k name (0, [])).
Proof.
  intros Hm n. unfold update. destruct (decide (n = name)) as [-> | Hne].
  - by rewrite lookup_delete_eq.
  - by rewrite lookup_delete_ne.
Qed.

(** A referenced channel is found. *)
Lemma map_repr_referenced map k name :
  map_repr map k -> 0 < (k name).1 ->
  exists sync, map !! name = Some sync /\ refcount sync = (k name).1 /\
    q_repr (squeue sync) (k name).2.
Proof.
  intros Hm Hr. specialize (Hm name). destruct (map !! name) as [sync |]; cbn in Hm.
  - destruct Hm as (? & ? & _). eauto.
  - rewrite Hm in Hr. cbn in Hr. lia.
Qed.

Lemma map_run_get map k name alloc :
  map_repr map k -> map_repr (lcuCS_getchsync alloc map name).2 (map_spec k (MGet name alloc)).
Proof.
  intros Hm. pose proof (Hm name) as He. unfold lcuCS_getchsync. cbn [map_spec].
  destruct (k name) as [r ws] eqn:Hk. destruct (map !! name) as [sync |]; cbn in He.
  - destruct He as (<- & Hq & Hr & Hz).
    assert (alloc || negb ((refcount sync =? 0) && bool_decide (ws = [])) = true) as ->.
    { destruct (Z.eqb_spec (refcount sync) 0); [| by destruct alloc].
      rewrite bool_decide_false by auto. by destruct alloc. }
    apply map_repr_insert; [done |]. cbn. split_and!; [done | done | lia | lia].
  - injection He as -> ->. destruct alloc; [| done].
    apply map_repr_insert; [done |]. cbn. split_and!; [done | apply q_init_repr | lia | lia].
Qed.

Lemma map_run_free map k name :
  map_repr map k -> 0 < (k name).1 ->
  map_repr (lcuCS_freechsync map name) (map_spec k (MFree name)).
Proof.
  intros Hm Hr. destruct (map_repr_referenced _ _ _ Hm Hr) as (sync & Hs & Hc & Hq).
  unfold lcuCS_freechsync. rewrite Hs. cbn [map_spec refcount squeue].
  destruct (k name) as [r ws]; cbn [fst snd] in *. rewrite (q_empty_repr _ _ Hq), Hc.
  destruct (Z.eqb_spec (r - 1) 0) as [Hz | Hz]; cbn [andb].
  - destruct (bool_decide_reflect (ws = [])) as [-> | Hws].
    + rewrite Hz. by apply map_repr_delete.
    + apply map_repr_insert; [done |]. cbn. split_and!; [done | done | lia | done].
  - apply map_repr_insert; [done |]. cbn. split_and!; [done | done | lia | lia].
Qed.

Lemma map_run_refines map k o :
  map_repr map k -> op_ok k o ->
  exists map', map_run map o = Some map' /\ map_repr map' (map_spec k o).
Proof.
  intros Hm Ho. destruct o as [name alloc | name | name L | name | name L]; cbn in Ho.
  - eexists. split; [done |]. by apply map_run_get.
  - eexists. split; [done |]. by apply map_run_free.
  - destruct Ho as [Hr HL]. destruct (map_repr_referenced _ _ _ Hm Hr) as (sync & Hs & Hc & Hq).
    cbn [map_run map_spec]. rewrite Hs. cbn.
    destruct (q_enqueue_repr _ _ L Hq HL) as (q & -> & Hq'). cbn.
    destruct (k name) as [r ws]; cbn [fst snd] in *. eexists. split; [done |].
    apply map_repr_insert; [done |]. cbn. split_and!; [done | done | lia | lia].
  - destruct (map_repr_referenced _ _ _ Hm Ho) as (sync & Hs & Hc & Hq).
    cbn [map_run map_spec]. rewrite Hs. cbn.
    destruct (q_dequeue_repr _ _ Hq) as (q & Hd & Hq').
    destruct (k name) as [r ws]; cbn [fst snd] in *. eexists. split; [done |].
    apply map_repr_insert; [done |]. rewrite Hd. cbn. split_and!; [done | done | lia | lia].
  - destruct (map_repr_referenced _ _ _ Hm Ho) as (sync & Hs & Hc & Hq).
    cbn [map_run map_spec]. rewrite Hs. cbn.
    destruct (k name) as [r ws]; cbn [fst snd] in *.
    pose proof (q_repr_NoDup _ _ Hq) as Hnd.
    destruct (decide (L ∈ ws)) as [Hin | Hin].
    + apply list_elem_of_split in Hin as (w1 & w2 & ->).
      destruct (q_remove_repr _ _ _ _ Hq) as (q & -> & Hq'). cbn. eexists. split; [done |].
      apply map_repr_insert; [done |]. rewrite filter_ne_split by done.
      cbn. split_and!; [done | done | lia | lia].
    + rewrite (q_remove_absent _ _ _ Hq Hin). cbn. eexists. split; [done |].
      apply map_repr_insert; [done |]. rewrite filter_all by (intros ? ? ->; done).
      cbn. split_and!; [done | done | lia | lia].
Qed.

(** C10: as long as every user of a channel holds a reference, a referenced
    channel is always found with exactly the states that wait on it, its count is
    the number of references held, and a channel leaves the map exactly when
    nobody holds a reference and no state waits on it: it is never freed under
    its users, and no unused channel is kept. *)
Theorem channels_reference_counts (map : channel_map) (k : known) (ops : list map_op)
    (Hm : map_repr map k) (Hok : ops_ok k ops) :
  exists map', maps_run map ops = Some map' /\
    let k' := maps_spec k ops in
    (forall name, 0 < (k' name).1 -> exists sync, map' !! name = Some sync /\
       refcount sync = (k' name).1 /\ q_repr (squeue sync) (k' name).2) /\
    (forall name, map' !! name = None <-> k' name = (0, [])).
Proof.
  revert map k Hm Hok. induction ops as [| o ops IH]; intros map k Hm Hok.
  - exists map. split; [done |]. split; [intros name; by apply map_repr_referenced |].
    intros name. specialize (Hm name). cbn. destruct (map !! name) as [sync |]; cbn in Hm.
    + split; [done |]. intros Hk. rewrite Hk in Hm. cbn in Hm. naive_solver.
    + done.
  - destruct Hok as [Ho Hok]. destruct (map_run_refines map k o Hm Ho) as (m1 & Hr & Hm1).
    cbn [maps_run]. rewrite Hr. cbn. by apply IH.
Qed.
End channels.

(** Two users share a channel; one of them leaves a state waiting. *)
Lemma channels_reference_counts_witness :
  let ops := [MGet "a" true; MGet "a" true; MEnqueue "a" 5; MFree "a"; MFree "a"]%string in
  let k0 := (fun _ => (0, [])) : known in
  exists map' : gmap string (lcu_ChannelSync owned_queue), maps_run ∅ ops = Some map' /\
    map' !! "a"%string <> None /\ map' !! "b"%string = None.
Proof.
  intros ops k0.
  destruct (channels_reference_counts (Q := owned_queue) ∅ k0 ops) as (map' & Hr & _ & Hn).
  - by intros name.
  - cbn. repeat split; set_solver.
  - exists map'. split; [exact Hr |]. split; [intros Ha; by apply Hn in Ha | by apply Hn].
Defined.
End Channels.

(** ** The end of the map *)

Module ChannelMapGc.

(** The first loop of [channelmap_gc]: the entries of the globals in the order
    [lua_next] gives them; their queues are moved to [queue]. *)
Fixpoint gc_collect (st : next_store) (queue : lcu_StateQ) (entries : list lcu_StateQ)
    : option (next_store * lcu_StateQ) :=
  match entries with
  | [] => Some (st, queue)
  | q :: entries =>
      if negb (lcuCS_emptystateq q) then
        r ← appendstateq st queue q; gc_collect r.1 r.2 entries
      else gc_collect st queue entries
  end.

(** The second loop: the states to close. *)
Fixpoint gc_close (fuel : nat) (st : next_store) (queue : lcu_StateQ)
    : option (list lua_State) :=
  match fuel with
  | O => None
  | S fuel =>
      match lcuCS_dequeuestateq st queue with
      | (None, _) => Some []
      | (Some L, (st, queue)) => ls ← gc_close fuel st queue; Some (L :: ls)
      end
  end.

Definition channelmap_gc (fuel : nat) (st : next_store) (entries : list lcu_StateQ)
    : option (list lua_State) :=
  r ← gc_collect st lcuCS_initstateq entries; gc_close fuel r.1 r.2.

Lemma q_lists_frame st st' entries lists :
  (forall x, x ∈ concat lists -> st' !! x = st !! x) ->
  Forall2 (q_list st) entries lists -> Forall2 (q_list st') entries lists.
Proof.
  intros Heq. induction 1 as [| q l entries lists (H1 & H2 & H3 & H4) _ IH]; constructor.
  - split_and!; try done. apply (linked_frame st); [| done]. intros x Hx. apply Heq.
    cbn. set_solver.
  - apply IH. intros x Hx. apply Heq. cbn. set_solver.
Qed.

Lemma gc_collect_spec entries lists st queue l :
  q_list st queue l -> Forall2 (q_list st) entries lists -> NoDup (l ++ concat lists) ->
  exists st' queue', gc_collect st queue entries = Some (st', queue') /\
    q_list st' queue' (l ++ concat lists).
Proof.
  revert lists st queue l. induction entries as [| q entries IH]; intros lists st queue l Hq Hall Hnd.
  - apply Forall2_nil_inv_l in Hall as ->. cbn in *. rewrite app_nil_r. by exists st, queue.
  - apply Forall2_cons_inv_l in Hall as (l2 & ls & Hq2 & Hall & ->). cbn [concat] in *.
    cbn [gc_collect]. rewrite (q_list_empty _ _ _ Hq2).
    destruct (bool_decide_reflect (l2 = [])) as [-> | Hne]; cbn [negb].
    + by apply (IH ls).
    + pose proof Hnd as Hnd0. rewrite app_assoc in Hnd.
      apply NoDup_app in Hnd0 as (_ & Hd & _).
      destruct (append_refines st queue q l l2 Hq Hq2 Hne) as (st1 & q1 & -> & Hq1 & Hfr).
      { intros x Hx. specialize (Hd x Hx). set_solver. }
      cbn. rewrite app_assoc. apply (IH ls); [done | | done].
      apply (q_lists_frame st); [| done]. intros x Hx. apply Hfr. intros Hxl.
      apply (Hd x Hxl). set_solver.
Qed.

Lemma gc_close_spec l st queue fuel :
  q_list st queue l -> (length l < fuel)%nat -> gc_close fuel st queue = Some l.
Proof.
  revert st queue fuel. induction l as [| L l IH]; intros st queue fuel Hq Hf;
    (destruct fuel as [| fuel]; [cbn in Hf; lia |]); cbn [gc_close];
    destruct (dequeue_refines _ _ _ Hq) as (st' & q' & -> & Hq' & _); [done |].
  cbn. rewrite (IH st' q' fuel Hq') by (simpl in Hf; lia). done.
Qed.

(** When the map is collected, every state that waits on any of its channels
    is closed, and each of them once; with the channels in the order [lua_next]
    visits them, the states are closed in their order of arrival.  The fuel is
    the number of waiting states and one more. *)
Theorem gc_closes_waiting (st : next_store) (entries : list lcu_StateQ)
    (lists : list (list lua_State)) (fuel : nat)
    (Hq : Forall2 (q_list st) entries lists) (Hnd : NoDup (concat lists))
    (Hf : (length (concat lists) < fuel)%nat) :
  channelmap_gc fuel st entries = Some (concat lists).
Proof.
  unfold channelmap_gc.
  destruct (gc_collect_spec entries lists st lcuCS_initstateq []) as (st' & q' & -> & Hl);
    [apply q_list_init | done | done |].
  cbn. by apply gc_close_spec.
Qed.

Lemma gc_closes_waiting_witness :
  channelmap_gc 4 (<[3%positive := 4%positive]> ∅)
    [StateQ (Some 3) (Some 4); StateQ None None; StateQ (Some 9) (Some 9)]%positive
  = Some [3; 4; 9]%positive.
Proof.
  apply (gc_closes_waiting _ _ [[3; 4]; []; [9]]%positive).
  - repeat constructor; set_solver.
  - cbn. repeat constructor; set_solver.
  - cbn. lia.
Defined.
End ChannelMapGc.
