(* ===== verification/Worker.v ===== *)
(** * A slice of a task (src/src/lthpool.c, lines 91 to 130)

    A worker resumes a task, and when the task yields it tells from the values
    yielded what the task waits for: the name of a channel and the arguments of
    an operation on it, a channel task (it waits for its channel objects), or
    nothing.  It leaves on the stack of the task the values it will be resumed
    with, and their number. *)
From S2P Require Import Prelude LuaApi StateQ Transfer ChannelSwap ChannelSync ChannelMap.
Import Match ChannelTask Channels.

Section worker.
Context {Q : Type} `{!StateQueue Q} {St : Type} `{!LuaStack St}.
Context (num2str : Z -> string).

(** Before [lua_resume]: a new task has its function below its arguments; one
    that yielded has the number of values left for it on the top.  The status
    tells which; [lua_tointeger] may give a negative number. *)
Definition resume_args (yielded : bool) (L : St) : Z * St :=
  if negb yielded then (Z.of_nat (lua_gettop L) - 1, L)
  else (lua_tointeger L (-1), lua_pop L 1).

(** [lua_tostring]; [None] is the null pointer. *)
Definition lua_tostring (L : St) (i : Z) : option string :=
  match lua_at L i with
  | Some (LString s) => Some s
  | Some (LInteger i) => Some (fmt_int i)
  | Some (LNumber n) => Some (num2str n)
  | _ => None
  end.

(** The results left when the arguments of the operation are refused; the
    message is on the top.  [None]: the assertion fails. *)
Definition refuse_args (L : St) (base : nat) : option St :=
  lcu_assert (base + 2 <? lua_gettop L)%nat ≫= λ _,
  let L := lua_replace L (base + 2) in
  let L := lua_push L (LBoolean false) in
  let L := lua_replace L (base + 1) in
  let L := lua_settop L (base + 2) in
  Some (lua_push L (LInteger 2)).

(** The rest of the world that the worker touches. *)
Record tworld := TWorld {
  channels : gmap string (lcu_ChannelSync Q);
  ctasks : task_store;
  stacks : gmap lua_State St;
}.

(** The outcome: the task goes back to the queue of the pool or not, and the
    state that its operation matched; or an error that nothing catches. *)
Inductive slice_end := Slice (enqueue : bool) (matched : option lua_State) (w : tworld) | Uncaught.

(** [lua_resume] returned [LUA_YIELD] with [narg] values.  [alloc]: there is
    memory for a new channel; [ct]: the channel task at the first value, if it
    is one ([luaL_testudata]).  [None] is a failed assertion, a missing state, or
    the use of the null [sync] when there is no memory. *)
Definition after_yield (swap : St -> nat -> nat -> St -> option (St * St)) (alloc : bool)
    (ct : option positive) (w : tworld) (L : lua_State) (narg : nat) : option slice_end :=
  s ← stacks w !! L;
  let base := (lua_gettop s - narg)%nat in
  match lua_tostring s (Z.of_nat (base + 1)) with
  | Some channelname =>
      let '(ok, map) := lcuCS_getchsync alloc (channels w) channelname in
      match lcuCS_checksyncargs num2str s (base + 2) with
      | None => Some Uncaught
      | Some (endpoint, s) =>
          if endpoint =? -1 then
            s ← refuse_args s base;
            Some (Slice true None
              (TWorld (lcuCS_freechsync map channelname) (ctasks w) (<[L := s]> (stacks w))))
          else
            sync ← map !! channelname;
            r ← lcuCS_matchchsync swap None sync endpoint (<[L := s]> (stacks w)) L base narg;
            let '(enqueue, m, sync, stacks) := r in
            Some (Slice enqueue m
              (TWorld (lcuCS_freechsync (<[channelname := sync]> map) channelname)
                 (ctasks w) stacks))
      end
  | None =>
      r ← lcuCS_suspendedchtask (ctasks w) ct L;
      let '(suspended, tasks) := r in
      let s := lua_settop s base in
      let s := lua_push s (LInteger 0) in
      Some (Slice (negb suspended) None (TWorld (channels w) tasks (<[L := s]> (stacks w))))
  end.

(** ** What a task is resumed with *)

(** A stack that the worker left for the next slice: the base and the values. *)
Definition left_for (s : St) (b vs : list lvalue) : Prop :=
  values s = b ++ vs ++ [LInteger (Z.of_nat (length vs))].

Lemma results_left_for s b args :
  values s = results b args -> left_for s b (LBoolean true :: args).
Proof.
  intros Hs. unfold left_for. rewrite Hs. unfold results. cbn [length].
  rewrite Nat.add_1_r. by simplify_list_eq.
Qed.

Lemma refuse_args_spec s b x y mid e :
  values s = b ++ x :: y :: mid ++ [e] ->
  exists s', refuse_args s (length b) = Some s' /\ left_for s' b [LBoolean false; e].
Proof.
  intros Hs. unfold refuse_args.
  rewrite lcu_assert_true; cbn [mbind option_bind]; last first.
  { apply Nat.ltb_lt. unfold lua_gettop. rewrite Hs, length_app. simpl.
    rewrite length_app. simpl. lia. }
  eexists. split; [done |]. unfold left_for. rewrite values_push.
  rewrite (values_settop_app _ (b ++ [LBoolean false; e]) mid);
    [by simplify_list_eq | | rewrite length_app; simpl; lia].
  rewrite (values_replace_app _ b x (e :: mid) (LBoolean false)); [by simplify_list_eq | | done].
  rewrite values_push, (values_replace_app s (b ++ [x]) y mid e);
    [by simplify_list_eq | rewrite Hs; by simplify_list_eq | rewrite length_app; simpl; lia].
Qed.

(** The values left for a task are those its next slice starts with: the
    count on the top is removed and says how many of the remaining values the
    task receives.  This holds for the three ways a yield ends: an operation
    that matched (true and the arguments of the other side), one whose arguments
    were refused (false and the message), and a wait on channel objects (none). *)
Theorem resumed_with (s : St) (b args : list lvalue)
    (x y e : lvalue) (mid : list lvalue) :
  (forall vs, left_for s b vs ->
     let '(narg, s') := resume_args true s in
     narg = Z.of_nat (length vs) /\ values s' = b ++ vs) /\
  (values s = results b args -> left_for s b (LBoolean true :: args)) /\
  (values s = b ++ x :: y :: mid ++ [e] ->
     exists s', refuse_args s (length b) = Some s' /\ left_for s' b [LBoolean false; e]) /\
  (values s = b ++ mid -> left_for (lua_push (lua_settop s (length b)) (LInteger 0)) b []).
Proof.
  split_and!.
  - intros vs Hs. unfold left_for in Hs. unfold resume_args. cbn [negb].
    rewrite app_assoc in Hs. split.
    + unfold lua_tointeger. by rewrite (at_top s _ _ [] (-1) Hs).
    + by apply (values_pop _ _ _ _ Hs).
  - apply results_left_for.
  - apply refuse_args_spec.
  - intros Hs. unfold left_for. by rewrite values_push, (values_settop_app s b mid).
Qed.

(** A task whose yield names a channel and gives as endpoint a value that is
    neither a string nor a number (nor nil) makes [luaL_optstring] raise an
    error in the worker, outside of any protected call. *)
Theorem yield_bad_endpoint_uncaught (swap : St -> nat -> nat -> St -> option (St * St))
    (w : tworld) (L : lua_State) (s : St) (alloc : bool) (ct : option positive)
    (b rest : list lvalue) (name : string) (t : positive)
    (HL : stacks w !! L = Some s)
    (Hs : values s = b ++ LString name :: LTable t :: rest) :
  after_yield swap alloc ct w L (2 + length rest) = Some Uncaught.
Proof.
  unfold after_yield. rewrite HL. cbn [mbind option_bind].
  assert (lua_gettop s - (2 + length rest) = length b)%nat as ->.
  { unfold lua_gettop. rewrite Hs, length_app. simpl. lia. }
  unfold lua_tostring. rewrite (at_app _ _ _ _ Hs).
  destruct (lcuCS_getchsync alloc (channels w) name) as [ok map].
  unfold lcuCS_checksyncargs, luaL_optstring.
  replace (length b + 2)%nat with (length (b ++ [LString name]) + 1)%nat
    by (rewrite length_app; simpl; lia).
  rewrite (at_app s (b ++ [LString name]) (LTable t) rest); [done |].
  rewrite Hs. by simplify_list_eq.
Qed.
End worker.

Lemma yield_bad_endpoint_uncaught_witness :
  after_yield (Q := owned_queue) (fun _ => EmptyString) (fun _ _ _ _ => None) true None
    (TWorld ∅ ∅ {[5%positive := [LFunction 1; LString "chan"; LTable 2]]}) 5 2 = Some Uncaught.
Proof.
  exact (yield_bad_endpoint_uncaught (Q := owned_queue) (LuaStack0 := list_stack)
    (fun _ => EmptyString) (fun _ _ _ _ => None)
    (TWorld ∅ ∅ {[5%positive := [LFunction 1; LString "chan"; LTable 2]]}) 5
    [LFunction 1; LString "chan"; LTable 2] true None [LFunction 1] [] "chan" 2 eq_refl eq_refl).
Defined.
