(* ===== verification/Operation.v ===== *)
(** * Operations of coroutines (src/src/loperaux.c, lines 1 to 470)

    Each coroutine that uses the library has one [lcu_Operation], whose memory
    is in turn a libuv request and a libuv handle.  An operation is started by
    the coroutine, which yields; it ends by a callback of libuv, which resumes
    the coroutine, or by the script, which may resume the coroutine at any
    moment and have it start other operations before libuv is done with the
    previous one.

    The file has the functions of the C file on the state of one operation and
    the counters of the scheduler.  What a setup function of another file does
    is an argument: the call of libuv may fail, give a result at once, or start
    the operation, and the setup may raise an error before. *)
From S2P Require Import Prelude.

Definition FLAG_REQUEST : Z := 0x01.
Definition FLAG_THRSAVED : Z := 0x02.
Definition FLAG_PENDING : Z := 0x04.
Definition FLAG_CLEANUP : Z := 0x08.

(** [uv_handle_type] values are numbers of libuv; only [UV_ASYNC] is special. *)
Inductive uv_handle_type := UV_ASYNC | UV_OTHER (n : positive).
#[export] Instance uv_handle_type_eq_dec : EqDecision uv_handle_type.
Proof. solve_decision. Defined.

(** What the union holds: a request, with [type] different from
    [UV_UNKNOWN_REQ] or not, or a handle, with what [uv_is_closing] tells. *)
Inductive opkind :=
  | KRequest (known : bool)
  | KHandle (type : uv_handle_type) (closing : bool).
#[export] Instance opkind_eq_dec : EqDecision opkind.
Proof. solve_decision. Defined.

(** The continuation a coroutine is suspended with by the library. *)
Inductive contin := Kendop | Kresetop (mkreq : bool).
#[export] Instance contin_eq_dec : EqDecision contin.
Proof. solve_decision. Defined.

(** [cancel]: there is a cancel function.  [saved]: the coroutine is in the
    registry under the address of the operation.  [cont]: the coroutine is
    suspended by the library. *)
Record lcu_Operation := Op {
  flags : Z; kind : opkind; cancel : bool; saved : bool; cont : option contin;
}.

Record lcu_Scheduler := Sched { nasync : Z; nactive : Z }.

Implicit Types (s : lcu_Scheduler) (op : lcu_Operation).

Definition set_flags v op := Op v (kind op) (cancel op) (saved op) (cont op).
Definition set_kind v op := Op (flags op) v (cancel op) (saved op) (cont op).
Definition set_cancel v op := Op (flags op) (kind op) v (saved op) (cont op).
Definition set_saved v op := Op (flags op) (kind op) (cancel op) v (cont op).
Definition set_cont v op := Op (flags op) (kind op) (cancel op) (saved op) v.

Definition maskflag op f : Z := lcuL_maskflag (flags op) f.
Definition setflag op f := set_flags (lcuL_setflag (flags op) f) op.
Definition clearflag op f := set_flags (lcuL_clearflag (flags op) f) op.

Definition is_request op : bool := ctrue (maskflag op FLAG_REQUEST).

(** The union is read as the flag says; [None] if it holds the other kind. *)
Definition torequest op : option bool :=
  match kind op with KRequest known => Some known | _ => None end.
Definition tohandle op : option (uv_handle_type * bool) :=
  match kind op with KHandle t c => Some (t, c) | _ => None end.

(** The operation of a coroutine that has none. *)
Definition new_operation : lcu_Operation := Op FLAG_REQUEST (KRequest false) false false None.

Definition closehdl s op : option (lcu_Scheduler * lcu_Operation) :=
  h ← tohandle op;
  let '(type, _) := h in
  let s := if decide (type = UV_ASYNC) then Sched (nasync s - 1) (nactive s) else s in
  Some (s, set_kind (KHandle type true) op).

Definition cancelop s op : option (lcu_Scheduler * lcu_Operation) :=
  lcu_assert (negb (ctrue (maskflag op FLAG_CLEANUP))) ≫= λ _,
  if is_request op then (_ ← torequest op; Some (s, op))  (* uv_cancel *)
  else
    h ← tohandle op;
    if negb h.2 then closehdl s op else Some (s, op).

(** The coroutine goes on: the values it gets are those of [lua_resume]. *)
Definition running op := set_cont None op.

(** [halted]: the coroutine was not resumed by the scheduler.  [cancelled]: what
    the cancel function returns, if it is called. *)
Definition k_endop (halted cancelled : bool) s op : option (lcu_Scheduler * lcu_Operation) :=
  lcu_assert (maskflag op (Z.lor FLAG_PENDING FLAG_CLEANUP) =? FLAG_PENDING) ≫= λ _,
  let op := running (clearflag op FLAG_PENDING) in
  if halted then
    if negb (cancel op) || cancelled then cancelop s op
    else Some (s, setflag op FLAG_CLEANUP)
  else Some (s, op).

(** The result of a setup function: it raised an error, or returned [nret]. *)
Inductive setup_result := Raised | Returned (nret : Z).

Definition startedopk (res : setup_result) s op : option (lcu_Scheduler * lcu_Operation) :=
  match res with
  | Raised => Some (s, op)
  | Returned nret =>
      lcu_assert (negb (ctrue (maskflag op (Z.lor FLAG_PENDING FLAG_CLEANUP)))) ≫= λ _,
      if nret <? 0 then Some (s, set_cont (Some Kendop) (setflag op FLAG_PENDING))
      else cancelop s op
  end.

Definition lcuT_armcoreq (err : Z) s op : option (lcu_Scheduler * lcu_Operation) :=
  lcu_assert (is_request op) ≫= λ _,
  if err >=? 0 then
    let op := if negb (ctrue (maskflag op FLAG_THRSAVED))
              then setflag (set_saved true op) FLAG_THRSAVED else op in
    Some (Sched (nasync s) (Z.succ (nactive s)), op)
  else Some (s, set_kind (KRequest false) op).

Definition lcuT_armcohdl (err : Z) s op : option (lcu_Scheduler * lcu_Operation) :=
  lcu_assert (is_request op) ≫= λ _,
  if err >=? 0 then
    h ← tohandle op;
    let op := if negb (ctrue (maskflag op FLAG_THRSAVED)) then set_saved true op else op in
    let op := clearflag op (Z.lor FLAG_REQUEST FLAG_THRSAVED) in
    let na := if decide (h.1 = UV_ASYNC) then Z.succ (nasync s) else nasync s in
    Some (Sched na (Z.succ (nactive s)), op)
  else Some (s, set_kind (KRequest false) op).

(** What a setup does.  For a request: it raises an error or gives a result
    before it calls libuv; or libuv fails with [err]; or it starts the request,
    and the setup waits for it or not. *)
Inductive req_setup :=
  | RqRaise
  | RqNow (nret : Z)
  | RqCall (err nret : Z).

(** libuv sets the type of the request it starts. *)
Definition run_req_setup (f : req_setup) s op
    : option (setup_result * (lcu_Scheduler * lcu_Operation)) :=
  match f with
  | RqRaise => Some (Raised, (s, op))
  | RqNow nret => Some (Returned nret, (s, op))
  | RqCall err nret =>
      r ← lcuT_armcoreq err s (set_kind (KRequest true) op); Some (Returned nret, r)
  end.

(** For a handle: with the loop it first initialises the handle with its type;
    without it (the operation already has such a handle) it only starts it. *)
Inductive hdl_setup :=
  | HdRaise
  | HdNow (nret : Z)
  | HdCall (err nret : Z).

Definition run_hdl_setup (f : hdl_setup) (type : uv_handle_type) (loop : bool) s op
    : option (setup_result * (lcu_Scheduler * lcu_Operation)) :=
  match f with
  | HdRaise => Some (Raised, (s, op))
  | HdNow nret => Some (Returned nret, (s, op))
  | HdCall err nret =>
      if loop then
        r ← lcuT_armcohdl err s (set_kind (KHandle type false) op); Some (Returned nret, r)
      else Some (Returned nret, (s, op))
  end.

Definition startcoreqk (f : req_setup) s op : option (lcu_Scheduler * lcu_Operation) :=
  r ← run_req_setup f s op; startedopk r.1 r.2.1 r.2.2.

Definition startcohdlk (f : hdl_setup) type (loop : bool) s op
    : option (lcu_Scheduler * lcu_Operation) :=
  r ← run_hdl_setup f type loop s op; startedopk r.1 r.2.1 r.2.2.

(** A reset that waits keeps the setup it will run: its kind, and for a handle
    its type. *)
Inductive setup_fn := SetupReq (f : req_setup) | SetupHdl (f : hdl_setup) (type : uv_handle_type).

Definition mkreq (f : setup_fn) : bool := match f with SetupReq _ => true | _ => false end.

(** [f] is the setup saved on the stack of the coroutine. *)
Definition k_resetopk (halted : bool) (f : setup_fn) s op
    : option (lcu_Scheduler * lcu_Operation) :=
  lcu_assert (ctrue (maskflag op FLAG_PENDING)) ≫= λ _,
  let op := running (clearflag op FLAG_PENDING) in
  if negb halted then
    lcu_assert (is_request op) ≫= λ _,
    known ← torequest op;
    lcu_assert (negb known) ≫= λ _,
    match f with
    | SetupReq f => startcoreqk f s op
    | SetupHdl f type => startcohdlk f type true s op
    end
  else Some (s, op).

Definition yieldresetk (f : setup_fn) s op : option (lcu_Scheduler * lcu_Operation) :=
  lcu_assert (negb (ctrue (maskflag op FLAG_PENDING))) ≫= λ _,
  Some (s, set_cont (Some (Kresetop (mkreq f))) (setflag op FLAG_PENDING)).

Inductive OpStatus := FREEOP | SAMEOP | WAITOP.

(** [type] is [None] for a request (the C code passes 0). *)
Definition checkreset (cancel : bool) (type : option uv_handle_type) s op
    : option (OpStatus * (lcu_Scheduler * lcu_Operation)) :=
  let op := set_cancel cancel op in
  if is_request op then
    known ← torequest op;
    Some (if negb known then FREEOP else WAITOP, (s, op))
  else
    h ← tohandle op;
    let nocleanup := negb (ctrue (maskflag op FLAG_CLEANUP)) in
    if nocleanup && negb h.2 then
      if decide (type = Some h.1) then Some (SAMEOP, (s, op))
      else r ← closehdl s op; Some (WAITOP, r)
    else Some (WAITOP, (s, op)).

(** The two entry points, for a coroutine that can yield. *)
Definition lcuT_resetcoreqk (f : req_setup) (cancel : bool) s op
    : option (lcu_Scheduler * lcu_Operation) :=
  r ← checkreset cancel None s op;
  let '(st, (s, op)) := r in
  match st with
  | FREEOP => startcoreqk f s op
  | WAITOP => yieldresetk (SetupReq f) s op
  | SAMEOP => None
  end.

Definition lcuT_resetcohdlk (f : hdl_setup) (type : uv_handle_type) (cancel : bool) s op
    : option (lcu_Scheduler * lcu_Operation) :=
  r ← checkreset cancel (Some type) s op;
  let '(st, (s, op)) := r in
  match st with
  | FREEOP => startcohdlk f type true s op
  | SAMEOP => startcohdlk f type false s op
  | WAITOP => yieldresetk (SetupHdl f type) s op
  end.

(** ** Callbacks *)

(** [lua_resume] with the token: the continuation runs. *)
Definition resumethread (f : setup_fn) s op : option (lcu_Scheduler * lcu_Operation) :=
  match cont op with
  | Some Kendop => k_endop false false s op
  | Some (Kresetop _) => k_resetopk false f s op
  | None => None
  end.

(** The flag tells whether the callback goes on to resume the coroutine. *)
Definition lcuU_endcoreq s op : option (bool * (lcu_Scheduler * lcu_Operation)) :=
  let s := Sched (nasync s) (nactive s - 1) in
  let rs := Z.lor FLAG_REQUEST FLAG_THRSAVED in
  lcu_assert (maskflag op rs =? rs) ≫= λ _,
  let op := set_kind (KRequest false) op in
  if ctrue (maskflag op FLAG_PENDING) then Some (true, (s, op))
  else
    let op := clearflag op (Z.lor FLAG_THRSAVED FLAG_CLEANUP) in
    Some (false, (s, set_saved false op)).

(** [lcuU_resumecoreq] up to [lua_resume], and after it. *)
Definition resumecoreq_start (f : setup_fn) s op : option (lcu_Scheduler * lcu_Operation) :=
  let rsp := Z.lor (Z.lor FLAG_REQUEST FLAG_THRSAVED) FLAG_PENDING in
  lcu_assert (maskflag op rsp =? rsp) ≫= λ _,
  known ← torequest op;
  lcu_assert (negb known) ≫= λ _,
  resumethread f s op.

Definition resumecoreq_end s op : option (lcu_Scheduler * lcu_Operation) :=
  if is_request op then
    known ← torequest op;
    Some (s, if negb known then set_saved false (clearflag op FLAG_THRSAVED) else op)
  else Some (s, op).

(** The flag tells whether the coroutine is resumed as after a request. *)
Definition closedhdl s op : option (bool * (lcu_Scheduler * lcu_Operation)) :=
  lcu_assert (negb (ctrue (maskflag op (Z.lor FLAG_REQUEST FLAG_THRSAVED)))) ≫= λ _,
  let s := Sched (nasync s) (nactive s - 1) in
  let op := setflag op (Z.lor FLAG_REQUEST FLAG_THRSAVED) in
  let op := set_kind (KRequest false) op in
  if negb (ctrue (maskflag op FLAG_PENDING))
  then Some (false, (s, set_saved false (clearflag op FLAG_THRSAVED)))
  else Some (true, (s, op)).

Definition lcuU_endcohdl s op : option (bool * (lcu_Scheduler * lcu_Operation)) :=
  lcu_assert (negb (is_request op)) ≫= λ _,
  if maskflag op (Z.lor FLAG_PENDING FLAG_CLEANUP) =? FLAG_PENDING then Some (true, (s, op))
  else r ← cancelop s (clearflag op FLAG_CLEANUP); Some (false, r).

Definition resumecohdl_start (f : setup_fn) s op : option (lcu_Scheduler * lcu_Operation) :=
  lcu_assert (maskflag op (Z.lor FLAG_REQUEST FLAG_PENDING) =? FLAG_PENDING) ≫= λ _,
  resumethread f s op.

Definition resumecohdl_end s op : option (lcu_Scheduler * lcu_Operation) :=
  if negb (ctrue (maskflag op (Z.lor FLAG_PENDING FLAG_CLEANUP))) then cancelop s op
  else Some (s, op).

(** ** The loop stops for a task that waits for channels only *)

Definition lcu_shallsuspend s : bool := (nasync s >? 0) && (nasync s =? nactive s).

(** [task]: the state belongs to a task with channels.  The result tells whether
    [uv_stop] is called. *)
Definition lcuU_checksuspend (task : bool) s : bool := lcu_shallsuspend s && task.
