(* ===== verification/OperationSys.v ===== *)
(** * The operations of a scheduler (src/src/loperaux.c)

    Any number of coroutines use a scheduler.  A step is what the C code does
    between two points where other code of the program runs: a coroutine starts
    an operation, the script resumes a suspended coroutine, libuv calls back, or
    the coroutine resumed by a callback gives control back to it.  While a
    callback is in progress ([frame]) the coroutines run and take any of the
    first two steps; libuv does not call back inside a callback.

    The table of the states of an operation ([op_inv]) is the invariant. *)
From S2P Require Import Prelude Steps Operation.

Inductive fkind := ReqFrame | HdlFrame.
#[export] Instance fkind_eq_dec : EqDecision fkind.
Proof. solve_decision. Defined.

Abbreviation thread := positive.

(** [others]: what the objects of the scheduler (not modelled here) add to the
    number of active handles. *)
Record world := World {
  sched : lcu_Scheduler;
  ops : gmap thread lcu_Operation;
  frame : option (fkind * thread);
  others : Z;
}.

Inductive action :=
  | StartReq (t : thread) (f : req_setup) (cancel : bool)
  | StartHdl (t : thread) (f : hdl_setup) (type : uv_handle_type) (cancel : bool)
  | ScriptResume (t : thread) (cancelled : bool)
  | RequestDone (t : thread) (f : setup_fn)
  | HandleEvent (t : thread) (f : setup_fn)
  | HandleClosed (t : thread) (f : setup_fn)
  | FrameEnd
  | OtherActive (n : Z).

(** [tothrop]: the operation of a coroutine, created when it is missing. *)
Definition tothrop (w : world) (t : thread) : lcu_Operation :=
  default new_operation (ops w !! t).

(** The world after a function changed the counters and the operation of [t]. *)
Definition put (w : world) (t : thread) (fr : option (fkind * thread))
    (r : lcu_Scheduler * lcu_Operation) : world :=
  World r.1 (<[t := r.2]> (ops w)) fr (others w).

Definition exec (w : world) (a : action) : option world :=
  match a with
  | StartReq t f cancel =>
      put w t (frame w) <$> lcuT_resetcoreqk f cancel (sched w) (tothrop w t)
  | StartHdl t f type cancel =>
      put w t (frame w) <$> lcuT_resetcohdlk f type cancel (sched w) (tothrop w t)
  | ScriptResume t cancelled =>
      let op := tothrop w t in
      put w t (frame w) <$>
        match cont op with
        | Some Kendop => k_endop true cancelled (sched w) op
        | Some (Kresetop _) => k_resetopk true (SetupReq RqRaise) (sched w) op
        | None => None
        end
  | RequestDone t f =>
      r ← lcuU_endcoreq (sched w) (tothrop w t);
      if r.1 : bool then put w t (Some (ReqFrame, t)) <$> resumecoreq_start f r.2.1 r.2.2
      else Some (put w t (frame w) r.2)
  | HandleClosed t f =>
      r ← closedhdl (sched w) (tothrop w t);
      if r.1 : bool then put w t (Some (ReqFrame, t)) <$> resumecoreq_start f r.2.1 r.2.2
      else Some (put w t (frame w) r.2)
  | HandleEvent t f =>
      r ← lcuU_endcohdl (sched w) (tothrop w t);
      if r.1 : bool then put w t (Some (HdlFrame, t)) <$> resumecohdl_start f r.2.1 r.2.2
      else Some (put w t (frame w) r.2)
  | FrameEnd =>
      match frame w with
      | Some (ReqFrame, t) => put w t None <$> resumecoreq_end (sched w) (tothrop w t)
      | Some (HdlFrame, t) => put w t None <$> resumecohdl_end (sched w) (tothrop w t)
      | None => None
      end
  | OtherActive n =>
      Some (World (Sched (nasync (sched w)) (nactive (sched w) + (n - others w)))
              (ops w) (frame w) n)
  end.

(** A setup asks to wait only for something it started. *)
Definition req_setup_ok (f : req_setup) : Prop :=
  match f with
  | RqRaise => True
  | RqNow nret => 0 <= nret
  | RqCall err nret => nret < 0 -> 0 <= err
  end.
Definition hdl_setup_ok (f : hdl_setup) : Prop :=
  match f with
  | HdRaise => True
  | HdNow nret => 0 <= nret
  | HdCall err nret => nret < 0 -> 0 <= err
  end.
Definition setup_ok (f : setup_fn) : Prop :=
  match f with SetupReq f => req_setup_ok f | SetupHdl f _ => hdl_setup_ok f end.

(** The setup that runs is the one that was saved. *)
Definition saved_setup (op : lcu_Operation) (f : setup_fn) : Prop :=
  setup_ok f /\ forall b, cont op = Some (Kresetop b) -> mkreq f = b.

(** When each step can be taken.  [rc]: operations of requests may have a cancel
    function; the ones of the library have none. *)
Definition enabled (rc : bool) (w : world) (a : action) : Prop :=
  match a with
  | StartReq t f c => cont (tothrop w t) = None /\ req_setup_ok f /\ (c = true -> rc = true)
  | StartHdl t f _ _ => cont (tothrop w t) = None /\ hdl_setup_ok f
  | ScriptResume t _ => cont (tothrop w t) <> None
  | RequestDone t f =>
      frame w = None /\ kind (tothrop w t) = KRequest true /\ saved_setup (tothrop w t) f
  | HandleEvent t f =>
      frame w = None /\ (exists ty, kind (tothrop w t) = KHandle ty false) /\
      saved_setup (tothrop w t) f
  | HandleClosed t f =>
      frame w = None /\ (exists ty, kind (tothrop w t) = KHandle ty true) /\
      saved_setup (tothrop w t) f
  | FrameEnd => frame w <> None
  | OtherActive n => 0 <= n
  end.

Definition initial : world := World (Sched 0 0) ∅ None 0.

Abbreviation reachable rc := (reached initial (enabled rc) exec).

(** ** The states of an operation

    [fr]: the callback in progress on this operation, if any.  The first two rows
    are the states before any operation and between operations; the others are those
    in which libuv still owns the memory of the operation. *)
Inductive op_inv : option fkind -> lcu_Operation -> Prop :=
  | inv_free c :
      op_inv None (Op 1 (KRequest false) c false None)
  | inv_resumed c :             (* ... inside the callback of the last one *)
      op_inv (Some ReqFrame) (Op 3 (KRequest false) c true None)
  | inv_waiting fr :            (* suspended until the request is done *)
      fr <> Some HdlFrame -> op_inv fr (Op 7 (KRequest true) false true (Some Kendop))
  | inv_dropped fr c :          (* the request goes on, nobody waits for it *)
      fr <> Some HdlFrame -> op_inv fr (Op 3 (KRequest true) c true None)
  | inv_dropped_next fr c b :   (* ... but the next operation *)
      fr <> Some HdlFrame -> (b = true -> c = false) ->
      op_inv fr (Op 7 (KRequest true) c true (Some (Kresetop b)))
  | inv_handle fr ty c :        (* suspended until the handle has an event *)
      op_inv fr (Op 4 (KHandle ty false) c true (Some Kendop))
  | inv_event ty c :            (* the coroutine handles an event *)
      op_inv (Some HdlFrame) (Op 0 (KHandle ty false) c true None)
  | inv_cleanup fr ty c :       (* cancelled, the handle goes on *)
      op_inv fr (Op 8 (KHandle ty false) c true None)
  | inv_cleanup_next fr ty c b : (* ... and the next operation waits for it *)
      (b = true -> c = false) -> op_inv fr (Op 12 (KHandle ty false) c true (Some (Kresetop b)))
  | inv_closing fr ty c :
      op_inv fr (Op 0 (KHandle ty true) c true None)
  | inv_closing_next fr ty c b :
      (b = true -> c = false) -> op_inv fr (Op 4 (KHandle ty true) c true (Some (Kresetop b))).

(** What an operation adds to the counters. *)
Definition is_active (op : lcu_Operation) : bool :=
  match kind op with KRequest known => known | KHandle _ _ => true end.
Definition is_async (op : lcu_Operation) : bool :=
  match kind op with KHandle UV_ASYNC false => true | _ => false end.

(** A function that takes a good operation to a good one, with the counters. *)
Definition good (fr : option fkind) (s : lcu_Scheduler) (op : lcu_Operation)
    (r : option (lcu_Scheduler * lcu_Operation)) : Prop :=
  exists s' op', r = Some (s', op') /\ op_inv fr op' /\
    nactive s' = nactive s - Z.b2z (is_active op) + Z.b2z (is_active op') /\
    nasync s' = nasync s - Z.b2z (is_async op) + Z.b2z (is_async op').

Ltac row := first
  [ by apply inv_free | by apply inv_resumed | by apply inv_waiting | by apply inv_dropped | by apply inv_dropped_next | by apply inv_handle
  | by apply inv_event | by apply inv_cleanup | by apply inv_cleanup_next
  | by apply inv_closing | by apply inv_closing_next ].

(** Evaluate a function of the operation on a row of the table. *)
Ltac evaluate r k :=
  let r' := eval cbv -[Z.succ Z.sub Z.ltb Z.geb Z.leb decide] in r in k r'.

Ltac invert_row H :=
  inversion H; subst; clear H; cbn in *; simplify_eq.

(** The cases of the tests on the results of a setup, and on handle types. *)
Ltac cases :=
  repeat match goal with
  | |- context [?x <? ?y] => destruct (Z.ltb_spec x y); [try lia |]
  | |- context [?x >=? ?y] => destruct (Z.geb_spec x y)
  | |- context [decide ?P] => destruct (decide P); simplify_eq
  end.

(** Find the row that a function reaches. *)
Ltac good_row :=
  match goal with
  | |- good ?fr ?s ?op ?r => evaluate r ltac:(fun r' => change (good fr s op r'))
  end;
  unfold good; cases; try lia;
  (eexists _, _; (split; [reflexivity | split; [row | cbn; lia]])).

Lemma async_active op : is_async op = true -> is_active op = true.
Proof. unfold is_async, is_active. by destruct (kind op) as [? | [] []]. Qed.

Lemma startcoreqk_good fr s op f :
  op_inv fr op -> kind op = KRequest false -> cancel op = false -> req_setup_ok f ->
  good fr s op (startcoreqk f s op).
Proof.
  intros Hop Hk Hc Hf. destruct s, f as [| nret | err nret]; cbn in Hf;
    invert_row Hop; good_row.
Qed.

Lemma startcohdlk_good fr s op f type :
  op_inv fr op -> kind op = KRequest false -> hdl_setup_ok f ->
  good fr s op (startcohdlk f type true s op).
Proof.
  intros Hop Hk Hf. destruct s, f as [| nret | err nret], type; cbn in Hf;
    invert_row Hop; good_row.
Qed.

Lemma resetcoreqk_good fr s op f :
  op_inv fr op -> cont op = None -> req_setup_ok f ->
  good fr s op (lcuT_resetcoreqk f false s op).
Proof.
  intros Hop Hc Hf. destruct s, f as [| nret | err nret]; cbn in Hf;
    invert_row Hop; try destruct ty; good_row.
Qed.

Lemma resetcohdlk_good fr s op f type c :
  op_inv fr op -> cont op = None -> hdl_setup_ok f ->
  good fr s op (lcuT_resetcohdlk f type c s op).
Proof.
  intros Hop Hc Hf. destruct s, f as [| nret | err nret]; cbn in Hf;
    invert_row Hop; try destruct ty; destruct type; good_row.
Qed.

Lemma script_resume_good fr s op cancelled :
  op_inv fr op -> cont op <> None ->
  good fr s op
    match cont op with
    | Some Kendop => k_endop true cancelled s op
    | Some (Kresetop _) => k_resetopk true (SetupReq RqRaise) s op
    | None => None
    end.
Proof.
  intros Hop Hc. destruct s, cancelled; invert_row Hop; try destruct ty; try destruct c; good_row.
Qed.

(** A callback that may go on to resume the coroutine in a frame. *)
Definition good_callback (fk : fkind) (s : lcu_Scheduler) (op : lcu_Operation)
    (r : option (bool * (lcu_Scheduler * lcu_Operation)))
    (start : lcu_Scheduler -> lcu_Operation -> option (lcu_Scheduler * lcu_Operation)) : Prop :=
  exists b x, r = Some (b, x) /\
    if b : bool then good (Some fk) s op (start x.1 x.2) else good None s op (Some x).

Lemma request_done_good s op f :
  op_inv None op -> kind op = KRequest true -> saved_setup op f ->
  good_callback ReqFrame s op (lcuU_endcoreq s op) (resumecoreq_start f).
Proof.
  intros Hop Hk [Hf Hs]. destruct s.
  unfold good_callback.
  invert_row Hop.
  all: eexists _, _; split; [reflexivity |]; cbv beta iota.
  1, 2: good_row.
  specialize (Hs _ eq_refl).
  destruct f as [[| nret | err nret] | [| nret | err nret] []]; cbn in *; subst;
    try specialize (H0 eq_refl); subst; good_row.
Qed.

Lemma handle_closed_good s op ty f :
  op_inv None op -> kind op = KHandle ty true -> saved_setup op f ->
  good_callback ReqFrame s op (closedhdl s op) (resumecoreq_start f).
Proof.
  intros Hop Hk [Hf Hs]. destruct s. unfold good_callback. invert_row Hop.
  all: eexists _, _; split; [reflexivity |]; cbv beta iota.
  - destruct ty; good_row.
  - specialize (Hs _ eq_refl).
    destruct ty, f as [[| nret | err nret] | [| nret | err nret] []]; cbn in *; subst;
      try specialize (H eq_refl); subst; good_row.
Qed.

Lemma handle_event_good s op ty f :
  op_inv None op -> kind op = KHandle ty false -> saved_setup op f ->
  good_callback HdlFrame s op (lcuU_endcohdl s op) (resumecohdl_start f).
Proof.
  intros Hop Hk [Hf Hs]. destruct s. unfold good_callback.
  invert_row Hop; destruct ty; eexists _, _; (split; [reflexivity |]); cbv beta iota; good_row.
Qed.

Lemma resumecoreq_end_good s op :
  op_inv (Some ReqFrame) op -> good None s op (resumecoreq_end s op).
Proof. intros Hop. destruct s. invert_row Hop; try destruct ty; good_row. Qed.

Lemma resumecohdl_end_good s op :
  op_inv (Some HdlFrame) op -> good None s op (resumecohdl_end s op).
Proof. intros Hop. destruct s. invert_row Hop; try destruct ty; good_row. Qed.

(** ** The invariant of the scheduler *)

Definition frame_of (w : world) (t : thread) : option fkind :=
  match frame w with
  | Some (fk, t') => if decide (t' = t) then Some fk else None
  | None => None
  end.

Record inv (w : world) : Prop := Inv {
  inv_ops : forall t, op_inv (frame_of w t) (tothrop w t);
  inv_nactive : nactive (sched w) = countm is_active (ops w) + others w;
  inv_nasync : nasync (sched w) = countm is_async (ops w);
  inv_others : 0 <= others w;
}.

Lemma initial_ops_inv : inv initial.
Proof.
  constructor; try done. intros t. unfold frame_of, tothrop. cbn.
  rewrite lookup_empty. apply inv_free.
Qed.

(** Changing the operation of [t] changes the counts by its contribution. *)
Lemma countm_put (P : lcu_Operation -> bool) w t op' :
  P new_operation = false ->
  countm P (<[t := op']> (ops w))
    = countm P (ops w) - Z.b2z (P (tothrop w t)) + Z.b2z (P op').
Proof.
  intros HP. unfold tothrop. destruct (ops w !! t) as [op |] eqn:Ht; cbn.
  - by apply countm_insert_Some.
  - rewrite countm_insert_None by done. rewrite HP. cbn. lia.
Qed.

Lemma put_inv w t fr s' op' :
  inv w -> (forall t', t' <> t -> frame_of w t' = None \/ fr = frame w) ->
  (fr = frame w \/ (forall fk t', fr = Some (fk, t') -> t' = t)) ->
  op_inv (match fr with Some (fk, t') => if decide (t' = t) then Some fk else None
          | None => None end) op' ->
  nactive s' = nactive (sched w) - Z.b2z (is_active (tothrop w t)) + Z.b2z (is_active op') ->
  nasync s' = nasync (sched w) - Z.b2z (is_async (tothrop w t)) + Z.b2z (is_async op') ->
  inv (put w t fr (s', op')).
Proof.
  intros [Ho Ha Hn Hot] Hfr Hfr' Hop Hna Hns. constructor; cbn.
  - intros t'. unfold frame_of, tothrop. cbn. destruct (decide (t' = t)) as [-> | Hne].
    + by rewrite lookup_insert_eq.
    + rewrite lookup_insert_ne by done. specialize (Ho t').
      destruct (Hfr t' Hne) as [HN | ->]; [| exact Ho].
      rewrite HN in Ho. destruct Hfr' as [-> | Hfr']; [by unfold frame_of in HN; rewrite HN |].
      destruct fr as [[fk t''] |]; [| exact Ho]. rewrite (Hfr' fk t'' eq_refl).
      by rewrite decide_False.
  - rewrite countm_put by done. lia.
  - rewrite countm_put by done. lia.
  - done.
Qed.

(** A function of an operation outside of, or inside, the frame. *)
Lemma good_put w t r :
  inv w -> good (frame_of w t) (sched w) (tothrop w t) r ->
  exists w', put w t (frame w) <$> r = Some w' /\ inv w'.
Proof.
  intros Hi (s' & op' & -> & Hop & Hna & Hns). eexists. split; [done |].
  apply put_inv; auto.
Qed.

Lemma good_frame w t fk (fr : option fkind) r :
  inv w -> frame w = None \/ (exists k, frame w = Some (k, t)) ->
  good fr (sched w) (tothrop w t) r ->
  fr = None \/ fr = Some fk ->
  exists w', put w t ((fun k => (k, t)) <$> fr) <$> r = Some w' /\ inv w'.
Proof.
  intros Hi Hw (s' & op' & -> & Hop & Hna & Hns) Hfr. eexists. split; [done |].
  apply put_inv; try done.
  - intros t' Hne. left. unfold frame_of.
    destruct Hw as [-> | [k ->]]; [done | by rewrite decide_False].
  - right. intros fk' t' Heq. destruct fr; naive_solver.
  - destruct fr; cbn; [by rewrite decide_True | done].
Qed.

Lemma good_callback_put w t (f : setup_fn) fk r start :
  inv w -> frame w = None ->
  good_callback fk (sched w) (tothrop w t) r (start f) ->
  exists w', (r ≫= fun r => if r.1 : bool
                then put w t (Some (fk, t)) <$> start f r.2.1 r.2.2
                else Some (put w t (frame w) r.2)) = Some w' /\ inv w'.
Proof.
  intros Hi Hw (b & x & -> & Hg). cbn [mbind option_bind fst snd]. destruct b.
  - apply (good_frame w t fk (Some fk)); auto.
  - rewrite Hw. destruct (good_frame w t fk None (Some x) Hi (or_introl Hw) Hg) as (w' & Hp & Hi');
      [by left |]. exists w'. split; [exact Hp | done].
Qed.

Lemma frame_of_none w t : frame w = None -> frame_of w t = None.
Proof. unfold frame_of. by intros ->. Qed.

Lemma operation_step_ok w a : inv w -> enabled false w a -> exists w', exec w a = Some w' /\ inv w'.
Proof.
  intros Hi He. pose proof (inv_ops _ Hi) as Hop.
  destruct a as [t f c | t f ty c | t c | t f | t f | t f | | n]; cbn [enabled exec] in *.
  - destruct He as (Hc & Hf & Hcc). destruct c; [by specialize (Hcc eq_refl) |].
    apply good_put; [done |]. by apply resetcoreqk_good.
  - destruct He as (Hc & Hf). apply good_put; [done |]. by apply resetcohdlk_good.
  - apply good_put; [done |]. by apply script_resume_good.
  - destruct He as (Hfr & Hk & Hs). apply (good_callback_put w t f _ _ resumecoreq_start); [done.. |].
    apply request_done_good; [| done | done]. by rewrite <- (frame_of_none w t Hfr).
  - destruct He as (Hfr & [ty Hk] & Hs). apply (good_callback_put w t f _ _ resumecohdl_start); [done.. |].
    apply (handle_event_good _ _ ty); [| done | done]. by rewrite <- (frame_of_none w t Hfr).
  - destruct He as (Hfr & [ty Hk] & Hs). apply (good_callback_put w t f _ _ resumecoreq_start); [done.. |].
    apply (handle_closed_good _ _ ty); [| done | done]. by rewrite <- (frame_of_none w t Hfr).
  - destruct (frame w) as [[fk t] |] eqn:Hfr; [| done].
    assert (op_inv (Some fk) (tothrop w t)) as Ho.
    { specialize (Hop t). unfold frame_of in Hop. by rewrite Hfr, decide_True in Hop. }
    destruct fk.
    + apply (good_frame w t ReqFrame None); eauto. by apply resumecoreq_end_good.
    + apply (good_frame w t HdlFrame None); eauto. by apply resumecohdl_end_good.
  - eexists. split; [done |]. destruct Hi as [Ho Ha Hn Hot]. constructor; cbn; try done. lia.
Qed.

Lemma operation_inv w : reachable false w -> inv w.
Proof. apply (reached_safe _ _ _ inv); [apply initial_ops_inv | apply operation_step_ok]. Qed.

(** ** Properties *)

Ltac solve_run :=
  cbn -[exec tothrop]; repeat (split; [vm_compute; naive_solver lia |]);
  vm_compute; naive_solver.

(** A coroutine waits for a request; the script resumes it, and it starts a
    handle operation, which waits for the end of the request. *)
Definition sample_run : list action :=
  [StartReq 1 (RqCall 0 (-1)) false; ScriptResume 1 true;
   StartHdl 1 (HdCall 0 (-1)) UV_ASYNC true].







(** This relies on requests having no cancel function.  If one had a cancel
    function that returns false, the flag [FLAG_CLEANUP] would stay set until
    after the request, and the next operation of the coroutine, which waits for
    the request, would fail the assertion of [startedopk]. *)
Theorem request_cancel_breaks_next :
  exists w, reachable true w /\
    enabled true w (RequestDone 1 (SetupReq (RqCall 0 (-1)))) /\
    exec w (RequestDone 1 (SetupReq (RqCall 0 (-1)))) = None.
Proof.
  apply (reached_run initial (enabled true) exec
    [StartReq 1 (RqCall 0 (-1)) true; ScriptResume 1 false; StartReq 1 (RqCall 0 (-1)) true]). solve_run.
Qed.
