(* ===== verification/UdataHandle.v ===== *)
(** * Objects with a libuv handle (src/src/loperaux.c, lines 472 to 632)

    Sockets, pipes and terminals are userdata that hold a handle.  One coroutine
    at a time waits on such an object; the handle stays started between calls,
    so that a coroutine that calls again from within a callback goes on without
    starting it anew, and it is stopped when a callback ends with nobody waiting.

    The functions act on one object and on the number of active handles of its
    scheduler.  The system interleaves them: inside a callback and inside
    [lcu_closeudhdl], which resumes the waiting coroutine, scripts run and may
    use the same object ([frames] is the stack of such functions in progress). *)
From S2P Require Import Prelude Steps.

Abbreviation thread := positive.

Definition LCU_HANDLECLOSEDFLAG : Z := 0x01.

(** [stop]: the field is not null.  [data]: the coroutine in [handle.data].
    [saved]: the object is in the registry.  [upv]: the coroutine in the user
    value [UPV_THREAD].  [closing]: what [uv_is_closing] tells. *)
Record lcu_UdataHandle := UdHdl {
  flags : Z; stop : bool; data : option thread; saved : bool;
  upv : option thread; closing : bool;
}.

Implicit Types (n : Z) (o : lcu_UdataHandle).

(** A new object whose handle was initialised (lcuT_createudhdl sets the flag,
    the functions that create objects clear it afterwards). *)
Definition lcuT_createudhdl : lcu_UdataHandle :=
  UdHdl LCU_HANDLECLOSEDFLAG false None false None false.
Definition opened o : lcu_UdataHandle :=
  UdHdl (lcuL_clearflag (flags o) LCU_HANDLECLOSEDFLAG) (stop o) (data o) (saved o) (upv o) (closing o).

Definition is_closed o : bool := ctrue (lcuL_maskflag (flags o) LCU_HANDLECLOSEDFLAG).

Definition set_data v o := UdHdl (flags o) (stop o) v (saved o) (upv o) (closing o).
Definition set_stop v o := UdHdl (flags o) v (data o) (saved o) (upv o) (closing o).
Definition set_saved v o := UdHdl (flags o) (stop o) (data o) v (upv o) (closing o).
Definition set_upv v o := UdHdl (flags o) (stop o) (data o) (saved o) v (closing o).

(** The end of [lcu_closeudhdl], from [lua_pushvalue] on.  [None]: [uv_close] of
    a handle that is already closing, which libuv does not allow. *)
Definition close_finish o : option lcu_UdataHandle :=
  lcu_assert (negb (closing o)) ≫= λ _,
  Some (UdHdl (lcuL_setflag (flags o) LCU_HANDLECLOSEDFLAG) (stop o) (data o) true (upv o) true).

(** [err]: what the stop function returns.  [None]: an assertion fails, or the
    object is not in the registry. *)
Definition stopudhdl (err : Z) n o : option (Z * lcu_UdataHandle) :=
  let err := if stop o then err else 0 in
  lcu_assert (bool_decide (data o = None)) ≫= λ _,
  lcu_assert (saved o) ≫= λ _,  (* [pushsaved] gives the object *)
  o ← (if err <? 0 then if is_closed o then Some o else close_finish o
       else
         let o := set_upv None o in
         Some (if negb (is_closed o) then set_saved false o else o));
  Some (n - 1, set_stop false o).

(** [k_endudhdlk] when the coroutine is not resumed by the scheduler. *)
Definition endudhdlk_halted (err : Z) n o : option (Z * lcu_UdataHandle) :=
  lcu_assert (negb (bool_decide (data o = None))) ≫= λ _,
  stopudhdl err n (set_data None o).

Definition scheduleudhdlk (t : thread) o : option lcu_UdataHandle :=
  lcu_assert (negb (closing o)) ≫= λ _,
  Some (set_data (Some t) (set_upv (Some t) o)).

(** ... and when it is: the step function returns to the script or waits again.
    [eof]: the callback has cleared the stop function ([uv_onrecvdata]). *)
Inductive step_result := StepReturn (eof : bool) | StepAgain.

Definition endudhdlk_resumed (st : step_result) o : option lcu_UdataHandle :=
  t ← data o;
  let o := set_data None o in
  match st with
  | StepReturn eof => Some (if eof then set_stop false o else o)
  | StepAgain => scheduleudhdlk t o
  end.

(** [err]: what the start function returns; the flag tells whether the coroutine
    waits. *)
Definition lcuT_resetudhdlk (t : thread) (err : Z) n o : option (bool * (Z * lcu_UdataHandle)) :=
  if negb (bool_decide (data o = None)) then Some (false, (n, o))  (* "already in use" *)
  else if negb (stop o) then
    let o := set_data (Some t) (set_saved true o) in
    if err <? 0 then Some (false, (n, set_saved false (set_data None o)))
    else o ← scheduleudhdlk t (set_stop true o); Some (true, (n + 1, o))
  else o ← scheduleudhdlk t o; Some (true, (n, o)).

(** ** The system *)

(** A callback that resumed a coroutine, or a close that did. *)
Inductive fkind := FEvent | FClose.
#[export] Instance fkind_eq_dec : EqDecision fkind.
Proof. solve_decision. Defined.

Record world := World { nactive : Z; obj : lcu_UdataHandle; frames : list fkind }.

Inductive action :=
  | Reset (t : thread) (err : Z)
  | ScriptResume (err : Z)
  | Event (st : step_result)
  | Close (err : Z)
  | FrameEnd (err : Z)
  | Closed.

(** [None]: an assertion fails, or libuv or Lua is used in a way they forbid. *)
Definition exec (w : world) (a : action) : option world :=
  match a with
  | Reset t err =>
      r ← lcuT_resetudhdlk t err (nactive w) (obj w); Some (World r.2.1 r.2.2 (frames w))
  | ScriptResume err =>
      r ← endudhdlk_halted err (nactive w) (obj w); Some (World r.1 r.2 (frames w))
  | Event st =>
      o ← endudhdlk_resumed st (obj w); Some (World (nactive w) o (FEvent :: frames w))
  | Close err =>
      if is_closed (obj w) then Some w
      else match data (obj w) with
      | Some _ =>
          r ← endudhdlk_halted err (nactive w) (obj w);
          Some (World r.1 r.2 (FClose :: frames w))
      | None => o ← close_finish (obj w); Some (World (nactive w) o (frames w))
      end
  | FrameEnd err =>
      match frames w with
      | FEvent :: fs =>
          if bool_decide (data (obj w) = None) then
            r ← stopudhdl err (nactive w) (obj w); Some (World r.1 r.2 fs)
          else Some (World (nactive w) (obj w) fs)
      | FClose :: fs =>
          o ← close_finish (set_upv None (obj w)); Some (World (nactive w) o fs)
      | [] => None
      end
  | Closed => Some (World (nactive w) (set_saved false (obj w)) (frames w))
  end.

(** What the program and libuv can do.  [calm] is a discipline of the scripts:
    nothing uses the object while a close of it is in progress, and inside a
    callback nothing cancels the coroutine that waits on it, nor starts a handle
    that libuv has stopped at the end of the stream. *)
Definition enabled (calm : bool) (w : world) (a : action) : Prop :=
  match a with
  | Reset t err =>
      is_closed (obj w) = false /\
      (calm = true -> frames w = [] \/ (frames w = [FEvent] /\ stop (obj w) = true))
  | ScriptResume err => data (obj w) <> None /\ (calm = true -> frames w = [])
  | Event st => frames w = [] /\ data (obj w) <> None
  | Close err =>
      calm = true -> 0 <= err /\
        (frames w = [] \/ (frames w = [FEvent] /\ data (obj w) = None))
  | FrameEnd err => frames w <> []
  | Closed => frames w = [] /\ closing (obj w) = true /\ saved (obj w) = true
  end.

Definition initial : world := World 0 (opened lcuT_createudhdl) [].

Abbreviation reachable calm := (reached initial (enabled calm) exec).

(** *** The states of an object used with discipline *)

Inductive inv : world -> Prop :=
  | inv_idle u : inv (World 0 (UdHdl 0 false None false u false) [])
  | inv_waiting t u : inv (World 1 (UdHdl 0 true (Some t) true u false) [])
  | inv_event s u : inv (World 1 (UdHdl 0 s None true u false) [FEvent])
  | inv_event_next t u : inv (World 1 (UdHdl 0 true (Some t) true u false) [FEvent])
  | inv_event_closed s u : inv (World 1 (UdHdl 1 s None true u true) [FEvent])
  | inv_closing u : inv (World 0 (UdHdl 0 false None false u false) [FClose])
  | inv_closed sv u : inv (World 0 (UdHdl 1 false None sv u true) []).

Ltac row := first
  [ apply inv_idle | apply inv_waiting | apply inv_event | apply inv_event_next
  | apply inv_event_closed | apply inv_closing | apply inv_closed ].

Lemma handle_step_ok w a : inv w -> enabled true w a -> exists w', exec w a = Some w' /\ inv w'.
Proof.
  intros Hi He.
  assert (forall x y, (x <? y) = true \/ (x <? y) = false) as Hb by (intros; destruct (x <? y); auto).
  destruct Hi, a as [t' err | err | [[] |] | err | err |]; cbn in He;
    repeat match goal with
    | H : _ /\ _ |- _ => destruct H
    | H : true = true -> _ |- _ => specialize (H eq_refl)
    | H : _ \/ _ |- _ => destruct H
    end; try done;
    unfold exec, lcuT_resetudhdlk, endudhdlk_halted, stopudhdl, close_finish; cbn;
    try match goal with |- context [?e <? 0] => destruct (Z.ltb_spec e 0) end; try lia;
    try destruct s; cbn;
    try match goal with |- context [?e <? 0] => destruct (Z.ltb_spec e 0) end; try lia; cbn;
    (eexists; (split; [reflexivity | row])).
Qed.

Lemma handle_inv w : reachable true w -> inv w.
Proof. apply (reached_safe _ _ _ inv); [apply inv_idle | apply handle_step_ok]. Qed.

(** ** Properties *)

Ltac solve_run := cbn -[exec]; repeat (split; [vm_compute; naive_solver lia |]);
  vm_compute; naive_solver.



(** The discipline is needed.  (1) A coroutine that is resumed because the
    object it waits on is being closed, and closes it too, makes
    [lcu_closeudhdl] close the handle twice.  (2) When a coroutine starts to wait
    inside a callback and is cancelled by the script inside the same callback,
    the object is stopped again at its end, when it is not in the registry any
    more.  (3) When the stream has ended and is read again in the callback, the
    handle is counted as active twice: it is still counted once when it has been
    stopped and nobody uses it. *)
Theorem objects_used_without_discipline :
  (exists w, reachable false w /\ enabled false w (FrameEnd 0) /\ frames w = [FClose] /\
     exec w (FrameEnd 0) = None) /\
  (exists w, reachable false w /\ enabled false w (FrameEnd 0) /\ frames w = [FEvent] /\
     exec w (FrameEnd 0) = None) /\
  (exists w, reachable false w /\ frames w = [] /\ data (obj w) = None /\
     stop (obj w) = false /\ nactive w = 1).
Proof.
  split; [| split].
  - apply (reached_run initial (enabled false) exec [Reset 1 0; Close 0; Close 0]). solve_run.
  - apply (reached_run initial (enabled false) exec
      [Reset 1 0; Event (StepReturn false); Reset 2 0; ScriptResume 0]). solve_run.
  - apply (reached_run initial (enabled false) exec
      [Reset 1 0; Event (StepReturn true); Reset 2 0; FrameEnd 0; ScriptResume 0]).
    vm_compute. naive_solver.
Qed.
