(* ===== verification/UdataRequest.v ===== *)
(** * Objects with a libuv request (src/src/loperaux.c, lines 635 to 780)

    Coroutines with a state of their own and directory lists are userdata that
    hold a request.  The type of the request tells whether it is free and
    collectable ([Unknown]), free but kept ([Kept], UV_REQ_TYPE_MAX), or in use
    by libuv ([Busy]). *)
From S2P Require Import Prelude Steps.

Abbreviation thread := positive.

Inductive reqtype := Unknown | Kept | Busy.
#[export] Instance reqtype_eq_dec : EqDecision reqtype.
Proof. solve_decision. Defined.

(** The continuation of the coroutine in [request.data]. *)
Inductive contin := Kend | Kreset.
#[export] Instance contin_eq_dec : EqDecision contin.
Proof. solve_decision. Defined.

Record lcu_UdataRequest := UdReq {
  type : reqtype; data : option (thread * option contin); saved : bool;
}.

Implicit Types (n : Z) (o : lcu_UdataRequest).

Definition lcuT_createudreq : lcu_UdataRequest := UdReq Unknown None false.

Definition freeudreq o : option lcu_UdataRequest :=
  lcu_assert (bool_decide (type o = Kept)) ≫= λ _,
  lcu_assert (saved o) ≫= λ _,  (* [pushsaved] gives the object *)
  Some (UdReq Unknown None false).

(** [busy]: the setup has started the request; libuv then sets its type.
    [nret]: what the setup returned. *)
Definition startedudreqk (t : thread) (busy : bool) (nret : Z) n o
    : option (Z * lcu_UdataRequest) :=
  let o := if busy then UdReq Busy (data o) (saved o) else o in
  if nret >=? 0 then o ← freeudreq o; Some (n, o)
  else
    lcu_assert (negb (bool_decide (type o = Unknown))) ≫= λ _,
    lcu_assert (negb (bool_decide (type o = Kept))) ≫= λ _,
    lcu_assert (bool_decide (fst <$> data o = Some t)) ≫= λ _,
    Some (n + 1, UdReq (type o) (Some (t, Some Kend)) (saved o)).

(** The flag is false when the object is in use by another coroutine. *)
Definition lcuT_resetudreqk (t : thread) (busy : bool) (nret : Z) n o
    : option (bool * (Z * lcu_UdataRequest)) :=
  if negb (bool_decide (data o = None)) then Some (false, (n, o))
  else
    let o := if decide (type o = Unknown) then UdReq Kept (data o) true else o in
    let o := UdReq (type o) (Some (t, None)) (saved o) in
    if decide (type o = Kept) then
      r ← startedudreqk t busy nret n o; Some (true, r)
    else Some (true, (n, UdReq (type o) (Some (t, Some Kreset)) (saved o))).

(** The coroutine is resumed by the script: [k_endudreq] or [k_resetudreqk];
    [uv_cancel] does not change the type. *)
Definition resumed_halted o : option lcu_UdataRequest :=
  d ← data o; _ ← d.2; Some (UdReq (type o) None (saved o)).

(** ... or by the scheduler. *)
Definition resumed_token (busy : bool) (nret : Z) n o : option (Z * lcu_UdataRequest) :=
  d ← data o;
  match d.2 with
  | Some Kend => Some (n, UdReq (type o) None (saved o))
  | Some Kreset =>
      lcu_assert (bool_decide (type o = Unknown)) ≫= λ _,
      startedudreqk d.1 busy nret n o
  | None => None
  end.

(** The flag tells whether a coroutine is to be resumed. *)
Definition lcuU_endudreq n o : option (bool * (Z * lcu_UdataRequest)) :=
  lcu_assert (negb (bool_decide (type o = Unknown))) ≫= λ _,
  lcu_assert (negb (bool_decide (type o = Kept))) ≫= λ _,
  let o := UdReq Kept (data o) (saved o) in
  match data o with
  | Some _ => Some (true, (n - 1, o))
  | None => o ← freeudreq o; Some (false, (n - 1, o))
  end.

Definition resumeudreq_end n o : option (Z * lcu_UdataRequest) :=
  if decide (type o = Kept) then o ← freeudreq o; Some (n, o) else Some (n, o).

(** ** The system *)

Record world := World { nactive : Z; obj : lcu_UdataRequest; frame : bool }.

Inductive action :=
  | Reset (t : thread) (busy : bool) (nret : Z)
  | ScriptResume
  | Done (busy : bool) (nret : Z)
  | FrameEnd.

Definition exec (w : world) (a : action) : option world :=
  match a with
  | Reset t busy nret =>
      r ← lcuT_resetudreqk t busy nret (nactive w) (obj w); Some (World r.2.1 r.2.2 (frame w))
  | ScriptResume => o ← resumed_halted (obj w); Some (World (nactive w) o (frame w))
  | Done busy nret =>
      r ← lcuU_endudreq (nactive w) (obj w);
      if r.1 : bool then
        x ← resumed_token busy nret r.2.1 r.2.2; Some (World x.1 x.2 true)
      else Some (World r.2.1 r.2.2 (frame w))
  | FrameEnd => r ← resumeudreq_end (nactive w) (obj w); Some (World r.1 r.2 false)
  end.

(** [queue]: a coroutine may call on an object whose request is still in use by
    libuv for a coroutine that was cancelled.  The functions of the library
    refuse that ([system_resume]) or use a new object for every call. *)
Definition enabled (queue : bool) (w : world) (a : action) : Prop :=
  match a with
  | Reset t busy nret =>
      (busy = true <-> nret < 0) /\ (queue = false -> type (obj w) <> Busy)
  | ScriptResume => exists t c, data (obj w) = Some (t, Some c)
  | Done busy nret => frame w = false /\ type (obj w) = Busy /\ (busy = true <-> nret < 0)
  | FrameEnd => frame w = true
  end.

Definition initial : world := World 0 lcuT_createudreq false.

Abbreviation reachable queue := (reached initial (enabled queue) exec).

Inductive inv : world -> Prop :=
  | inv_free f : inv (World 0 (UdReq Unknown None false) f)
  | inv_kept : inv (World 0 (UdReq Kept None true) true)
  | inv_busy f : inv (World 1 (UdReq Busy None true) f)
  | inv_waited f t : inv (World 1 (UdReq Busy (Some (t, Some Kend)) true) f).

Ltac row := first [ apply inv_free | apply inv_kept | apply inv_busy | apply inv_waited ].

Lemma request_step_ok w a : inv w -> enabled false w a -> exists w', exec w a = Some w' /\ inv w'.
Proof.
  intros Hi He.
  destruct Hi, a as [t' [] nret | | [] nret |]; cbn in He;
    repeat match goal with
    | H : _ /\ _ |- _ => destruct H
    | H : exists _, _ |- _ => destruct H
    | H : false = false -> _ |- _ => specialize (H eq_refl)
    end; try done; try congruence;
    unfold exec, lcuT_resetudreqk, startedudreqk, freeudreq, lcuU_endudreq, resumed_token,
      resumeudreq_end; cbn;
    try match goal with |- context [?e >=? 0] => destruct (Z.geb_spec e 0) end;
    try (exfalso; naive_solver lia); cbn;
    rewrite ?bool_decide_true by done; cbn;
    try (eexists; (split; [reflexivity | row])).
Qed.

Lemma request_inv w : reachable false w -> inv w.
Proof. apply (reached_safe _ _ _ inv); [apply inv_free | apply request_step_ok]. Qed.

Ltac solve_run := cbn -[exec]; repeat (split; [vm_compute; naive_solver lia |]);
  vm_compute; naive_solver lia.



(** A coroutine that calls on an object in use waits in [k_resetudreqk] for
    the end of the request, but the assertion made there, that the request has
    the type [UV_UNKNOWN_REQ], does not hold: [lcuU_endudreq] has just set it to
    [UV_REQ_TYPE_MAX]. *)
Theorem queued_request_fails :
  exists w, reachable true w /\ enabled true w (Done true (-1)) /\
    data (obj w) = Some (2%positive, Some Kreset) /\ exec w (Done true (-1)) = None.
Proof.
  apply (reached_run initial (enabled true) exec [Reset 1 true (-1); ScriptResume; Reset 2 true (-1)]). solve_run.
Qed.
