(* ===== verification/Outcome.v ===== *)
(** * What a function called from a script does

    Functions that check their arguments return, raise an error about one of
    them, raise another error, or fail in a way C does not define.  The loops
    over the characters of a mode string are shared by several modules. *)
From S2P Require Import Prelude.

(** It returns; [luaL_argcheck] fails; [luaL_error] is called; [lcuL_pusherrres]
    gives an error of libuv; it reads or writes outside of a buffer; an
    assertion fails. *)
Inductive result (A : Type) :=
  | Ok (a : A)
  | ArgError (arg : Z) (msg : string)
  | LuaError (msg : string)
  | UvError (err : Z)
  | Overrun
  | AssertFail.
Arguments Ok {A}. Arguments ArgError {A}. Arguments LuaError {A}. Arguments UvError {A}.
Arguments Overrun {A}. Arguments AssertFail {A}.

Definition rbind {A B} (r : result A) (f : A -> result B) : result B :=
  match r with
  | Ok a => f a
  | ArgError arg msg => ArgError arg msg
  | LuaError msg => LuaError msg
  | UvError err => UvError err
  | Overrun => Overrun
  | AssertFail => AssertFail
  end.
Notation "x <- r ;; k" := (rbind r (fun x => k)) (at level 100, r at next level, right associativity).

(** [luaL_argcheck] and [lcu_assert]. *)
Definition luaL_argcheck (cond : bool) (arg : Z) (msg : string) : result unit :=
  if cond then Ok tt else ArgError arg msg.

Definition rassert (cond : bool) : result unit := if cond then Ok tt else AssertFail.

Definition byte_of (c : ascii) : Z := Z.of_N (N_of_ascii c).

(** The message of every loop over the characters of a mode. *)
Definition unknown_mode {A} (c : ascii) : result A :=
  LuaError ("unknown mode char (got '" +:+ String c "')").

(** A loop over the characters of [mode] with a [switch] in its body. *)
Fixpoint mode_loop {A} (step : A -> ascii -> result A) (a : A) (mode : string) : result A :=
  match mode with
  | EmptyString => Ok a
  | String c mode => a <- step a c;; mode_loop step a mode
  end.

(** The characters up to the first zero, as C functions see them. *)
Fixpoint c_string (s : string) : string :=
  match s with
  | String c s => if decide (c = "000"%char) then EmptyString else String c (c_string s)
  | EmptyString => EmptyString
  end.

Lemma mode_loop_app {A} (step : A -> ascii -> result A) a s1 s2 :
  mode_loop step a (s1 +:+ s2) = (a <- mode_loop step a s1;; mode_loop step a s2).
Proof.
  revert a. induction s1 as [| c s1 IH]; intros a; [done |].
  change (String c s1 +:+ s2) with (String c (s1 +:+ s2)). cbn [mode_loop].
  destruct (step a c); cbn [rbind]; [apply IH | done ..].
Qed.

(** How often a character occurs. *)
Fixpoint count_char (c : ascii) (s : string) : nat :=
  match s with
  | EmptyString => 0
  | String c' s => (if decide (c' = c) then 1 else 0) + count_char c s
  end.

Lemma count_char_app c s1 s2 :
  count_char c (s1 +:+ s2) = (count_char c s1 + count_char c s2)%nat.
Proof.
  induction s1 as [| c' s1 IH]; [done |].
  change (String c' s1 +:+ s2) with (String c' (s1 +:+ s2)). cbn [count_char]. lia.
Qed.

(** Every character of a mode is one of [cs]. *)
Fixpoint chars_in (cs s : string) : bool :=
  match s with
  | EmptyString => true
  | String c s => bool_decide (count_char c cs <> 0%nat) && chars_in cs s
  end.

Lemma rbind_ok {A B} (r : result A) (f : A -> result B) b :
  (x <- r;; f x) = Ok b <-> exists a, r = Ok a /\ f a = Ok b.
Proof. destruct r; cbn; naive_solver. Qed.

Lemma luaL_argcheck_ok cond arg msg u : luaL_argcheck cond arg msg = Ok u <-> cond = true.
Proof. destruct cond, u; cbn; naive_solver. Qed.

(** [luaL_checkoption]: the index of a name in a list. *)
Fixpoint option_index (i : nat) (opts : list string) (s : string) : option nat :=
  match opts with
  | [] => None
  | o :: opts => if String.eqb o s then Some i else option_index (S i) opts s
  end.
Definition luaL_checkoption (arg : Z) (opts : list string) (s : string) : result nat :=
  match option_index 0 opts s with
  | Some i => Ok i
  | None => ArgError arg ("invalid option '" +:+ s +:+ "'")
  end.

Lemma option_index_in i opts s j :
  option_index i opts s = Some j -> (i <= j)%nat /\ opts !! (j - i)%nat = Some s.
Proof.
  revert i. induction opts as [| o opts IH]; intros i; cbn [option_index]; [done |].
  destruct (String.eqb_spec o s) as [-> |].
  - intros [= <-]. by rewrite Nat.sub_diag.
  - intros [Hle Hs]%IH. split; [lia |]. by replace (j - i)%nat with (S (j - S i)) by lia.
Qed.

Lemma luaL_checkoption_cases arg opts s i :
  luaL_checkoption arg opts s = Ok i -> opts !! i = Some s.
Proof.
  unfold luaL_checkoption. destruct (option_index 0 opts s) eqn:He; [| done].
  intros [= ->]. apply option_index_in in He as [_ He]. by rewrite Nat.sub_0_r in He.
Qed.
