(* ===== verification/NetAddr.v ===== *)
(** * Network addresses (src/src/lcommunf.c, lines 18 to 328)

    An address object is a [struct sockaddr]: a family, a port in network byte
    order, and the bytes of the address.  [system.address] parses the URI, text
    and binary formats, [tostring] writes the URI format, and the fields of the
    object read and change its parts. *)
From S2P Require Import Prelude Outcome.

(** [sa_family] values; other families are numbers of the host. *)
Inductive family := AF_INET | AF_INET6 | AF_OTHER (n : positive).
#[export] Instance family_eq_dec : EqDecision family.
Proof. solve_decision. Defined.

(** [sa_port]: the 16 bits as they are stored, in network order. *)
Record sockaddr := Addr { sa_family : family; sa_port : Z; sa_bytes : string }.

Definition LCU_ADDRMAXPORT : Z := 65535.
Definition LCU_ADDRMAXLITERAL : Z := 47.

(** Byte order of the host: the 16 bits are swapped (a little-endian host). *)
Definition htons (p : Z) : Z := Z.lor (Z.shiftl (Z.land p 0xff) 8) (Z.shiftr (Z.land p 0xff00) 8).
Definition ntohs (p : Z) : Z := htons p.

(** ** Parts of an address *)

(** [s] up to [e] is the string; a cast to [char] is signed.  The C loop reads
    one character before it compares [s] with [e]: the empty string is not
    given to it. *)
Fixpoint mem2port_loop (s : string) (n : Z) : option Z :=
  match s with
  | EmptyString => Some n
  | String c s =>
      let d := wraps 8 (byte_of c - 48) in
      if (d <? 0) || (d >? 9) then None
      else
        let n := n * 10 + d in
        if n >? LCU_ADDRMAXPORT then None else mem2port_loop s n
  end.

Definition mem2port (s : string) : option Z :=
  match s with EmptyString => None | _ => mem2port_loop s 0 end.

Definition int2port (n : Z) (idx : Z) : result Z :=
  _ <- luaL_argcheck ((0 <=? n) && (n <=? LCU_ADDRMAXPORT)) idx "invalid port";; Ok n.

Definition setaddrport (a : sockaddr) (port : Z) : sockaddr :=
  match sa_family a with
  | AF_INET | AF_INET6 => Addr (sa_family a) (htons port) (sa_bytes a)
  | AF_OTHER _ => a
  end.

Definition getaddrport (a : sockaddr) : Z :=
  match sa_family a with
  | AF_INET | AF_INET6 => ntohs (sa_port a)
  | AF_OTHER _ => 0
  end.

Definition addrbinsz (f : family) : Z := if decide (f = AF_INET) then 4 else 16.

(** [memcpy] of the size of the family. *)
Definition setaddrbytes (a : sockaddr) (data : string) : sockaddr :=
  match sa_family a with
  | AF_INET => Addr AF_INET (sa_port a) (take_string 4 data)
  | AF_INET6 => Addr AF_INET6 (sa_port a) (take_string 16 data)
  | AF_OTHER _ => a
  end.

(** The bytes with their number; a null pointer and 0 for other families. *)
Definition getaddrbytes (a : sockaddr) : option string * Z :=
  match sa_family a with
  | AF_INET => (Some (sa_bytes a), 4)
  | AF_INET6 => (Some (sa_bytes a), 16)
  | AF_OTHER _ => (None, 0)
  end.

Definition pushaddrtype (f : family) : string :=
  match f with AF_INET => "ipv4" | AF_INET6 => "ipv6" | AF_OTHER _ => "unsupported" end.

(** [memset] to zero of the size of the family, and the [sa_family] that the
    callers then set. *)
Definition newaddress (f : family) : result sockaddr :=
  let zeros n := string_of_list_ascii (repeat "000"%char n) in
  match f with
  | AF_INET => Ok (Addr f 0 (zeros 4%nat))
  | AF_INET6 => Ok (Addr f 0 (zeros 16%nat))
  | AF_OTHER _ => LuaError "invalid address type"
  end.

(** Swapping the bytes twice. *)
Lemma htons_spec p : 0 <= p < 2 ^ 16 -> htons p = p mod 256 * 256 + p / 256.
Proof.
  intros Hp. unfold htons.
  change 0xff with (Z.ones 8). rewrite Z.land_ones by lia.
  change 0xff00 with (Z.shiftl (Z.ones 8) 8).
  rewrite Z.shiftr_land, Z.shiftr_shiftl_l, Z.sub_diag, Z.shiftl_0_r by lia.
  rewrite Z.land_ones, Z.shiftr_div_pow2, Z.shiftl_mul_pow2 by lia.
  change (2 ^ 8) with 256. rewrite (Z.mod_small (p / 256)) by
    (split; [apply Z.div_pos; lia | apply Z.div_lt_upper_bound; lia]).
  assert (Z.land (p mod 256 * 256) (p / 256) = 0) as Hl.
  { change 256 with (2 ^ 8) at 2. rewrite <- Z.shiftl_mul_pow2 by lia.
    apply Z.bits_inj'. intros n Hn. rewrite Z.land_spec, Z.testbit_0_l.
    destruct (Z.lt_ge_cases n 8).
    - by rewrite Z.shiftl_spec_low.
    - rewrite (Z.bits_above_log2 (p / 256)), andb_false_r; [done | apply Z.div_pos; lia |].
      destruct (decide (p / 256 = 0)) as [-> |]; [cbn; lia |].
      apply Z.log2_lt_pow2; [pose proof (Z.div_pos p 256); lia |].
      apply Z.lt_le_trans with (2 ^ 8); [apply Z.div_lt_upper_bound; lia |].
      apply Z.pow_le_mono_r; lia. }
  pose proof (Z.add_lor_land (p mod 256 * 256) (p / 256)) as Ha. lia.
Qed.

Lemma ntohs_htons p : 0 <= p <= LCU_ADDRMAXPORT -> ntohs (htons p) = p.
Proof.
  unfold LCU_ADDRMAXPORT. intros Hp. unfold ntohs.
  assert (0 <= p / 256 < 256) as Hd
    by (split; [apply Z.div_pos; lia | apply Z.div_lt_upper_bound; lia]).
  pose proof (Z.mod_pos_bound p 256 ltac:(lia)) as Hm.
  rewrite (htons_spec p) by lia. rewrite htons_spec by lia.
  replace ((p mod 256 * 256 + p / 256) mod 256) with (p / 256)
    by (apply (Z.mod_unique_pos _ _ (p mod 256)); lia).
  replace ((p mod 256 * 256 + p / 256) / 256) with (p mod 256)
    by (apply (Z.div_unique_pos _ _ _ (p / 256)); lia).
  pose proof (Z.div_mod p 256 ltac:(lia)). lia.
Qed.

(** A port in decimal digits, most significant first. *)
Lemma mem2port_digit d s k :
  0 <= d <= 9 -> 0 <= k -> k * 10 + d <= LCU_ADDRMAXPORT ->
  mem2port_loop (String (digit_char d) s) k = mem2port_loop s (k * 10 + d).
Proof.
  intros Hd Hk Hp. cbn [mem2port_loop].
  assert (byte_of (digit_char d) = 48 + d) as ->.
  { assert (d = 0 \/ d = 1 \/ d = 2 \/ d = 3 \/ d = 4 \/ d = 5 \/ d = 6 \/ d = 7 \/ d = 8 \/ d = 9)
      as Hc by lia. by destruct_or! Hc; subst. }
  replace (48 + d - 48) with d by lia. rewrite wraps_id by lia.
  destruct (Z.ltb_spec d 0), (Z.gtb_spec d 9); try lia. cbn [orb].
  destruct (Z.gtb_spec (k * 10 + d) LCU_ADDRMAXPORT); [lia | done].
Qed.

Lemma mem2port_fmt_digits f n acc :
  0 <= n <= LCU_ADDRMAXPORT -> n < 2 ^ Z.of_nat f -> (1 <= f)%nat ->
  mem2port_loop (fmt_digits f n acc) 0 = mem2port_loop acc n.
Proof.
  revert n acc. induction f as [| f IH]; intros n acc Hn Hf H1; [lia |]. cbn [fmt_digits].
  pose proof (Z.mod_pos_bound n 10 ltac:(lia)) as Hm.
  pose proof (Z.div_mod n 10 ltac:(lia)) as Hdm.
  destruct (Z.ltb_spec n 10).
  - rewrite Z.mod_small by lia. rewrite mem2port_digit by lia. done.
  - assert (f <> 0%nat) as Hf0.
    { intros ->. change (2 ^ Z.of_nat 1) with 2 in Hf. lia. }
    assert (2 ^ Z.of_nat (S f) = 2 * 2 ^ Z.of_nat f) as Hpow.
    { rewrite Nat2Z.inj_succ, Z.pow_succ_r by lia. done. }
    rewrite IH by lia. rewrite mem2port_digit by lia. f_equal. lia.
Qed.

Lemma mem2port_fmt_int p : 0 <= p <= LCU_ADDRMAXPORT -> mem2port (fmt_int p) = Some p.
Proof.
  intros Hp. unfold fmt_int. destruct (Z.ltb_spec p 0); [lia |].
  assert (mem2port_loop (fmt_nat p) 0 = Some p) as Hl.
  { unfold fmt_nat. rewrite mem2port_fmt_digits; [done | done | | lia].
    rewrite Nat2Z.inj_succ, Z2Nat.id by apply Z.log2_nonneg.
    destruct (decide (p = 0)) as [-> | Hne]; [done |]. apply Z.log2_spec. lia. }
  unfold mem2port. destruct (fmt_nat p) eqn:Hf; [| exact Hl].
  apply (f_equal String.length) in Hf. exfalso. revert Hf. unfold fmt_nat. cbn [fmt_digits].
  destruct (p <? 10); [done |].
  assert (forall f n c s, String.length (fmt_digits f n (String c s)) <> 0%nat) as Hlen.
  { induction f as [| f IH]; intros n c s; cbn [fmt_digits]; [done |].
    destruct (n <? 10); [done | apply IH]. }
  apply Hlen.
Qed.

Section inet.
(** libuv: an error, or the bytes and the text of an address; and error codes. *)
Context (uv_inet_pton : family -> string -> Z + string)
        (uv_inet_ntop : family -> string -> Z + string)
        (UV_EAFNOSUPPORT UV_EAI_ADDRFAMILY : Z) (uv_strerror : Z -> string).

Definition setaddrliteral (a : sockaddr) (data : string) : result sockaddr :=
  match sa_family a with
  | AF_INET | AF_INET6 =>
      match uv_inet_pton (sa_family a) data with
      | inl err => UvError err
      | inr bytes => Ok (Addr (sa_family a) (sa_port a) bytes)
      end
  | AF_OTHER _ => UvError UV_EAFNOSUPPORT
  end.

Definition getaddrliteral (a : sockaddr) : Z + string :=
  match sa_family a with
  | AF_INET | AF_INET6 => uv_inet_ntop (sa_family a) (sa_bytes a)
  | AF_OTHER _ => inl UV_EAI_ADDRFAMILY
  end.

(** ** [system.address] *)

(** [memchr(s, c, n)]: the index of the first [c] in the first [n] bytes. *)
Inductive memchr_result := Found (i : nat) | NotFound | PastEnd.

Definition memchr (s : string) (c : ascii) (n : Z) : memchr_result :=
  match find_char c s with
  | Some i => if Z.of_nat i <? n then Found i else NotFound
  | None => if n <=? Z.of_nat (String.length s) then NotFound else PastEnd
  end.

(** The literal and what follows the ':' before the port. *)
Definition split_uri (type : family) (data : string) : result (string * string) :=
  let sz := Z.of_nat (String.length data) in
  match type with
  | AF_INET =>
      match memchr data ":" (size_t (sz - 1)) with  (* at least one port digit *)
      | Found c => Ok (take_string c data, drop_string (c + 1) data)
      | NotFound => ArgError 2 "invalid URI format"
      | PastEnd => Overrun
      end
  | AF_INET6 =>
      let data := drop_string 1 data in
      match memchr data "]" (size_t (sz - 3)) with  (* initial '[' and final ':?' *)
      | Found c =>
          match String.get (c + 1) data with
          | Some x =>
              _ <- luaL_argcheck (bool_decide (x = ":"%char)) 2 "invalid URI format";;
              Ok (take_string c data, drop_string (c + 2) data)
          | None => Overrun
          end
      | NotFound => ArgError 2 "invalid URI format"
      | PastEnd => Overrun
      end
  | AF_OTHER _ => UvError UV_EAFNOSUPPORT
  end.

Definition uri_address (na : sockaddr) (data : string) : result (sockaddr * Z) :=
  parts <- split_uri (sa_family na) data;;
  let '(lit, rest) := parts in
  let sz := Z.of_nat (String.length lit) in
  _ <- luaL_argcheck (sz <=? LCU_ADDRMAXLITERAL) 2 "invalid URI format";;
  match mem2port rest with
  | None => ArgError 2 "invalid port"
  | Some port =>
      if sz <? LCU_ADDRMAXLITERAL then  (* [literal[sz] = '\0'] *)
        na <- setaddrliteral na (c_string lit);; Ok (na, port)
      else Overrun
  end.

(** [args]: the arguments after the type: none, the URI, or the data, the port
    and the mode. *)
Inductive address_args := NoData | Uri (data : string) | Data (data : string) (port : Z) (mode : option string).

Definition system_address (type : family) (args : address_args) : result sockaddr :=
  na <- newaddress type;;
  match args with
  | NoData => Ok na
  | Uri data => r <- uri_address na data;; Ok (setaddrport r.1 r.2)
  | Data data port mode =>
      let mode := default "t"%string mode in
      port <- int2port port 3;;
      na <- (if String.eqb mode "b" then
               _ <- luaL_argcheck (Z.of_nat (String.length data) =? addrbinsz type) 2
                      "invalid binary address";;
               Ok (setaddrbytes na data)
             else if String.eqb mode "t" then setaddrliteral na (c_string data)
             else ArgError 4 "invalid mode");;
      Ok (setaddrport na port)
  end.

Definition addr_tostring (na : sockaddr) : string :=
  match getaddrliteral na with
  | inl err => uv_strerror err
  | inr s =>
      let p := getaddrport na in
      if decide (sa_family na = AF_INET6) then "[" +:+ s +:+ "]:" +:+ fmt_int p
      else s +:+ ":" +:+ fmt_int p
  end.

(** [None]: the argument is not an address; [memcmp] of a null pointer when both
    have another family. *)
Definition addr_eq (a1 a2 : option sockaddr) : bool :=
  match a1, a2 with
  | Some a1, Some a2 =>
      bool_decide (sa_family a1 = sa_family a2) && (getaddrport a1 =? getaddrport a2) &&
      bool_decide ((getaddrbytes a1).1 = (getaddrbytes a2).1)
  | _, _ => false
  end.

Inductive addr_field := FPort (v : Z) | FBinary (v : string) | FLiteral (v : string).

Definition addr_newindex (na : sockaddr) (f : addr_field) : result sockaddr :=
  match f with
  | FPort v => p <- int2port v 3;; Ok (setaddrport na p)
  | FBinary data =>
      _ <- luaL_argcheck (Z.of_nat (String.length data) =? addrbinsz (sa_family na)) 3
             "wrong byte size";;
      Ok (setaddrbytes na data)
  | FLiteral data => setaddrliteral na (c_string data)
  end.

Inductive addr_value := VPort (v : Z) | VBytes (v : option string) | VText (v : Z + string).

Definition addr_index (na : sockaddr) (field : string) : option addr_value :=
  if String.eqb field "port" then Some (VPort (getaddrport na))
  else if String.eqb field "binary" then Some (VBytes (getaddrbytes na).1)
  else if String.eqb field "literal" then Some (VText (getaddrliteral na))
  else if String.eqb field "type" then Some (VText (inr (pushaddrtype (sa_family na))))
  else None.

(** *** Properties *)

Definition is_inet (f : family) : Prop := f = AF_INET \/ f = AF_INET6.

Definition separator (f : family) : ascii := if decide (f = AF_INET) then ":" else "]".

(** What libuv documents for the text of an address: it can be read back, it is
    shorter than the buffer it is written to, and it holds neither a zero nor the
    character that ends it in a URI. *)
Definition text_of (f : family) (bytes lit : string) : Prop :=
  uv_inet_ntop f bytes = inr lit /\ uv_inet_pton f lit = inr bytes /\
  Z.of_nat (String.length lit) < LCU_ADDRMAXLITERAL /\
  c_string lit = lit /\ find_char (separator f) lit = None.

Lemma fmt_int_nonempty p : 0 <= p <= LCU_ADDRMAXPORT ->
  (1 <= String.length (fmt_int p))%nat.
Proof.
  intros Hp. pose proof (mem2port_fmt_int p Hp) as Hm.
  destruct (fmt_int p); [done | cbn; lia].
Qed.

Lemma fmt_digits_length f n s :
  (String.length (fmt_digits f n s) <= f + String.length s)%nat.
Proof.
  revert n s. induction f as [| f IH]; intros n s; cbn [fmt_digits]; [lia |].
  destruct (n <? 10); [cbn; lia |]. specialize (IH (n / 10) (String (digit_char (n mod 10)) s)).
  cbn in IH. lia.
Qed.

Lemma fmt_int_length p : 0 <= p <= LCU_ADDRMAXPORT ->
  (String.length (fmt_int p) <= 17)%nat.
Proof.
  intros Hp. unfold fmt_int, LCU_ADDRMAXPORT in *. destruct (Z.ltb_spec p 0); [lia |].
  unfold fmt_nat. pose proof (fmt_digits_length (S (Z.to_nat (Z.log2 p))) p "") as Hl.
  pose proof (Z.log2_le_mono p 65535 ltac:(lia)) as Hm. change (Z.log2 65535) with 15 in Hm.
  cbn [String.length] in Hl. lia.
Qed.

(** Splitting what [tostring] writes. *)
Lemma split_uri_tostring f lit p :
  is_inet f -> find_char (separator f) lit = None -> 0 <= p <= LCU_ADDRMAXPORT ->
  Z.of_nat (String.length lit) < LCU_ADDRMAXLITERAL ->
  split_uri f (if decide (f = AF_INET6) then "[" +:+ lit +:+ "]:" +:+ fmt_int p
               else lit +:+ ":" +:+ fmt_int p) = Ok (lit, fmt_int p).
Proof.
  intros Hf Hsep Hp Hlen. unfold LCU_ADDRMAXLITERAL in Hlen.
  pose proof (fmt_int_nonempty p Hp). pose proof (fmt_int_length p Hp).
  unfold split_uri, memchr. destruct Hf as [-> | ->]; cbn [decide decide_rel] in *.
  - rewrite decide_False by done.
    change (":" +:+ fmt_int p) with (String ":" (fmt_int p)).
    rewrite find_char_app by exact Hsep. rewrite string_app_length. cbn [String.length].
    rewrite wrapu_id by lia. rewrite (proj2 (Z.ltb_lt _ _)) by lia.
    rewrite take_string_app. do 2 f_equal.
    replace (String.length lit + 1)%nat with (String.length (lit +:+ ":"))
      by (by rewrite string_app_length).
    change (String ":" (fmt_int p)) with (":" +:+ fmt_int p).
    by rewrite <- string_app_assoc, drop_string_app.
  - rewrite decide_True by done.
    change (drop_string 1 ("[" +:+ lit +:+ "]:" +:+ fmt_int p))
      with (lit +:+ String "]" (String ":" (fmt_int p))).
    rewrite find_char_app by exact Hsep.
    change (String.length ("[" +:+ lit +:+ "]:" +:+ fmt_int p))
      with (S (String.length (lit +:+ String "]" (String ":" (fmt_int p))))).
    rewrite string_app_length. cbn [String.length].
    rewrite wrapu_id by lia. rewrite (proj2 (Z.ltb_lt _ _)) by lia.
    assert (forall x, lit +:+ String "]" x = (lit +:+ "]") +:+ x) as Hassoc
      by (intros; by rewrite string_app_assoc).
    assert (String.length lit + 1 = String.length (lit +:+ "]"))%nat as Hl
      by (by rewrite string_app_length).
    assert (String.get (String.length lit + 1) (lit +:+ String "]" (String ":" (fmt_int p)))
            = Some ":"%char) as ->
      by (rewrite Hassoc, Hl; apply string_get_app).
    cbn [luaL_argcheck rbind].
    rewrite bool_decide_true by done. cbn [luaL_argcheck rbind].
    rewrite take_string_app. do 2 f_equal.
    rewrite (Hassoc (String ":" (fmt_int p))).
    replace (String.length lit + 2)%nat with (String.length ((lit +:+ "]") +:+ ":"))
      by (rewrite !string_app_length; cbn; lia).
    change (String ":" (fmt_int p)) with (":" +:+ fmt_int p).
    rewrite <- (string_app_assoc (lit +:+ "]")). apply drop_string_app.
Qed.

(** C16: the text of an address is a URI that [system.address] reads back to the
    same address, for every port and both families. *)
Theorem address_uri_roundtrip (f : family) (bytes lit : string) (p : Z)
    (Hf : is_inet f) (Hp : 0 <= p <= LCU_ADDRMAXPORT) (Hlit : text_of f bytes lit) :
  let na := Addr f (htons p) bytes in
  system_address f (Uri (addr_tostring na)) = Ok na.
Proof.
  destruct Hlit as (Hn & Hpt & Hlen & Hc & Hsep). intros na.
  assert (addr_tostring na = if decide (f = AF_INET6) then "[" +:+ lit +:+ "]:" +:+ fmt_int p
               else lit +:+ ":" +:+ fmt_int p) as ->.
  { unfold addr_tostring, getaddrliteral, getaddrport, na. cbn [sa_family sa_bytes sa_port].
    destruct Hf as [-> | ->]; cbn [sa_family]; by rewrite Hn, ntohs_htons. }
  unfold system_address.
  assert (exists z, newaddress f = Ok (Addr f 0 z)) as [z ->] by (destruct Hf as [-> | ->]; eauto).
  cbn [rbind]. unfold uri_address. cbn [sa_family].
  rewrite split_uri_tostring by done. cbn [rbind].
  rewrite (proj2 (Z.leb_le _ _)) by lia. cbn [luaL_argcheck rbind].
  rewrite mem2port_fmt_int by done. rewrite (proj2 (Z.ltb_lt _ _)) by done.
  rewrite Hc. unfold setaddrliteral. cbn [sa_family].
  destruct Hf as [-> | ->]; rewrite Hpt; reflexivity.
Qed.

(** Each field of an address reads back what was written to it and leaves
    the others alone, ports and binary addresses out of range are refused and
    leave the address alone, and two addresses are equal exactly when their
    families, ports and bytes are. *)
Theorem address_fields (f : family) (p v : Z) (bytes data : string)
    (Hf : is_inet f) (Hp : 0 <= p <= LCU_ADDRMAXPORT)
    (Hb : Z.of_nat (String.length bytes) = addrbinsz f) :
  let na := Addr f (htons p) bytes in
  addr_newindex na (FPort v) =
    (if (0 <=? v) && (v <=? LCU_ADDRMAXPORT) then Ok (Addr f (htons v) bytes)
     else ArgError 3 "invalid port") /\
  addr_newindex na (FBinary data) =
    (if Z.of_nat (String.length data) =? addrbinsz f then Ok (Addr f (htons p) data)
     else ArgError 3 "wrong byte size") /\
  addr_index na "port" = Some (VPort p) /\
  addr_index na "binary" = Some (VBytes (Some bytes)) /\
  (forall f' p' bytes', is_inet f' -> 0 <= p' <= LCU_ADDRMAXPORT ->
     addr_eq (Some na) (Some (Addr f' (htons p') bytes')) = true <->
     f = f' /\ p = p' /\ bytes = bytes').
Proof using All.
  intros na.
  assert (forall d n, Z.of_nat (String.length d) = n -> take_string (Z.to_nat n) d = d) as Htake.
  { intros d n <-. rewrite Nat2Z.id. apply take_string_all. }
  split_and!.
  - unfold addr_newindex, int2port, luaL_argcheck. destruct (_ && _); [| done].
    by destruct Hf as [-> | ->].
  - unfold addr_newindex, luaL_argcheck. cbn [sa_family na].
    destruct (Z.eqb_spec (Z.of_nat (String.length data)) (addrbinsz f)) as [Hd |]; [| done].
    cbn [rbind]. apply Htake in Hd. subst na; unfold setaddrbytes; cbn [sa_family sa_port].
    destruct Hf as [-> | ->]; [change 4%nat with (Z.to_nat (addrbinsz AF_INET)) |
      change 16%nat with (Z.to_nat (addrbinsz AF_INET6))]; by rewrite Hd.
  - unfold addr_index, getaddrport, na. cbn. destruct Hf as [-> | ->]; by rewrite ntohs_htons.
  - unfold addr_index, getaddrbytes, na. cbn. by destruct Hf as [-> | ->].
  - intros f' p' bytes' Hf' Hp'. unfold addr_eq, getaddrport, getaddrbytes, na. cbn.
    destruct Hf as [-> | ->], Hf' as [-> | ->]; cbn; rewrite ?ntohs_htons by done;
      rewrite !andb_true_iff, Z.eqb_eq, !bool_decide_eq_true; naive_solver.
Qed.

(** Some URIs make [system.address] leave its buffers, whatever libuv does:
    a URI shorter than its separators (the length given to [memchr] wraps
    around), and a literal of exactly 47 characters (its final zero is written
    after the buffer).  And the first character of an IPv6 URI is not checked. *)
Theorem address_uri_overruns :
  system_address AF_INET (Uri "") = Overrun /\
  system_address AF_INET6 (Uri "::") = Overrun /\
  system_address AF_INET (Uri "01234567890123456789012345678901234567890123456:80") = Overrun /\
  system_address AF_INET6 (Uri "x::1]:80") = system_address AF_INET6 (Uri "[::1]:80").
Proof. split_and!; reflexivity. Qed.
End inet.

Lemma address_uri_roundtrip_witness :
  let pton := fun (_ : family) (s : string) =>
    if String.eqb s "::1" then inr "0123456789abcdef"%string else inl (-22) in
  let ntop := fun (_ : family) (_ : string) => inr "::1"%string in
  system_address pton (-97) AF_INET6
    (Uri (addr_tostring ntop (-3000) (fun _ => EmptyString)
            (Addr AF_INET6 (htons 8080) "0123456789abcdef")))
  = Ok (Addr AF_INET6 (htons 8080) "0123456789abcdef").
Proof.
  intros pton ntop.
  apply (address_uri_roundtrip pton ntop (-97) (-3000) (fun _ => EmptyString)
    AF_INET6 "0123456789abcdef" "::1" 8080).
  - by right.
  - vm_compute. split; discriminate.
  - by vm_compute.
Defined.

Lemma address_fields_witness :
  addr_newindex (fun _ _ => inl 0) (-97) (Addr AF_INET (htons 80) "abcd") (FPort 65536)
    = ArgError 3 "invalid port".
Proof.
  apply (address_fields (fun _ _ => inl 0) (fun _ _ => inl 0) (-97) (-3000) (fun _ => EmptyString)
    AF_INET 80 65536 "abcd" "").
  - by left.
  - vm_compute. split; discriminate.
  - reflexivity.
Defined.
