(* ===== verification/NetFind.v ===== *)
(** * Searching names and network interfaces (src/src/lcommunf.c, lines 330 to 764)

    [system.findaddr] parses its mode into the hints for libuv and wraps the
    linked list of results in an object that scripts iterate over;
    [system.nameaddr] is the search in the other direction; [system.netinfo]
    presents what the host tells about its network interfaces. *)
From S2P Require Import Prelude Outcome LuaApi NetAddr.

(** [ai_socktype]: 0, the two types that the library uses, and others. *)
Inductive socktype := SOCK_ANY | SOCK_STREAM | SOCK_DGRAM | SOCK_OTHER (n : positive).
#[export] Instance socktype_eq_dec : EqDecision socktype.
Proof. solve_decision. Defined.

(** The flags of the host's headers: distinct bits whose places are not known. *)
Inductive ai_flag := PASSIVE | ADDRCONFIG | V4MAPPED | NUMERICHOST | ALL | NUMERICSERV | CANONNAME.
#[export] Instance ai_flag_eq_dec : EqDecision ai_flag.
Proof. solve_decision. Defined.

Class AiFlags := {
  ai_bit : ai_flag -> Z;
  ai_bit_nonneg f : 0 <= ai_bit f;
  ai_bit_inj f g : ai_bit f = ai_bit g -> f = g;
}.

Definition AI `{AiFlags} (f : ai_flag) : Z := 2 ^ ai_bit f.

#[export, refine] Instance netdb_flags : AiFlags :=
  {| ai_bit f := match f with PASSIVE => 0 | CANONNAME => 1 | NUMERICHOST => 2 | V4MAPPED => 3
                 | ALL => 4 | ADDRCONFIG => 5 | NUMERICSERV => 10 end |}.
Proof.
  - abstract (by intros []).
  - abstract (by intros [] []).
Defined.

Section flags.
Context `{AiFlags}.

Lemma ai_maskflag flags f : ctrue (lcuL_maskflag flags (AI f)) = Z.testbit flags (ai_bit f).
Proof. apply ctrue_maskflag_bit, ai_bit_nonneg. Qed.

Lemma ai_setflag flags f g :
  Z.testbit (lcuL_setflag flags (AI f)) (ai_bit g) = bool_decide (g = f) || Z.testbit flags (ai_bit g).
Proof.
  unfold lcuL_setflag, AI. rewrite Z.lor_spec. case_bool_decide as Hgf; subst.
  - by rewrite Z.pow2_bits_true, orb_true_r by apply ai_bit_nonneg.
  - rewrite Z.pow2_bits_false, orb_false_r; [done |]. by intros Hb%ai_bit_inj.
Qed.

Lemma ai_clearflag flags f g :
  Z.testbit (lcuL_clearflag flags (AI f)) (ai_bit g) =
  negb (bool_decide (g = f)) && Z.testbit flags (ai_bit g).
Proof.
  unfold lcuL_clearflag, AI. rewrite Z.land_spec, Z.lnot_spec by apply ai_bit_nonneg.
  case_bool_decide as Hgf; subst.
  - rewrite Z.pow2_bits_true by apply ai_bit_nonneg. apply andb_false_r.
  - rewrite Z.pow2_bits_false, andb_true_r; [done |]. by intros Hb%ai_bit_inj.
Qed.
End flags.

(** ** The results of a search *)

Record addrinfo := AddrInfo {
  ai_family : family; ai_socktype : socktype; ai_flags : Z; ai_addr : sockaddr;
}.

(** The pointers of an object point into the linked list of results: they are
    what follows them, and nothing for [NULL].  [freed] counts the lists given
    to [uv_freeaddrinfo]. *)
Record AddressList := AddrList { start : list addrinfo; current : list addrinfo }.

Definition validtype (t : socktype) : bool :=
  match t with SOCK_DGRAM | SOCK_STREAM => true | _ => false end.

Fixpoint findvalidaddr (addr : list addrinfo) : list addrinfo :=
  match addr with
  | a :: ai_next => if validtype (ai_socktype a) then addr else findvalidaddr ai_next
  | [] => []
  end.

Definition LCU_NETADDRLISTCLS : string := "coutil:netaddrlist".

Definition openedaddrlist (l : AddressList) : result unit :=
  luaL_argcheck (negb (bool_decide (start l = []))) 1 ("closed " +:+ LCU_NETADDRLISTCLS).

(** The object and the number of lists that are freed. *)
Definition closeaddrlist (l : AddressList) (freed : Z) : AddressList * Z :=
  if decide (start l = []) then (l, freed) else (AddrList [] [], Z.succ freed).
Arguments closeaddrlist l freed : simpl never.

Definition found_gc (l : AddressList) (freed : Z) : AddressList * Z := closeaddrlist l freed.

Definition found_close (l : AddressList) (freed : Z) : result (bool * (AddressList * Z)) :=
  _ <- openedaddrlist l;; Ok (true, closeaddrlist l freed).

(** [list->current->ai_next] of a null pointer is undefined. *)
Definition found_next (l : AddressList) : result (bool * AddressList) :=
  _ <- openedaddrlist l;;
  match current l with
  | [] => Overrun
  | _ :: ai_next =>
      let found := findvalidaddr ai_next in
      if decide (found = []) then Ok (false, l) else Ok (true, AddrList (start l) found)
  end.

Definition found_reset (l : AddressList) : result AddressList :=
  _ <- openedaddrlist l;;
  let current := findvalidaddr (start l) in
  _ <- rassert (negb (bool_decide (current = [])));;
  Ok (AddrList (start l) current).

Definition found_current (l : AddressList) : result addrinfo :=
  _ <- openedaddrlist l;;
  match current l with [] => Overrun | found :: _ => Ok found end.

Definition chkaddrdom (a : sockaddr) (idx : Z) (domain : family) : result unit :=
  luaL_argcheck (bool_decide (sa_family a = domain)) idx "wrong domain".

(** [addr]: the address given to be overwritten. *)
Definition found_getaddress (l : AddressList) (addr : option sockaddr) : result sockaddr :=
  found <- found_current l;;
  _ <- match addr with
       | Some addr => chkaddrdom addr 2 (ai_family found)
       | None => _ <- newaddress (ai_family found);; Ok tt
       end;;
  Ok (ai_addr found).

Definition found_getdomain (l : AddressList) : result string :=
  found <- found_current l;; Ok (pushaddrtype (ai_family found)).

Definition found_getsocktype `{AiFlags} (l : AddressList) : result (option string) :=
  found <- found_current l;;
  Ok (match ai_socktype found with
      | SOCK_DGRAM => Some "datagram"
      | SOCK_STREAM =>
          Some (if ctrue (lcuL_maskflag (ai_flags found) (AI PASSIVE)) then "passive" else "stream")
      | _ => None
      end)%string.

(** [err] and [results] as libuv gives them; the lists freed so far. *)
Definition returnfound (UV_EAFNOSUPPORT err : Z) (results : list addrinfo) (freed : Z)
  : result AddressList * Z :=
  if negb (ctrue err) then
    let found := findvalidaddr results in
    if decide (found = []) then (UvError UV_EAFNOSUPPORT, Z.succ freed)
    else (Ok (AddrList results found), freed)
  else (UvError err, freed).

(** *** Properties *)

(** What a script sees of an iteration: the place of the current address among
    the valid ones, until the object is closed. *)
Inductive found_call := CNext | CReset | CClose | CGc | CCurrent.
Inductive found_view := VBool (b : bool) | VDone | VAddress (a : addrinfo) | VError.

Definition view {A} (f : A -> found_view) (r : result A) : found_view :=
  match r with Ok a => f a | ArgError _ _ => VError | _ => VDone end.

(** The object: what a call shows and does; [None]: the call is undefined or an
    assertion fails. *)
Definition found_step (l : AddressList) (freed : Z) (c : found_call)
  : option (found_view * (AddressList * Z)) :=
  match c with
  | CNext => match found_next l with
             | Ok (b, l) => Some (VBool b, (l, freed))
             | ArgError _ _ => Some (VError, (l, freed)) | _ => None end
  | CReset => match found_reset l with
              | Ok l => Some (VDone, (l, freed))
              | ArgError _ _ => Some (VError, (l, freed)) | _ => None end
  | CClose => match found_close l freed with
              | Ok (b, r) => Some (VBool b, r)
              | ArgError _ _ => Some (VError, (l, freed)) | _ => None end
  | CGc => Some (VDone, found_gc l freed)
  | CCurrent => match found_current l with
                | Ok a => Some (VAddress a, (l, freed))
                | ArgError _ _ => Some (VError, (l, freed)) | _ => None end
  end.

(** The specification: a cursor that moves over the valid addresses. *)
Definition cursor_step (valid : list addrinfo) (pos : option nat) (c : found_call)
  : found_view * option nat :=
  match pos, c with
  | _, CGc => (VDone, None)
  | None, _ => (VError, None)
  | Some i, CNext =>
      if decide (S i < length valid)%nat then (VBool true, Some (S i)) else (VBool false, Some i)
  | Some i, CReset => (VDone, Some 0%nat)
  | Some i, CClose => (VBool true, None)
  | Some i, CCurrent => (from_option VAddress VError (valid !! i), Some i)
  end.

Fixpoint found_run (l : AddressList) (freed : Z) (cs : list found_call)
  : option (list found_view * (AddressList * Z)) :=
  match cs with
  | [] => Some ([], (l, freed))
  | c :: cs =>
      match found_step l freed c with
      | Some (v, (l, freed)) =>
          match found_run l freed cs with Some (vs, r) => Some (v :: vs, r) | None => None end
      | None => None
      end
  end.

Fixpoint cursor_run (valid : list addrinfo) (pos : option nat) (cs : list found_call)
  : list found_view * option nat :=
  match cs with
  | [] => ([], pos)
  | c :: cs =>
      let '(v, pos) := cursor_step valid pos c in
      let '(vs, r) := cursor_run valid pos cs in
      (v :: vs, r)
  end.

Abbreviation valid_of l := (filter (fun a => validtype (ai_socktype a) = true) l).

Lemma findvalidaddr_valid l : valid_of (findvalidaddr l) = valid_of l.
Proof.
  induction l as [| a l IH]; [done |]. cbn [findvalidaddr]. rewrite filter_cons.
  destruct (validtype (ai_socktype a)) eqn:Hv; [| by rewrite decide_False by congruence].
  by rewrite decide_True, filter_cons, decide_True.
Qed.

Lemma findvalidaddr_cases l :
  (findvalidaddr l = [] /\ valid_of l = []) \/
  (exists a t, findvalidaddr l = a :: t /\ valid_of l = a :: valid_of t).
Proof.
  induction l as [| a l IH]; [by left |]. cbn [findvalidaddr]. rewrite filter_cons.
  destruct (validtype (ai_socktype a)) eqn:Hv.
  - right. rewrite decide_True by done. eauto.
  - by rewrite decide_False by congruence.
Qed.

(** The object [l] stands at the place [pos] of the valid addresses. *)
Definition at_cursor (results : list addrinfo) (l : AddressList) (pos : option nat) : Prop :=
  match pos with
  | None => l = AddrList [] []
  | Some i =>
      start l = results /\
      exists a t pre, current l = a :: t /\ valid_of results = pre ++ a :: valid_of t /\
        i = length pre
  end.

Definition freed_after (pos pos' : option nat) : Z :=
  match pos, pos' with Some _, None => 1 | _, _ => 0 end.

Lemma at_cursor_intro results a t pre :
  valid_of results = pre ++ a :: valid_of t ->
  at_cursor results (AddrList results (a :: t)) (Some (length pre)).
Proof. intros Hv. split; [done |]. by exists a, t, pre. Qed.

Lemma found_step_simulates results l pos freed c :
  at_cursor results l pos ->
  exists l', found_step l freed c =
      Some ((cursor_step (valid_of results) pos c).1,
            (l', freed + freed_after pos (cursor_step (valid_of results) pos c).2)) /\
    at_cursor results l' (cursor_step (valid_of results) pos c).2.
Proof.
  destruct pos as [i |]; cbn [at_cursor].
  - destruct l as [st cu]. cbn [start current]. intros (-> & a & t & pre & -> & Hv & ->).
    assert (results <> []) as Hne by (by intros ->; destruct pre).
    assert (valid_of results !! length pre = Some a) as Hget
      by (rewrite Hv; by apply list_lookup_middle).
    unfold found_step, found_next, found_reset, found_close, found_gc, found_current,
      openedaddrlist. cbn [start current].
    rewrite bool_decide_false by done.
    destruct c; cbn [negb luaL_argcheck rbind cursor_step fst snd freed_after].
    + pose proof (findvalidaddr_cases t) as [[Hf Ht] | (b & t' & Hf & Ht)].
      * rewrite decide_True by done. rewrite decide_False
          by (rewrite Hv, Ht, length_app; cbn; lia).
        cbn. rewrite Z.add_0_r. eexists. split; [done |]. by apply at_cursor_intro.
      * rewrite decide_False by (by rewrite Hf). rewrite decide_True
          by (rewrite Hv, Ht, length_app; cbn; lia).
        cbn. rewrite Z.add_0_r. eexists. split; [done |].
        replace (S (length pre)) with (length (pre ++ [a])) by (rewrite length_app; cbn; lia).
        rewrite Hf. apply at_cursor_intro. by rewrite Hv, Ht, <- app_assoc.
    + pose proof (findvalidaddr_cases results) as [[Hf Ht] | (b & t' & Hf & Ht)].
      * rewrite Ht in Hv. by destruct pre.
      * rewrite Hf, bool_decide_false by done. cbn. rewrite Z.add_0_r.
        eexists. split; [done |]. exact (at_cursor_intro results b t' [] Ht).
    + unfold closeaddrlist. cbn [start]. rewrite decide_False, Z.add_1_r by done. by eexists.
    + unfold closeaddrlist. cbn [start]. rewrite decide_False, Z.add_1_r by done. by eexists.
    + rewrite Hget. cbn. rewrite Z.add_0_r. eexists. split; [done |]. by apply at_cursor_intro.
  - intros ->. exists (AddrList [] []). rewrite <- (Z.add_0_r freed) at 1.
    by destruct c; cbn; rewrite ?Z.add_0_r.
Qed.

(** The calls that close the object. *)
Definition closing (c : found_call) : bool :=
  match c with CClose | CGc => true | _ => false end.

Lemma cursor_run_cons valid pos c cs :
  (cursor_run valid pos (c :: cs)).2 = (cursor_run valid (cursor_step valid pos c).2 cs).2.
Proof.
  cbn [cursor_run]. destruct (cursor_step valid pos c) as [v p]. cbn [snd].
  by destruct (cursor_run valid p cs).
Qed.

Lemma cursor_run_closed valid cs : (cursor_run valid None cs).2 = None.
Proof. induction cs as [| c cs IH]; [done |]. rewrite cursor_run_cons. by destruct c. Qed.

Lemma cursor_run_freed valid cs i :
  freed_after (Some i) (cursor_run valid (Some i) cs).2 = if existsb closing cs then 1 else 0.
Proof.
  revert i. induction cs as [| c cs IH]; intros i; [done |]. rewrite cursor_run_cons.
  destruct c; cbn [cursor_step existsb closing orb]; repeat case_decide; cbn [snd];
    rewrite ?cursor_run_closed; first [exact (IH (S i)) | exact (IH i) | exact (IH 0%nat) | done].
Qed.

Lemma found_run_simulates results cs l pos freed :
  at_cursor results l pos -> exists l',
    found_run l freed cs = Some ((cursor_run (valid_of results) pos cs).1,
      (l', freed + freed_after pos (cursor_run (valid_of results) pos cs).2)).
Proof.
  revert l pos freed. induction cs as [| c cs IH]; intros l pos fr Hat.
  { exists l. destruct pos; cbn; by rewrite Z.add_0_r. }
  destruct (found_step_simulates results l pos fr c Hat) as (l1 & Hs & Hat1).
  cbn [found_run cursor_run]. rewrite Hs.
  pose proof (cursor_run_closed (valid_of results) cs) as Hcl.
  destruct (cursor_step (valid_of results) pos c) as [v pos1] eqn:Hc. cbn [fst snd] in *.
  destruct (IH l1 pos1 (fr + freed_after pos pos1) Hat1) as [l2 ->].
  destruct (cursor_run (valid_of results) pos1 cs) as [vs pos2] eqn:Hr. cbn [fst snd].
  exists l2. do 3 f_equal. rewrite <- Z.add_assoc. f_equal.
  destruct pos as [i |].
  - destruct pos1, pos2; cbn; try done. by rewrite Hr in Hcl.
  - destruct pos1; [by destruct c |]. by destruct pos2.
Qed.

(** [System.findaddr] gives an object exactly when the search found an
    address that the library can use, and frees the other lists at once; the
    object then shows scripts exactly the usable addresses in their order, for
    every sequence of calls: [next] and [reset] move a cursor over them and never
    leave the list, every call on a closed object raises an error, and the list
    is freed exactly once however often the object is closed or collected. *)
Theorem found_refines_cursor (UV_EAFNOSUPPORT : Z) (results : list addrinfo) (freed : Z) :
  (valid_of results = [] ->
     returnfound UV_EAFNOSUPPORT 0 results freed = (UvError UV_EAFNOSUPPORT, Z.succ freed)) /\
  (valid_of results <> [] ->
     exists l, returnfound UV_EAFNOSUPPORT 0 results freed = (Ok l, freed) /\
     forall cs, exists l',
       found_run l freed cs =
         Some ((cursor_run (valid_of results) (Some 0%nat) cs).1,
               (l', freed + if existsb closing cs then 1 else 0))).
Proof.
  unfold returnfound. cbn [ctrue Z.eqb negb].
  pose proof (findvalidaddr_cases results) as [[Hf Ht] | (a & t & Hf & Ht)]; rewrite Hf, Ht.
  - by rewrite decide_True.
  - rewrite decide_False by done. split; [done |]. intros _. eexists. split; [done |].
    intros cs. rewrite <- Ht, <- (cursor_run_freed (valid_of results) cs 0).
    apply found_run_simulates. by apply (at_cursor_intro results a t []).
Qed.

Lemma found_refines_cursor_witness :
  let addr n t := AddrInfo AF_INET t 0 (Addr AF_INET 80 n) in
  let results := [addr "a" (SOCK_OTHER 3); addr "b" SOCK_STREAM; addr "c" SOCK_DGRAM] in
  exists l', found_run (AddrList results (drop 1 results)) 0
      [CNext; CCurrent; CNext; CReset; CCurrent; CClose; CNext; CGc] =
    Some ([VBool true; VAddress (addr "c" SOCK_DGRAM); VBool false; VDone;
           VAddress (addr "b" SOCK_STREAM); VBool true; VError; VDone]%string, (l', 1)).
Proof.
  intros addr results.
  destruct (found_refines_cursor (-97) results 0) as [_ Hopen].
  destruct Hopen as (l & Hl & Hrun); [discriminate |].
  injection Hl as <-.
  exact (Hrun [CNext; CCurrent; CNext; CReset; CCurrent; CClose; CNext; CGc]).
Defined.

(** ** The mode of a search *)

(** [None] is [AF_UNSPEC]. *)
Record hints := Hints {
  h_family : option family; h_socktype : socktype; h_protocol : Z; h_flags : Z;
}.

Section modes.
Context `{AiFlags}.

(** The code from the label [aftercase6]. *)
Definition aftercase6 (h : hints) : hints :=
  if ctrue (lcuL_maskflag (h_flags h) (AI ADDRCONFIG)) then
    Hints (h_family h) (h_socktype h) (h_protocol h) (lcuL_clearflag (h_flags h) (AI ADDRCONFIG))
  else Hints None (h_socktype h) (h_protocol h) (h_flags h).

(** The code from the label [aftercased]: [ai_protocol] marks that a type was
    given. *)
Definition aftercased (h : hints) : hints :=
  if ctrue (h_protocol h) then Hints (h_family h) SOCK_ANY (h_protocol h) (h_flags h)
  else Hints (h_family h) (h_socktype h) 1 (h_flags h).

Definition findaddr_char (h : hints) (c : ascii) : result hints :=
  if decide (c = "4"%char) then
    Ok (aftercase6 (Hints (Some AF_INET) (h_socktype h) (h_protocol h) (h_flags h)))
  else if decide (c = "6"%char) then
    Ok (aftercase6 (Hints (Some AF_INET6) (h_socktype h) (h_protocol h) (h_flags h)))
  else if decide (c = "s"%char) then
    Ok (aftercased (Hints (h_family h) SOCK_STREAM (h_protocol h) (h_flags h)))
  else if decide (c = "d"%char) then
    Ok (aftercased (Hints (h_family h) SOCK_DGRAM (h_protocol h) (h_flags h)))
  else if decide (c = "m"%char) then
    Ok (Hints (h_family h) (h_socktype h) (h_protocol h) (lcuL_setflag (h_flags h) (AI V4MAPPED)))
  else if decide (c = "n"%char) then
    Ok (Hints (h_family h) (h_socktype h) (h_protocol h) (lcuL_setflag (h_flags h) (AI NUMERICHOST)))
  else unknown_mode c.

(** 'm' in the mode. *)
Definition findaddr_mapped (h : hints) : result hints :=
  if ctrue (lcuL_maskflag (h_flags h) (AI V4MAPPED)) then
    _ <- luaL_argcheck (negb (bool_decide (h_family h = Some AF_INET))) 3
           "'m' is invalid for IPv4";;
    Ok (Hints (Some AF_INET6) (h_socktype h) (h_protocol h)
          (if bool_decide (h_family h = None) then lcuL_setflag (h_flags h) (AI ALL)
           else h_flags h))
  else Ok h.

(** What [k_setupfindaddr] gives to [uv_getaddrinfo]: the name, the service and
    the hints.  [numeric]: Lua can convert the service to an integer. *)
Definition k_setupfindaddr (nodename servname mode : option string) (numeric : bool)
  : result (option string * option string * hints) :=
  let flags := AI ADDRCONFIG in
  r <- match nodename with
       | Some name =>
           if String.eqb (c_string name) "*" then
             _ <- luaL_argcheck (bool_decide (is_Some servname)) 2
                    "service must be provided for '*'";;
             Ok (None, lcuL_setflag flags (AI PASSIVE))
           else Ok (nodename, flags)
       | None =>
           _ <- luaL_argcheck (bool_decide (is_Some servname)) 1
                  "name or service must be provided";;
           Ok (None, flags)
       end;;
  h <- mode_loop findaddr_char (Hints None SOCK_ANY 0 r.2) (c_string (default "" mode)%string);;
  h <- findaddr_mapped h;;
  let flags := if numeric then lcuL_setflag (h_flags h) (AI NUMERICSERV) else h_flags h in
  Ok (r.1, servname, Hints (h_family h) (h_socktype h) 0 flags).

(** *** The meaning of a mode *)

(** One of two characters decides when it is given alone and once. *)
Definition pick {A} (n1 n2 : nat) (first second neither : A) : A :=
  if decide (n1 + n2 = 1)%nat then (if decide (n1 = 1)%nat then first else second) else neither.

Definition mode_family (s : string) : option family :=
  pick (count_char "4" s) (count_char "6" s) (Some AF_INET) (Some AF_INET6) None.

Definition mode_socktype (s : string) : socktype :=
  pick (count_char "s" s) (count_char "d" s) SOCK_STREAM SOCK_DGRAM SOCK_ANY.

(** None of the characters of [cs] is in [s]. *)
Definition without (cs s : string) : bool :=
  ((fix go cs := match cs with
                 | EmptyString => true
                 | String c cs => bool_decide (count_char c s = 0%nat) && go cs end) cs).

(** The hints after the characters of [s], from the flags [flags0]. *)
Definition hints_of (flags0 : Z) (s : string) (h : hints) : Prop :=
  h_family h = mode_family s /\ h_socktype h = mode_socktype s /\
  h_protocol h = (if without "sd" s then 0 else 1) /\
  (forall f, Z.testbit (h_flags h) (ai_bit f) =
    match f with
    | ADDRCONFIG => without "46" s
    | V4MAPPED => negb (without "m" s)
    | NUMERICHOST => negb (without "n" s)
    | _ => Z.testbit flags0 (ai_bit f)
    end).

Definition findaddr_chars : string := "46sdmn".
Lemma pick_first {A} n1 n2 (a b x : A) :
  pick (n1 + 1) n2 a b x = if bool_decide (n1 = 0%nat) && bool_decide (n2 = 0%nat) then a else x.
Proof. unfold pick. repeat case_decide; repeat case_bool_decide; done || lia. Qed.

Lemma pick_second {A} n1 n2 (a b x : A) :
  pick n1 (n2 + 1) a b x = if bool_decide (n1 = 0%nat) && bool_decide (n2 = 0%nat) then b else x.
Proof. unfold pick. repeat case_decide; repeat case_bool_decide; done || lia. Qed.

Lemma bool_decide_add_1 n : bool_decide ((n + 1)%nat = 0%nat) = false.
Proof. apply bool_decide_false. lia. Qed.

Ltac eval_chars :=
  repeat first [ rewrite (decide_True (P := @eq ascii _ _)) by reflexivity
               | rewrite (decide_False (P := @eq ascii _ _)) by discriminate ].

Lemma findaddr_chars_elem c :
  count_char c findaddr_chars <> 0%nat -> (c = "4" \/ c = "6" \/ c = "s" \/ c = "d" \/ c = "m" \/ c = "n")%char.
Proof.
  intros Hc. unfold findaddr_chars in Hc. cbn [count_char] in Hc.
  repeat case_decide; subst; tauto || (exfalso; by apply Hc).
Qed.

Lemma findaddr_char_known h c : count_char c findaddr_chars <> 0%nat -> exists h', findaddr_char h c = Ok h'.
Proof. intros Hc%findaddr_chars_elem. destruct_or! Hc; subst c; eexists; reflexivity. Qed.

Lemma findaddr_char_step flags0 s h c :
  hints_of flags0 s h -> count_char c findaddr_chars <> 0%nat ->
  exists h', findaddr_char h c = Ok h' /\ hints_of flags0 (s +:+ String c EmptyString) h'.
Proof.
  intros (Hf & Ht & Hp & Hb) Hc.
  apply findaddr_chars_elem in Hc as Hcs.
  pose proof (Hb ADDRCONFIG) as Hcfg. rewrite <- ai_maskflag in Hcfg.
  assert (ctrue (h_protocol h) = negb (without "sd" s)) as Hct
    by (rewrite Hp; by destruct (without "sd" s)).
  unfold hints_of, mode_family, mode_socktype, without in *.
  rewrite !count_char_app. cbn [count_char].
  destruct_or! Hcs; subst c; unfold findaddr_char; eval_chars;
    (eexists; split; [reflexivity |]);
    unfold aftercase6, aftercased; cbn [h_flags h_family h_socktype h_protocol];
    rewrite ?Hcfg, ?Hct; cbn [Nat.add]; rewrite ?Nat.add_0_r, ?pick_first, ?pick_second,
      ?bool_decide_add_1, ?andb_true_r, ?andb_false_r;
    repeat match goal with |- context [if ?b then _ else _] => destruct b eqn:? end;
    cbn [h_flags h_family h_socktype h_protocol negb] in *; split_and!; try congruence;
    try intros []; rewrite ?ai_clearflag, ?ai_setflag, ?Hb, ?andb_true_r; try done;
    repeat case_bool_decide; cbn in *; congruence || lia || done.
Qed.

Lemma findaddr_loop flags0 s0 s h :
  hints_of flags0 s0 h -> chars_in findaddr_chars s = true ->
  exists h', mode_loop findaddr_char h s = Ok h' /\ hints_of flags0 (s0 +:+ s) h'.
Proof.
  revert s0 h. induction s as [| c s IH]; intros s0 h Hh Hs; cbn [mode_loop chars_in] in *.
  - exists h. by rewrite string_app_nil_r.
  - apply andb_true_iff in Hs as [Hc Hs]. apply bool_decide_eq_true in Hc.
    destruct (findaddr_char_step flags0 s0 h c Hh Hc) as (h1 & -> & Hh1). cbn [rbind].
    destruct (IH _ _ Hh1 Hs) as (h2 & H2 & Hh2). exists h2. split; [done |].
    by rewrite string_app_assoc in Hh2.
Qed.

Lemma findaddr_loop_unknown s h :
  chars_in findaddr_chars s = false -> exists c,
    count_char c findaddr_chars = 0%nat /\ mode_loop findaddr_char h s = unknown_mode c.
Proof.
  revert h. induction s as [| c s IH]; intros h; cbn [mode_loop chars_in]; [done |].
  case_bool_decide as Hc; cbn [andb].
  - intros Hs. destruct (findaddr_char_known h c Hc) as [h' ->]. cbn [rbind]. by apply IH.
  - intros _. exists c. split; [done |].
    unfold findaddr_chars, findaddr_char in *; cbn [count_char] in Hc.
    repeat case_decide; done.
Qed.

(** The name is the wildcard. *)
Definition wildcard (nodename : option string) : bool :=
  match nodename with Some name => String.eqb (c_string name) "*" | None => false end.

(** The search of [system.findaddr] is determined by how often each character
    occurs in the mode, in any order: one '4' or '6' asks for that family and any
    other number for both, one 's' or 'd' for that type of socket and any other
    number for both; only without '4' and '6' is the search limited to the
    families the host is configured for; 'm' asks for IPv6 addresses that map
    IPv4 ones, all of them when both families are searched.  A search without a
    name and service, an unknown character, and 'm' with IPv4 alone raise errors,
    in this order. *)
Theorem findaddr_hints (nodename servname mode : option string) (numeric : bool) :
  let s := c_string (default "" mode)%string in
  let r := k_setupfindaddr nodename servname mode numeric in
  if bool_decide (servname = None) && (bool_decide (nodename = None) || wildcard nodename) then
    exists arg msg, r = ArgError arg msg
  else if negb (chars_in findaddr_chars s) then
    exists c, count_char c findaddr_chars = 0%nat /\ r = unknown_mode c
  else if negb (without "m" s) && bool_decide (mode_family s = Some AF_INET) then
    r = ArgError 3 "'m' is invalid for IPv4"
  else exists h, r = Ok (if wildcard nodename then None else nodename, servname, h) /\
    h_family h = (if without "m" s then mode_family s else Some AF_INET6) /\
    h_socktype h = mode_socktype s /\ h_protocol h = 0 /\
    (forall f, Z.testbit (h_flags h) (ai_bit f) =
      match f with
      | PASSIVE => wildcard nodename
      | ADDRCONFIG => without "46" s
      | V4MAPPED => negb (without "m" s)
      | NUMERICHOST => negb (without "n" s)
      | ALL => negb (without "m" s) && bool_decide (mode_family s = None)
      | NUMERICSERV => numeric
      | CANONNAME => false
      end).
Proof.
  intros s r. subst r. unfold k_setupfindaddr. fold s.
  set (flags := if wildcard nodename then lcuL_setflag (AI ADDRCONFIG) (AI PASSIVE)
                else AI ADDRCONFIG).
  match goal with |- context [rbind ?m _] => set (r1 := m) end.
  assert (r1 = if bool_decide (servname = None) && (bool_decide (nodename = None) || wildcard nodename)
    then ArgError (if wildcard nodename then 2 else 1)
           (if wildcard nodename then "service must be provided for '*'"
            else "name or service must be provided")
    else Ok (if wildcard nodename then None else nodename, flags)) as ->.
  { subst r1 flags. unfold wildcard.
    destruct nodename as [n |], servname; cbn; try destruct (String.eqb _ _); done. }
  destruct (bool_decide _ && _); [by eexists _, _ |]. cbn [rbind fst snd].
  destruct (chars_in findaddr_chars s) eqn:Hs; cbn [negb].
  2: { destruct (findaddr_loop_unknown s (Hints None SOCK_ANY 0 flags) Hs) as (c & Hc & ->).
       by exists c. }
  assert (forall f, Z.testbit flags (ai_bit f) =
    match f with PASSIVE => wildcard nodename | ADDRCONFIG => true | _ => false end) as Hflags.
  { intros f. assert (Z.testbit (AI ADDRCONFIG) (ai_bit f) = bool_decide (f = ADDRCONFIG)) as Ha.
    { rewrite <- (Z.lor_0_l (AI ADDRCONFIG)). change (Z.lor ?a ?b) with (lcuL_setflag a b).
      rewrite ai_setflag, Z.testbit_0_l by apply ai_bit_nonneg. apply orb_false_r. }
    subst flags. destruct (wildcard nodename); rewrite ?ai_setflag, Ha; by destruct f. }
  destruct (findaddr_loop flags "" s (Hints None SOCK_ANY 0 flags)) as (h & -> & Hf & Ht & Hp & Hb);
    [split_and!; try done; intros []; rewrite ?Hflags; done | done |]. cbn [rbind].
  unfold findaddr_mapped. rewrite ai_maskflag, Hb, Hf. change ("" +:+ s) with s in *.
  destruct (without "m" s) eqn:Hm; cbn [negb andb].
  - cbn [rbind]. eexists. split; [reflexivity |]. cbn. split_and!; try done.
    intros f. destruct numeric; rewrite ?ai_setflag, Hb, ?Hflags; destruct f; by rewrite ?Hm.
  - destruct (bool_decide (mode_family s = Some AF_INET)); cbn [negb luaL_argcheck rbind]; [done |].
    eexists. split; [reflexivity |]. cbn. split_and!; try done.
    intros f. destruct numeric, (bool_decide (mode_family s = None));
      rewrite ?ai_setflag, Hb, ?Hflags; destruct f; by rewrite ?Hm.
Qed.

End modes.

(** ** Naming an address *)

Inductive ni_flag := NI_NOFQDN | NI_DGRAM | NI_IDN | NI_ALLOW_UNASSIGNED | NI_STD3 | NI_NAMEREQD.
#[export] Instance ni_flag_eq_dec : EqDecision ni_flag.
Proof. solve_decision. Defined.

(** What is given to libuv: the search of a canonical name, of the name of a
    service, or of the names of an address. *)
Inductive name_request :=
  | Canonical (name : string)
  | ServiceName (addr : sockaddr) (flags : list ni_flag)
  | AddressNames (addr : sockaddr) (flags : list ni_flag).

(** The types that the first argument is tested for; [checknetaddr] raises an
    error for the others. *)
Inductive name_arg := NameString (s : string) | NamePort (n : Z) | NameAddress (a : sockaddr) | NameOther.

(** The flags are set in a word: the set of those that are in the list.
    [idn] and [gnu]: [NI_IDN] and [_GNU_SOURCE] are defined. *)
Definition nameaddr_char (idn gnu : bool) (flags : list ni_flag) (c : ascii)
  : result (list ni_flag) :=
  if decide (c = "l"%char) then Ok (NI_NOFQDN :: flags)
  else if decide (c = "d"%char) then Ok (NI_DGRAM :: flags)
  else if idn && bool_decide (c = "i"%char) then Ok (NI_IDN :: flags)
  else if idn && negb gnu && bool_decide (c = "u"%char) then
    Ok (NI_IDN :: NI_ALLOW_UNASSIGNED :: flags)
  else if idn && negb gnu && bool_decide (c = "a"%char) then Ok (NI_IDN :: NI_STD3 :: flags)
  else unknown_mode c.

Definition k_setupnameaddr (idn gnu : bool) (arg : name_arg) (mode : option string)
  : result name_request :=
  match arg with
  | NameString name => Ok (Canonical name)
  | _ =>
      flags <- mode_loop (nameaddr_char idn gnu) [] (c_string (default "" mode)%string);;
      match arg with
      | NamePort n =>
          port <- int2port n 1;;
          Ok (ServiceName (Addr AF_INET (htons port) (string_of_list_ascii (repeat "000"%char 4)))
                flags)
      | NameAddress a => Ok (AddressNames a (NI_NAMEREQD :: flags))
      | _ => ArgError 1 "coutil:netaddress"
      end
  end.

(** ** Network interfaces *)

Record uv_interface_address_t := Interface {
  if_name : string; if_internal : bool; if_address : sockaddr; if_netmask : sockaddr;
  if_phys : string;
}.

(** [None] after the list is freed. *)
Abbreviation NetInfoList := (option (list uv_interface_address_t)).

Definition LCU_NETINFOLISTCLS : string := "coutil:netifaces".

Definition openednetinfo (l : NetInfoList) : result (list uv_interface_address_t) :=
  match l with Some l => Ok l | None => ArgError 1 ("closed " +:+ LCU_NETINFOLISTCLS) end.

(** The list and the number of lists freed. *)
Definition netinfo_gc (l : NetInfoList) (freed : Z) : NetInfoList * Z :=
  match l with Some _ => (None, Z.succ freed) | None => (None, freed) end.

Definition netinfo_len (l : NetInfoList) : result Z :=
  l <- openednetinfo l;; Ok (Z.of_nat (length l)).

Definition nibble2hex (n : Z) : ascii :=
  ascii_of_N (Z.to_N (if n <? 10 then 48 + n else 97 + n mod 10)).

Definition byte_at (s : string) (i : nat) : Z :=
  match String.get i s with Some c => byte_of c | None => 0 end.

(** [while (1)]: [i] characters are written; the loop ends after the 17th. *)
Fixpoint mac_loop (fuel : nat) (phys : string) (i : nat) (literal : string) : option string :=
  match fuel with
  | O => None
  | S fuel =>
      let byte := byte_at phys (i / 3) in
      let literal := literal +:+ String (nibble2hex (Z.shiftr byte 4)) EmptyString in
      let literal := literal +:+ String (nibble2hex (Z.land byte 0x0f)) EmptyString in
      let i := (i + 2)%nat in
      if decide (i = 17%nat) then Some literal
      else mac_loop fuel phys (S i) (literal +:+ ":")
  end.

(** [while (sz && !mask[--sz]);]: where [sz] stops. *)
Fixpoint last_nonzero (mask : string) (sz : nat) : nat :=
  match sz with
  | O => 0
  | S sz => if byte_at mask sz =? 0 then last_nonzero mask sz else sz
  end.

(** [for (byte = ~mask[sz]; byte; byte >>= 1) masklen--;]: a byte is zero after
    eight shifts. *)
Fixpoint byte_loop (fuel : nat) (byte masklen : Z) : Z :=
  match fuel with
  | O => masklen
  | S fuel => if byte =? 0 then masklen else byte_loop fuel (Z.shiftr byte 1) (masklen - 1)
  end.

Definition mask_length (mask : string) (sz : nat) : Z :=
  let sz := last_nonzero mask sz in
  byte_loop 9 (wrapu 8 (Z.lnot (byte_at mask sz))) (8 * Z.of_nat (sz + 1)).

Section netinfo.
Context (uv_inet_ntop : family -> string -> Z + string) (UV_EAI_ADDRFAMILY : Z).

(** The value of a character of the mode.  The buffer is not written to when
    there is no text. *)
Definition netinfo_char (iface : uv_interface_address_t) (vs : list lvalue) (c : ascii)
  : result (list lvalue) :=
  let push v := Ok (vs ++ [v]) in
  let push_bytes a :=
    match getaddrbytes a with
    | (Some b, sz) => push (LString (take_string (Z.to_nat sz) b)) | (None, _) => Overrun end in
  if decide (c = "n"%char) then push (LString (c_string (if_name iface)))
  else if decide (c = "i"%char) then push (LBoolean (if_internal iface))
  else if decide (c = "d"%char) then push (LString (pushaddrtype (sa_family (if_address iface))))
  else if decide (c = "B"%char) then push (LString (take_string 6 (if_phys iface)))
  else if decide (c = "T"%char) then
    match mac_loop 6 (if_phys iface) 0 "" with Some s => push (LString s) | None => Overrun end
  else if decide (c = "b"%char) then push_bytes (if_address iface)
  else if decide (c = "t"%char) then
    match getaddrliteral uv_inet_ntop UV_EAI_ADDRFAMILY (if_address iface) with
    | inr s => push (LString s) | inl _ => Overrun end
  else if decide (c = "l"%char) then
    match getaddrbytes (if_netmask iface) with
    | (Some mask, sz) => push (LInteger (mask_length mask (Z.to_nat sz))) | (None, _) => Overrun
    end
  else if decide (c = "m"%char) then push_bytes (if_netmask iface)
  else unknown_mode c.

(** [netinfo(mode, previdx)]: no values after the last interface. *)
Definition netinfo_call (l : NetInfoList) (mode : string) (previdx : option Z)
  : result (list lvalue) :=
  l <- openednetinfo l;;
  let i := int (default 0 previdx) in
  if (0 <=? i) && (i <? Z.of_nat (length l)) then
    match l !! Z.to_nat i with
    | Some iface => mode_loop (netinfo_char iface) [LInteger (i + 1)] (c_string mode)
    | None => Overrun
    end
  else Ok [].
(** *** Properties *)

(** The bytes of the mask of a network with a prefix of [k] bits. *)
Definition prefix_mask (sz k : Z) : string :=
  string_of_list_ascii
    ((fun j => ascii_of_N (Z.to_N (256 - 2 ^ (8 - Z.min 8 (Z.max 0 (k - 8 * j)))))) <$> seqZ 0 sz).

Lemma mask_length_prefix f k :
  is_inet f -> 0 <= k <= 8 * addrbinsz f ->
  mask_length (prefix_mask (addrbinsz f) k) (Z.to_nat (addrbinsz f)) = k.
Proof.
  intros Hf Hk.
  assert (forallb (fun k => mask_length (prefix_mask (addrbinsz f) k) (Z.to_nat (addrbinsz f)) =? k)
            (seqZ 0 (8 * addrbinsz f + 1)) = true) as Hall
    by (destruct Hf as [-> | ->]; vm_compute; reflexivity).
  rewrite forallb_forall in Hall. apply Z.eqb_eq, Hall, list_elem_of_In, elem_of_seqZ. lia.
Qed.

(** Two digits in base 16. *)
Definition hex2 (c : ascii) : string :=
  let digit n := default "?"%char (String.get (Z.to_nat n) "0123456789abcdef") in
  String (digit (byte_of c / 16)) (String (digit (byte_of c mod 16)) EmptyString).

Lemma nibble2hex_hex2 c :
  String (nibble2hex (Z.shiftr (byte_of c) 4))
    (String (nibble2hex (Z.land (byte_of c) 0x0f)) EmptyString) = hex2 c.
Proof. by destruct c as [[] [] [] [] [] [] [] []]. Qed.

Definition mac_text (c0 c1 c2 c3 c4 c5 : ascii) : string :=
  hex2 c0 +:+ ":" +:+ hex2 c1 +:+ ":" +:+ hex2 c2 +:+ ":" +:+ hex2 c3 +:+ ":" +:+
  hex2 c4 +:+ ":" +:+ hex2 c5.

Lemma mac_loop_text c0 c1 c2 c3 c4 c5 :
  mac_loop 6 (String c0 (String c1 (String c2 (String c3 (String c4 (String c5 EmptyString))))))
    0 "" = Some (mac_text c0 c1 c2 c3 c4 c5).
Proof. unfold mac_text. rewrite <- !nibble2hex_hex2. reflexivity. Qed.

Definition netinfo_chars : string := "nidBTbtlm".

(** What the characters of the mode stand for. *)
Definition netinfo_value (iface : uv_interface_address_t) (lit mac : string) (k : Z)
  (c : ascii) : lvalue :=
  if decide (c = "n"%char) then LString (if_name iface)
  else if decide (c = "i"%char) then LBoolean (if_internal iface)
  else if decide (c = "d"%char) then LString (pushaddrtype (sa_family (if_address iface)))
  else if decide (c = "B"%char) then LString (if_phys iface)
  else if decide (c = "T"%char) then LString mac
  else if decide (c = "b"%char) then LString (sa_bytes (if_address iface))
  else if decide (c = "t"%char) then LString lit
  else if decide (c = "l"%char) then LInteger k
  else LString (sa_bytes (if_netmask iface)).

(** An interface as libuv describes it. *)
Definition described (iface : uv_interface_address_t) (lit mac : string) (k : Z) : Prop :=
  let fa := sa_family (if_address iface) in
  let fm := sa_family (if_netmask iface) in
  c_string (if_name iface) = if_name iface /\
  is_inet fa /\ Z.of_nat (String.length (sa_bytes (if_address iface))) = addrbinsz fa /\
  is_inet fm /\ 0 <= k <= 8 * addrbinsz fm /\
  sa_bytes (if_netmask iface) = prefix_mask (addrbinsz fm) k /\
  uv_inet_ntop fa (sa_bytes (if_address iface)) = inr lit /\
  (exists c0 c1 c2 c3 c4 c5,
     if_phys iface = string_of_list_ascii [c0; c1; c2; c3; c4; c5] /\
     mac = mac_text c0 c1 c2 c3 c4 c5).

Lemma prefix_mask_length sz k : 0 <= sz ->
  Z.of_nat (String.length (prefix_mask sz k)) = sz.
Proof.
  intros Hsz. unfold prefix_mask.
  assert (forall l, String.length (string_of_list_ascii l) = length l) as Hl
    by (induction l; cbn; congruence).
  rewrite Hl, length_fmap, length_seqZ. lia.
Qed.

Lemma getaddrbytes_inet a :
  is_inet (sa_family a) -> Z.of_nat (String.length (sa_bytes a)) = addrbinsz (sa_family a) ->
  getaddrbytes a = (Some (sa_bytes a), addrbinsz (sa_family a)) /\
  take_string (Z.to_nat (addrbinsz (sa_family a))) (sa_bytes a) = sa_bytes a.
Proof.
  intros Hf Hl. split; [unfold getaddrbytes; by destruct Hf as [-> | ->] |].
  rewrite <- Hl, Nat2Z.id. apply take_string_all.
Qed.

Lemma netinfo_char_value iface lit mac k vs c :
  described iface lit mac k -> count_char c netinfo_chars <> 0%nat ->
  netinfo_char iface vs c = Ok (vs ++ [netinfo_value iface lit mac k c]).
Proof.
  intros (Hn & Hfa & Ha & Hfm & Hk & Hm & Hlit & c0 & c1 & c2 & c3 & c4 & c5 & Hp & ->) Hc.
  assert (Z.of_nat (String.length (sa_bytes (if_netmask iface)))
          = addrbinsz (sa_family (if_netmask iface))) as Hml
    by (rewrite Hm; apply prefix_mask_length; by destruct Hfm as [-> | ->]).
  destruct (getaddrbytes_inet _ Hfa Ha) as [Hga Hta], (getaddrbytes_inet _ Hfm Hml) as [Hgm Htm].
  unfold netinfo_char, netinfo_value. rewrite Hn, Hga, Hta, Hgm, Htm.
  repeat (destruct (decide (c = _)) as [-> |]; [| try done]); try done.
  - by rewrite Hp.
  - rewrite Hp. cbn [string_of_list_ascii]. by rewrite mac_loop_text.
  - unfold getaddrliteral. rewrite Hlit. by destruct Hfa as [-> | ->].
  - rewrite Hm, mask_length_prefix by done. done.
  - unfold netinfo_chars in Hc. cbn [count_char] in Hc. repeat case_decide; congruence || done.
Qed.

Lemma netinfo_char_unknown iface vs c :
  count_char c netinfo_chars = 0%nat -> netinfo_char iface vs c = unknown_mode c.
Proof.
  intros Hc. unfold netinfo_chars in Hc. cbn [count_char] in Hc. unfold netinfo_char.
  repeat (destruct (decide (c = _)) as [-> |]; [by exfalso; vm_compute in Hc |]). done.
Qed.

Lemma netinfo_loop iface lit mac k vs s :
  described iface lit mac k ->
  (chars_in netinfo_chars s = true ->
     mode_loop (netinfo_char iface) vs s =
     Ok (vs ++ (netinfo_value iface lit mac k <$> list_ascii_of_string s))) /\
  (chars_in netinfo_chars s = false ->
     exists c, count_char c netinfo_chars = 0%nat /\
     mode_loop (netinfo_char iface) vs s = unknown_mode c).
Proof.
  intros Hd. revert vs. induction s as [| c s IH]; intros vs; cbn [chars_in mode_loop].
  { split; [| done]. intros _. cbn. by rewrite app_nil_r. }
  case_bool_decide as Hc; cbn [andb].
  - rewrite (netinfo_char_value iface lit mac k vs c Hd Hc). cbn [rbind].
    destruct (IH (vs ++ [netinfo_value iface lit mac k c])) as [IH1 IH2]. split; [| done].
    intros Hs. rewrite IH1 by done. cbn. by rewrite <- app_assoc.
  - split; [done |]. intros _. exists c. split; [done |].
    by rewrite netinfo_char_unknown.
Qed.

(** For every interface, the characters of the mode give its name, whether
    it is internal, its family, its physical address as bytes or as pairs of
    hexadecimal digits, its address as bytes or text, and its mask as bytes or as
    the length of the prefix, in the order of the mode and after the index that
    leads to the next interface; an unknown character raises an error, and after
    the last interface there is nothing. *)
Theorem netinfo_values (l : list uv_interface_address_t) (mode : string) (i : nat)
    (iface : uv_interface_address_t) (lit mac : string) (k : Z)
    (Hl : Z.of_nat (length l) < 2 ^ 31) (Hi : l !! i = Some iface)
    (Hd : described iface lit mac k) :
  let s := c_string mode in
  (chars_in netinfo_chars s = true ->
     netinfo_call (Some l) mode (Some (Z.of_nat i)) =
     Ok (LInteger (Z.of_nat i + 1) ::
         (netinfo_value iface lit mac k <$> list_ascii_of_string s))) /\
  (chars_in netinfo_chars s = false ->
     exists c, count_char c netinfo_chars = 0%nat /\
     netinfo_call (Some l) mode (Some (Z.of_nat i)) = unknown_mode c) /\
  netinfo_call (Some l) mode (Some (Z.of_nat (length l))) = Ok [].
Proof.
  intros s. pose proof (lookup_lt_Some _ _ _ Hi) as Hlt.
  unfold netinfo_call, openednetinfo. cbn [rbind default].
  cbn [from_option]; unfold id.
  rewrite (wraps_id 32 (Z.of_nat i)), (wraps_id 32 (Z.of_nat (length l))) by (change (2 ^ (32 - 1)) with (2 ^ 31); lia).
  rewrite (proj2 (Z.leb_le 0 (Z.of_nat i))), (proj2 (Z.ltb_lt _ _)), Nat2Z.id, Hi by lia.
  cbn [andb].
  destruct (netinfo_loop iface lit mac k [LInteger (Z.of_nat i + 1)] s Hd) as [H1 H2].
  split_and!; [exact H1 | exact H2 |]. by rewrite Z.ltb_irrefl, andb_false_r.
Qed.

End netinfo.

Lemma netinfo_values_witness :
  let iface := Interface "eth0" false (Addr AF_INET 0 "abcd")
    (Addr AF_INET 0 (prefix_mask 4 20)) "123456" in
  let ntop := fun (_ : family) (_ : string) => inr "97.98.99.100"%string in
  netinfo_call ntop (-3000) (Some [iface]) "nlT" (Some 0) =
  Ok [LInteger 1; LString "eth0"; LInteger 20; LString "31:32:33:34:35:36"].
Proof.
  intros iface ntop.
  apply (netinfo_values ntop (-3000) [iface] "nlT" 0 iface "97.98.99.100"
    (mac_text "1" "2" "3" "4" "5" "6") 20).
  - vm_compute. reflexivity.
  - reflexivity.
  - unfold described. split_and!; try by vm_compute.
    + by left.
    + by left.
    + by exists "1"%char, "2"%char, "3"%char, "4"%char, "5"%char, "6"%char.
  - reflexivity.
Defined.
