(* ===== verification/Sockets.v ===== *)
(** * Sockets (src/src/lcommunf.c, lines 787 to 1475)

    The objects that [system.socket] creates, what is told of their family, how
    connections are counted while no coroutine waits to accept them, and what a
    coroutine gets that reads from a socket.  [UdataHandle] models how coroutines
    wait on the objects. *)
From S2P Require Import Prelude Steps Outcome LuaApi NetAddr UdataHandle.

(** ** Passive sockets: [listen] and [accept] *)
Module Listen.

Definition LISTENCONN_UNIT : Z := 0x04.

(** [flags]: above the two flags it counts units: one while the socket listens,
    and one for each connection that nobody waited for.  [has_ref]: what
    [uv_has_ref] tells.  [waits]: [handle->data] is a coroutine in [accept].
    [started]: the stop function is set.  [pending]: the connections that libuv
    holds until [uv_accept].  [accepted]: the streams given to scripts.
    [leaked]: objects marked as closed whose handle libuv still has. *)
Record passive := Passive {
  flags : Z; has_ref : bool; waits : bool; started : bool;
  pending : Z; accepted : Z; leaked : Z;
}.
Implicit Types (p : passive).

Definition set_flags v p := Passive v (has_ref p) (waits p) (started p) (pending p) (accepted p) (leaked p).
Definition set_ref v p := Passive (flags p) v (waits p) (started p) (pending p) (accepted p) (leaked p).
Definition set_waits v p := Passive (flags p) (has_ref p) v (started p) (pending p) (accepted p) (leaked p).
Definition set_started v p := Passive (flags p) (has_ref p) (waits p) v (pending p) (accepted p) (leaked p).

Definition islisteningconn p : bool := LISTENCONN_UNIT <=? flags p.
Definition addlistenedconn p : passive := set_flags (flags p + LISTENCONN_UNIT) p.
Definition picklistenedconn p : bool * passive :=
  if flags p <? 2 * LISTENCONN_UNIT then (false, p)
  else (true, set_flags (flags p - LISTENCONN_UNIT) p).

(** [err]: what [uv_listen] returns; the value is what [passive_listen] gives to
    [lcuL_pushresults]. *)
Definition passive_listen (backlog err : Z) p : result (Z * passive) :=
  _ <- luaL_argcheck (negb (islisteningconn p)) 1 "already listening";;
  _ <- luaL_argcheck ((0 <=? backlog) && (backlog <=? 2 ^ 31 - 1)) 2 "out of range";;
  Ok (err, if 0 <=? err then set_ref false (addlistenedconn p) else p).

Section listen.
(** The error of [uv_accept] without a pending connection. *)
Context (UV_EAGAIN : Z).

(** libuv documents that the first [uv_accept] of a connection succeeds. *)
Definition uv_accept p : Z * passive :=
  if 0 <? pending p then
    (0, Passive (flags p) (has_ref p) (waits p) (started p) (pending p - 1) (accepted p + 1) (leaked p))
  else
    (UV_EAGAIN, Passive (flags p) (has_ref p) (waits p) (started p) (pending p) (accepted p) (leaked p + 1)).

(** [err]: the status of the connection.  [newerr]: what [newaccept] returns.
    The flag of the new object is cleared only when [uv_accept] succeeds. *)
Definition k_acceptstream (err newerr : Z) p : Z * passive :=
  if 0 <=? err then
    if 0 <=? newerr then uv_accept p else (newerr, addlistenedconn p)
  else (err, p).

Definition stoplisten p : passive := set_ref false p.
Definition startlisten p : passive := set_ref true p.

(** The value is the error, 0 with the stream; [None]: the coroutine waits. *)
Definition listen_accept (newerr : Z) p : result (option Z * passive) :=
  _ <- luaL_argcheck (islisteningconn p) 1 "not listening";;
  match picklistenedconn p with
  | (true, p) => let '(err, p) := k_acceptstream 0 newerr p in Ok (Some err, p)
  | (false, p) =>  (* [lcuT_resetudhdlk] *)
      _ <- luaL_argcheck (negb (waits p)) 1 "already in use";;
      let p := set_waits true p in
      Ok (None, if started p then p else set_started true (startlisten p))
  end.

(** The calls of [accept] that a script makes one after the other. *)
Fixpoint accepts (newerrs : list Z) p : passive :=
  match newerrs with
  | [] => p
  | newerr :: newerrs =>
      match listen_accept newerr p with
      | Ok (_, p) => accepts newerrs p
      | _ => accepts newerrs p
      end
  end.

(** [newerrs]: for the accept that waits, and for those that its coroutine makes
    next in the callback.  The object is stopped when none of them waits. *)
Definition uv_onconnection (status newerr : Z) (newerrs : list Z) p : option passive :=
  if waits p then
    let p := accepts newerrs (k_acceptstream status newerr (set_waits false p)).2 in
    let p := if waits p then p else set_started false (stoplisten p) in
    if negb (waits p) then Some (set_ref false p)
    else _ ← lcu_assert (has_ref p); Some p
  else Some (addlistenedconn p).

(** *** The system *)

(** libuv reports a connection that it then holds, or an error; or a script
    accepts. *)
Inductive action := Accept (newerr : Z) | Connection (status newerr : Z) (newerrs : list Z).

(** The connections reported so far, and the socket. *)
Abbreviation state := (Z * passive)%type.

Definition arrives (status : Z) p : passive :=
  if 0 <=? status then
    Passive (flags p) (has_ref p) (waits p) (started p) (pending p + 1) (accepted p) (leaked p)
  else p.

Definition step (w : state) (a : action) : option state :=
  match a with
  | Accept newerr => Some (w.1, accepts [newerr] w.2)
  | Connection status newerr newerrs =>
      p ← uv_onconnection status newerr newerrs (arrives status w.2);
      Some ((if 0 <=? status then w.1 + 1 else w.1), p)
  end.

(** libuv reports no errors, and the counter has room. *)
Definition can (w : state) (a : action) : Prop :=
  match a with
  | Accept _ => True
  | Connection status _ _ => 0 <= status /\ flags w.2 + 2 * LISTENCONN_UNIT < 2 ^ 31
  end.

(** A socket that was just told to listen: [low] are its flags. *)
Definition listening (low : Z) : state :=
  (0, Passive (low + LISTENCONN_UNIT) false false false 0 0 0).

(** The counter is exact. *)
Definition counted (low : Z) p : Prop :=
  flags p = low + LISTENCONN_UNIT * (1 + pending p) /\ 0 <= pending p /\ leaked p = 0.

Definition inv (low : Z) (w : state) : Prop :=
  let p := w.2 in
  counted low p /\ has_ref p = waits p /\ started p = waits p /\
  (waits p = true -> pending p = 0) /\ accepted p + pending p = w.1.
(** The same while a callback is in progress, when the socket may still be
    started although nobody waits. *)
Definition inside (low n : Z) p : Prop :=
  counted low p /\ has_ref p = started p /\ (waits p = true -> started p = true /\ pending p = 0) /\
  accepted p + pending p = n.

Context (low : Z) (Hlow : 0 <= low < LISTENCONN_UNIT).

Lemma inv_inside w : inv low w -> inside low w.1 w.2.
Proof.
  intros (Hc & Hr & Hs & Hw & Ha). unfold inside. rewrite Hs. split_and!; try done. auto.
Qed.

Lemma listen_accept_inside newerr n p x p' :
  inside low n p -> listen_accept newerr p = Ok (x, p') -> inside low n p'.
Proof using All.
  unfold inside, counted, LISTENCONN_UNIT in *. intros ((Hf & Hp & Hl) & Hr & Hw & Ha).
  unfold listen_accept, islisteningconn, picklistenedconn, LISTENCONN_UNIT.
  destruct (Z.leb_spec 4 (flags p)); cbn [luaL_argcheck rbind]; [| done].
  destruct (Z.ltb_spec (flags p) (2 * 4)).
  - destruct (waits p) eqn:Hwp; cbn; [done |]. intros [= <- <-].
    destruct (started p) eqn:Hs; cbn; rewrite ?Hr; split_and!; try done; try lia.
    all: intros _; split; [done | lia].
  - assert (0 < pending p) as Hpos by lia.
    destruct (waits p) eqn:Hwp; [by destruct (Hw eq_refl); lia |].
    unfold k_acceptstream, uv_accept. cbn [Z.leb Z.compare].
    destruct (0 <=? newerr); cbn; rewrite ?(proj2 (Z.ltb_lt 0 (pending p)) Hpos); cbn;
      intros [= <- <-]; cbn; rewrite ?Hwp; unfold LISTENCONN_UNIT; split_and!; try done; lia.
Qed.

Lemma accepts_inside newerrs n p : inside low n p -> inside low n (accepts newerrs p).
Proof using All.
  revert p. induction newerrs as [| e es IH]; intros p Hp; cbn [accepts]; [done |].
  destruct (listen_accept e p) as [[x p'] | | | | |] eqn:He; try by apply IH.
  eapply IH, listen_accept_inside; eauto.
Qed.

(** The connection that a waiting coroutine was resumed with. *)
Lemma accepted_inside n p status newerr :
  0 <= status -> counted low p -> has_ref p = started p -> pending p = 0 ->
  accepted p + pending p = n ->
  inside low (n + 1) (k_acceptstream status newerr (set_waits false (arrives status p))).2.
Proof using All.
  unfold inside, counted, LISTENCONN_UNIT in *. intros Hs (Hf & Hp & Hl) Hr Hz Ha.
  unfold k_acceptstream, arrives, uv_accept. rewrite (proj2 (Z.leb_le 0 status)) by done. cbn.
  destruct (0 <=? newerr); cbn; rewrite ?(proj2 (Z.ltb_lt 0 (pending p + 1))) by lia; cbn;
    unfold LISTENCONN_UNIT; split_and!; try done; lia.
Qed.

Lemma listen_step_inv w a : inv low w -> can w a -> exists w', step w a = Some w' /\ inv low w'.
Proof using All.
  intros Hw. pose proof (inv_inside w Hw) as Hin.
  destruct w as [n p], a as [newerr | status newerr newerrs]; cbn [can step fst snd] in *.
  - intros _. eexists. split; [done |].
    destruct Hw as (_ & _ & Hs & _ & _). cbn in Hs.
    assert (started (accepts [newerr] p) = waits (accepts [newerr] p)) as Hs'.
    { cbn. destruct (listen_accept newerr p) as [[x p'] | | | | |] eqn:He; try done. revert He.
      unfold listen_accept, picklistenedconn.
      destruct (islisteningconn p), (flags p <? _); cbn; try done.
      + destruct (waits p) eqn:Hwp; cbn; [done |]. intros [= <- <-]. by rewrite Hs.
      + unfold k_acceptstream, uv_accept. cbn.
        destruct (0 <=? newerr), (0 <? pending p); cbn; by intros [= <- <-]. }
    apply (accepts_inside [newerr]) in Hin as (Hc & Hr & Hwt & Ha).
    unfold inv. cbn [fst snd]. rewrite Hr. split_and!; try done. intros Hx. by apply Hwt.
  - intros [Hst _]. rewrite (proj2 (Z.leb_le 0 status)) by done.
    destruct Hw as (Hc & Hr & Hs & Hpz & Ha). cbn [fst snd] in *.
    unfold uv_onconnection.
    assert (waits (arrives status p) = waits p) as -> by (unfold arrives; by case_match).
    destruct (waits p) eqn:Hwp.
    + pose proof (accepted_inside n p status newerr Hst Hc ltac:(congruence) (Hpz eq_refl) Ha) as Hi.
      apply (accepts_inside newerrs) in Hi as (Hc' & Hr' & Hw' & Ha').
      set (q := accepts _ _) in *. destruct (waits q) eqn:Hwq; cbn; rewrite ?Hwq; cbn.
      * destruct (Hw' eq_refl) as [Hsq Hpq]. rewrite Hr', Hsq. cbn.
        eexists. split; [done |]. unfold inv. cbn. rewrite Hr', Hsq, Hwq. split_and!; done.
      * eexists. split; [done |]. unfold inv. cbn. rewrite Hwq. split_and!; done.
    + cbn. eexists. split; [done |]. unfold inv, counted, LISTENCONN_UNIT, arrives in *.
      rewrite (proj2 (Z.leb_le 0 status)) by done. cbn. rewrite ?Hr, ?Hs, ?Hwp.
      destruct Hc as (Hf & Hp & Hl). unfold LISTENCONN_UNIT. split_and!; try done; lia.
Qed.


(** An error that libuv reports while nobody waits is counted like a
    connection: the next accept does not wait but asks libuv for a connection
    that is not there, and the object it made stays marked as closed, so that
    its handle is never closed. *)
Theorem listen_error_counted (status newerr : Z) :
  status < 0 -> 0 <= newerr ->
  step (listening low) (Connection status 0 []) ≫= (fun w => step w (Accept newerr)) =
  Some (0, Passive (low + LISTENCONN_UNIT) false false false 0 0 1).
Proof using All.
  intros Hs Hn. unfold step, arrives, uv_onconnection, listening. cbn [fst snd waits].
  rewrite (proj2 (Z.leb_gt 0 status)) by done. cbn [mbind option_bind waits accepts].
  unfold listen_accept, islisteningconn, picklistenedconn, addlistenedconn, set_flags,
    k_acceptstream, uv_accept, LISTENCONN_UNIT in *.
  cbn [flags has_ref waits started pending accepted leaked fst snd].
  rewrite (proj2 (Z.leb_le 4 (low + 4 + 4))), (proj2 (Z.ltb_ge (low + 4 + 4) _)) by lia.
  rewrite (proj2 (Z.leb_le 0 newerr)) by done. cbn. do 3 f_equal. lia.
Qed.

End listen.


Lemma listen_error_counted_witness :
  step (-11) (listening 2) (Connection (-24) 0 []) ≫= (fun w => step (-11) w (Accept 0)) =
  Some (0, Passive 6 false false false 0 0 1).
Proof. apply (listen_error_counted (-11) 2); done. Defined.
End Listen.

(** ** The kinds of sockets and the families of their addresses *)
Module Family.

Inductive sockclass := TCPACTIVE | TCPPASSIVE | UDPSOCKET | PIPESHARE | PIPEACTIVE | PIPEPASSIVE.

Definition LCU_SOCKIPV6FLAG : Z := 0x02.
Definition LCU_SOCKTRANFFLAG : Z := 0x02.

(** [sock_os]: the family that libuv and the host know, of a socket that is
    initialised; [None] for pipes. *)
Record socket := Sock { sock_class : sockclass; sock_flags : Z; sock_os : option family }.

(** What libuv is asked to create. *)
Inductive uv_init := InitTcp (f : family) | InitUdp (f : family) | InitPipe (ipc : bool).

Definition AddrTypeId (i : nat) : family := match i with 0%nat => AF_INET | _ => AF_INET6 end.

Definition types : list string := ["stream"; "passive"; "datagram"]%string.
Definition domains : list string := ["ipv4"; "ipv6"; "local"; "share"]%string.

Section family.
Context (UV_EAI_SOCKTYPE : Z) (uv : uv_init -> Z).

Definition flag_if (b : bool) (flag : Z) : Z := if b then flag else 0.

(** The error and the object, which is marked as closed when there is an
    error. *)
Definition system_socket (type domain : string) : result (Z * option socket) :=
  type <- luaL_checkoption 1 types type;;
  domain <- luaL_checkoption 2 domains domain;;
  Ok (if (domain <? 2)%nat then
        let f := AddrTypeId domain in
        let flags := flag_if (bool_decide (f = AF_INET6)) LCU_SOCKIPV6FLAG in
        match type with
        | 0%nat | 1%nat =>
            let class := if (type =? 0)%nat then TCPACTIVE else TCPPASSIVE in
            let err := uv (InitTcp f) in
            (err, Some (Sock class (if ctrue err then LCU_HANDLECLOSEDFLAG else flags) (Some f)))
        | _ =>
            let err := uv (InitUdp f) in
            (err, Some (Sock UDPSOCKET (if ctrue err then LCU_HANDLECLOSEDFLAG else flags) (Some f)))
        end
      else
        match type with
        | 0%nat | 1%nat =>
            let socktranf := negb (domain - 2 =? 0)%nat in
            let class := if (type =? 1)%nat then PIPEPASSIVE
                         else if socktranf then PIPESHARE else PIPEACTIVE in
            let err := uv (InitPipe ((type =? 0)%nat && socktranf)) in
            (err, Some (Sock class (if ctrue err then LCU_HANDLECLOSEDFLAG
                                    else flag_if socktranf LCU_SOCKTRANFFLAG) None))
        | _ => (UV_EAI_SOCKTYPE, None)
        end).

Definition netdomainof (flags : Z) : family :=
  if ctrue (lcuL_maskflag flags LCU_SOCKIPV6FLAG) then AF_INET6 else AF_INET.

Definition ipsock_getdomain (s : socket) : string := pushaddrtype (netdomainof (sock_flags s)).

Definition pipe_getdomain (s : socket) : string :=
  if ctrue (lcuL_maskflag (sock_flags s) LCU_SOCKTRANFFLAG) then "share" else "local".

(** The stream accepted from [s] when its creation succeeds: the flags are added
    to those of a new object, and [k_acceptstream] clears the flag. *)
Definition newtcpaccept (s : socket) : socket :=
  Sock TCPACTIVE
    (lcuL_clearflag (lcuL_setflag LCU_HANDLECLOSEDFLAG
       (lcuL_maskflag (sock_flags s) LCU_SOCKIPV6FLAG)) LCU_HANDLECLOSEDFLAG) (sock_os s).

Definition newpipeaccept (s : socket) : socket :=
  let socktranf := lcuL_maskflag (sock_flags s) LCU_SOCKTRANFFLAG in
  Sock (if ctrue socktranf then PIPESHARE else PIPEACTIVE)
    (lcuL_clearflag (lcuL_setflag LCU_HANDLECLOSEDFLAG socktranf) LCU_HANDLECLOSEDFLAG) None.

(** What another process sent over the pipe; [None]: none of the handled types.
    The error is that of the creation, else that of [uv_accept]. *)
Inductive pending := NamedPipe | Tcp (f : family).

Definition pushstreamread (p : option pending) (accept_err : Z) : Z * option socket :=
  let new class os err :=
    if ctrue err then (err, Some (Sock class LCU_HANDLECLOSEDFLAG os))
    else (accept_err, Some (Sock class
           (lcuL_clearflag LCU_HANDLECLOSEDFLAG LCU_HANDLECLOSEDFLAG) os)) in
  match p with
  | Some NamedPipe => new PIPEACTIVE None (uv (InitPipe false))
  | Some (Tcp f) => new TCPACTIVE (Some f) (uv (InitTcp f))
  | None => (UV_EAI_SOCKTYPE, None)
  end.

(** The size of the structure of a family, which [newaddress] allocates. *)
Definition sizeof_sockaddr (f : family) : Z := if decide (f = AF_INET) then 16 else 28.

(** [tcp_getaddress] and [udp_getaddress]: [addr] is the address to be
    overwritten; [name] is what libuv gives, an error or an address with its
    size. *)
Definition getaddress (s : socket) (addr : option sockaddr) (name : Z + sockaddr)
  : result sockaddr :=
  let domain := netdomainof (sock_flags s) in
  _ <- match addr with
       | Some addr => luaL_argcheck (bool_decide (sa_family addr = domain)) 3 "wrong domain"
       | None => Ok tt
       end;;
  match name with
  | inl err => _ <- rassert true;; UvError err  (* the size is not changed *)
  | inr a =>
      _ <- rassert (sizeof_sockaddr (sa_family a) =? sizeof_sockaddr domain);; Ok a
  end.

(** [udp_read]: what libuv gives to the callback. *)
Inductive received := Nothing | Values (vs : list lvalue) (src : option sockaddr).

Definition uv_onudprecv (pusherrres : Z -> list lvalue) (nread : Z) (addr : option sockaddr)
    (flags UV_UDP_PARTIAL : Z) : result received :=
  if ctrue nread || bool_decide (is_Some addr) then
    _ <- rassert (bool_decide (is_Some addr));;
    Ok (if 0 <=? nread then
          Values [LInteger nread; LBoolean (ctrue (Z.land flags UV_UDP_PARTIAL))] addr
        else Values (pusherrres nread) None)
  else Ok Nothing.

(** The results, and the address given to be overwritten. *)
Definition k_udprecv (s : socket) (r : received) (dst : option sockaddr)
  : result (list lvalue * option sockaddr) :=
  match r with
  | Values vs (Some src) =>
      match dst with
      | Some _ =>
          _ <- rassert (bool_decide (sa_family src = netdomainof (sock_flags s)));;
          Ok (vs, Some src)
      | None => Ok (vs, None)
      end
  | Values vs None => Ok (vs, dst)
  | Nothing => Ok ([], dst)
  end.
(** *** Properties *)

Definition domain_of (s : socket) : string :=
  match sock_class s with
  | TCPACTIVE | TCPPASSIVE | UDPSOCKET => ipsock_getdomain s
  | _ => pipe_getdomain s
  end.

Definition sock_closed (s : socket) : bool := ctrue (lcuL_maskflag (sock_flags s) LCU_HANDLECLOSEDFLAG).

(** What the library knows of the family is what libuv knows. *)
Definition tracked (s : socket) : Prop :=
  match sock_class s with
  | TCPACTIVE | TCPPASSIVE | UDPSOCKET => sock_os s = Some (netdomainof (sock_flags s))
  | _ => sock_os s = None
  end.

(** The stream that [accept] gives. *)
Definition accepted (s : socket) : option socket :=
  match sock_class s with
  | TCPPASSIVE => Some (newtcpaccept s)
  | PIPEPASSIVE => Some (newpipeaccept s)
  | _ => None
  end.

Lemma getaddress_tracked s f a :
  sock_os s = Some f -> netdomainof (sock_flags s) = f -> sa_family a = f ->
  getaddress s None (inr a) = Ok a.
Proof. intros _ Hn Ha. unfold getaddress. by rewrite Ha, Hn, Z.eqb_refl. Qed.

(** The objects that a program gets without receiving them from another
    process. *)
Inductive obtained : string -> socket -> Prop :=
  | obtained_new type domain s :
      system_socket type domain = Ok (0, Some s) -> obtained domain s
  | obtained_accept domain s s' :
      obtained domain s -> accepted s = Some s' -> obtained domain s'.

Definition inv_domain (domain : string) (s : socket) : Prop :=
  tracked s /\ domain_of s = domain /\ sock_closed s = false.

Lemma system_socket_inv type domain s :
  system_socket type domain = Ok (0, Some s) -> inv_domain domain s.
Proof.
  unfold system_socket.
  destruct (luaL_checkoption 1 types type) as [t | | | | |] eqn:Ht; cbn [rbind]; try done.
  destruct (luaL_checkoption 2 domains domain) as [d | | | | |] eqn:Hd; cbn [rbind]; try done.
  apply luaL_checkoption_cases in Ht, Hd.
  destruct t as [| [| [| t]]]; cbn in Ht; try done;
    destruct d as [| [| [| [| d]]]]; cbn in Hd; try done;
    injection Hd as <-; cbn; intros Hx; injection Hx as Herr Hs; try done;
    rewrite Herr in Hs; cbn in Hs; subst s; done.
Qed.

Lemma accepted_inv domain s s' :
  inv_domain domain s -> accepted s = Some s' -> inv_domain domain s'.
Proof.
  destruct s as [class flags os]. unfold inv_domain, accepted. intros (Ht & Hd & _).
  pose proof (maskflag_bit_cases flags 1 ltac:(done)) as Hm. change (2 ^ 1) with 2 in Hm.
  unfold tracked, domain_of, ipsock_getdomain, pipe_getdomain, newtcpaccept, newpipeaccept,
    sock_closed, netdomainof, LCU_SOCKIPV6FLAG, LCU_SOCKTRANFFLAG in *.
  destruct class; cbn [sock_class sock_flags sock_os] in *; try done; rewrite Hm in *;
    destruct (Z.testbit flags 1); intros [= <-]; cbn in *; by rewrite ?Ht, ?Hd.
Qed.

(** Every socket that a program makes or accepts is open, tells the domain
    it was made for, and the library's notion of its family is that of libuv, so
    that asking it for its address never fails the assertion on the size of the
    address; but a socket for IPv6 that is received from another process fails
    it. *)
Theorem socket_family_tracked (Huv : forall i, uv i = 0) :
  (forall domain s, obtained domain s ->
     sock_closed s = false /\ tracked s /\ domain_of s = domain /\
     forall f a, sock_os s = Some f -> sa_family a = f -> getaddress s None (inr a) = Ok a) /\
  (exists s, pushstreamread (Some (Tcp AF_INET6)) 0 = (0, Some s) /\ sock_closed s = false /\
     forall a, sa_family a = AF_INET6 -> getaddress s None (inr a) = AssertFail).
Proof.
  split.
  - intros domain s Hs.
    assert (inv_domain domain s) as (Ht & Hd & Hc)
      by (induction Hs; eauto using system_socket_inv, accepted_inv).
    split_and!; try done. intros f a Hf Ha. apply (getaddress_tracked s f a); [done | | done].
    unfold tracked in Ht. destruct (sock_class s); congruence.
  - unfold pushstreamread. rewrite Huv. cbn. eexists. split_and!; [done | done |].
    intros a Ha. unfold getaddress. by rewrite Ha.
Qed.

(** A read of a datagram gives its size, whether it was cut, and writes the
    sender to the address that was given, whose family is that of the socket;
    the end of the datagrams is ignored; but an error without a sender, which
    libuv may report, fails an assertion. *)
Theorem udp_read_results (s : socket) (pusherrres : Z -> list lvalue)
    (nread flags UV_UDP_PARTIAL : Z) (src : sockaddr) (dst : option sockaddr) :
  let read n a := r <- uv_onudprecv pusherrres n a flags UV_UDP_PARTIAL;; k_udprecv s r dst in
  (0 <= nread -> sa_family src = netdomainof (sock_flags s) ->
     read nread (Some src) =
     Ok ([LInteger nread; LBoolean (ctrue (Z.land flags UV_UDP_PARTIAL))], (fun _ => src) <$> dst)) /\
  (nread < 0 -> read nread (Some src) = Ok (pusherrres nread, dst)) /\
  uv_onudprecv pusherrres 0 None flags UV_UDP_PARTIAL = Ok Nothing /\
  (nread < 0 -> read nread None = AssertFail).
Proof.
  unfold uv_onudprecv. cbn. rewrite orb_true_r. cbn. split_and!; try done.
  - intros Hn Hs. rewrite (proj2 (Z.leb_le 0 nread)) by done. cbn.
    destruct dst; cbn; [by rewrite bool_decide_true |]. done.
  - intros Hn. by rewrite (proj2 (Z.leb_gt 0 nread)).
  - intros Hn. unfold ctrue. by rewrite (proj2 (Z.eqb_neq nread 0)) by lia.
Qed.

End family.
Lemma socket_family_tracked_witness :
  exists s, obtained (-3000) (fun _ => 0) "ipv6" s /\ tracked s /\ domain_of s = "ipv6"%string.
Proof.
  assert (obtained (-3000) (fun _ => 0) "ipv6" (newtcpaccept (Sock TCPPASSIVE 2 (Some AF_INET6))))
    as Ho.
  { apply (obtained_accept _ _ "ipv6" (Sock TCPPASSIVE 2 (Some AF_INET6))); [| done].
    by apply (obtained_new _ _ "passive"). }
  eexists. split; [exact Ho |].
  destruct (socket_family_tracked (-3000) (fun _ => 0) (fun _ => eq_refl)) as [H1 _].
  destruct (H1 _ _ Ho) as (_ & Ht & Hd & _). split; [exact Ht | exact Hd].
Defined.

Lemma udp_read_results_witness :
  (r <- uv_onudprecv (fun _ => [LNil]) 5 (Some (Addr AF_INET 80 "abcd")) 2 2;;
   k_udprecv (Sock UDPSOCKET 0 (Some AF_INET)) r (Some (Addr AF_INET 0 "")))
  = Ok ([LInteger 5; LBoolean true], Some (Addr AF_INET 80 "abcd")).
Proof.
  refine (proj1 (udp_read_results (Sock UDPSOCKET 0 (Some AF_INET)) (fun _ => [LNil]) 5 2 2
    (Addr AF_INET 80 "abcd") (Some (Addr AF_INET 0 ""))) _ eq_refl). discriminate.
Defined.

End Family.
