(* ===== verification/FileInfo.v ===== *)
(** * Information about files (src/src/lfilef.c, lines 48 to 657)

    [system.fileinfo] returns one value for each character of its mode.  The
    values come from up to four calls of libuv, each made once; the values of one
    call are placed in the stack before those of the next, so the places between
    them are filled later.  The calls are made one after the other in the same
    function, or each in an operation that suspends the coroutine. *)
From S2P Require Import Prelude Outcome LuaApi.

(** ** Permissions *)

Definition S_ISUID : Z := 0x800.
Definition S_ISGID : Z := 0x400.
Definition S_ISVTX : Z := 0x200.
Definition S_IRUSR : Z := 0x100.
Definition S_IWUSR : Z := 0x80.
Definition S_IXUSR : Z := 0x40.
Definition S_IRGRP : Z := 0x20.
Definition S_IWGRP : Z := 0x10.
Definition S_IXGRP : Z := 0x8.
Definition S_IROTH : Z := 0x4.
Definition S_IWOTH : Z := 0x2.
Definition S_IXOTH : Z := 0x1.

(** The bit of a character of a permission. *)
Definition perm_bit (c : ascii) : option Z :=
  if decide (c = "U"%char) then Some S_ISUID
  else if decide (c = "G"%char) then Some S_ISGID
  else if decide (c = "S"%char) then Some S_ISVTX
  else if decide (c = "r"%char) then Some S_IRUSR
  else if decide (c = "w"%char) then Some S_IWUSR
  else if decide (c = "x"%char) then Some S_IXUSR
  else if decide (c = "R"%char) then Some S_IRGRP
  else if decide (c = "W"%char) then Some S_IWGRP
  else if decide (c = "X"%char) then Some S_IXGRP
  else if decide (c = "4"%char) then Some S_IROTH
  else if decide (c = "2"%char) then Some S_IWOTH
  else if decide (c = "1"%char) then Some S_IXOTH
  else None.

(** [arg]: a string, or an integer that is given as it is. *)
Definition checkperm_char (arg : Z) (perm : Z) (c : ascii) : result Z :=
  match perm_bit c with
  | Some b => Ok (Z.lor perm b)
  | None => LuaError ("bad argument #" +:+ fmt_int arg +:+ ", unknown perm char (got '" +:+ String c "')")
  end.

Definition checkperm (arg : Z) (v : string + Z) : result Z :=
  match v with
  | inl mode => mode_loop (checkperm_char arg) 0 (c_string mode)
  | inr perm => Ok (int perm)
  end.

(** ** The values *)

Inductive filetype := S_IFSOCK | S_IFLNK | S_IFREG | S_IFBLK | S_IFDIR | S_IFCHR | S_IFIFO.

Definition pushfiletype (type : option filetype) : string :=
  match type with
  | Some S_IFSOCK => "socket" | Some S_IFLNK => "link" | Some S_IFREG => "file"
  | Some S_IFBLK => "block" | Some S_IFDIR => "directory" | Some S_IFCHR => "character"
  | Some S_IFIFO => "pipe" | None => "unknown"
  end.

(** The names of file systems, by the macros of the host's headers.  The headers
    give the versions of "ext" the same number, that of the first is used. *)
Definition filesystems_a_m : list (string * string) := [
  ("ADFS_SUPER_MAGIC", "adfs"); ("AFFS_SUPER_MAGIC", "affs"); ("AFS_SUPER_MAGIC", "afs");
  ("ANON_INODE_FS_MAGIC", "anonymous"); ("AUTOFS_SUPER_MAGIC", "autofs");
  ("BDEVFS_MAGIC", "bdevfs"); ("BEFS_SUPER_MAGIC", "befs"); ("BFS_MAGIC", "bfs");
  ("BINFMTFS_MAGIC", "binfmtfs"); ("BPF_FS_MAGIC", "bpf"); ("BTRFS_SUPER_MAGIC", "btrfs");
  ("BTRFS_TEST_MAGIC", "btrfs"); ("CGROUP_SUPER_MAGIC", "cgroup");
  ("CGROUP2_SUPER_MAGIC", "cgroup2"); ("CIFS_MAGIC_NUMBER", "cifs");
  ("CODA_SUPER_MAGIC", "coda"); ("COH_SUPER_MAGIC", "coh"); ("CRAMFS_MAGIC", "cramfs");
  ("DEBUGFS_MAGIC", "debugfs"); ("DEVFS_SUPER_MAGIC", "devfs");
  ("DEVPTS_SUPER_MAGIC", "devpts"); ("ECRYPTFS_SUPER_MAGIC", "ecryptfs");
  ("EFIVARFS_MAGIC", "efivarfs"); ("EFS_SUPER_MAGIC", "efs"); ("EXT4_SUPER_MAGIC", "ext4");
  ("EXT3_SUPER_MAGIC", "ext3"); ("EXT2_SUPER_MAGIC", "ext2");
  ("EXT2_OLD_SUPER_MAGIC", "ext2_old"); ("EXT_SUPER_MAGIC", "ext");
  ("F2FS_SUPER_MAGIC", "f2fs"); ("FUSE_SUPER_MAGIC", "fuse"); ("HFS_SUPER_MAGIC", "hfs");
  ("HOSTFS_SUPER_MAGIC", "hostfs"); ("HPFS_SUPER_MAGIC", "hpfs");
  ("HUGETLBFS_MAGIC", "hugetlbfs"); ("ISOFS_SUPER_MAGIC", "isofs");
  ("JFFS2_SUPER_MAGIC", "jffs2"); ("JFS_SUPER_MAGIC", "jfs"); ("MINIX_SUPER_MAGIC", "minix");
  ("MINIX_SUPER_MAGIC2", "minix+"); ("MINIX2_SUPER_MAGIC", "minix2");
  ("MINIX2_SUPER_MAGIC2", "minix2+"); ("MINIX3_SUPER_MAGIC", "minix3");
  ("MQUEUE_MAGIC", "mqueue"); ("MSDOS_SUPER_MAGIC", "msdos"); ("MTD_INODE_FS_MAGIC", "mtd")]%string.

Definition filesystems_n_x : list (string * string) := [
  ("NCP_SUPER_MAGIC", "ncp"); ("NFS_SUPER_MAGIC", "nfs"); ("NILFS_SUPER_MAGIC", "nilfs");
  ("NSFS_MAGIC", "nsfs"); ("NTFS_SB_MAGIC", "ntfs_sb"); ("OCFS2_SUPER_MAGIC", "ocfs2");
  ("OPENPROM_SUPER_MAGIC", "openprom"); ("OVERLAYFS_SUPER_MAGIC", "overlayfs");
  ("PIPEFS_MAGIC", "pipefs"); ("PROC_SUPER_MAGIC", "proc"); ("PSTOREFS_MAGIC", "pstorefs");
  ("QNX4_SUPER_MAGIC", "qnx4"); ("QNX6_SUPER_MAGIC", "qnx6"); ("RAMFS_MAGIC", "ramfs");
  ("REISERFS_SUPER_MAGIC", "reiserfs"); ("ROMFS_MAGIC", "romfs");
  ("SECURITYFS_MAGIC", "securityfs"); ("SELINUX_MAGIC", "selinux"); ("SMACK_MAGIC", "smack");
  ("SMB2_MAGIC_NUMBER", "smb2"); ("SMB_SUPER_MAGIC", "smb"); ("SOCKFS_MAGIC", "sockfs");
  ("SQUASHFS_MAGIC", "squashfs"); ("SYSFS_MAGIC", "sysfs"); ("SYSV2_SUPER_MAGIC", "sysv2");
  ("SYSV4_SUPER_MAGIC", "sysv4"); ("TMPFS_MAGIC", "tmpfs"); ("TRACEFS_MAGIC", "tracefs");
  ("UDF_SUPER_MAGIC", "udf"); ("UFS_MAGIC", "ufs"); ("USBDEVICE_SUPER_MAGIC", "usbdevice");
  ("V9FS_MAGIC", "v9fs"); ("VXFS_SUPER_MAGIC", "vxfs"); ("XENFS_SUPER_MAGIC", "xenfs");
  ("XENIX_SUPER_MAGIC", "xenix"); ("XFS_SUPER_MAGIC", "xfs"); ("XIAFS_SUPER_MAGIC", "xiafs")]%string.
Definition filesystems : list (string * string) := filesystems_a_m ++ filesystems_n_x.

(** [magic]: the value of a macro, when it is defined. *)
Definition pushfilesystype (magic : string -> option Z) (type : Z) : string :=
  match list_find (fun e => magic e.1 = Some type) filesystems with
  | Some (_, e) => e.2
  | None => "unknown"
  end.

Record uv_stat_t := Stat {
  st_type : option filetype; st_mode : Z; st_dev : Z; st_ino : Z; st_nlink : Z; st_uid : Z;
  st_gid : Z; st_rdev : Z; st_size : Z; st_blksize : Z; st_blocks : Z; st_flags : Z; st_gen : Z;
  st_atim : Z * Z; st_mtim : Z * Z; st_ctim : Z * Z; st_birthtim : Z * Z;
}.
Record uv_statfs_t := Statfs {
  f_type : Z; f_bsize : Z; f_blocks : Z; f_bfree : Z; f_bavail : Z; f_files : Z; f_ffree : Z;
}.

(** A request that was completed: [fs_path] and [fs_statfs] are what [ptr]
    points to. *)
Record uv_fs_t := Fs { fs_result : Z; fs_path : string; fs_stat : uv_stat_t; fs_statfs : uv_statfs_t }.

Section values.
(** The seconds of a time, as the bits of a number; the macros of the host. *)
Context (ntime2sec : Z * Z -> Z) (magic : string -> option Z).

Definition pushfilestat (mode : ascii) (st : uv_stat_t) : option lvalue :=
  let flag b := Some (LBoolean (ctrue (Z.land (st_mode st) b))) in
  let num n := Some (LInteger (lua_Integer n)) in
  let time t := Some (LNumber (ntime2sec t)) in
  if decide (mode = "?"%char) then Some (LString (pushfiletype (st_type st)))
  else if decide (mode = "U"%char) then flag S_ISUID
  else if decide (mode = "G"%char) then flag S_ISGID
  else if decide (mode = "S"%char) then flag S_ISVTX
  else if decide (mode = "r"%char) then flag S_IRUSR
  else if decide (mode = "w"%char) then flag S_IWUSR
  else if decide (mode = "x"%char) then flag S_IXUSR
  else if decide (mode = "R"%char) then flag S_IRGRP
  else if decide (mode = "W"%char) then flag S_IWGRP
  else if decide (mode = "X"%char) then flag S_IXGRP
  else if decide (mode = "4"%char) then flag S_IROTH
  else if decide (mode = "2"%char) then flag S_IWOTH
  else if decide (mode = "1"%char) then flag S_IXOTH
  else if decide (mode = "M"%char) then num (st_mode st)
  else if decide (mode = "D"%char) then num (st_dev st)
  else if decide (mode = "#"%char) then num (st_ino st)
  else if decide (mode = "*"%char) then num (st_nlink st)
  else if decide (mode = "u"%char) then num (st_uid st)
  else if decide (mode = "g"%char) then num (st_gid st)
  else if decide (mode = "d"%char) then num (st_rdev st)
  else if decide (mode = "B"%char) then num (st_size st)
  else if decide (mode = "i"%char) then num (st_blksize st)
  else if decide (mode = "b"%char) then num (st_blocks st)
  else if decide (mode = "_"%char) then num (st_flags st)
  else if decide (mode = "v"%char) then num (st_gen st)
  else if decide (mode = "a"%char) then time (st_atim st)
  else if decide (mode = "m"%char) then time (st_mtim st)
  else if decide (mode = "s"%char) then time (st_ctim st)
  else if decide (mode = "c"%char) then time (st_birthtim st)
  else None.

Definition pushstatfs (mode : ascii) (st : uv_statfs_t) : option lvalue :=
  let num n := Some (LInteger (lua_Integer n)) in
  if decide (mode = "@"%char) then Some (LString (pushfilesystype magic (f_type st)))
  else if decide (mode = "N"%char) then num (f_type st)
  else if decide (mode = "I"%char) then num (f_bsize st)
  else if decide (mode = "T"%char) then num (f_blocks st)
  else if decide (mode = "F"%char) then num (f_bfree st)
  else if decide (mode = "A"%char) then num (f_bavail st)
  else if decide (mode = "t"%char) then num (f_files st)
  else if decide (mode = "f"%char) then num (f_ffree st)
  else None.
End values.

(** ** The mode *)

Definition INFO_READLINK : Z := 0x01.
Definition INFO_REALPATH : Z := 0x02.
Definition INFO_STATFS : Z := 0x04.
Definition INFO_STAT : Z := 0x08.
Definition INFO_LSTAT : Z := 0x10.
Definition INFO_NOYIELD : Z := 0x20.
Definition INFO_SRCMASK : Z := 0x0f.
Definition INFO_BITMASK : Z := 0x3f.
Definition INFO_BITCOUNT : Z := 6.

Definition LCU_NOYIELDMODE : ascii := "~".

Definition stat_chars : string := "?UGSrwxRWX421MD#*ugdBib_vamsc".
Definition statfs_chars : string := "@NITFAtf".

Definition has_char (cs : string) (c : ascii) : bool := bool_decide (count_char c cs <> 0%nat).

Lemma has_char_elem s c : has_char s c = true <-> c ∈ list_ascii_of_string s.
Proof.
  unfold has_char. rewrite bool_decide_eq_true. induction s as [| c' s IH]; cbn.
  - split; [done |]. by intros []%not_elem_of_nil.
  - rewrite elem_of_cons, <- IH. case_decide; subst; naive_solver lia.
Qed.

Definition must_begin {A} (c : ascii) : result A :=
  LuaError ("'" +:+ String c "' must be in the begin of 'mode'").

(** The source of a character, 0 for unknown ones. *)
Definition toinfosrc (mode : ascii) (mask : Z) : result Z :=
  if has_char stat_chars mode then Ok INFO_STAT
  else if has_char statfs_chars mode then Ok INFO_STATFS
  else if decide (mode = "p"%char) then Ok INFO_REALPATH
  else if decide (mode = "="%char) then Ok INFO_READLINK
  else if decide (mode = "l"%char) then
    if ctrue (Z.land mask INFO_LSTAT) then must_begin mode else Ok 0
  else if decide (mode = LCU_NOYIELDMODE) then must_begin mode
  else Ok 0.

(** What follows the options in front of the mode, and their bits. *)
Fixpoint checkprefixflags_loop (mode : string) (mask bits : Z) : string * Z :=
  match mode with
  | EmptyString => (mode, bits)
  | String c rest =>
      if decide (c = LCU_NOYIELDMODE) then
        checkprefixflags_loop rest mask (Z.lor bits INFO_NOYIELD)
      else if decide (c = "l"%char) then
        if negb (ctrue (Z.land mask INFO_LSTAT)) then (mode, bits)
        else checkprefixflags_loop rest mask (Z.lor bits INFO_LSTAT)
      else (mode, bits)
  end.
Definition checkprefixflags (mode : string) (bits : Z) : string * Z :=
  checkprefixflags_loop mode bits 0.

Definition infomode_char (mask : Z) (bits : Z) (c : ascii) : result Z :=
  sel <- toinfosrc c mask;;
  if ctrue (Z.land sel mask) then Ok (Z.lor bits sel) else unknown_mode c.

Definition checkinfomode (mode : string) (bits : Z) : result (string * Z) :=
  let mask := bits in
  let '(mode, bits) := checkprefixflags (c_string mode) bits in
  bits <- mode_loop (infomode_char mask) bits mode;;
  Ok (mode, bits).

(** [missinfosrc] changes the bits when it returns 1. *)
Definition missinfosrc (bits src : Z) : option Z :=
  if ctrue (Z.land bits src) then
    Some (Z.lor (Z.shiftl src INFO_BITCOUNT) (Z.land (Z.land bits (Z.lnot src)) INFO_BITMASK))
  else None.

(** ** The calls *)

Section calls.
Context {St : Type} `{!LuaStack St}.
Context (ntime2sec : Z * Z -> Z) (magic : string -> option Z) (UV_EINVAL UV_EAI_FAIL : Z).

(** [uv src lstat]: what the function for a source returns for the path, and the
    request when it is completed. *)
Context (uv : Z -> bool -> Z * uv_fs_t).

Definition set_result (r : Z) (req : uv_fs_t) : uv_fs_t :=
  Fs r (fs_path req) (fs_stat req) (fs_statfs req).

(** The bits, the error and the request. *)
Definition getinfosrc (bits : Z) : Z * (Z * uv_fs_t) :=
  match missinfosrc bits INFO_STAT with
  | Some bits => (bits, uv INFO_STAT (ctrue (Z.land bits INFO_LSTAT)))
  | None =>
  match missinfosrc bits INFO_STATFS with
  | Some bits => (bits, uv INFO_STATFS false)
  | None =>
  match missinfosrc bits INFO_REALPATH with
  | Some bits => (bits, uv INFO_REALPATH false)
  | None =>
  match missinfosrc bits INFO_READLINK with
  | Some bits =>
      let '(err, req) := uv INFO_READLINK false in
      (bits, if err =? UV_EINVAL then (0, set_result UV_EINVAL req) else (err, req))
  | None => (bits, (UV_EAI_FAIL, (uv INFO_STAT false).2))
  end end end end.

(** The value at the top goes to the place [idx]. *)
Definition placeat (L : St) (idx : nat) : St :=
  let top := lua_gettop L in
  if (idx <? top)%nat then lua_replace L idx
  else if (top <? idx)%nat then
    let L := lua_settop L (idx - 1) in
    lua_push L (default LNil (lua_at L (Z.of_nat top)))
  else L.

(** What the current source has for a character. *)
Definition info_char (src : Z) (req : uv_fs_t) (c : ascii) : option lvalue :=
  if src =? INFO_READLINK then
    if decide (c = "="%char) then
      Some (if fs_result req =? UV_EINVAL then LNil else LString (fs_path req))
    else None
  else if src =? INFO_REALPATH then
    if decide (c = "p"%char) then Some (LString (fs_path req)) else None
  else if src =? INFO_STATFS then pushstatfs magic c (fs_statfs req)
  else if src =? INFO_STAT then pushfilestat ntime2sec c (fs_stat req)
  else None.

Fixpoint pushfileinfo_loop (L : St) (base : nat) (src : Z) (req : uv_fs_t) (i : nat)
    (mode : string) : St :=
  match mode with
  | EmptyString => L
  | String c mode =>
      let L := match info_char src req c with
               | Some v => placeat (lua_push L v) (i + 1 + base)
               | None => L
               end in
      pushfileinfo_loop L base src req (S i) mode
  end.
Definition pushfileinfo (L : St) (base : nat) (bits : Z) (mode : string) (req : uv_fs_t) : St :=
  pushfileinfo_loop L base (Z.shiftr bits INFO_BITCOUNT) req 0 mode.

(** [system_fileinfo] in the mode that does not yield; [None]: out of fuel. *)
Fixpoint fileinfo_noyield (fuel : nat) (L : St) (bits : Z) (mode : string) : option (result St) :=
  if ctrue (Z.land bits INFO_SRCMASK) then
    match fuel with
    | O => None
    | S fuel =>
        let '(bits, (err, req)) := getinfosrc bits in
        if err <? 0 then Some (UvError err)
        else fileinfo_noyield fuel (pushfileinfo L 2 bits mode req) bits mode
    end
  else Some (Ok L).

(** [yieldfileinfo], the setup of the operation, and [returnfileinfo] when it
    ends; the bits are kept in the third place of the stack. *)
Fixpoint yieldfileinfo (fuel : nat) (L : St) (mode : string) : option (result St) :=
  let bits := lua_tointeger L 3 in
  if ctrue (Z.land bits INFO_SRCMASK) then
    match fuel with
    | O => None
    | S fuel =>
        let '(bits, (err, req)) := getinfosrc bits in
        if err <? 0 then Some (UvError err)
        else
          let L := lua_replace (lua_push L (LInteger bits)) 3 in
          let bits := lua_tointeger L 3 in
          if (0 <=? fs_result req)
             || (ctrue (Z.land bits (Z.shiftl INFO_READLINK INFO_BITCOUNT))
                 && (fs_result req =? UV_EINVAL)) then
            yieldfileinfo fuel (pushfileinfo L 4 bits mode req) mode
          else Some (UvError (fs_result req))
    end
  else Some (Ok L).

(** The stack holds the path and the mode; four calls are the most there can
    be. *)
Definition system_fileinfo (L : St) (mode : string) : result (option (result St) * nat) :=
  r <- checkinfomode mode (Z.lor INFO_LSTAT INFO_SRCMASK);;
  let '(mode, bits) := r in
  if ctrue (Z.land bits INFO_NOYIELD) then Ok (fileinfo_noyield 4 L bits mode, 2%nat)
  else Ok (yieldfileinfo 4 (lua_push (lua_push L (LInteger bits)) (LLightUserdata None)) mode, 4%nat).
End calls.

(** ** What a mode asks for *)

Definition missing (bits q : Z) : bool := ctrue (Z.land bits q).

(** The sources in the order of the calls, and those that are still needed. *)
Definition sources : list Z := [INFO_STAT; INFO_STATFS; INFO_REALPATH; INFO_READLINK].
Definition needed (bits : Z) : list Z := List.filter (missing bits) sources.

Definition src_of (c : ascii) : Z := match toinfosrc c 0 with Ok src => src | _ => 0 end.
Definition info_chars : string := stat_chars +:+ statfs_chars +:+ "p=".

(** The source that [getinfosrc] takes, and the bits it leaves. *)
Definition pick (bits : Z) : option (Z * Z) :=
  match missinfosrc bits INFO_STAT with
  | Some b => Some (INFO_STAT, b)
  | None => match missinfosrc bits INFO_STATFS with
  | Some b => Some (INFO_STATFS, b)
  | None => match missinfosrc bits INFO_REALPATH with
  | Some b => Some (INFO_REALPATH, b)
  | None => match missinfosrc bits INFO_READLINK with
  | Some b => Some (INFO_READLINK, b)
  | None => None end end end end.

(** [b'] is [b] without the source [src], which is the current one. *)
Definition picked (b src b' : Z) (rest : list Z) : bool :=
  bool_decide (0 <= b' < 1024) && bool_decide (needed b' = rest) &&
  Bool.eqb (missing b' INFO_LSTAT) (missing b INFO_LSTAT) &&
  Bool.eqb (missing b' INFO_NOYIELD) (missing b INFO_NOYIELD) &&
  (Z.shiftr b' INFO_BITCOUNT =? src) &&
  Bool.eqb (missing b' (Z.shiftl INFO_READLINK INFO_BITCOUNT)) (src =? INFO_READLINK).

Lemma pick_needed b :
  0 <= b < 1024 ->
  match needed b with
  | [] => missing b INFO_SRCMASK = false
  | src :: rest =>
      missing b INFO_SRCMASK = true /\ exists b', pick b = Some (src, b') /\ picked b src b' rest = true
  end.
Proof.
  intros Hb.
  assert (forallb (fun b => match needed b with
    | [] => negb (missing b INFO_SRCMASK)
    | src :: rest => missing b INFO_SRCMASK &&
        match pick b with Some (s, b') => (s =? src) && picked b src b' rest | None => false end
    end) (seqZ 0 1024) = true) as Hall by (vm_compute; reflexivity).
  rewrite forallb_forall in Hall.
  assert (In b (seqZ 0 1024)) as Hin by (apply list_elem_of_In, elem_of_seqZ; lia).
  specialize (Hall b Hin). destruct (needed b) as [| src rest]; [by apply negb_true_iff |].
  apply andb_true_iff in Hall as [Hm Hp]. split; [done |].
  destruct (pick b) as [[s b'] |]; [| done]. apply andb_true_iff in Hp as [->%Z.eqb_eq Hp]. eauto.
Qed.

(** The bits for a character of a known source. *)
Lemma infomode_bits b s :
  0 <= b < 64 -> s ∈ sources ->
  0 <= Z.lor b s < 64 /\ (forall q, q ∈ sources -> missing (Z.lor b s) q = missing b q || (q =? s)) /\
  missing (Z.lor b s) INFO_LSTAT = missing b INFO_LSTAT /\
  missing (Z.lor b s) INFO_NOYIELD = missing b INFO_NOYIELD.
Proof.
  intros Hb Hs.
  assert (forallb (fun b => forallb (fun s =>
      bool_decide (0 <= Z.lor b s < 64) &&
      forallb (fun q => Bool.eqb (missing (Z.lor b s) q) (missing b q || (q =? s))) sources &&
      Bool.eqb (missing (Z.lor b s) INFO_LSTAT) (missing b INFO_LSTAT) &&
      Bool.eqb (missing (Z.lor b s) INFO_NOYIELD) (missing b INFO_NOYIELD)) sources)
    (seqZ 0 64) = true) as Hall by (vm_compute; reflexivity).
  rewrite forallb_forall in Hall.
  specialize (Hall b ltac:(apply list_elem_of_In, elem_of_seqZ; lia)).
  rewrite forallb_forall in Hall. specialize (Hall s ltac:(by apply list_elem_of_In)).
  rewrite !andb_true_iff, bool_decide_eq_true, !eqb_true_iff, forallb_forall in Hall.
  destruct Hall as [[[H1 H2] H3] H4]. split_and!; try done; try lia.
  intros q Hq%list_elem_of_In. apply eqb_prop, H2, Hq.
Qed.

Lemma toinfosrc_known c mask :
  has_char info_chars c = true -> toinfosrc c mask = Ok (src_of c) /\ src_of c ∈ sources.
Proof.
  intros Hc. unfold src_of. revert Hc.
  destruct c as [[] [] [] [] [] [] [] []]; vm_compute; try discriminate;
    intros _; (split; [reflexivity |]);
    repeat first [apply list_elem_of_here | apply list_elem_of_further].
Qed.

Definition src_needed (body : string) (q : Z) : bool :=
  existsb (fun c => src_of c =? q) (list_ascii_of_string body).

Lemma infomode_loop body bits mask :
  0 <= bits < 64 -> forallb (has_char info_chars) (list_ascii_of_string body) = true ->
  (forall s, s ∈ sources -> ctrue (Z.land s mask) = true) ->
  exists b, mode_loop (infomode_char mask) bits body = Ok b /\ 0 <= b < 64 /\
    (forall q, q ∈ sources -> missing b q = missing bits q || src_needed body q) /\
    missing b INFO_LSTAT = missing bits INFO_LSTAT /\
    missing b INFO_NOYIELD = missing bits INFO_NOYIELD.
Proof.
  intros Hb Hc Hmask. revert bits Hb. induction body as [| c body IH]; intros bits Hb; cbn [mode_loop].
  - exists bits. split_and!; try done; try lia. intros q _. unfold src_needed. cbn. by rewrite orb_false_r.
  - cbn in Hc. apply andb_true_iff in Hc as [Hc Hcs].
    unfold infomode_char at 1. destruct (toinfosrc_known c mask Hc) as [-> Hs]. cbn [rbind].
    rewrite Hmask by done. cbn [rbind].
    destruct (infomode_bits bits (src_of c) Hb Hs) as (Hb1 & Hm1 & Hl1 & Hn1).
    destruct (IH Hcs _ Hb1) as (b & -> & Hb2 & Hm2 & Hl2 & Hn2). exists b.
    split_and!; try done; try lia; [| congruence ..].
    intros q Hq. rewrite Hm2, Hm1 by done. unfold src_needed. cbn.
    rewrite Z.eqb_sym. by rewrite orb_assoc.
Qed.

(** The options in front of the mode. *)
Definition option_bits (lstat noyield : bool) : Z :=
  Z.lor (if lstat then INFO_LSTAT else 0) (if noyield then INFO_NOYIELD else 0).

Lemma checkprefixflags_app prefix body mask (l n : bool) :
  ctrue (Z.land mask INFO_LSTAT) = true ->
  chars_in "~l" prefix = true -> (forall c r, body = String c r -> has_char "~l" c = false) ->
  checkprefixflags_loop (prefix +:+ body) mask (option_bits l n) =
    (body, option_bits (l || has_char prefix "l") (n || has_char prefix "~")).
Proof.
  intros Hmask Hp Hb. revert l n. induction prefix as [| c prefix IH]; intros l n.
  - change (EmptyString +:+ body) with body. rewrite !orb_false_r.
    destruct body as [| c r]; [done |]. specialize (Hb c r eq_refl). cbn [checkprefixflags_loop].
    destruct (decide (c = LCU_NOYIELDMODE)) as [-> |]; [done |].
    destruct (decide (c = "l"%char)) as [-> |]; [done |]. done.
  - cbn [chars_in] in Hp. apply andb_true_iff in Hp as [Hc Hp]. specialize (IH Hp).
    change (String c prefix +:+ body) with (String c (prefix +:+ body)). cbn [checkprefixflags_loop].
    unfold has_char. cbn [count_char].
    destruct (decide (c = LCU_NOYIELDMODE)) as [-> |].
    + replace (Z.lor (option_bits l n) INFO_NOYIELD) with (option_bits l true) by (by destruct l, n).
      rewrite IH. by rewrite orb_true_r.
    + destruct (decide (c = "l"%char)) as [-> |].
      * rewrite Hmask. cbn [negb].
        replace (Z.lor (option_bits l n) INFO_LSTAT) with (option_bits true n) by (by destruct l, n).
        rewrite IH. by rewrite orb_true_r.
      * exfalso. apply bool_decide_eq_true in Hc. apply Hc. cbn [count_char].
        unfold LCU_NOYIELDMODE in *. by rewrite !decide_False by congruence.
Qed.

(** ** Filling the places *)

Section filling.
Context {St : Type} `{!LuaStack St}.
Context (ntime2sec : Z * Z -> Z) (magic : string -> option Z) (UV_EINVAL : Z).

Abbreviation info_char := (info_char ntime2sec magic UV_EINVAL).

Lemma placeat_spec (L : St) B vs v i :
  values L = B ++ vs ->
  exists vs', values (placeat (lua_push L v) (i + 1 + length B)) = B ++ vs' /\
    vs' !! i = Some v /\ length vs' = Nat.max (length vs) (i + 1) /\
    (forall j x, j <> i -> vs !! j = Some x -> vs' !! j = Some x).
Proof.
  intros HL. unfold placeat. rewrite gettop_push. unfold lua_gettop. rewrite HL, length_app.
  assert (values (lua_push L v) = (B ++ vs) ++ [v]) as Hp by (by rewrite values_push, HL).
  destruct (Nat.ltb_spec (i + 1 + length B) (length B + length vs + 1)) as [Hlt | Hge].
  - rewrite (values_replace _ _ (B ++ vs) v Hp) by (rewrite length_app; lia).
    exists (<[i := v]> vs). replace (i + 1 + length B - 1)%nat with (length B + i)%nat by lia.
    rewrite insert_app_r. split_and!; try done.
    + apply list_lookup_insert_eq. lia.
    + rewrite length_insert. lia.
    + intros j x Hj Hx. by rewrite list_lookup_insert_ne.
  - destruct (Nat.ltb_spec (length B + length vs + 1) (i + 1 + length B)) as [Hgt | Heq].
    + set (L1 := lua_settop (lua_push L v) (i + 1 + length B - 1)).
      assert (values L1 = B ++ vs ++ v :: replicate (i - length vs - 1) LNil) as H1.
      { unfold L1. rewrite values_settop, Hp, resize_ge by (rewrite !length_app; cbn; lia).
        rewrite !length_app, <- !app_assoc. cbn [length app]. do 4 f_equal. lia. }
      rewrite values_push, H1.
      assert (lua_at L1 (Z.of_nat (length B + length vs + 1)) = Some v) as ->.
      { rewrite <- length_app. eapply at_app. by rewrite H1, <- app_assoc. }
      exists (vs ++ v :: replicate (i - length vs - 1) LNil ++ [v]). cbn [default from_option].
      split_and!.
      * by rewrite <- !app_assoc.
      * rewrite app_comm_cons, app_assoc.
        apply (list_lookup_middle _ [] v). rewrite length_app. cbn. rewrite length_replicate. lia.
      * rewrite length_app. cbn. rewrite length_app, length_replicate. cbn. lia.
      * intros j x _ Hx. by apply lookup_app_l_Some.
    + assert (i = length vs) as -> by lia. exists (vs ++ [v]). split_and!.
      * rewrite Hp. by rewrite <- app_assoc.
      * by apply list_lookup_middle.
      * rewrite length_app. cbn. lia.
      * intros j x _ Hx. by apply lookup_app_l_Some.
Qed.

(** A source has values for exactly the characters it is the source of. *)
Lemma info_char_source src req c :
  src ∈ sources -> has_char info_chars c = true ->
  is_Some (info_char src req c) <-> src_of c = src.
Proof.
  intros Hs Hc. rewrite <- Z.eqb_eq.
  assert ((match info_char src req c with Some _ => true | None => false end) = (src_of c =? src)) as <-.
  { unfold sources, INFO_STAT, INFO_STATFS, INFO_REALPATH, INFO_READLINK in Hs.
    rewrite !elem_of_cons, elem_of_nil in Hs.
    destruct_or! Hs; subst src; revert Hc; destruct c as [[] [] [] [] [] [] [] []];
      vm_compute; try discriminate; reflexivity. }
  unfold is_Some. destruct (info_char src req c); naive_solver.
Qed.

(** The values a completed search gives. *)
Context (req_of : Z -> uv_fs_t).
Definition info_value (c : ascii) : lvalue :=
  default LNil (info_char (src_of c) (req_of (src_of c)) c).

Definition filled (chars : list ascii) (done : nat -> ascii -> Prop) (vs : list lvalue) : Prop :=
  (length vs <= length chars)%nat /\
  forall i c, chars !! i = Some c -> done i c -> vs !! i = Some (info_value c).

Lemma filled_all chars vs :
  filled chars (fun _ _ => True) vs -> vs = info_value <$> chars.
Proof.
  intros [Hl Hv]. apply list_eq. intros i. rewrite list_lookup_fmap.
  destruct (chars !! i) as [c |] eqn:Hc; cbn; [by apply Hv |].
  apply lookup_ge_None in Hc. apply lookup_ge_None. lia.
Qed.

Lemma pushfileinfo_loop_fills B src pre body (D : ascii -> Prop) (L : St) vs :
  src ∈ sources -> forallb (has_char info_chars) (list_ascii_of_string body) = true ->
  values L = B ++ vs ->
  filled (pre ++ list_ascii_of_string body)
    (fun i c => D c \/ (src_of c = src /\ (i < length pre)%nat)) vs ->
  exists vs',
    values (pushfileinfo_loop ntime2sec magic UV_EINVAL L (length B) src (req_of src) (length pre) body)
      = B ++ vs' /\
    filled (pre ++ list_ascii_of_string body) (fun _ c => D c \/ src_of c = src) vs'.
Proof.
  intros Hs. revert pre L vs. induction body as [| c body IH]; intros pre L vs Hc HL Hf.
  { exists vs. cbn. split; [done |]. cbn in Hf. rewrite app_nil_r in *. destruct Hf as [Hl Hv].
    split; [done |]. intros i c Hi Hd. apply (Hv i c Hi). destruct Hd; [by left |]. right.
    split; [done |]. by eapply lookup_lt_Some. }
  cbn [forallb list_ascii_of_string] in Hc. apply andb_true_iff in Hc as [Hc Hcs].
  cbn [pushfileinfo_loop].
  replace (S (length pre)) with (length (pre ++ [c])) by (rewrite length_app; cbn; lia).
  cbn [list_ascii_of_string] in *. rewrite (cons_middle c pre (list_ascii_of_string body)), (app_assoc pre [c]) in Hf |- *.
  pose proof (info_char_source src (req_of src) c Hs Hc) as Hsrc.
  assert (((pre ++ [c]) ++ list_ascii_of_string body) !! length pre = Some c) as Hat
    by (rewrite <- app_assoc; by apply list_lookup_middle).
  destruct (info_char src (req_of src) c) as [v |] eqn:Hv.
  - assert (src_of c = src) as Hcs' by (apply Hsrc; eauto).
    destruct (placeat_spec L B vs v (length pre) HL) as (vs1 & H1 & Hi1 & Hl1 & Ho1).
    apply (IH (pre ++ [c]) _ vs1 Hcs H1). destruct Hf as [Hl Hf]. split.
    + rewrite Hl1. rewrite !length_app in *. cbn in *. lia.
    + intros i c' Hi Hd. destruct (decide (i = length pre)) as [-> | Hne].
      * rewrite Hat in Hi. injection Hi as <-. rewrite Hi1. unfold info_value.
        by rewrite Hcs', Hv.
      * apply Ho1; [done |]. apply Hf; [done |]. destruct Hd as [| [? Hlt]]; [by left | right].
        split; [done |]. rewrite length_app in Hlt. cbn in Hlt. lia.
  - apply (IH (pre ++ [c]) _ vs Hcs HL). destruct Hf as [Hl Hf]. split; [done |].
    intros i c' Hi Hd. apply (Hf i c' Hi). destruct Hd as [| [Hsc Hlt]]; [by left | right].
    split; [done |]. rewrite length_app in Hlt. cbn in Hlt.
    destruct (decide (i = length pre)) as [-> |]; [| lia].
    rewrite Hat in Hi. injection Hi as <-. by apply Hsrc, is_Some_None in Hsc.
Qed.

Lemma pushfileinfo_fills B b body (D : ascii -> Prop) (L : St) vs :
  Z.shiftr b INFO_BITCOUNT ∈ sources ->
  forallb (has_char info_chars) (list_ascii_of_string body) = true ->
  values L = B ++ vs -> filled (list_ascii_of_string body) (fun _ => D) vs ->
  exists vs',
    values (pushfileinfo ntime2sec magic UV_EINVAL L (length B) b body
              (req_of (Z.shiftr b INFO_BITCOUNT))) = B ++ vs' /\
    filled (list_ascii_of_string body)
      (fun _ c => D c \/ src_of c = Z.shiftr b INFO_BITCOUNT) vs'.
Proof.
  intros Hs Hc HL [Hl Hf].
  apply (pushfileinfo_loop_fills B (Z.shiftr b INFO_BITCOUNT) [] body D L vs Hs Hc HL).
  split; [done |]. intros i c Hi [Hd | [_ Hlt]]; [by apply Hf | cbn in Hlt; lia].
Qed.
End filling.

(** ** The calls in order *)

Section results.
Context {St : Type} `{!LuaStack St}.
Context (ntime2sec : Z * Z -> Z) (magic : string -> option Z) (UV_EINVAL UV_EAI_FAIL : Z).
Context (uv : Z -> bool -> Z * uv_fs_t).

(** What a source gives: an error, or the completed request.  [noyield]: the
    call was made without an operation, so that its error is the result. *)
Definition answer (noyield lstat : bool) (src : Z) : Z + uv_fs_t :=
  let '(err, req) := uv src (lstat && (src =? INFO_STAT)) in
  if (src =? INFO_READLINK) && (err =? UV_EINVAL) then inr (set_result UV_EINVAL req)
  else if err <? 0 then inl err
  else if noyield || (0 <=? fs_result req)
          || ((src =? INFO_READLINK) && (fs_result req =? UV_EINVAL)) then inr req
  else inl (fs_result req).

Definition answered (noyield lstat : bool) (src : Z) : uv_fs_t :=
  match answer noyield lstat src with inr req => req | inl _ => (uv src lstat).2 end.

(** The error of the first of the calls that fails. *)
Fixpoint first_error (ans : Z -> Z + uv_fs_t) (srcs : list Z) : option Z :=
  match srcs with
  | [] => None
  | src :: srcs => match ans src with inl err => Some err | inr _ => first_error ans srcs end
  end.

Lemma getinfosrc_pick b src b' rest :
  pick b = Some (src, b') -> picked b src b' rest = true ->
  getinfosrc UV_EINVAL UV_EAI_FAIL uv b =
    (b', let '(err, req) := uv src (missing b INFO_LSTAT && (src =? INFO_STAT)) in
         if (src =? INFO_READLINK) && (err =? UV_EINVAL) then (0, set_result UV_EINVAL req)
         else (err, req)).
Proof.
  unfold picked. rewrite !andb_true_iff, !eqb_true_iff. intros Hp [[[[[_ _] Hl] _] _] _].
  unfold pick, getinfosrc in *. rewrite <- Hl. clear Hl. unfold missing.
  destruct (missinfosrc b INFO_STAT).
  { injection Hp as <- <-. cbn. rewrite andb_true_r. by destruct (uv _ _). }
  destruct (missinfosrc b INFO_STATFS).
  { injection Hp as <- <-. cbn. rewrite andb_false_r. by destruct (uv _ _). }
  destruct (missinfosrc b INFO_REALPATH).
  { injection Hp as <- <-. cbn. rewrite andb_false_r. by destruct (uv _ _). }
  destruct (missinfosrc b INFO_READLINK); [| done].
  injection Hp as <- <-. cbn. rewrite andb_false_r. destruct (uv _ _). by destruct (_ =? UV_EINVAL).
Qed.
Abbreviation info_value noyield lstat := (info_value ntime2sec magic UV_EINVAL (answered noyield lstat)).

(** [b] still needs the sources [l]. *)
Definition state_bits (b : Z) (lstat : bool) (l : list Z) : Prop :=
  0 <= b < 1024 /\ needed b = l /\ missing b INFO_LSTAT = lstat.

Lemma needed_incl b : needed b ⊆ sources.
Proof. intros q Hq%list_elem_of_In. apply filter_In in Hq as [Hq _]. by apply list_elem_of_In. Qed.

Lemma state_bits_next b lstat src rest :
  state_bits b lstat (src :: rest) ->
  missing b INFO_SRCMASK = true /\ src ∈ sources /\
  exists b', state_bits b' lstat rest /\ Z.shiftr b' INFO_BITCOUNT = src /\
    missing b' (Z.shiftl INFO_READLINK INFO_BITCOUNT) = (src =? INFO_READLINK) /\
    getinfosrc UV_EINVAL UV_EAI_FAIL uv b =
      (b', let '(err, req) := uv src (lstat && (src =? INFO_STAT)) in
           if (src =? INFO_READLINK) && (err =? UV_EINVAL) then (0, set_result UV_EINVAL req)
           else (err, req)).
Proof.
  intros (Hb & Hn & Hl). pose proof (pick_needed b Hb) as Hp. rewrite Hn in Hp.
  destruct Hp as [Hm (b' & Hp & Hk)]. split; [done |].
  split; [apply (needed_incl b); rewrite Hn; apply list_elem_of_here |].
  exists b'. rewrite (getinfosrc_pick b src b' rest Hp Hk), Hl.
  unfold picked in Hk. rewrite !andb_true_iff, !eqb_true_iff, !bool_decide_eq_true, Z.eqb_eq in Hk.
  destruct Hk as [[[[[H1 H2] H3] H4] H5] H6]. unfold state_bits. split_and!; try done; first [lia | by rewrite H3].
Qed.

Lemma state_bits_end b lstat : state_bits b lstat [] -> missing b INFO_SRCMASK = false.
Proof. intros (Hb & Hn & _). pose proof (pick_needed b Hb) as Hp. by rewrite Hn in Hp. Qed.

(** The result of the calls for the sources [l], with the places of the others
    filled. *)
Definition infos (noyield lstat : bool) (l : list Z) (n : nat) (body : string)
    (r : option (result St)) : Prop :=
  match first_error (answer noyield lstat) l with
  | Some err => r = Some (UvError err)
  | None => exists L' B', r = Some (Ok L') /\ length B' = n /\
      values L' = B' ++ (info_value noyield lstat <$> list_ascii_of_string body)
  end.

Definition known (body : string) : Prop :=
  forallb (has_char info_chars) (list_ascii_of_string body) = true.

Lemma answer_inr noyield lstat src req :
  answer noyield lstat src = inr req -> answered noyield lstat src = req.
Proof. unfold answered. by intros ->. Qed.

(** All the places are filled at the end. *)
Lemma filled_end noyield lstat body vs :
  filled ntime2sec magic UV_EINVAL (answered noyield lstat) (list_ascii_of_string body)
    (fun _ c => src_of c ∉ ([] : list Z)) vs ->
  vs = info_value noyield lstat <$> list_ascii_of_string body.
Proof.
  intros [Hl Hf]. apply filled_all. split; [done |].
  intros i c Hi _. apply (Hf i c Hi), not_elem_of_nil.
Qed.

Lemma filled_next noyield lstat body src rest vs :
  filled ntime2sec magic UV_EINVAL (answered noyield lstat) (list_ascii_of_string body)
    (fun _ c => src_of c ∉ src :: rest \/ src_of c = src) vs ->
  filled ntime2sec magic UV_EINVAL (answered noyield lstat) (list_ascii_of_string body)
    (fun _ c => src_of c ∉ rest) vs.
Proof.
  intros [Hl Hf]. split; [done |]. intros i c Hi Hd. apply (Hf i c Hi).
  destruct (decide (src_of c = src)); [by right |]. left. by apply not_elem_of_cons.
Qed.

Lemma answer_eq noyield lstat src :
  answer noyield lstat src =
  let '(err, req) := uv src (lstat && (src =? INFO_STAT)) in
  if (src =? INFO_READLINK) && (err =? UV_EINVAL) then inr (set_result UV_EINVAL req)
  else if err <? 0 then inl err
  else if noyield || (0 <=? fs_result req)
          || ((src =? INFO_READLINK) && (fs_result req =? UV_EINVAL)) then inr req
  else inl (fs_result req).
Proof. reflexivity. Qed.

Lemma fill_step noyield lstat B b' body src rest (L : St) vs req :
  src ∈ sources -> known body -> Z.shiftr b' INFO_BITCOUNT = src -> values L = B ++ vs ->
  answer noyield lstat src = inr req ->
  filled ntime2sec magic UV_EINVAL (answered noyield lstat) (list_ascii_of_string body)
    (fun _ c => src_of c ∉ src :: rest) vs ->
  exists vs', values (pushfileinfo ntime2sec magic UV_EINVAL L (length B) b' body req) = B ++ vs' /\
    filled ntime2sec magic UV_EINVAL (answered noyield lstat) (list_ascii_of_string body)
      (fun _ c => src_of c ∉ rest) vs'.
Proof.
  intros Hs Hk Hb HL Ha Hf. apply answer_inr in Ha as <-. rewrite <- Hb.
  destruct (pushfileinfo_fills ntime2sec magic UV_EINVAL (answered noyield lstat) B b' body
    (fun c => src_of c ∉ src :: rest) L vs) as (vs' & HL' & Hf'); try done; [by rewrite Hb |].
  exists vs'. split; [done |]. rewrite Hb in Hf'. by apply (filled_next _ _ _ src).
Qed.

Lemma noyield_infos l fuel b lstat body (L : St) B vs :
  (length l <= fuel)%nat -> state_bits b lstat l -> known body ->
  values L = B ++ vs -> length B = 2%nat ->
  filled ntime2sec magic UV_EINVAL (answered true lstat) (list_ascii_of_string body)
    (fun _ c => src_of c ∉ l) vs ->
  infos true lstat l 2 body (fileinfo_noyield ntime2sec magic UV_EINVAL UV_EAI_FAIL uv fuel L b body).
Proof.
  intros Hfuel Hb Hk HL HB. revert fuel Hfuel b Hb L vs HL.
  induction l as [| src rest IH]; intros fuel Hfuel b Hb L vs HL Hf; unfold infos; cbn [first_error].
  - exists L, B. apply filled_end in Hf as ->. split_and!; try done.
    destruct fuel; cbn [fileinfo_noyield]; pose proof (state_bits_end b lstat Hb) as He;
      unfold missing in He; by rewrite He.
  - destruct fuel as [| fuel]; [cbn in Hfuel; lia |]. cbn [fileinfo_noyield].
    destruct (state_bits_next b lstat src rest Hb) as (Hm & Hsrc & b' & Hb' & Hs & _ & ->).
    unfold missing in Hm. rewrite Hm.
    assert (forall req, answer true lstat src = inr req ->
      infos true lstat rest 2 body (fileinfo_noyield ntime2sec magic UV_EINVAL UV_EAI_FAIL uv fuel
        (pushfileinfo ntime2sec magic UV_EINVAL L 2 b' body req) b' body)) as Hnext.
    { intros req Ha. destruct (fill_step true lstat B b' body src rest L vs req Hsrc Hk Hs HL Ha Hf)
        as (vs' & HL' & Hf'). rewrite HB in HL'.
      apply (IH fuel ltac:(cbn in Hfuel; lia) b' Hb' _ vs' HL' Hf'). }
    revert Hnext. unfold infos. rewrite (answer_eq true lstat src).
    destruct (uv src (lstat && (src =? INFO_STAT))) as [err req].
    destruct ((src =? INFO_READLINK) && (err =? UV_EINVAL)); [intros Hn; by apply Hn |].
    destruct (err <? 0); [done |]. intros Hn; by apply Hn.
Qed.

(** The stack of the version that yields. *)
Lemma yield_infos l fuel b lstat body (L : St) p m x vs :
  (forall lstat src, (uv src lstat).1 <> UV_EINVAL) ->
  (length l <= fuel)%nat -> state_bits b lstat l -> known body ->
  values L = [p; m; LInteger b; x] ++ vs ->
  filled ntime2sec magic UV_EINVAL (answered false lstat) (list_ascii_of_string body)
    (fun _ c => src_of c ∉ l) vs ->
  infos false lstat l 4 body (yieldfileinfo ntime2sec magic UV_EINVAL UV_EAI_FAIL uv fuel L body).
Proof.
  intros Huv Hfuel Hb Hk HL. revert fuel Hfuel b Hb L vs HL.
  assert (forall L b vs, values L = [p; m; LInteger b; x] ++ vs -> lua_tointeger L 3 = b) as Hget.
  { intros L0 b0 vs0 HL0. unfold lua_tointeger.
    change (lua_at L0 3) with (lua_at L0 (Z.of_nat (length [p; m] + 1))).
    by rewrite (at_app L0 [p; m] (LInteger b0) (x :: vs0) HL0). }
  induction l as [| src rest IH]; intros fuel Hfuel b Hb L vs HL Hf; unfold infos; cbn [first_error].
  - exists L, [p; m; LInteger b; x]. apply filled_end in Hf as ->. split_and!; try done.
    destruct fuel; cbn [yieldfileinfo]; rewrite (Hget L b _ HL);
      pose proof (state_bits_end b lstat Hb) as He; unfold missing in He; by rewrite He.
  - destruct fuel as [| fuel]; [cbn in Hfuel; lia |]. cbn [yieldfileinfo].
    rewrite (Hget L b _ HL).
    destruct (state_bits_next b lstat src rest Hb) as (Hm & Hsrc & b' & Hb' & Hs & H64 & ->).
    unfold missing in Hm, H64. rewrite Hm.
    set (L1 := lua_replace (lua_push L (LInteger b')) 3).
    assert (values L1 = [p; m; LInteger b'; x] ++ vs) as HL1.
    { unfold L1. rewrite (values_replace_app _ [p; m] (LInteger b) (x :: vs) (LInteger b')); [done | | done].
      by rewrite values_push, HL. }
    assert (forall req, answer false lstat src = inr req ->
      infos false lstat rest 4 body (yieldfileinfo ntime2sec magic UV_EINVAL UV_EAI_FAIL uv fuel
        (pushfileinfo ntime2sec magic UV_EINVAL L1 4 b' body req) body)) as Hnext.
    { intros req Ha. destruct (fill_step false lstat [p; m; LInteger b'; x] b' body src rest L1 vs req
        Hsrc Hk Hs HL1 Ha Hf) as (vs' & HL' & Hf').
      apply (IH fuel ltac:(cbn in Hfuel; lia) b' Hb' _ vs' HL' Hf'). }
    revert Hnext. unfold infos. rewrite (answer_eq false lstat src). specialize (Huv (lstat && (src =? INFO_STAT)) src).
    destruct (uv src (lstat && (src =? INFO_STAT))) as [err req]. cbn [fst] in Huv.
    rewrite (proj2 (Z.eqb_neq err UV_EINVAL)), andb_false_r by done.
    destruct (err <? 0); [done |]. rewrite (Hget L1 b' _ HL1), H64. cbn [orb].
    destruct ((0 <=? fs_result req) || _); [| done]. intros Hn; by apply Hn.
Qed.

Lemma infomode_loop_unknown body bits mask :
  forallb (has_char info_chars) (list_ascii_of_string body) = false ->
  (forall s, s ∈ sources -> ctrue (Z.land s mask) = true) ->
  exists msg, mode_loop (infomode_char mask) bits body = LuaError msg.
Proof.
  intros Hc Hmask. revert bits. induction body as [| c body IH]; intros bits; [done |].
  cbn [list_ascii_of_string forallb mode_loop] in *. unfold infomode_char at 1.
  destruct (has_char info_chars c) eqn:Hk.
  - destruct (toinfosrc_known c mask Hk) as [-> Hs]. cbn [rbind]. rewrite Hmask by done.
    cbn [rbind]. by apply IH.
  - assert ((exists msg, toinfosrc c mask = LuaError msg) \/ toinfosrc c mask = Ok 0)
      as [[msg ->] | ->].
    { unfold has_char, info_chars in Hk. rewrite !count_char_app in Hk.
      apply bool_decide_eq_false in Hk. unfold toinfosrc, has_char.
      cbn [count_char] in Hk. rewrite !bool_decide_false by (intros ?; apply Hk; lia).
      destruct (decide (c = "p"%char)) as [-> |]; [exfalso; apply Hk; vm_compute; lia |].
      destruct (decide (c = "="%char)) as [-> |]; [exfalso; apply Hk; vm_compute; lia |].
      repeat case_match; unfold must_begin; eauto. }
    + cbn [rbind]. eauto.
    + cbn. eauto.
Qed.

(** C18: for every mode, [system.fileinfo] makes each call its characters need
    once, in a fixed order, and either raises the error of the first that fails
    or leaves on the stack one value for each character, in the order of the
    mode, whichever order the calls filled the places in; the options '~' and 'l'
    choose only whether the calls suspend the coroutine and whether links are
    followed, and every other character raises an error before any call. *)
Theorem fileinfo_values (L : St) (path m : lvalue) (mode prefix body : string) :
  values L = [path; m] -> c_string mode = prefix +:+ body ->
  chars_in "~l" prefix = true -> (forall c r, body = String c r -> has_char "~l" c = false) ->
  let noyield := has_char prefix "~" in
  let lstat := has_char prefix "l" in
  (noyield = false -> forall lstat src, (uv src lstat).1 <> UV_EINVAL) ->
  let r := system_fileinfo ntime2sec magic UV_EINVAL UV_EAI_FAIL uv L mode in
  if forallb (has_char info_chars) (list_ascii_of_string body) then
    match first_error (answer noyield lstat) (List.filter (src_needed body) sources) with
    | Some err => exists n, r = Ok (Some (UvError err), n)
    | None => exists L' B, r = Ok (Some (Ok L'), length B) /\
        values L' = B ++ (info_value noyield lstat <$> list_ascii_of_string body)
    end
  else exists msg, r = LuaError msg.
Proof.
  intros HL Hmode Hp Hb noyield lstat Huv r.
  assert (forall s, s ∈ sources -> ctrue (Z.land s (Z.lor INFO_LSTAT INFO_SRCMASK)) = true) as Hmask.
  { intros s Hs. unfold sources in Hs. rewrite !elem_of_cons, elem_of_nil in Hs.
    by destruct_or! Hs; subst s. }
  assert (checkinfomode mode (Z.lor INFO_LSTAT INFO_SRCMASK) =
    (bits <- mode_loop (infomode_char (Z.lor INFO_LSTAT INFO_SRCMASK)) (option_bits lstat noyield) body;;
     Ok (body, bits))) as Hci.
  { unfold checkinfomode, checkprefixflags. rewrite Hmode.
    pose proof (checkprefixflags_app prefix body (Z.lor INFO_LSTAT INFO_SRCMASK) false false) as Hpf.
    change (option_bits false false) with 0 in Hpf. by rewrite Hpf by done. }
  subst r. unfold system_fileinfo. rewrite Hci. clear Hci.
  clearbody lstat noyield. set (bits0 := option_bits lstat noyield).
  assert (0 <= bits0 < 64) as Hb0 by (subst bits0; destruct lstat, noyield; vm_compute; split; discriminate || done).
  destruct (forallb _ _) eqn:Hk.
  2: { destruct (infomode_loop_unknown body bits0 _ Hk Hmask) as [msg ->]. by exists msg. }
  destruct (infomode_loop body bits0 _ Hb0 Hk Hmask) as (b & -> & Hbb & Hm & Hl & Hn). cbn [rbind].
  assert (state_bits b lstat (List.filter (src_needed body) sources)) as Hst.
  { unfold state_bits. rewrite Hl. split_and!; [lia | lia | | by subst bits0; destruct lstat, noyield].
    apply filter_ext_in. intros q Hq%list_elem_of_In. rewrite Hm by done.
    subst bits0. unfold sources in Hq. rewrite !elem_of_cons, elem_of_nil in Hq.
    by destruct_or! Hq; subst q; destruct lstat, noyield. }
  assert (missing b INFO_NOYIELD = noyield) as Hny
    by (rewrite Hn; subst bits0; by destruct lstat, noyield).
  unfold missing in Hny. rewrite Hny.
  assert (length (List.filter (src_needed body) sources) <= 4)%nat as Hlen
    by apply (filter_length_le (src_needed body) sources).
  assert (forall ans, filled ntime2sec magic UV_EINVAL ans (list_ascii_of_string body)
    (fun _ c => src_of c ∉ List.filter (src_needed body) sources) []) as Hfill.
  { intros ans. split; [cbn; lia |]. intros i c Hi Hd. exfalso. apply Hd.
    apply list_elem_of_In, filter_In. apply list_elem_of_lookup_2 in Hi.
    apply list_elem_of_In in Hi. split.
    - apply list_elem_of_In. rewrite forallb_forall in Hk.
      by destruct (toinfosrc_known c 0 (Hk c Hi)).
    - apply existsb_exists. exists c. by rewrite Z.eqb_refl. }
  destruct noyield.
  - pose proof (noyield_infos _ 4 b lstat body L [path; m] [] Hlen Hst Hk HL eq_refl (Hfill _)) as Hr.
    unfold infos in Hr. destruct (first_error _ _); [rewrite Hr; eauto |].
    destruct Hr as (L' & B' & -> & <- & HL'). eauto.
  - pose proof (yield_infos _ 4 b lstat body
      (lua_push (lua_push L (LInteger b)) (LLightUserdata None)) path m (LLightUserdata None) []
      (Huv eq_refl) Hlen Hst Hk ltac:(by rewrite !values_push, HL) (Hfill _)) as Hr.
    unfold infos in Hr. destruct (first_error _ _); [rewrite Hr; eauto |].
    destruct Hr as (L' & B' & -> & <- & HL'). eauto.
Qed.

End results.

Lemma fileinfo_values_witness :
  let st := Stat (Some S_IFLNK) 0x1ff 1 2 1 0 0 0 42 512 1 0 0 (0, 0) (0, 0) (0, 0) (0, 0) in
  let uv := fun (_ : Z) (_ : bool) => (0, Fs 0 "target" st (Statfs 1 2 3 4 5 6 7)) in
  exists L' B,
    system_fileinfo (fun _ => 0) (fun _ => None) (-22) (-3003) uv
      [LString "path"; LString "l=IB?"] "l=IB?" = Ok (Some (Ok L'), length B) /\
    L' = B ++ [LString "target"; LInteger 2; LInteger 42; LString "link"].
Proof.
  intros st uv.
  refine (fileinfo_values (LuaStack0 := list_stack) (fun _ => 0) (fun _ => None) (-22) (-3003) uv
    [LString "path"; LString "l=IB?"] (LString "path") (LString "l=IB?") "l=IB?" "l" "=IB?"
    eq_refl eq_refl eq_refl _ _).
  - intros c r [= <- _]. reflexivity.
  - intros _ lstat src. discriminate.
Defined.

(** *** Permissions *)

Lemma perm_bit_pow c b : perm_bit c = Some b -> exists k, 0 <= k /\ b = 2 ^ k.
Proof.
  unfold perm_bit. intros Hb.
  repeat match type of Hb with (if ?d then _ else _) = _ =>
    destruct d; [injection Hb as <-; match goal with |- exists k, _ /\ ?x = _ => exists (Z.log2 x) end; split;
      [vm_compute; discriminate | reflexivity] |] end. done.
Qed.

Lemma perm_bit_inj c c' b : perm_bit c = Some b -> perm_bit c' = Some b -> c = c'.
Proof.
  unfold perm_bit. intros Hb.
  repeat match type of Hb with (if ?d then _ else _) = _ =>
    destruct d as [-> |];
      [injection Hb as <-; intros Hc; repeat (case_decide; [by subst |]); done |] end. done.
Qed.

Lemma pushfilestat_perm (ntime2sec : Z * Z -> Z) c b st :
  perm_bit c = Some b ->
  pushfilestat ntime2sec c st = Some (LBoolean (ctrue (Z.land (st_mode st) b))).
Proof.
  unfold perm_bit. intros Hb.
  repeat match type of Hb with (if ?d then _ else _) = _ =>
    destruct d as [-> |]; [by injection Hb as <- |] end. done.
Qed.

Definition perm_char (c : ascii) : bool := bool_decide (is_Some (perm_bit c)).

Lemma checkperm_loop arg s p :
  forallb perm_char (list_ascii_of_string s) = true ->
  exists p', mode_loop (checkperm_char arg) p s = Ok p' /\
    forall c b, perm_bit c = Some b -> ctrue (Z.land p' b) = ctrue (Z.land p b) || has_char s c.
Proof.
  revert p. induction s as [| c s IH]; intros p Hs; cbn [mode_loop list_ascii_of_string forallb] in *.
  - exists p. split; [done |]. intros. by rewrite orb_false_r.
  - apply andb_true_iff in Hs as [Hc Hs]. apply bool_decide_eq_true in Hc as [b Hb].
    unfold checkperm_char at 1. rewrite Hb. cbn [rbind].
    destruct (IH (Z.lor p b) Hs) as (p' & -> & Hp'). exists p'. split; [done |].
    intros c' b' Hb'. rewrite (Hp' c' b' Hb').
    destruct (perm_bit_pow c b Hb) as (k & Hk & ->), (perm_bit_pow c' b' Hb') as (k' & Hk' & ->).
    rewrite !(ctrue_maskflag_bit _ k') by done. rewrite Z.lor_spec.
    unfold has_char. cbn [count_char].
    destruct (decide (c = c')) as [<- | Hne].
    + assert (2 ^ k = 2 ^ k') as Hkk by congruence. rewrite <- Hkk in Hb'.
      apply Z.pow_inj_r in Hkk as ->; [| lia ..]. rewrite Z.pow2_bits_true, (bool_decide_true (1 + _ <> 0)%nat) by lia.
      by rewrite !orb_true_r.
    + rewrite Z.pow2_bits_false, orb_false_r; [done |].
      intros ->. apply Hne. by apply (perm_bit_inj _ _ _ Hb).
Qed.

(** The permissions a string asks for are those that the information about a
    file with these permissions tells, one value for each character; a string
    with another character is refused, and an integer is used as it is. *)
Theorem perm_roundtrip (ntime2sec : Z * Z -> Z) (arg : Z) (s : string) :
  let chars := list_ascii_of_string (c_string s) in
  (if forallb perm_char chars then
     exists perm, checkperm arg (inl s) = Ok perm /\
     forall c st, perm_char c = true -> st_mode st = perm ->
       pushfilestat ntime2sec c st = Some (LBoolean (has_char (c_string s) c))
   else exists msg, checkperm arg (inl s) = LuaError msg) /\
  (forall n, - 2 ^ 31 <= n < 2 ^ 31 -> checkperm arg (inr n) = Ok n).
Proof.
  intros chars. split.
  - destruct (forallb perm_char chars) eqn:Hc.
    + destruct (checkperm_loop arg (c_string s) 0 Hc) as (p & Hp & Hb). exists p. split; [done |].
      intros c st Hk%bool_decide_eq_true <-. destruct Hk as [b Hk].
      rewrite (pushfilestat_perm ntime2sec c b st Hk), (Hb c b Hk). by rewrite Z.land_0_l.
    + cbn [checkperm]. subst chars. generalize 0 as p.
      induction (c_string s) as [| c s' IH]; intros p; [done |].
      cbn [mode_loop list_ascii_of_string forallb] in *. unfold perm_char in *. unfold checkperm_char at 1.
      destruct (perm_bit c) as [b |] eqn:Hb; cbn [rbind]; [| by eexists].
      rewrite bool_decide_true in Hc by eauto. by apply IH.
  - intros n Hn. cbn. rewrite wraps_id; [done | lia | change (32 - 1) with 31; lia].
Qed.
