(* ===== verification/Await.v ===== *)
(** * Functions that wait: arguments and the stack of a coroutine
    (src/src/loperaux.c, lines 100 to 320 and 786 to 793)

    How the functions of the library read their arguments, and what the stack of a
    coroutine holds from the moment a function starts an operation until it gives
    the results of the operation.  [Operation] has the life of the operations. *)
From S2P Require Import Prelude Outcome LuaApi Results FileInfo.

(** ** Arguments

    The conversions of the Lua reference manual (section 3.4.3) are a parameter:
    strings, integers and numbers are what they are, and small integers are exact
    as numbers.  A [lua_Number] is its IEEE bits. *)
Class LuaArgs := {
  lua_tolstring : lvalue -> option string;
  lua_tointegerx : lvalue -> option Z;
  lua_tonumberx : lvalue -> option Z;
  (** a number as an integer of C, and the test [number >= 0] *)
  number_int : Z -> Z;
  number_ge0 : Z -> bool;
  tolstring_nil : lua_tolstring LNil = None;
  tolstring_string s : lua_tolstring (LString s) = Some s;
  tointegerx_integer i : lua_tointegerx (LInteger i) = Some i;
  tonumberx_number n : lua_tonumberx (LNumber n) = Some n;
  tonumberx_small i :
    0 <= i < 2 ^ 53 -> exists n, lua_tonumberx (LInteger i) = Some n /\ number_int n = i;
}.

Section args.
Context {St : Type} `{!LuaStack St} `{!LuaArgs}.
Implicit Types (L : St) (i : nat).

(** An argument that is not given is as nil. *)
Definition arg L i : lvalue := default LNil (values L !! (i - 1)%nat).

(** The messages name the type of the argument too. *)
Definition checkstring L i : result string :=
  match lua_tolstring (arg L i) with
  | Some s => Ok (c_string s)
  | None => ArgError (Z.of_nat i) "string expected"
  end.
Definition optstring L i (def : string) : result string :=
  if decide (arg L i = LNil) then Ok def else checkstring L i.
(** [luaL_optstring] with the default [NULL]. *)
Definition optstring_null L i : result (option string) :=
  if decide (arg L i = LNil) then Ok None else s <- checkstring L i;; Ok (Some s).
Definition checkinteger L i : result Z :=
  match lua_tointegerx (arg L i) with
  | Some n => Ok n
  | None => ArgError (Z.of_nat i)
      (if decide (lua_tonumberx (arg L i) = None) then "number expected"
       else "number has no integer representation")
  end.
Definition optinteger L i (def : Z) : result Z :=
  if decide (arg L i = LNil) then Ok def else checkinteger L i.
Definition checknumber L i : result Z :=
  match lua_tonumberx (arg L i) with
  | Some n => Ok n
  | None => ArgError (Z.of_nat i) "number expected"
  end.
Definition tointeger L i : Z := default 0 (lua_tointegerx (arg L i)).

(** [lcuL_checknoyieldmode]: the number of characters. *)
Definition noyield_char (n : Z) (c : ascii) : result Z :=
  if decide (c = LCU_NOYIELDMODE) then Ok (n + 1) else unknown_mode c.
Definition lcuL_checknoyieldmode L i : result Z :=
  mode <- optstring L i "";; mode_loop noyield_char 0 mode.

(** Stacks with the same values give the same arguments. *)
Lemma arg_ext L L' i : values L' = values L -> arg L' i = arg L i.
Proof. unfold arg. by intros ->. Qed.

Lemma arg_settop L n i : (1 <= i)%nat -> arg (lua_settop L n) i = if decide (i <= n)%nat then arg L i else LNil.
Proof.
  intros Hi. unfold arg. rewrite values_settop. destruct (decide (i <= n)%nat).
  - destruct (decide (i - 1 < length (values L)))%nat as [Hl | Hl].
    + by rewrite lookup_resize by lia.
    + rewrite lookup_resize_new by lia. by rewrite (lookup_ge_None_2 (values L)) by lia.
  - by rewrite lookup_ge_None_2 by (rewrite length_resize; lia).
Qed.

Lemma arg_push L v i :
  (1 <= i)%nat -> arg (lua_push L v) i = if decide (i = S (lua_gettop L)) then v else arg L i.
Proof.
  intros Hi. unfold arg, lua_gettop. rewrite values_push. destruct (decide _) as [-> | Hne].
  - rewrite lookup_app_r by lia. by replace (S (length (values L)) - 1 - length (values L))%nat with 0%nat by lia.
  - destruct (decide (i <= length (values L))%nat); [by rewrite lookup_app_l by lia |].
    rewrite !lookup_ge_None_2; [done | lia | rewrite length_app; cbn; lia].
Qed.

(** A string is an argument that is given. *)
Lemma checkstring_top L i s : checkstring L i = Ok s -> (i <= lua_gettop L \/ i = 0)%nat.
Proof.
  unfold checkstring, arg, lua_gettop. intros Hs.
  destruct (decide (i <= length (values L) \/ i = 0)%nat) as [| Hi]; [done |].
  rewrite (lookup_ge_None_2 (values L)) in Hs by lia. cbn [default from_option id] in Hs.
  by rewrite tolstring_nil in Hs.
Qed.

Lemma toboolean_arg L i :
  (1 <= i)%nat ->
  lua_toboolean L (Z.of_nat i) = match arg L i with LNil | LBoolean false => false | _ => true end.
Proof.
  intros Hi. unfold lua_toboolean, lua_at, lua_absindex, arg.
  destruct (Z.ltb_spec (Z.of_nat i) 0); [lia |]. rewrite Nat2Z.id.
  destruct (Nat.eqb_spec i 0); [lia |]. by destruct (values L !! _) as [[] |].
Qed.

End args.

(** ** The stack of a coroutine that waits *)

Section await.
Context {St : Type} `{!LuaStack St}.
(** The scheduler, whose address is also that of its loop, and whether the
    function was called from a coroutine. *)
Context (sched : positive) (yieldable : bool).
(** What libuv is asked to do, and what it answers when it is asked and when it is
    done.  [strerror] is [uv_strerror]. *)
Context {Call : Type} (start : Call -> Z) (done : St -> Call -> St).
Context (strerror : Z -> string).
Implicit Types (L : St).

(** A setup gives the call, the number of values that it returns (-1 to yield) and
    the stack. *)
Definition setup_t : Type := St -> result (Call * (Z * St)).

(** What every setup does with the error of its call. *)
Definition arm (c : Call) L (keep : St -> St) : result (Call * (Z * St)) :=
  if start c <? 0 then
    let r := Results.lcuL_pusherrres strerror L (start c) in Ok (c, (Z.of_nat r.1, r.2))
  else Ok (c, (-1, keep L)).

(** The values on the top of the stack that a function returns. *)
Definition returned (n : nat) L : list lvalue := drop (lua_gettop L - n) (values L).

(** [haltedop], when the scheduler resumes the coroutine. *)
Definition resumed_by_token L : St := lua_pop (lua_push L (LLightUserdata (Some sched))) 1.

(** What a function returned: the number of values, and the stack with them on the
    top; only the values are seen by the caller. *)
Definition returns {A} (r : result (A * (nat * St))) : result (A * list lvalue) :=
  r <- r;; Ok (r.1, returned r.2.1 r.2.2).

(** [startedopk], and [k_endop] when the call is done.  The function for the results
    may read the request of the call. *)
Definition startedopk_stack (results : option (Call -> St -> result (nat * St))) (r : Call * (Z * St))
    : result (Call * (nat * St)) :=
  let '(c, (nret, L)) := r in
  if nret <? 0 then
    let L := lua_push L (LLightUserdata (Some sched)) in
    let narg := lua_gettop L in
    let L := resumed_by_token (done L c) in
    let L := lua_remove L narg in
    let narg := (narg - 1)%nat in
    match results with
    | Some results => r <- results c L;; Ok (c, r)
    | None => Ok (c, ((lua_gettop L - narg)%nat, L))
    end
  else Ok (c, (Z.to_nat nret, L)).

Definition startedopk results r : result (Call * list lvalue) := returns (startedopk_stack results r).

(** [yieldresetk] and [k_resetopk]: the coroutine first waits for its previous
    operation, and is resumed with [extra] values. *)
Definition after_previous (extra : list lvalue) L : St :=
  let L := lua_push L (LLightUserdata (Some sched)) in
  let L := lua_push L (LLightUserdata None) in
  let L := lua_push L (LBoolean true) in
  let narg := lua_gettop L in
  let L := resumed_by_token (fold_left lua_push extra L) in
  lua_settop L (narg - 3).

(** [lcuT_resetcoreqk]; [wait]: the previous operation is not over yet. *)
Definition lcuT_resetcoreqk (wait : option (list lvalue)) L (setup : setup_t)
    (results : option (Call -> St -> result (nat * St))) : result (Call * list lvalue) :=
  if yieldable then
    let L := match wait with Some extra => after_previous extra L | None => L end in
    r <- setup L;; startedopk results r
  else LuaError "unable to yield".

(** *** The coroutine is resumed by a script

    The values of the resume are on the stack, and the token is not: [haltedop] says
    so, and the function returns these values, whatever it was waiting for. *)
Definition resumed_by_script (vs : list lvalue) L : St := fold_left lua_push vs L.

Inductive resumption := ByOperation (extra : list lvalue) | ByScript (vs : list lvalue).

(** [k_resetopk]: either the stack for the setup, or what the function returns. *)
Definition k_resetopk (how : resumption) L : St + (nat * St) :=
  match how with
  | ByOperation extra => inl (after_previous extra L)
  | ByScript vs =>
      let L := lua_push L (LLightUserdata (Some sched)) in
      let L := lua_push L (LLightUserdata None) in
      let L := lua_push L (LBoolean true) in
      let narg := lua_gettop L in
      let L := resumed_by_script vs L in
      inr ((lua_gettop L - narg)%nat, L)
  end.

(** [k_endop], for a call that was made. *)
Definition k_endop (how : resumption) (results : option (Call -> St -> result (nat * St)))
    (r : Call * (Z * St)) : result (Call * (nat * St)) :=
  match how, r with
  | ByScript vs, (c, (nret, L)) =>
      if nret <? 0 then
        let L := lua_push L (LLightUserdata (Some sched)) in
        let narg := lua_gettop L in
        let L := lua_remove (resumed_by_script vs L) narg in
        let narg := (narg - 1)%nat in
        Ok (c, ((lua_gettop L - narg)%nat, L))
      else startedopk_stack results r
  | ByOperation _, _ => startedopk_stack results r
  end.

(** The whole of a call: how it waits for the previous operation, if it does, and how
    it is resumed when its own was started.  [None]: no call was made. *)
Definition resetcoreqk_stack (wait : option resumption) (how : resumption) L (setup : setup_t)
    (results : option (Call -> St -> result (nat * St))) : result (option Call * (nat * St)) :=
  if yieldable then
    match from_option (fun how => k_resetopk how L) (inl L) wait with
    | inl L => r <- setup L;; r <- k_endop how results r;; Ok (Some r.1, r.2)
    | inr r => Ok (None, r)
    end
  else LuaError "unable to yield".

Definition resetcoreqk wait how L setup results : result (option Call * list lvalue) :=
  returns (resetcoreqk_stack wait how L setup results).

(** When no script interferes, [lcuT_resetcoreqk] above is the whole of it. *)
Lemma resetcoreqk_ends wait L setup results :
  resetcoreqk (ByOperation <$> wait) (ByOperation []) L setup results =
    (r <- lcuT_resetcoreqk wait L setup results;; Ok (Some r.1, r.2)).
Proof.
  unfold resetcoreqk, resetcoreqk_stack, lcuT_resetcoreqk, startedopk. destruct yieldable; [| done].
  destruct wait as [extra |]; cbn [fmap option_fmap option_map from_option k_resetopk];
    cbn [rbind k_endop]; destruct (setup _) as [r | | | | |]; cbn [rbind]; try done;
    by destruct (startedopk_stack _ r).
Qed.

Lemma values_pushes vs L : values (fold_left lua_push vs L) = values L ++ vs.
Proof.
  revert L. induction vs as [| v vs IH]; intros L; cbn [fold_left]; [by rewrite app_nil_r |].
  rewrite IH, values_push. by rewrite <- app_assoc.
Qed.

Lemma values_token L : values (resumed_by_token L) = values L.
Proof.
  unfold resumed_by_token. apply (values_pop _ _ [LLightUserdata (Some sched)]); [| done].
  by rewrite values_push.
Qed.

(** The setup finds the stack as it was. *)
Lemma values_after_previous extra L : values (after_previous extra L) = values L.
Proof.
  unfold after_previous.
  set (L1 := lua_push (lua_push (lua_push L _) _) _).
  assert (values L1 = values L ++ [LLightUserdata (Some sched); LLightUserdata None; LBoolean true]) as H1.
  { unfold L1. rewrite !values_push, <- !app_assoc. done. }
  apply (values_settop_app _ (values L)
    ([LLightUserdata (Some sched); LLightUserdata None; LBoolean true] ++ extra)).
  - rewrite values_token, values_pushes, H1. by rewrite <- app_assoc.
  - unfold lua_gettop. rewrite H1, length_app. cbn [length]. lia.
Qed.

(** The results function finds what was left and the results of the call. *)
Lemma startedopk_waits results c L :
  startedopk results (c, (-1, L)) =
    let L' := lua_push L (LLightUserdata (Some sched)) in
    let L'' := lua_remove (resumed_by_token (done L' c)) (lua_gettop L') in
    match results with
    | Some results => r <- results c L'';; Ok (c, returned r.1 r.2)
    | None => Ok (c, returned (lua_gettop L'' - (lua_gettop L' - 1)) L'')
    end.
Proof.
  unfold startedopk, returns. cbn [startedopk_stack Z.ltb Z.compare]. cbv zeta.
  destruct results as [results |]; [| done]. by destruct (results _ _).
Qed.

(** ... unless there is nothing to wait for. *)
Lemma startedopk_returns results c n L : 0 <= n -> startedopk results (c, (n, L)) = Ok (c, returned (Z.to_nat n) L).
Proof. intros Hn. unfold startedopk. cbn [startedopk_stack]. by rewrite (proj2 (Z.ltb_ge _ _) Hn). Qed.

Lemma returned_app L below vs n : values L = below ++ vs -> length vs = n -> returned n L = vs.
Proof.
  intros HL <-. unfold returned, lua_gettop. rewrite HL, length_app.
  replace (length below + length vs - length vs)%nat with (length below) by lia.
  apply drop_app_length.
Qed.

Lemma values_without_sched_at L c vs :
  let L' := lua_push L (LLightUserdata (Some sched)) in
  values (done L' c) = values L' ++ vs ->
  values (lua_remove (resumed_by_token (done L' c)) (lua_gettop L')) = values L ++ vs.
Proof.
  intros L' Hd.
  assert (lua_gettop L' = (length (values L) + 1)%nat) as ->.
  { unfold L', lua_gettop. rewrite values_push, length_app. done. }
  apply (values_remove _ (values L) vs (LLightUserdata (Some sched))).
  rewrite values_token, Hd. unfold L'. rewrite values_push. by rewrite <- app_assoc.
Qed.

Lemma values_without_sched L c vs :
  (forall L', values (done L' c) = values L' ++ vs) ->
  let L' := lua_push L (LLightUserdata (Some sched)) in
  values (lua_remove (resumed_by_token (done L' c)) (lua_gettop L')) = values L ++ vs.
Proof. intros Hd. apply values_without_sched_at, Hd. Qed.

(** A function without a function for the results returns what the callback pushes,
    or the error of its call. *)
Lemma values_errres L err :
  values (Results.lcuL_pusherrres strerror L err).2
  = values L ++ [LBoolean false; LString (strerror err); LInteger (- err)].
Proof. unfold Results.lcuL_pusherrres, Results.lcu_pusherror. cbn [snd]. by rewrite !values_push, <- !app_assoc. Qed.

Lemma values_pushresults0 L err :
  values (Results.lcuL_pushresults strerror L 0 err).2
  = values L ++ (if err <? 0 then [LBoolean false; LString (strerror err); LInteger (- err)] else [LBoolean true]).
Proof.
  unfold Results.lcuL_pushresults. destruct (err <? 0); cbn [Nat.eqb snd]; [| apply values_push].
  rewrite values_errres. by rewrite (values_pop L (values L) []) by (rewrite ?app_nil_r; done).
Qed.

Lemma startedopk_none c L vs :
  (forall L', values (done L' c) = values L' ++ vs) -> startedopk None (c, (-1, L)) = Ok (c, vs).
Proof.
  intros Hd. rewrite startedopk_waits. cbv zeta. set (L2 := lua_push L _). set (L3 := lua_remove _ _).
  assert (values L3 = values L ++ vs) as E by (apply values_without_sched; intros L'; apply Hd).
  do 2 f_equal. apply (returned_app _ (values L)); [done |].
  unfold lua_gettop. rewrite E. unfold L2. rewrite values_push, !length_app. cbn [length]. lia.
Qed.

Lemma resetcoreqk_none wait L (setup : setup_t) (check : result Call) (pushed : Call -> list lvalue) :
  yieldable = true ->
  (forall L', values L' = values L -> setup L' = (c <- check;; arm c L' id)) ->
  (forall c L', values (done L' c) = values L' ++ pushed c) ->
  lcuT_resetcoreqk wait L setup None =
    (c <- check;;
     Ok (c, if start c <? 0 then [LBoolean false; LString (strerror (start c)); LInteger (- start c)]
            else pushed c)).
Proof.
  intros Hy Hs Hd. unfold lcuT_resetcoreqk. rewrite Hy.
  set (L1 := match wait with Some _ => _ | None => L end).
  assert (values L1 = values L) as HL1 by (unfold L1; destruct wait; [apply values_after_previous | done]).
  rewrite (Hs L1 HL1). destruct check as [c | | | | |]; cbn [rbind]; try done.
  unfold arm. destruct (Z.ltb_spec (start c) 0) as [Hneg | Hpos]; cbn [rbind].
  - rewrite startedopk_returns by done. do 2 f_equal. by apply (returned_app _ (values L1)); [apply values_errres |].
  - apply startedopk_none. intros L'. apply Hd.
Qed.

Lemma returned_above L below vs n : values L = below ++ vs -> n = length below -> returned (lua_gettop L - n) L = vs.
Proof.
  intros HL ->. apply (returned_app _ below); [done |]. unfold lua_gettop. rewrite HL, length_app. lia.
Qed.

(** The values of a resume by a script, when an operation was started. *)
Lemma returned_script vs L :
  let L' := lua_push L (LLightUserdata (Some sched)) in
  let L'' := lua_remove (resumed_by_script vs L') (lua_gettop L') in
  returned (lua_gettop L'' - (lua_gettop L' - 1)) L'' = vs.
Proof.
  intros L'. assert (lua_gettop L' = (length (values L) + 1)%nat) as ->.
  { unfold L', lua_gettop. rewrite values_push, length_app. done. }
  apply (returned_above _ (values L)); [| lia].
  apply (values_remove _ (values L) vs (LLightUserdata (Some sched))).
  unfold resumed_by_script. rewrite values_pushes. unfold L'. rewrite values_push. by rewrite <- app_assoc.
Qed.

(** A coroutine that a script resumes gets the values of the resume and nothing else,
    from every function that waits: those that still wait for the previous
    operation make no call, and the others return without their results. *)
Theorem script_resume_wins L (setup : setup_t) (results : option (Call -> St -> result (nat * St)))
    (vs : list lvalue) (Hy : yieldable = true) :
  (forall how, resetcoreqk (Some (ByScript vs)) how L setup results = Ok (None, vs)) /\
  (forall wait : option (list lvalue), exists L', values L' = values L /\
     forall c nret L1, setup L' = Ok (c, (nret, L1)) -> nret < 0 ->
       resetcoreqk (ByOperation <$> wait) (ByScript vs) L setup results = Ok (Some c, vs)).
Proof.
  unfold resetcoreqk, resetcoreqk_stack, returns. rewrite Hy. split.
  - intros how. cbn [from_option k_resetopk rbind fst snd]. do 2 f_equal.
    eapply (returned_above _ (values _)); [apply values_pushes | done].
  - intros wait.
    assert (exists L', values L' = values L /\
      from_option (fun how => k_resetopk how L) (inl L) (ByOperation <$> wait) = inl L') as (L' & HL' & ->).
    { destruct wait as [extra |]; cbn; [| by exists L]. eexists. split; [apply values_after_previous | done]. }
    exists L'. split; [done |]. intros c nret L1 -> Hn. cbn [rbind k_endop].
    rewrite (proj2 (Z.ltb_lt _ _) Hn). cbn [rbind fst snd]. do 2 f_equal.
    apply (returned_script vs L1).
Qed.
End await.

(** Conversions for examples: the bits of a number are its integer. *)
#[export, refine] Instance plain_args : LuaArgs := {|
  lua_tolstring v := match v with LString s => Some s | LInteger i => Some (fmt_int i) | _ => None end;
  lua_tointegerx v := match v with LInteger i => Some i | _ => None end;
  lua_tonumberx v := match v with LNumber n => Some n | LInteger i => Some i | _ => None end;
  number_int n := n;
  number_ge0 n := 0 <=? n;
|}.
Proof. all: try done. eauto. Defined.

Lemma script_resume_wins_witness :
  resetcoreqk (St := list lvalue) 7 true (fun L (_ : unit) => L) (Some (ByOperation [LNil])) (ByScript [LInteger 5])
    [LString "a"] (fun L => Ok (tt, (-1, L))) None = Ok (Some tt, [LInteger 5]).
Proof.
  destruct (proj2 (script_resume_wins (LuaStack0 := list_stack) 7 true (fun L (_ : unit) => L)
    [LString "a"] (fun L => Ok (tt, (-1, L))) None [LInteger 5] eq_refl) (Some [LNil])) as (L' & _ & Hr).
  exact (Hr tt (-1) L' eq_refl ltac:(lia)).
Defined.
