(* ===== verification/StackWith.v ===== *)
(** * A stack with other memory of the state

    Where a function changes memory that is not in the stack, such as the contents of
    an object, its state is a stack and that memory; the operations on the stack do not
    change the memory, nor does what happens to a coroutine while it waits ([Await]). *)
From S2P Require Import Prelude LuaApi FileInfo Await.

#[export, refine] Instance stack_and {St E} `{!LuaStack St} : LuaStack (St * E) | 100 := {|
  values L := values L.1;
  lua_push L v := (lua_push L.1 v, L.2);
  lua_settop L n := (lua_settop L.1 n, L.2);
  lua_replace L i := (lua_replace L.1 i, L.2);
  lua_insert L i := (lua_insert L.1 i, L.2);
  lua_remove L i := (lua_remove L.1 i, L.2);
  lua_checkstack L n := lua_checkstack L.1 n;
|}.
Proof.
  - intros [L e] v. apply values_push.
  - intros [L e] n. apply values_settop.
  - intros [L e] i l v. apply values_replace.
  - intros [L e] l1 l2 v. apply values_insert.
  - intros [L e] l1 l2 v. apply values_remove.
Defined.

Section stack_and.
Context {St E : Type} `{!LuaStack St}.
Implicit Types (L : St * E).

Lemma rest_pushes vs L : (fold_left lua_push vs L).2 = L.2.
Proof. revert L. induction vs as [| v vs IH]; intros L; cbn [fold_left]; [done |]. by rewrite IH. Qed.

Lemma rest_after_previous sched extra L : (after_previous sched extra L).2 = L.2.
Proof. unfold after_previous. cbn. by rewrite rest_pushes. Qed.
End stack_and.
