(* ===== verification/Files.v ===== *)
(** * Creating and opening files (src/src/lfilef.c, lines 982 to 1410)

    [system.maketemp] makes a unique file or directory; the descriptor of the
    file is given to an object or closed.  [system.openfile] translates its mode
    to the flags of the host. *)
From Stdlib Require Import Btauto.
From S2P Require Import Prelude Outcome LuaApi FileInfo.

(** ** Temporary files *)
Module Temp.

Definition MKTMP_TEMPLATESZ : Z := 256.
Definition MKTMP_NOYIELD : Z := 0x01.
Definition MKTMP_CREATEFILE : Z := 0x02.
Definition MKTMP_OPENFILE : Z := 0x06.

(** [for (; *mode == '~'; mode++) bits = MKTMP_NOYIELD;]. *)
Fixpoint skip_noyield (mode : string) (bits : Z) : string * Z :=
  match mode with
  | String c rest =>
      if decide (c = LCU_NOYIELDMODE) then skip_noyield rest MKTMP_NOYIELD else (mode, bits)
  | EmptyString => (mode, bits)
  end.

(** [first]: the first character, which the message tells instead of [c]. *)
Definition maketemp_char (first : ascii) (bits : Z) (c : ascii) : result Z :=
  if decide (c = "f"%char) then Ok (Z.lor bits MKTMP_CREATEFILE)
  else if decide (c = "o"%char) then Ok (Z.lor bits MKTMP_OPENFILE)
  else if decide (c = LCU_NOYIELDMODE) then must_begin c
  else LuaError ("bad argument #2, unknown mode char (got '" +:+ String first "')").

Section temp.
(** libuv: [mkstemp] gives a descriptor, [mkdtemp] 0, both with the path, or an
    error. *)
Context (uv_fs_mkstemp uv_fs_mkdtemp : string -> Z + (Z * string)).

(** The template: the characters of the prefix, then [strcpy], with its final
    zero. *)
Definition callmktmp (mkfile : bool) (prefix : string) : result (Z + (Z * string)) :=
  let template := c_string prefix +:+ "XXXXXX" in
  if Z.of_nat (String.length template) + 1 <=? MKTMP_TEMPLATESZ then
    Ok (if mkfile then uv_fs_mkstemp template else uv_fs_mkdtemp template)
  else Overrun.

(** The field [result] of the request, the values above the four arguments of
    [pcallmktmp], and the objects made with their descriptors. *)
Record mktmp := Mktmp { tmp_result : Z; pushed : list lvalue; objects : list (positive * Z) }.

(** [p]: the next object that Lua allocates.  After the descriptor is given to an
    object, the request holds the place of the object in the stack. *)
Definition pcallmktmp_char (path : string) (p : positive) (s : mktmp) (c : ascii) : mktmp :=
  if decide (c = "f"%char) then Mktmp (tmp_result s) (pushed s ++ [LString path]) (objects s)
  else if decide (c = "o"%char) then
    if 0 <=? tmp_result s then
      let vs := pushed s ++ [LUserdata p] in
      Mktmp (- (4 + Z.of_nat (length vs))) vs (objects s ++ [(p, tmp_result s)])
    else
      let v := default LNil (pushed s !! Z.to_nat (- tmp_result s - 4 - 1)) in
      Mktmp (tmp_result s) (pushed s ++ [v]) (objects s)
  else s.

Fixpoint pcallmktmp_loop (path : string) (p : positive) (s : mktmp) (mode : string) : mktmp :=
  match mode with
  | EmptyString => s
  | String c mode => pcallmktmp_loop path p (pcallmktmp_char path p s c) mode
  end.

(** [mode]: the pointer, which is null when a directory was made. *)
Definition pcallmktmp (path : string) (p : positive) (mode : option string) (result : Z) : mktmp :=
  match mode with
  | Some mode => pcallmktmp_loop path p (Mktmp result [] []) mode
  | None => Mktmp result [LString path] []
  end.

(** What a call leaves: the values, the objects with their descriptors, and the
    descriptors closed. *)
Record made := Made { made_values : list lvalue; made_objects : list (positive * Z); made_closed : list Z }.

Definition returnmktmp (mode : option string) (p : positive) (req : Z * string) : made :=
  let s := pcallmktmp req.2 p mode req.1 in
  Made (pushed s) (objects s)
    (if bool_decide (is_Some mode) && (0 <=? tmp_result s) then [tmp_result s] else []).

(** [len]: the length of the prefix as Lua counts it. *)
Definition system_maketemp (prefix : string) (mode : option string) (p : positive) : result made :=
  let '(mode, bits) := skip_noyield (c_string (default "" mode)%string) 0 in
  _ <- luaL_argcheck (Z.of_nat (String.length prefix) <? MKTMP_TEMPLATESZ - 6) 1 "too long";;
  bits <- mode_loop (maketemp_char (default "000"%char (String.get 0 mode))) bits mode;;
  let mkfile := ctrue (Z.land bits MKTMP_CREATEFILE) in
  r <- callmktmp mkfile prefix;;
  match r with
  | inl err => UvError err
  | inr req => Ok (returnmktmp (if mkfile then Some mode else None) p req)
  end.

(** *** Properties *)

Lemma c_string_length s : (String.length (c_string s) <= String.length s)%nat.
Proof. induction s as [| c s IH]; cbn; [lia |]. case_decide; cbn; lia. Qed.

Definition temp_value (path : string) (p : positive) (c : ascii) : lvalue :=
  if decide (c = "f"%char) then LString path else LUserdata p.

(** After some characters: the descriptor [fd] is not used yet, or the object
    that has it is where the request tells. *)
Definition temp_state (fd : Z) (path : string) (p : positive) (cs : list ascii) (s : mktmp) : Prop :=
  pushed s = (temp_value path p <$> cs) /\
  ((~ ("o"%char ∈ cs) /\ tmp_result s = fd /\ objects s = []) \/
   (exists i, cs !! i = Some "o"%char /\ tmp_result s = - (4 + Z.of_nat i + 1) /\
      objects s = [(p, fd)])).

Lemma pcallmktmp_char_step fd path p cs s c :
  0 <= fd -> temp_state fd path p cs s -> c = "f"%char \/ c = "o"%char ->
  temp_state fd path p (cs ++ [c]) (pcallmktmp_char path p s c).
Proof.
  intros Hfd [Hp Hs] Hc. unfold temp_state. rewrite fmap_app. cbn [fmap list_fmap].
  destruct Hc as [-> | ->]; unfold pcallmktmp_char; cbn [decide decide_rel pushed].
  - rewrite decide_True by done. cbn [pushed tmp_result objects]. rewrite Hp. split; [done |].
    destruct Hs as [(Ho & Hr & Hob) | (i & Hi & Hr & Hob)].
    + left. split_and!; try done. rewrite not_elem_of_app. split; [done |]. by intros [= ]%list_elem_of_singleton.
    + right. exists i. split_and!; try done. by apply lookup_app_l_Some.
  - rewrite decide_False, decide_True by done.
    destruct Hs as [(Ho & Hr & Hob) | (i & Hi & Hr & Hob)]; rewrite Hr.
    + rewrite (proj2 (Z.leb_le 0 fd)) by done. cbn [pushed tmp_result objects]. rewrite Hp, Hob.
      split; [done |]. right. exists (length cs). split_and!; try done.
      * by apply list_lookup_middle.
      * rewrite length_app, length_fmap. cbn. lia.
    + rewrite (proj2 (Z.leb_gt 0 _)) by lia. cbn [pushed tmp_result objects].
      replace (Z.to_nat (- - (4 + Z.of_nat i + 1) - 4 - 1)) with i by lia.
      rewrite Hp, list_lookup_fmap, Hi. cbn. split; [done |].
      right. exists i. split_and!; try done. by apply lookup_app_l_Some.
Qed.

Lemma pcallmktmp_loop_state fd path p mode cs s :
  0 <= fd -> chars_in "fo" mode = true -> temp_state fd path p cs s ->
  temp_state fd path p (cs ++ list_ascii_of_string mode) (pcallmktmp_loop path p s mode).
Proof.
  intros Hfd. revert cs s. induction mode as [| c mode IH]; intros cs s Hm Hs; cbn.
  - by rewrite app_nil_r.
  - cbn [chars_in] in Hm. apply andb_true_iff in Hm as [Hc Hm].
    apply bool_decide_eq_true in Hc. cbn [count_char] in Hc.
    rewrite cons_middle, app_assoc. apply IH; [done |]. apply pcallmktmp_char_step; [done .. |].
    repeat case_decide; subst; auto; done.
Qed.

Lemma maketemp_bits first mode bits :
  chars_in "fo" mode = true -> 0 <= bits < 2 ->
  exists b, mode_loop (maketemp_char first) bits mode = Ok b /\
    ctrue (Z.land b MKTMP_CREATEFILE) = negb (bool_decide (mode = EmptyString)).
Proof.
  intros Hm Hb.
  assert (forall bits, chars_in "fo" mode = true -> exists b, mode_loop (maketemp_char first) bits mode = Ok b /\
    ctrue (Z.land b MKTMP_CREATEFILE) = ctrue (Z.land bits MKTMP_CREATEFILE) || negb (bool_decide (mode = EmptyString)))
    as Hall.
  { clear Hm Hb bits. induction mode as [| c mode IH]; intros bits Hm.
    - exists bits. by rewrite orb_false_r.
    - cbn [chars_in mode_loop] in *. apply andb_true_iff in Hm as [Hc Hm].
      apply bool_decide_eq_true in Hc. cbn [count_char] in Hc.
      assert (exists b1, maketemp_char first bits c = Ok b1 /\ Z.testbit b1 1 = true) as (b1 & -> & H1).
      { unfold maketemp_char. repeat case_decide; subst; try done; eexists; (split; [done |]);
          rewrite Z.lor_spec; apply orb_true_r. }
      cbn [rbind]. destruct (IH b1 Hm) as (b & -> & Hbb). exists b. split; [done |].
      rewrite Hbb. change MKTMP_CREATEFILE with (2 ^ 1).
      change (Z.land b1 (2 ^ 1)) with (lcuL_maskflag b1 (2 ^ 1)).
      rewrite ctrue_maskflag_bit, H1 by done. cbn. by rewrite orb_true_r. }
  destruct (Hall bits Hm) as (b & -> & Hbb). exists b. split; [done |]. rewrite Hbb.
  assert (bits = 0 \/ bits = 1) as [-> | ->] by lia; done.
Qed.
Lemma skip_noyield_app pre body :
  chars_in "~" pre = true -> (forall r, body <> String LCU_NOYIELDMODE r) ->
  exists bits, 0 <= bits < 2 /\ skip_noyield (pre +:+ body) 0 = (body, bits).
Proof.
  intros Hp Hb.
  assert (forall bits, 0 <= bits < 2 -> exists bits', 0 <= bits' < 2 /\ skip_noyield (pre +:+ body) bits = (body, bits'))
    as Hall; [| by apply Hall].
  induction pre as [| c pre IH]; intros bits Hbits.
  - exists bits. split; [done |]. change (EmptyString +:+ body) with body.
    destruct body as [| c r]; [done |]. cbn. rewrite decide_False; [done |].
    intros ->. by apply (Hb r).
  - cbn [chars_in] in Hp. apply andb_true_iff in Hp as [Hc Hp].
    apply bool_decide_eq_true in Hc. cbn [count_char] in Hc.
    change (String c pre +:+ body) with (String c (pre +:+ body)). cbn [skip_noyield].
    case_decide; [| done]. subst. rewrite decide_True by done. apply IH; [done |].
    unfold MKTMP_NOYIELD. lia.
Qed.

(** [System.maketemp] writes its template within the buffer for every prefix
    that it does not refuse, makes a directory when the mode asks for no value,
    and else a file, and returns one value for each character of the mode; the
    descriptor of the file is given to exactly one object, the same for every
    'o', or is closed when no object is asked for. *)
Theorem maketemp_descriptor (prefix : string) (mode : option string) (pre body : string)
    (p : positive) :
  c_string (default "" mode)%string = pre +:+ body -> chars_in "~" pre = true ->
  chars_in "fo" body = true ->
  let template := c_string prefix +:+ "XXXXXX" in
  let dir := bool_decide (body = EmptyString) in
  let r := system_maketemp prefix mode p in
  if Z.of_nat (String.length prefix) <? 250 then
    match (if dir then uv_fs_mkdtemp template else uv_fs_mkstemp template) with
    | inl err => r = UvError err
    | inr (fd, path) => 0 <= fd -> r =
        Ok (Made (if dir then [LString path] else temp_value path p <$> list_ascii_of_string body)
             (if has_char body "o" then [(p, fd)] else [])
             (if dir || has_char body "o" then [] else [fd]))
    end
  else r = ArgError 1 "too long".
Proof.
  intros Hmode Hpre Hbody template dir r.
  assert (forall x, body <> String LCU_NOYIELDMODE x) as Hny by (intros x ->; by vm_compute in Hbody).
  destruct (skip_noyield_app pre body Hpre Hny) as (bits & Hbits & Hskip).
  subst r. unfold system_maketemp. rewrite Hmode, Hskip.
  change (MKTMP_TEMPLATESZ - 6) with 250.
  destruct (Z.ltb_spec (Z.of_nat (String.length prefix)) 250) as [Hlen |]; [| done].
  cbn [luaL_argcheck rbind].
  destruct (maketemp_bits (default "000"%char (String.get 0 body)) body bits Hbody Hbits)
    as (b & Hb1 & Hb2). rewrite Hb1. cbn [rbind]. rewrite Hb2. fold dir. unfold callmktmp.
  pose proof (c_string_length prefix) as Hc.
  rewrite (proj2 (Z.leb_le _ _)) by
    (unfold MKTMP_TEMPLATESZ; rewrite string_app_length; cbn [String.length]; lia).
  cbn [rbind]. fold template. subst dir. case_bool_decide as Hdir; cbn [negb].
  - subst body. cbn. by destruct (uv_fs_mkdtemp template) as [| [fd path]].
  - destruct (uv_fs_mkstemp template) as [| [fd path]]; [done |]. intros Hfd. f_equal.
    unfold returnmktmp, pcallmktmp. cbn [fst snd orb].
    destruct (pcallmktmp_loop_state fd path p body [] (Mktmp fd [] []) Hfd Hbody) as [-> Hs];
      [split; [done |]; left; split_and!; try done; apply not_elem_of_nil |].
    cbn [app] in *. rewrite bool_decide_true by done. cbn [andb].
    destruct Hs as [(Ho & -> & ->) | (i & Hi & -> & ->)].
    + rewrite (proj2 (Z.leb_le 0 fd)) by done.
      assert (has_char body "o" = false) as -> by (apply not_true_iff_false; by rewrite has_char_elem).
      done.
    + rewrite (proj2 (Z.leb_gt 0 _)) by lia.
      assert (has_char body "o" = true) as ->
        by (apply has_char_elem; by eapply list_elem_of_lookup_2). done.
Qed.

End temp.
Lemma maketemp_descriptor_witness :
  system_maketemp (fun t => inr (7, t)) (fun t => inr (0, t)) "/tmp/x" (Some "~ofo"%string) 9 =
  Ok (Made [LUserdata 9; LString "/tmp/xXXXXXX"; LUserdata 9] [(9%positive, 7)] []).
Proof.
  refine (maketemp_descriptor (fun t => inr (7, t)) (fun t => inr (0, t)) "/tmp/x"
    (Some "~ofo"%string) "~" "ofo" 9 eq_refl eq_refl eq_refl _). discriminate.
Defined.

End Temp.

(** ** Opening files *)
Module Open.

(** The flags of the host that are set in a word: those that are in a list. *)
Inductive oflag := O_APPEND | O_SYNC | O_TRUNC | O_CREAT | O_EXCL | O_CLOEXEC | O_RDONLY | O_WRONLY | O_RDWR.
#[export] Instance oflag_eq_dec : EqDecision oflag.
Proof. solve_decision. Defined.

(** [perm]: 1 for reading, 2 for writing. *)
Record open_mode := OpenMode { flags : list oflag; perm : Z; noyield : bool }.

Definition openfile_char (m : open_mode) (c : ascii) : result open_mode :=
  if decide (c = "r"%char) then Ok (OpenMode (flags m) (Z.lor (perm m) 1) (noyield m))
  else if decide (c = "w"%char) then Ok (OpenMode (flags m) (Z.lor (perm m) 2) (noyield m))
  else if decide (c = "a"%char) then
    Ok (OpenMode (O_APPEND :: flags m) (Z.lor (perm m) 2) (noyield m))
  else if decide (c = "f"%char) then
    Ok (OpenMode (O_SYNC :: flags m) (Z.lor (perm m) 2) (noyield m))
  else if decide (c = "t"%char) then
    Ok (OpenMode (O_TRUNC :: flags m) (Z.lor (perm m) 2) (noyield m))
  else if decide (c = "n"%char) then Ok (OpenMode (O_CREAT :: flags m) (perm m) (noyield m))
  else if decide (c = "N"%char) then
    Ok (OpenMode (O_CREAT :: O_EXCL :: flags m) (perm m) (noyield m))
  else if decide (c = "x"%char) then Ok (OpenMode (O_CLOEXEC :: flags m) (perm m) (noyield m))
  else if decide (c = LCU_NOYIELDMODE) then Ok (OpenMode (flags m) (perm m) true)
  else unknown_mode c.

(** What is given to [uv_fs_open]: the flags, the permissions of a file that is
    made, and whether the call suspends the coroutine.  [arg]: the third
    argument. *)
Definition system_openfile (mode : option string) (arg : string + Z) : result (list oflag * Z * bool) :=
  m <- mode_loop openfile_char (OpenMode [] 0 false) (c_string (default "r" mode)%string);;
  let flags :=
    if perm m =? 1 then O_RDONLY :: flags m
    else if perm m =? 2 then O_WRONLY :: flags m
    else if perm m =? 3 then O_RDWR :: flags m
    else flags m in
  perm <- (if bool_decide (O_CREAT ∈ flags) then checkperm 3 arg else Ok 0);;
  Ok (flags, perm, noyield m).

(** *** Properties *)

Definition open_chars : string := "rwaftnNx~".

Definition any_char (cs s : string) : bool := existsb (has_char s) (list_ascii_of_string cs).

(** The access a mode asks for. *)
Definition access (s : string) : option oflag :=
  match has_char s "r", any_char "waft" s with
  | true, true => Some O_RDWR
  | true, false => Some O_RDONLY
  | false, true => Some O_WRONLY
  | false, false => None
  end.

Definition flag_of (s : string) (f : oflag) : bool :=
  match f with
  | O_APPEND => has_char s "a"
  | O_SYNC => has_char s "f"
  | O_TRUNC => has_char s "t"
  | O_CREAT => any_char "nN" s
  | O_EXCL => has_char s "N"
  | O_CLOEXEC => has_char s "x"
  | _ => false
  end.

Lemma has_char_cons c s x : has_char (String c s) x = bool_decide (c = x) || has_char s x.
Proof.
  unfold has_char. cbn [count_char]. destruct (decide (c = x)).
  - by rewrite (bool_decide_true (c = x)), bool_decide_true by (done || lia).
  - rewrite (bool_decide_false (c = x)) by done. done.
Qed.

Lemma openfile_loop s m :
  chars_in open_chars s = true -> 0 <= perm m < 4 ->
  exists m', mode_loop openfile_char m s = Ok m' /\ 0 <= perm m' < 4 /\
    Z.testbit (perm m') 0 = Z.testbit (perm m) 0 || has_char s "r" /\
    Z.testbit (perm m') 1 = Z.testbit (perm m) 1 || any_char "waft" s /\
    noyield m' = noyield m || has_char s "~" /\
    (forall f, f ∈ flags m' <-> f ∈ flags m \/ flag_of s f = true).
Proof.
  revert m. induction s as [| c s IH]; intros m Hs Hp.
  { exists m. rewrite !orb_false_r. split_and!; try done; try lia. intros []; naive_solver. }
  cbn [chars_in mode_loop] in *. apply andb_true_iff in Hs as [Hc Hs].
  apply bool_decide_eq_true in Hc. unfold open_chars in Hc. cbn [count_char] in Hc.
  assert (forall p, 0 <= p < 4 -> 0 <= Z.lor p 1 < 4 /\ 0 <= Z.lor p 2 < 4) as Hlor.
  { intros p Hpp. assert (p = 0 \/ p = 1 \/ p = 2 \/ p = 3) as Hc4 by lia.
    destruct_or! Hc4; subst p; repeat split; by vm_compute. }
  destruct (Hlor _ Hp) as [Hp1 Hp2].
  unfold flag_of, any_char in *. cbn [existsb list_ascii_of_string] in *.
  assert (exists m1, openfile_char m c = Ok m1 /\ 0 <= perm m1 < 4 /\
    Z.testbit (perm m1) 0 = Z.testbit (perm m) 0 || bool_decide (c = "r"%char) /\
    Z.testbit (perm m1) 1 = Z.testbit (perm m) 1 || bool_decide (c = "w"%char) || bool_decide (c = "a"%char)
      || bool_decide (c = "f"%char) || bool_decide (c = "t"%char) /\
    noyield m1 = noyield m || bool_decide (c = "~"%char) /\
    (forall f, f ∈ flags m1 <-> f ∈ flags m \/ match f with
      | O_APPEND => c = "a"%char | O_SYNC => c = "f"%char | O_TRUNC => c = "t"%char
      | O_CREAT => c = "n"%char \/ c = "N"%char | O_EXCL => c = "N"%char
      | O_CLOEXEC => c = "x"%char | _ => False end))
    as (m1 & -> & Hm1 & H0 & H1 & Hn & Hf).
  { unfold openfile_char, LCU_NOYIELDMODE.
    repeat (destruct (decide (c = _)) as [-> |];
      [eexists; split; [reflexivity |]; cbn [perm noyield flags];
       rewrite ?Z.lor_spec; cbn [Z.testbit]; rewrite ?orb_true_r, ?orb_false_r;
       split_and!; [lia | lia | done | done | done |]; intros []; rewrite ?elem_of_cons; clear; intuition congruence |]).
    exfalso. apply Hc. repeat rewrite decide_False by congruence. done. }
  cbn [rbind]. destruct (IH m1 Hs Hm1) as (m2 & -> & Hm2 & H0' & H1' & Hn' & Hf').
  exists m2. rewrite !has_char_cons, H0', H1', Hn', H0, H1, Hn, !orb_false_r, !orb_assoc.
  split_and!; try done; try lia.
  - btauto.
  - intros f. rewrite Hf', Hf. destruct f; rewrite ?has_char_cons, ?orb_true_iff, ?bool_decide_eq_true; clear; intuition congruence.
Qed.
Lemma openfile_char_known m c :
  count_char c open_chars <> 0%nat -> exists m', openfile_char m c = Ok m'.
Proof.
  intros Hc. unfold openfile_char, LCU_NOYIELDMODE.
  repeat (destruct (decide (c = _)) as [-> |]; [by eexists |]).
  exfalso. apply Hc. unfold open_chars. cbn [count_char].
  by repeat rewrite decide_False by congruence.
Qed.

(** The flags a file is opened with are those of the characters of its mode,
    in any order: reading for 'r', writing for any of 'w', 'a', 'f' and 't' and
    both for both, each option once; permissions are asked for exactly when the
    mode can make a file, and an unknown character raises an error. *)
Theorem openfile_flags (mode : option string) (arg : string + Z) :
  let s := c_string (default "r" mode)%string in
  let r := system_openfile mode arg in
  if chars_in open_chars s then
    if any_char "nN" s then
      match checkperm 3 arg with
      | Ok perm => exists fs, r = Ok (fs, perm, has_char s "~") /\
          forall f, f ∈ fs <-> access s = Some f \/ flag_of s f = true
      | LuaError msg => r = LuaError msg
      | _ => False
      end
    else exists fs, r = Ok (fs, 0, has_char s "~") /\
      forall f, f ∈ fs <-> access s = Some f \/ flag_of s f = true
  else exists c, has_char open_chars c = false /\ r = unknown_mode c.
Proof.
  intros s r. subst r. unfold system_openfile. fold s.
  destruct (chars_in open_chars s) eqn:Hs.
  - destruct (openfile_loop s (OpenMode [] 0 false) Hs) as (m & -> & Hp & H0 & H1 & Hn & Hf);
      [cbn; lia |]. cbn [rbind noyield perm flags orb] in *.
    change (Z.testbit 0 0) with false in H0. change (Z.testbit 0 1) with false in H1.
    cbn [orb] in H0, H1. rewrite <- Hn.
    set (fs := if perm m =? 1 then _ else _).
    assert (forall f, f ∈ fs <-> access s = Some f \/ flag_of s f = true) as Hfs.
    { intros f. unfold access. rewrite <- H0, <- H1.
      assert (f ∈ flags m <-> flag_of s f = true) as <-
        by (rewrite Hf; split; [intros [[]%not_elem_of_nil |]; done | auto]).
      subst fs. assert (perm m = 0 \/ perm m = 1 \/ perm m = 2 \/ perm m = 3) as Hc by lia.
      destruct_or! Hc; rewrite Hc; cbn; rewrite ?elem_of_cons; naive_solver. }
    assert (bool_decide (O_CREAT ∈ fs) = any_char "nN" s) as Hcr.
    { apply eq_true_iff_eq. rewrite bool_decide_eq_true, Hfs. cbn [flag_of].
      unfold access. destruct (has_char s "r"), (any_char "waft" s); naive_solver. }
    rewrite Hcr. destruct (any_char "nN" s); cbn [rbind]; [| eauto].
    assert ((exists p, checkperm 3 arg = Ok p) \/ (exists msg, checkperm 3 arg = LuaError msg))
      as [[p ->] | [msg ->]]; [| cbn [rbind]; eauto | done].
    destruct arg as [a |]; cbn [checkperm]; [| eauto].
    generalize 0 as p0. induction (c_string a) as [| c a' IH]; intros p0; cbn [mode_loop]; [eauto |].
    unfold checkperm_char at 1 3. destruct (perm_bit c); cbn [rbind]; eauto.
  - clear -Hs. generalize (OpenMode [] 0 false) as m. induction s as [| c s IH]; intros m; [done |].
    cbn [chars_in mode_loop] in *. destruct (bool_decide _) eqn:Hc; cbn [andb] in Hs.
    + apply bool_decide_eq_true in Hc. destruct (openfile_char_known m c Hc) as [m' ->].
      cbn [rbind]. by apply IH.
    + exists c. split; [done |]. apply bool_decide_eq_false in Hc.
      assert (openfile_char m c = unknown_mode c) as ->; [| done].
      unfold openfile_char, open_chars, LCU_NOYIELDMODE in *; cbn [count_char] in Hc.
      repeat (destruct (decide (c = _)) as [-> |]; [exfalso; apply Hc; by vm_compute |]). done.
Qed.

End Open.
