(* ===== verification/FileCalls.v ===== *)
(** * The functions on files that make one call (src/src/lfilef.c)

    Each of these functions makes one call of libuv.  In the mode that does not
    yield the arguments go to the call at once; otherwise they are left in the
    stack, the setup of an operation takes them from there, and what is returned
    when the operation ends is made from the stack again. *)
From Stdlib Require Import Btauto.
From S2P Require Import Prelude Outcome LuaApi Results Buffers FileInfo Await Files.

Inductive uv_call :=
  | FsUtime (path : string) (atime mtime : Z)
  | FsLutime (path : string) (atime mtime : Z)
  | FsFutime (file : Z) (atime mtime : Z)
  | FsChown (path : string) (uid gid : Z)
  | FsLchown (path : string) (uid gid : Z)
  | FsFchown (file : Z) (uid gid : Z)
  | FsChmod (path : string) (perm : Z)
  | FsFchmod (file : Z) (perm : Z)
  | FsSymlink (path link : string) (flags : Z)
  | FsLink (path link : string)
  | FsRename (src dst : string)
  | FsCopyfile (src dst : string) (flags : Z)
  | FsRmdir (path : string)
  | FsUnlink (path : string)
  | FsMkdir (path : string) (perm : Z)
  | FsClose (file : Z)
  | FsFtruncate (file length : Z)
  | FsFdatasync (file : Z)
  | FsFsync (file : Z)
  | FsRead (file : Z) (mem : lvalue) (buf : Buf.uv_buf_t) (offset : Z)
  | FsWrite (file : Z) (data : lvalue) (buf : Buf.uv_buf_t) (offset : Z)
  | FsSendfile (file src offset length : Z).

(** The bits of [system_linkfile], [system_removefile] and [file_flush]. *)
Definition MKLNK_NOYIELD : Z := 0x01.
Definition MKLNK_SYMBOLIC : Z := 0x02.
Definition RMFILE_NOYIELD : Z := 0x01.
Definition RMFILE_DIRECTORY : Z := 0x02.
Definition FLUSH_NOYIELD : Z := 0x01.
Definition FLUSH_DATAONLY : Z := 0x02.

Definition unknown_char {A} (arg : Z) (c : ascii) : result A :=
  LuaError ("bad argument #" +:+ fmt_int arg +:+ ", unknown mode char (got '" +:+ String c "')").

Section calls.
Context {St : Type} `{!LuaStack St} `{!LuaArgs}.
(** Constants of libuv. *)
Context (UV_FS_SYMLINK_DIR UV_FS_SYMLINK_JUNCTION : Z).
Context (UV_FS_COPYFILE_EXCL UV_FS_COPYFILE_FICLONE UV_FS_COPYFILE_FICLONE_FORCE : Z).
(** [uv_gettimeofday] as a number; the descriptor in a file object; the size of a
    string or memory, and of a memory that can be written. *)
Context (now : result Z) (fileobj : lvalue -> option Z).
Context (checkarray checkmemory : lvalue -> option Z).
(** libuv: a call that waits for its result; a call with a callback when it is
    made, and its result when it is done. *)
Context (uv_sync uv_start uv_done : uv_call -> Z) (strerror : Z -> string).
Context (sched : positive) (yieldable : bool) (wait : option (list lvalue)).
Implicit Types (L : St).

Abbreviation outcome := (result (uv_call * list lvalue)).
Abbreviation setup_result := (result (uv_call * (Z * St))).

(** What [on_fileopdone] leaves in the stack of the coroutine. *)
Definition on_fileopdone L (c : uv_call) : St :=
  let result := uv_done c in
  if result <? 0 then (Results.lcuL_pusherrres strerror L result).2
  else lua_push L (LInteger result).

Definition returntrueover1 (_ : uv_call) L : result (nat * St) :=
  let top := lua_gettop L in
  if (2 <? top)%nat then Ok ((top - 1)%nat, L) else Ok (1%nat, lua_push L (LBoolean true)).

Definition resetcoreq L (setup : setup_t (Call := uv_call)) results : outcome :=
  lcuT_resetcoreqk sched yieldable on_fileopdone wait L setup results.
Definition armed (c : uv_call) L (keep : St -> St) : setup_result := arm uv_start strerror c L keep.

(** The mode that does not yield: [lcuL_pushresults(L, 0, err)]. *)
Definition called L (c : uv_call) : outcome :=
  let r := Results.lcuL_pushresults strerror L 0 (uv_sync c) in Ok (c, returned r.1 r.2).
(** ... and the functions that return the result. *)
Definition called_result L (c : uv_call) : outcome :=
  let err := uv_sync c in
  if err <? 0 then let r := Results.lcuL_pusherrres strerror L err in Ok (c, returned r.1 r.2)
  else Ok (c, returned 1 (lua_push L (LInteger err))).

Definition settop1 L : St := lua_settop L 1.

(** *** Times *)

Definition set_times (i : nat) (L : St) (mask : Z) (times : option Z * option Z) (c : ascii)
    : result (option Z * option Z) :=
  time <- checknumber L (3 + i);;
  _ <- luaL_argcheck (number_ge0 time) (Z.of_nat (3 + i)) "invalid time";;
  let badchar := unknown_char (Z.of_nat (3 + i)) c in
  if decide (c = "a"%char) then Ok (Some time, times.2)
  else if decide (c = "m"%char) then Ok (times.1, Some time)
  else if decide (c = "b"%char) then Ok (Some time, Some time)
  else if decide (c = "l"%char) then
    if negb (ctrue (Z.land mask INFO_LSTAT)) then badchar else must_begin c
  else if decide (c = LCU_NOYIELDMODE) then must_begin c
  else badchar.

Fixpoint touch_loop (i : nat) L (mask : Z) (times : option Z * option Z) (mode : string)
    : result (option Z * option Z) :=
  match mode with
  | EmptyString => Ok times
  | String c mode => times <- set_times i L mask times c;; touch_loop (S i) L mask times mode
  end.

(** The bits and the two times; those that are not given are -1 in the code, and
    the others are not negative. *)
Definition checktouchargs L (a : nat) (bits : Z) : result (Z * (Z * Z)) :=
  let mask := bits in
  mode <- checkstring L a;;
  let '(mode, bits) := checkprefixflags mode bits in
  times <- touch_loop 0 L mask (None, None) mode;;
  match times with
  | (Some atime, Some mtime) => Ok (bits, (atime, mtime))
  | (atime, mtime) => time <- now;; Ok (bits, (default time atime, default time mtime))
  end.

Definition callutime (bits : Z) (path : string) (atime mtime : Z) : uv_call :=
  if ctrue (Z.land bits INFO_LSTAT) then FsLutime path atime mtime else FsUtime path atime mtime.

Definition tonumber L i : Z := default 0 (lua_tonumberx (arg L i)).

Definition k_setupfiletouch L : setup_result :=
  path <- checkstring L 1;;
  let bits := int (tointeger L 2) in
  armed (callutime bits path (tonumber L 3) (tonumber L 4)) L settop1.

Definition system_touchfile L : outcome :=
  r <- checktouchargs L 2 INFO_LSTAT;;
  let '(bits, (atime, mtime)) := r in
  if ctrue (Z.land bits INFO_NOYIELD) then
    path <- checkstring L 1;; called L (callutime bits path atime mtime)
  else
    let L := lua_settop L 1 in
    let L := lua_push L (LInteger bits) in
    let L := lua_push L (LNumber atime) in
    let L := lua_push L (LNumber mtime) in
    resetcoreq L k_setupfiletouch (Some returntrueover1).

(** *** Owners and permissions *)

Definition callchown (bits : Z) (path : string) (uid gid : Z) : uv_call :=
  if ctrue (Z.land bits INFO_LSTAT) then FsLchown path uid gid else FsChown path uid gid.
(** [uv_uid_t] and [uv_gid_t] are unsigned. *)
Abbreviation unsigned := (wrapu 32).

Definition k_setupfileown L : setup_result :=
  path <- checkstring L 1;; uid <- checkinteger L 2;; gid <- checkinteger L 3;;
  armed (callchown (int (tointeger L 4)) path (unsigned uid) (unsigned gid)) L settop1.

Definition system_ownfile L : outcome :=
  mode <- optstring L 4 "";;
  let '(mode, bits) := checkprefixflags mode INFO_LSTAT in
  match mode with
  | String c _ => unknown_char 4 c
  | EmptyString =>
      if ctrue (Z.land bits INFO_NOYIELD) then
        path <- checkstring L 1;; uid <- checkinteger L 2;; gid <- checkinteger L 3;;
        called L (callchown bits path (unsigned uid) (unsigned gid))
      else
        let L := lua_settop L 3 in
        let L := lua_push L (LInteger bits) in
        resetcoreq L k_setupfileown (Some returntrueover1)
  end.

(** [checkperm] of an argument. *)
Definition argperm L (i : nat) : result Z :=
  match arg L i with
  | LString mode => checkperm (Z.of_nat i) (inl mode)
  | _ => perm <- checkinteger L i;; checkperm (Z.of_nat i) (inr perm)
  end.

Definition k_setupfilegrant L : setup_result :=
  path <- checkstring L 1;; armed (FsChmod path (int (tointeger L 2))) L settop1.

Definition system_grantfile L : outcome :=
  perm <- argperm L 2;; noyield <- lcuL_checknoyieldmode L 3;;
  if ctrue noyield then path <- checkstring L 1;; called L (FsChmod path perm)
  else
    let L := lua_settop L 1 in
    let L := lua_push L (LInteger perm) in
    resetcoreq L k_setupfilegrant (Some returntrueover1).

(** *** Names *)

Definition linkfile_char (s : Z * Z) (c : ascii) : result (Z * Z) :=
  let '(bits, flags) := s in
  if decide (c = "d"%char) then Ok (Z.lor bits MKLNK_SYMBOLIC, Z.lor flags UV_FS_SYMLINK_DIR)
  else if decide (c = "j"%char) then Ok (Z.lor bits MKLNK_SYMBOLIC, Z.lor flags UV_FS_SYMLINK_JUNCTION)
  else if decide (c = "s"%char) then Ok (Z.lor bits MKLNK_SYMBOLIC, flags)
  else if decide (c = LCU_NOYIELDMODE) then Ok (Z.lor bits MKLNK_NOYIELD, flags)
  else unknown_char 3 c.

Definition callmklnk (symbolic : bool) (path link : string) (flags : Z) : uv_call :=
  if symbolic then FsSymlink path link flags else FsLink path link.

(** [lua_isinteger(L, 3)] tells whether the link is symbolic. *)
Definition k_setupmklnk L : setup_result :=
  path <- checkstring L 1;; link <- checkstring L 2;;
  let flags := from_option number_int 0 (lua_tonumberx (arg L 3)) in
  armed (callmklnk (match arg L 3 with LInteger _ => true | _ => false end) path link flags) L settop1.

Definition system_linkfile L : outcome :=
  mode <- optstring L 3 "";;
  s <- mode_loop linkfile_char (0, 0) mode;;
  let '(bits, flags) := s in
  if ctrue (Z.land bits MKLNK_NOYIELD) then
    path <- checkstring L 1;; link <- checkstring L 2;;
    called L (callmklnk (ctrue (Z.land bits MKLNK_SYMBOLIC)) path link flags)
  else
    let L := lua_settop L 2 in
    let L := lua_push L (if ctrue (Z.land bits MKLNK_SYMBOLIC) then LInteger flags else LNil) in
    resetcoreq L k_setupmklnk (Some returntrueover1).

Definition k_setupmvfile L : setup_result :=
  src <- checkstring L 1;; dst <- checkstring L 2;; armed (FsRename src dst) L settop1.

Definition system_movefile L : outcome :=
  noyield <- lcuL_checknoyieldmode L 3;;
  if ctrue noyield then
    src <- checkstring L 1;; dst <- checkstring L 2;; called L (FsRename src dst)
  else resetcoreq L k_setupmvfile (Some returntrueover1).

Definition copyfile_char (s : bool * Z) (c : ascii) : result (bool * Z) :=
  let '(noyield, flags) := s in
  if decide (c = "n"%char) then Ok (noyield, Z.lor flags UV_FS_COPYFILE_EXCL)
  else if decide (c = "c"%char) then Ok (noyield, Z.lor flags UV_FS_COPYFILE_FICLONE)
  else if decide (c = "C"%char) then Ok (noyield, Z.lor flags UV_FS_COPYFILE_FICLONE_FORCE)
  else if decide (c = LCU_NOYIELDMODE) then Ok (true, flags)
  else unknown_char 3 c.

Definition k_setupcpfile L : setup_result :=
  src <- checkstring L 1;; dst <- checkstring L 2;;
  armed (FsCopyfile src dst (int (tointeger L 3))) L settop1.

Definition system_copyfile L : outcome :=
  mode <- optstring L 3 "";;
  s <- mode_loop copyfile_char (false, 0) mode;;
  let '(noyield, flags) := s in
  if noyield : bool then
    src <- checkstring L 1;; dst <- checkstring L 2;; called L (FsCopyfile src dst flags)
  else
    let L := lua_settop L 2 in
    let L := lua_push L (LInteger flags) in
    resetcoreq L k_setupcpfile (Some returntrueover1).

Definition rmfile_char (bits : Z) (c : ascii) : result Z :=
  if decide (c = "d"%char) then Ok (Z.lor bits RMFILE_DIRECTORY)
  else if decide (c = LCU_NOYIELDMODE) then Ok (Z.lor bits RMFILE_NOYIELD)
  else unknown_char 2 c.

Definition callrmfile (directory : bool) (path : string) : uv_call :=
  if directory then FsRmdir path else FsUnlink path.

Definition k_setuprmfile L : setup_result :=
  path <- checkstring L 1;; armed (callrmfile (lua_toboolean L 2) path) L settop1.

Definition system_removefile L : outcome :=
  mode <- optstring L 2 "";;
  bits <- mode_loop rmfile_char 0 mode;;
  if ctrue (Z.land bits RMFILE_NOYIELD) then
    path <- checkstring L 1;; called L (callrmfile (ctrue (Z.land bits RMFILE_DIRECTORY)) path)
  else
    let L := lua_settop L 1 in
    let L := lua_push L (LBoolean (ctrue (Z.land bits RMFILE_DIRECTORY))) in
    resetcoreq L k_setuprmfile (Some returntrueover1).

Definition k_setupmkdir L : setup_result :=
  path <- checkstring L 1;; perm <- argperm L 2;; armed (FsMkdir path perm) L settop1.

Definition system_makedir L : outcome :=
  noyield <- lcuL_checknoyieldmode L 3;;
  if ctrue noyield then
    path <- checkstring L 1;; perm <- argperm L 2;; called L (FsMkdir path perm)
  else resetcoreq L k_setupmkdir (Some returntrueover1).

(** *** File objects *)

(** [tosched] takes the first argument for a userdata before anything checks it. *)
Definition tosched L : result unit :=
  match arg L 1 with LUserdata _ => Ok tt | _ => Overrun end.

Definition openedfile L : result Z :=
  match fileobj (arg L 1) with
  | Some file => _ <- luaL_argcheck (0 <=? file) 1 "closed file";; Ok file
  | None => ArgError 1 "coutil:file expected"
  end.

(** The field of the object is set too; see [FileObject]. *)
Definition k_setupclosef L : setup_result :=
  file <- openedfile L;; armed (FsClose file) L settop1.

Definition file_close L : outcome :=
  _ <- tosched L;; noyield <- lcuL_checknoyieldmode L 2;;
  if ctrue noyield then
    file <- openedfile L;;
    let err := uv_sync (FsClose file) in
    if err <? 0 then
      let r := Results.lcuL_pusherrres strerror L err in Ok (FsClose file, returned r.1 r.2)
    else Ok (FsClose file, returned 1 (lua_push L (LBoolean true)))
  else resetcoreq L k_setupclosef (Some returntrueover1).

(** The part of a memory, with the positions that follow it. *)
Definition getbuf (check : lvalue -> option Z) L (i : nat) : result Buf.uv_buf_t :=
  match check (arg L i) with
  | None => ArgError (Z.of_nat i) "memory expected"
  | Some sz =>
      start <- optinteger L (i + 1) 1;; stop <- optinteger L (i + 2) (-1);;
      Ok (Buf.setupbuf (Some start) (Some stop) sz)
  end.

Definition callread L (file : Z) : result uv_call :=
  offset <- optinteger L 5 (-1);;
  buf <- getbuf checkmemory L 2;;
  Ok (FsRead file (arg L 2) buf offset).

Definition k_setupreadfile L : setup_result :=
  file <- openedfile L;; c <- callread L file;; armed c L id.

Definition file_read L : outcome :=
  _ <- tosched L;; noyield <- lcuL_checknoyieldmode L 6;;
  if ctrue noyield then file <- openedfile L;; c <- callread L file;; called_result L c
  else resetcoreq L k_setupreadfile None.

(** The source of [uv_fs_sendfile] may be a file object that is closed. *)
Definition callwrite L (file : Z) : result uv_call :=
  match fileobj (arg L 2) with
  | Some srcf =>
      i <- checkinteger L 3;; j <- checkinteger L 4;;
      let offset := i - 1 in
      let length := j - offset in
      _ <- luaL_argcheck (0 <? length) 4 "invalid range";;
      Ok (FsSendfile file srcf offset length)
  | None =>
      offset <- optinteger L 5 (-1);;
      buf <- getbuf checkarray L 2;;
      Ok (FsWrite file (arg L 2) buf offset)
  end.

Definition k_setupwritefile L : setup_result :=
  file <- openedfile L;; c <- callwrite L file;; armed c L id.

Definition file_write L : outcome :=
  _ <- tosched L;; noyield <- lcuL_checknoyieldmode L 6;;
  if ctrue noyield then file <- openedfile L;; c <- callwrite L file;; called_result L c
  else resetcoreq L k_setupwritefile None.

Definition k_setupfresize L : setup_result :=
  file <- openedfile L;; length <- checkinteger L 2;; armed (FsFtruncate file length) L settop1.

Definition file_resize L : outcome :=
  _ <- tosched L;; noyield <- lcuL_checknoyieldmode L 3;;
  if ctrue noyield then
    file <- openedfile L;; length <- checkinteger L 2;; called L (FsFtruncate file length)
  else resetcoreq L k_setupfresize (Some returntrueover1).

(** The error names argument 3. *)
Definition flush_char (bits : Z) (c : ascii) : result Z :=
  if decide (c = "d"%char) then Ok (Z.lor bits FLUSH_DATAONLY)
  else if decide (c = LCU_NOYIELDMODE) then Ok (Z.lor bits FLUSH_NOYIELD)
  else unknown_char 3 c.

Definition callfsync (dataonly : bool) (file : Z) : uv_call :=
  if dataonly then FsFdatasync file else FsFsync file.

Definition k_setupfobjflush L : setup_result :=
  file <- openedfile L;; armed (callfsync (lua_toboolean L 2) file) L settop1.

Definition file_flush L : outcome :=
  _ <- tosched L;; mode <- optstring L 2 "";;
  bits <- mode_loop flush_char 0 mode;;
  if ctrue (Z.land bits FLUSH_NOYIELD) then
    file <- openedfile L;; called L (callfsync (ctrue (Z.land bits FLUSH_DATAONLY)) file)
  else
    let L := lua_settop L 1 in
    let L := lua_push L (LBoolean (ctrue (Z.land bits FLUSH_DATAONLY))) in
    resetcoreq L k_setupfobjflush (Some returntrueover1).

Definition k_setupfobjtouch L : setup_result :=
  file <- openedfile L;; armed (FsFutime file (tonumber L 2) (tonumber L 3)) L settop1.

Definition file_touch L : outcome :=
  _ <- tosched L;; r <- checktouchargs L 2 0;;
  let '(bits, (atime, mtime)) := r in
  if ctrue (Z.land bits INFO_NOYIELD) then
    file <- openedfile L;; called L (FsFutime file atime mtime)
  else
    let L := lua_settop L 1 in
    let L := lua_push L (LNumber atime) in
    let L := lua_push L (LNumber mtime) in
    resetcoreq L k_setupfobjtouch (Some returntrueover1).

Definition k_setupfobjown L : setup_result :=
  file <- openedfile L;; uid <- checkinteger L 2;; gid <- checkinteger L 3;;
  armed (FsFchown file (unsigned uid) (unsigned gid)) L settop1.

Definition file_own L : outcome :=
  _ <- tosched L;; noyield <- lcuL_checknoyieldmode L 4;;
  if ctrue noyield then
    file <- openedfile L;; uid <- checkinteger L 2;; gid <- checkinteger L 3;;
    called L (FsFchown file (unsigned uid) (unsigned gid))
  else resetcoreq L k_setupfobjown (Some returntrueover1).

Definition k_setupfobjgrant L : setup_result :=
  file <- openedfile L;; armed (FsFchmod file (int (tointeger L 2))) L settop1.

Definition file_grant L : outcome :=
  _ <- tosched L;; perm <- argperm L 2;; noyield <- lcuL_checknoyieldmode L 3;;
  if ctrue noyield then file <- openedfile L;; called L (FsFchmod file perm)
  else
    let L := lua_settop L 1 in
    let L := lua_push L (LInteger perm) in
    resetcoreq L k_setupfobjgrant (Some returntrueover1).

(** The functions of the module and the methods of file objects, and the place of
    the mode among their arguments. *)
Definition functions : list (string * (nat * (St -> outcome))) := [
  ("touchfile"%string, (2%nat, system_touchfile)); ("ownfile"%string, (4%nat, system_ownfile));
  ("grantfile"%string, (3%nat, system_grantfile)); ("linkfile"%string, (3%nat, system_linkfile));
  ("movefile"%string, (3%nat, system_movefile)); ("copyfile"%string, (3%nat, system_copyfile));
  ("removefile"%string, (2%nat, system_removefile)); ("makedir"%string, (3%nat, system_makedir));
  ("file:close"%string, (2%nat, file_close)); ("file:read"%string, (6%nat, file_read));
  ("file:write"%string, (6%nat, file_write)); ("file:resize"%string, (3%nat, file_resize));
  ("file:flush"%string, (2%nat, file_flush)); ("file:touch"%string, (2%nat, file_touch));
  ("file:own"%string, (4%nat, file_own)); ("file:grant"%string, (3%nat, file_grant)) ].
End calls.


(** *** file:info *)
Section info.
Context {St : Type} `{!LuaStack St} `{!LuaArgs} (ntime2sec : Z * Z -> Z).
Context (fileobj : lvalue -> option Z).
(** [uv_fs_fstat]: the error when it is called and the request when it is done; the
    address of the mode and of the request. *)
Context (uv_fs_fstat : bool -> Z -> Z * uv_fs_t) (strerror : Z -> string).
Context (sched modeptr filereq : positive) (yieldable : bool) (wait : option (list lvalue)).
Implicit Types (L : St).

(** What is pushed for a mode. *)
Definition push_stats L (req : uv_fs_t) (mode : string) : St :=
  fold_left (fun L c => match pushfilestat ntime2sec c (fs_stat req) with Some v => lua_push L v | None => L end)
    (list_ascii_of_string mode) L.

(** The mode is the light userdata in the third place. *)
Definition returnfobjinfo (mode : string) (req : uv_fs_t) L : result (nat * St) :=
  let L := lua_pop L 1 in
  if 0 <=? fs_result req then
    if decide (arg L 3 = LLightUserdata (Some modeptr)) then
      let L := push_stats L req mode in Ok ((lua_gettop L - 3)%nat, L)
    else Overrun
  else UvError (fs_result req).

Definition k_setupfobjinfo L : result (uv_fs_t * (Z * St)) :=
  file <- openedfile fileobj L;;
  let '(err, req) := uv_fs_fstat true file in
  if err <? 0 then UvError err else Ok (req, (-1, L)).

Definition on_fileinfo L (_ : uv_fs_t) : St := lua_push L (LLightUserdata (Some filereq)).

Definition file_info L : result (list lvalue) :=
  _ <- tosched L;;
  mode <- checkstring L 2;;
  r <- checkinfomode mode INFO_STAT;;
  let '(mode, bits) := r in
  let L := lua_settop L 2 in  (* in [checkinfomode] *)
  if ctrue (Z.land bits INFO_NOYIELD) then
    file <- openedfile fileobj L;;
    let '(err, req) := uv_fs_fstat false file in
    if err <? 0 then UvError err
    else let L := push_stats L req mode in Ok (returned (lua_gettop L - 2) L)
  else
    let L := lua_push L (LLightUserdata (Some modeptr)) in
    r <- lcuT_resetcoreqk sched yieldable on_fileinfo wait L k_setupfobjinfo
           (Some (returnfobjinfo mode));;
    Ok r.2.
End info.
(** ** What the functions promise

    The call that the arguments ask for, whether the function yields or not, in
    terms of the characters of the mode; and the values that are returned. *)
Section specification.
Context {St : Type} `{!LuaStack St} `{!LuaArgs}.
Context (DIR JUNCTION EXCL FICLONE FICLONE_FORCE : Z).
Context (now : result Z) (fileobj checkarray checkmemory : lvalue -> option Z).
Implicit Types (L : St).

Fixpoint bad_char (known mode : string) : option ascii :=
  match mode with
  | EmptyString => None
  | String c mode => if has_char known c then bad_char known mode else Some c
  end.
Definition mode_chars (i : Z) (known mode : string) : result unit :=
  match bad_char known mode with Some c => unknown_char i c | None => Ok tt end.
Definition flag_if (b : bool) (flag : Z) : Z := if b then flag else 0.

(** The times that are given, each with its character. *)
Fixpoint given_times (i : nat) L (mask : Z) (mode : string) : result (list (ascii * Z)) :=
  match mode with
  | EmptyString => Ok []
  | String c mode =>
      time <- checknumber L (3 + i);;
      _ <- luaL_argcheck (number_ge0 time) (Z.of_nat (3 + i)) "invalid time";;
      _ <- (if has_char "amb" c then Ok tt
            else if (has_char "l" c && ctrue (Z.land mask INFO_LSTAT)) || has_char "~" c then must_begin c
            else unknown_char (Z.of_nat (3 + i)) c);;
      times <- given_times (S i) L mask mode;;
      Ok ((c, time) :: times)
  end.
Definition last_time (chars : string) (times : list (ascii * Z)) : option Z :=
  snd <$> last (filter (fun t => has_char chars t.1 = true) times).

(** The options in front of the mode, the access and the modification times. *)
Definition touch_args L (mask : Z) : result (bool * (Z * Z)) :=
  mode <- checkstring L 2;;
  let '(body, bits) := checkprefixflags mode mask in
  times <- given_times 0 L mask body;;
  let atime := last_time "ab" times in
  let mtime := last_time "mb" times in
  now <- (if decide (is_Some atime /\ is_Some mtime) then Ok 0 else now);;
  Ok (ctrue (Z.land bits INFO_LSTAT), (default now atime, default now mtime)).

Definition no_mode L (i : nat) : result unit :=
  mode <- optstring L i "";;
  match bad_char "~" mode with Some c => unknown_mode c | None => Ok tt end.

Definition touchfile_call L : result uv_call :=
  r <- touch_args L INFO_LSTAT;; path <- checkstring L 1;;
  Ok ((if r.1 : bool then FsLutime else FsUtime) path r.2.1 r.2.2).
Definition ownfile_call L : result uv_call :=
  mode <- optstring L 4 "";; _ <- mode_chars 4 "l~" mode;;
  path <- checkstring L 1;; uid <- checkinteger L 2;; gid <- checkinteger L 3;;
  Ok ((if has_char mode "l" then FsLchown else FsChown) path (uid mod 2 ^ 32) (gid mod 2 ^ 32)).
Definition grantfile_call L : result uv_call :=
  perm <- argperm L 2;; _ <- no_mode L 3;; path <- checkstring L 1;; Ok (FsChmod path perm).
Definition linkfile_call L : result uv_call :=
  mode <- optstring L 3 "";; _ <- mode_chars 3 "djs~" mode;;
  path <- checkstring L 1;; link <- checkstring L 2;;
  Ok (if has_char mode "d" || has_char mode "j" || has_char mode "s"
      then FsSymlink path link (Z.lor (flag_if (has_char mode "d") DIR) (flag_if (has_char mode "j") JUNCTION))
      else FsLink path link).
Definition movefile_call L : result uv_call :=
  _ <- no_mode L 3;; src <- checkstring L 1;; dst <- checkstring L 2;; Ok (FsRename src dst).
Definition copyfile_call L : result uv_call :=
  mode <- optstring L 3 "";; _ <- mode_chars 3 "ncC~" mode;;
  src <- checkstring L 1;; dst <- checkstring L 2;;
  Ok (FsCopyfile src dst
        (Z.lor (flag_if (has_char mode "n") EXCL)
           (Z.lor (flag_if (has_char mode "c") FICLONE) (flag_if (has_char mode "C") FICLONE_FORCE)))).
Definition removefile_call L : result uv_call :=
  mode <- optstring L 2 "";; _ <- mode_chars 2 "d~" mode;; path <- checkstring L 1;;
  Ok ((if has_char mode "d" then FsRmdir else FsUnlink) path).
Definition makedir_call L : result uv_call :=
  _ <- no_mode L 3;; path <- checkstring L 1;; perm <- argperm L 2;; Ok (FsMkdir path perm).

(** The methods of file objects; the first argument must be a userdata, or what
    they do is undefined. *)
Definition method L (call : Z -> result uv_call) (check : result unit) : result uv_call :=
  _ <- tosched L;; _ <- check;; file <- openedfile fileobj L;; call file.
Definition close_call L := method L (fun file => Ok (FsClose file)) (no_mode L 2).
Definition read_call L := method L (callread checkmemory L) (no_mode L 6).
Definition write_call L := method L (callwrite fileobj checkarray L) (no_mode L 6).
Definition resize_call L :=
  method L (fun file => length <- checkinteger L 2;; Ok (FsFtruncate file length)) (no_mode L 3).
Definition flush_call L : result uv_call :=
  _ <- tosched L;; mode <- optstring L 2 "";; _ <- mode_chars 3 "d~" mode;;
  file <- openedfile fileobj L;; Ok ((if has_char mode "d" then FsFdatasync else FsFsync) file).
Definition touch_call L : result uv_call :=
  _ <- tosched L;; r <- touch_args L 0;; file <- openedfile fileobj L;;
  Ok (FsFutime file r.2.1 r.2.2).
Definition own_call L :=
  method L (fun file => uid <- checkinteger L 2;; gid <- checkinteger L 3;;
                        Ok (FsFchown file (uid mod 2 ^ 32) (gid mod 2 ^ 32))) (no_mode L 4).
Definition grant_call L : result uv_call :=
  _ <- tosched L;; perm <- argperm L 2;; _ <- no_mode L 3;; file <- openedfile fileobj L;;
  Ok (FsFchmod file perm).

Definition calls : list (St -> result uv_call) :=
  [ touchfile_call; ownfile_call; grantfile_call; linkfile_call; movefile_call; copyfile_call;
    removefile_call; makedir_call; close_call; read_call; write_call; resize_call; flush_call;
    touch_call; own_call; grant_call ].
End specification.

Section answers.
Context (uv_start uv_done : uv_call -> Z) (strerror : Z -> string).

(** What libuv answers to a call that is made with a callback. *)
Definition answer (c : uv_call) : Z := if uv_start c <? 0 then uv_start c else uv_done c.

Definition transfers (c : uv_call) : bool :=
  match c with FsRead _ _ _ _ | FsWrite _ _ _ _ | FsSendfile _ _ _ _ => true | _ => false end.
Definition answer_values (c : uv_call) : list lvalue :=
  let r := answer c in
  if r <? 0 then [LBoolean false; LString (strerror r); LInteger (- r)]
  else [if transfers c then LInteger r else LBoolean true].
End answers.

(** An [int] that is not negative. *)
Definition small (z : Z) : Prop := 0 <= z < 2 ^ 31.

Lemma lor_small x y : small x -> small y -> small (Z.lor x y).
Proof.
  unfold small. intros [Hx Hx'] [Hy Hy']. split; [by apply Z.lor_nonneg |].
  destruct (Z.eq_dec (Z.lor x y) 0) as [-> | Hne]; [lia |].
  assert (0 <= Z.lor x y) by by apply Z.lor_nonneg.
  apply Z.log2_lt_pow2; [lia |]. rewrite Z.log2_lor by done.
  destruct (Z.eq_dec x 0) as [-> |], (Z.eq_dec y 0) as [-> |]; try (cbn; lia);
    apply Z.max_lub_lt; try (cbn; lia); apply Z.log2_lt_pow2; lia.
Qed.

Lemma flag_small (b : bool) z : small z -> small (if b then z else 0).
Proof. by destruct b. Qed.

Lemma int_small z : small z -> int z = z.
Proof. intros [? ?]. apply wraps_id; [lia |]. cbn in *. lia. Qed.

(** ** Properties *)
Section properties.
Context {St : Type} `{!LuaStack St} `{!LuaArgs}.
Context (DIR JUNCTION EXCL FICLONE FICLONE_FORCE : Z).
Context (now : result Z) (fileobj checkarray checkmemory : lvalue -> option Z).
Context (uv_sync uv_start uv_done : uv_call -> Z) (strerror : Z -> string).
Context (sched : positive) (wait : option (list lvalue)).
Implicit Types (L : St).

Context (flags_small : small DIR /\ small JUNCTION /\ small EXCL /\ small FICLONE /\ small FICLONE_FORCE).

(** The values that a call gives in the two modes. *)
Lemma called_values (below : list lvalue) L c :
  values L = below ->
  called uv_sync strerror L c =
    Ok (c, if uv_sync c <? 0
           then [LBoolean false; LString (strerror (uv_sync c)); LInteger (- uv_sync c)]
           else [LBoolean true]).
Proof.
  intros HL. unfold called, Results.lcuL_pushresults. destruct (uv_sync c <? 0); cbn [fst snd].
  - rewrite (returned_app _ below) with (vs := [LBoolean false; LString (strerror (uv_sync c)); LInteger (- uv_sync c)]);
      [done | | done].
    unfold Results.lcuL_pusherrres, Results.lcu_pusherror. cbn [fst snd].
    rewrite !values_push, (values_pop L below []), <- !app_assoc; [done | by rewrite app_nil_r | done].
  - cbn [Nat.eqb fst snd]. rewrite (returned_app _ below) with (vs := [LBoolean true]); [done | | done].
    by rewrite values_push, HL.
Qed.

(** What a function waits for is in its result. *)
Lemma resetcoreq_answer L (setup : setup_t) (check : result uv_call) :
  (forall c, check = Ok c -> (1 <= lua_gettop L)%nat) ->
  (forall L', values L' = values L -> setup L' = (c <- check;; armed uv_start strerror c L' settop1)) ->
  (forall c, check = Ok c -> transfers c = false) ->
  resetcoreq uv_done strerror sched true wait L setup (Some returntrueover1)
  = (c <- check;; Ok (c, answer_values uv_start uv_done strerror c)).
Proof.
  intros Htop Hs Ht. unfold resetcoreq, lcuT_resetcoreqk.
  set (L1 := match wait with Some _ => _ | None => L end).
  assert (values L1 = values L) as HL1 by (unfold L1; destruct wait; [apply values_after_previous | done]).
  rewrite (Hs L1 HL1). destruct check as [c | | | | |]; cbn [rbind]; try done.
  try specialize (Htop c eq_refl). unfold answer_values, answer. rewrite (Ht c eq_refl).
  unfold armed, arm. destruct (Z.ltb_spec (uv_start c) 0) as [Hneg | Hpos]; cbn [rbind].
  - rewrite (proj2 (Z.ltb_lt _ _) Hneg), startedopk_returns by done.
    do 2 f_equal. apply (returned_app _ (values L)); [| done].
    unfold Results.lcuL_pusherrres, Results.lcu_pusherror. cbn [fst snd].
    rewrite !values_push, HL1, <- !app_assoc. done.
  - rewrite startedopk_waits. cbv zeta. set (L2 := lua_remove _ _).
    assert (exists v, values (settop1 L1) = [v]) as [v Hv].
    { unfold settop1. rewrite values_settop, HL1. unfold lua_gettop in Htop.
      destruct (values L) as [| v l]; cbn in Htop; [lia |]. exists v. by destruct l. }
    assert (forall vs, (forall L', values (on_fileopdone uv_done strerror L' c) = values L' ++ vs) ->
              values L2 = v :: vs) as HL2.
    { intros vs Hvs. change (v :: vs) with ([v] ++ vs). rewrite <- Hv. by apply values_without_sched. }
    unfold returntrueover1, on_fileopdone in *. destruct (uv_done c <? 0).
    + assert (values L2 = v :: [LBoolean false; LString (strerror (uv_done c)); LInteger (- uv_done c)]) as E.
      { apply HL2. intros L'. unfold Results.lcuL_pusherrres, Results.lcu_pusherror. cbn [fst snd].
        by rewrite !values_push, <- !app_assoc. }
      unfold lua_gettop. rewrite E. cbn [length Nat.ltb Nat.leb fst snd Nat.sub rbind].
      do 2 f_equal. by apply (returned_app _ [v]).
    + assert (values L2 = v :: [LInteger (uv_done c)]) as E.
      { apply HL2. intros L'. by rewrite values_push. }
      unfold lua_gettop. rewrite E. cbn [length Nat.ltb Nat.leb fst snd rbind].
      do 2 f_equal. apply (returned_app _ [v; LInteger (uv_done c)]); [| done].
      by rewrite values_push, E.
Qed.

Lemma resetcoreq_transfer L (setup : setup_t) (check : result uv_call) :
  (forall L', values L' = values L -> setup L' = (c <- check;; armed uv_start strerror c L' id)) ->
  (forall c, check = Ok c -> transfers c = true) ->
  resetcoreq uv_done strerror sched true wait L setup None
  = (c <- check;; Ok (c, answer_values uv_start uv_done strerror c)).
Proof.
  intros Hs Ht. unfold resetcoreq, lcuT_resetcoreqk.
  set (L1 := match wait with Some _ => _ | None => L end).
  assert (values L1 = values L) as HL1 by (unfold L1; destruct wait; [apply values_after_previous | done]).
  rewrite (Hs L1 HL1). destruct check as [c | | | | |]; cbn [rbind]; try done.
  try specialize (Htop c eq_refl). unfold answer_values, answer. rewrite (Ht c eq_refl).
  unfold armed, arm. destruct (Z.ltb_spec (uv_start c) 0) as [Hneg | Hpos]; cbn [rbind].
  - rewrite (proj2 (Z.ltb_lt _ _) Hneg), startedopk_returns by done.
    do 2 f_equal. apply (returned_app _ (values L)); [| done].
    unfold Results.lcuL_pusherrres, Results.lcu_pusherror. cbn [fst snd].
    rewrite !values_push, HL1, <- !app_assoc. done.
  - rewrite startedopk_waits. cbv zeta. unfold id. set (L2 := lua_remove _ _).
    set (vs := if uv_done c <? 0 then _ else _).
    assert (values L2 = values L1 ++ vs) as E.
    { apply values_without_sched. intros L'. unfold on_fileopdone, vs. destruct (uv_done c <? 0);
        [| by rewrite values_push].
      unfold Results.lcuL_pusherrres, Results.lcu_pusherror. cbn [fst snd].
      by rewrite !values_push, <- !app_assoc. }
    do 2 f_equal. apply (returned_app _ (values L1)); [done |].
    unfold lua_gettop. rewrite E, values_push, !length_app. cbn [length]. lia.
Qed.

(** The two modes of libuv give the same answers. *)
Context (sync_answers : forall c, uv_sync c = answer uv_start uv_done c).

Lemma called_answer L c :
  transfers c = false -> called uv_sync strerror L c = Ok (c, answer_values uv_start uv_done strerror c).
Proof using sync_answers.
  intros Ht. rewrite (called_values _ L c eq_refl). unfold answer_values. by rewrite Ht, sync_answers.
Qed.

Lemma called_result_answer L c :
  transfers c = true -> called_result uv_sync strerror L c = Ok (c, answer_values uv_start uv_done strerror c).
Proof using sync_answers.
  intros Ht. unfold called_result, answer_values. rewrite Ht, sync_answers.
  destruct (answer uv_start uv_done c <? 0); do 2 f_equal; apply (returned_app _ (values L)); try done.
  - unfold Results.lcuL_pusherrres, Results.lcu_pusherror. cbn [fst snd].
    by rewrite !values_push, <- !app_assoc.
  - by rewrite values_push.
Qed.

End properties.

(** *** The loops over the characters of a mode *)
Section loops.

Lemma has_char_nil c : has_char "" c = false.
Proof. done. Qed.

Lemma ctrue_lor a b f : ctrue (Z.land (Z.lor a b) f) = ctrue (Z.land a f) || ctrue (Z.land b f).
Proof.
  rewrite Z.land_lor_distr_l. unfold ctrue.
  destruct (Z.eqb_spec (Z.land a f) 0) as [-> | Ha], (Z.eqb_spec (Z.land b f) 0) as [-> | Hb]; cbn [orb negb].
  - by rewrite (proj2 (Z.lor_eq_0_iff 0 0)).
  - apply negb_true_iff, Z.eqb_neq. rewrite Z.lor_eq_0_iff. naive_solver.
  - apply negb_true_iff, Z.eqb_neq. rewrite Z.lor_eq_0_iff. naive_solver.
  - apply negb_true_iff, Z.eqb_neq. rewrite Z.lor_eq_0_iff. naive_solver.
Qed.

Lemma bad_char_cons known c mode :
  bad_char known (String c mode) = if has_char known c then bad_char known mode else Some c.
Proof. done. Qed.

(** [c] is one of the characters that the goal compares it with, or none. *)
Ltac one_char c :=
  repeat match goal with
  | |- context [decide (c = ?x)] => destruct (decide (c = x)) as [-> |]
  end.
Ltac eval_bits :=
  repeat match goal with
  | |- context [ctrue (Z.land ?a ?b)] =>
      let v := eval vm_compute in (ctrue (Z.land a b)) in
      lazymatch v with
      | true => change (ctrue (Z.land a b)) with true
      | false => change (ctrue (Z.land a b)) with false
      end
  | |- context [has_char ?a ?b] =>
      let v := eval vm_compute in (has_char a b) in
      lazymatch v with
      | true => change (has_char a b) with true
      | false => change (has_char a b) with false
      end
  | |- context [bool_decide (@eq ascii ?a ?b)] =>
      let v := eval vm_compute in (bool_decide (@eq ascii a b)) in
      lazymatch v with
      | true => change (bool_decide (@eq ascii a b)) with true
      | false => change (bool_decide (@eq ascii a b)) with false
      end
  end.
Ltac lor_eq :=
  repeat match goal with |- context [has_char ?m ?c] => destruct (has_char m c) end;
  cbn [flag_if orb]; apply Z.bits_inj'; intros ? _; rewrite ?Z.lor_spec, ?Z.bits_0; btauto.

(** One turn of a loop, with the hypothesis about the others. *)
Ltac loop_turn IH :=
  cbn [rbind];
  match goal with |- context [mode_loop ?step ?s ?mode] => specialize (IH s); destruct (mode_loop step s mode) as [r | | | | |] end;
  [| naive_solver ..].

Lemma has_char_none cs c : Forall (fun x => c <> x) (list_ascii_of_string cs) -> has_char cs c = false.
Proof.
  intros Hc. destruct (has_char cs c) eqn:H; [| done]. apply has_char_elem in H.
  rewrite Forall_forall in Hc. by destruct (Hc c H).
Qed.

Lemma rmfile_loop mode b :
  match mode_loop rmfile_char b mode with
  | Ok bits =>
      bad_char "d~" mode = None /\
      ctrue (Z.land bits RMFILE_NOYIELD) = ctrue (Z.land b RMFILE_NOYIELD) || has_char mode "~" /\
      ctrue (Z.land bits RMFILE_DIRECTORY) = ctrue (Z.land b RMFILE_DIRECTORY) || has_char mode "d"
  | r => exists c, bad_char "d~" mode = Some c /\ r = unknown_char 2 c
  end.
Proof.
  revert b. induction mode as [| c mode IH]; intros b.
  - cbn [mode_loop bad_char]. by rewrite !has_char_nil, !orb_false_r.
  - cbn [mode_loop]. rewrite bad_char_cons, !(Open.has_char_cons c). unfold rmfile_char at 1. one_char c.
    1, 2: loop_turn IH; destruct IH as (H1 & H2 & H3); split; [done |]; rewrite H2, H3, !ctrue_lor;
      eval_bits; split; btauto.
    rewrite (has_char_none "d~" c) by by repeat constructor. cbn. eauto.
Qed.

Lemma flush_loop mode b :
  match mode_loop flush_char b mode with
  | Ok bits =>
      bad_char "d~" mode = None /\
      ctrue (Z.land bits FLUSH_NOYIELD) = ctrue (Z.land b FLUSH_NOYIELD) || has_char mode "~" /\
      ctrue (Z.land bits FLUSH_DATAONLY) = ctrue (Z.land b FLUSH_DATAONLY) || has_char mode "d"
  | r => exists c, bad_char "d~" mode = Some c /\ r = unknown_char 3 c
  end.
Proof.
  revert b. induction mode as [| c mode IH]; intros b.
  - cbn [mode_loop bad_char]. by rewrite !has_char_nil, !orb_false_r.
  - cbn [mode_loop]. rewrite bad_char_cons, !(Open.has_char_cons c). unfold flush_char at 1. one_char c.
    1, 2: loop_turn IH; destruct IH as (H1 & H2 & H3); split; [done |]; rewrite H2, H3, !ctrue_lor;
      eval_bits; split; btauto.
    rewrite (has_char_none "d~" c) by by repeat constructor. cbn. eauto.
Qed.

Context (DIR JUNCTION EXCL FICLONE FICLONE_FORCE : Z).

Lemma linkfile_loop mode s :
  match mode_loop (linkfile_char DIR JUNCTION) s mode with
  | Ok (bits, flags) =>
      bad_char "djs~" mode = None /\
      ctrue (Z.land bits MKLNK_NOYIELD) = ctrue (Z.land s.1 MKLNK_NOYIELD) || has_char mode "~" /\
      ctrue (Z.land bits MKLNK_SYMBOLIC) =
        ctrue (Z.land s.1 MKLNK_SYMBOLIC) || (has_char mode "d" || has_char mode "j" || has_char mode "s") /\
      flags = Z.lor s.2 (Z.lor (flag_if (has_char mode "d") DIR) (flag_if (has_char mode "j") JUNCTION))
  | r => exists c, bad_char "djs~" mode = Some c /\ r = unknown_char 3 c
  end.
Proof.
  revert s. induction mode as [| c mode IH]; intros [b f].
  - cbn [mode_loop bad_char fst snd]. rewrite !has_char_nil, !orb_false_r. cbn [flag_if].
    by rewrite !Z.lor_0_r.
  - cbn [mode_loop]. rewrite bad_char_cons, !(Open.has_char_cons c). cbn [linkfile_char]. one_char c.
    1-4: loop_turn IH; destruct r as [bits flags]; destruct IH as (H1 & H2 & H3 & H4); split; [done |];
      rewrite H2, H3, H4; cbn [fst snd]; rewrite ?ctrue_lor; eval_bits;
      (split; [btauto | split; [btauto | lor_eq]]).
    rewrite (has_char_none "djs~" c) by by repeat constructor. cbn. eauto.
Qed.

Lemma copyfile_loop mode s :
  match mode_loop (copyfile_char EXCL FICLONE FICLONE_FORCE) s mode with
  | Ok (noyield, flags) =>
      bad_char "ncC~" mode = None /\ noyield = s.1 || has_char mode "~" /\
      flags = Z.lor s.2 (Z.lor (flag_if (has_char mode "n") EXCL)
        (Z.lor (flag_if (has_char mode "c") FICLONE) (flag_if (has_char mode "C") FICLONE_FORCE)))
  | r => exists c, bad_char "ncC~" mode = Some c /\ r = unknown_char 3 c
  end.
Proof.
  revert s. induction mode as [| c mode IH]; intros [b f].
  - cbn [mode_loop bad_char fst snd]. rewrite !has_char_nil, !orb_false_r. cbn [flag_if].
    by rewrite !Z.lor_0_r.
  - cbn [mode_loop]. rewrite bad_char_cons, !(Open.has_char_cons c). cbn [copyfile_char]. one_char c.
    1-4: loop_turn IH; destruct r as [bits flags]; destruct IH as (H1 & H2 & H3); split; [done |];
      rewrite H2, H3; cbn [fst snd]; eval_bits; (split; [btauto | lor_eq]).
    rewrite (has_char_none "ncC~" c) by by repeat constructor. cbn. eauto.
Qed.

(** Modes of which only the option that does not yield is known. *)
Lemma noyield_loop mode n :
  match mode_loop noyield_char n mode with
  | Ok m => bad_char "~" mode = None /\ n <= m /\ (n < m <-> has_char mode "~" = true)
  | r => exists c, bad_char "~" mode = Some c /\ r = unknown_mode c
  end.
Proof.
  revert n. induction mode as [| c mode IH]; intros n.
  - cbn [mode_loop bad_char]. rewrite !has_char_nil. split; [done | split; [lia |]]. split; [lia | done].
  - cbn [mode_loop]. rewrite bad_char_cons, !(Open.has_char_cons c). unfold noyield_char at 1, LCU_NOYIELDMODE.
    one_char c.
    + loop_turn IH. destruct IH as (H1 & H2 & H3). split; [done |]. split; [lia |]. eval_bits.
      cbn [orb]. split; [done | lia].
    + rewrite (has_char_none "~" c) by by repeat constructor. cbn. eauto.
Qed.

(** The options in front of a mode. *)
Lemma ownmode_loop mode b :
  let '(rest, bits) := checkprefixflags_loop mode INFO_LSTAT b in
  match rest with
  | String c _ => bad_char "l~" mode = Some c
  | EmptyString =>
      bad_char "l~" mode = None /\
      ctrue (Z.land bits INFO_NOYIELD) = ctrue (Z.land b INFO_NOYIELD) || has_char mode "~" /\
      ctrue (Z.land bits INFO_LSTAT) = ctrue (Z.land b INFO_LSTAT) || has_char mode "l"
  end.
Proof.
  revert b. induction mode as [| c mode IH]; intros b.
  - cbn [checkprefixflags_loop bad_char]. by rewrite !has_char_nil, !orb_false_r.
  - cbn [checkprefixflags_loop]. rewrite bad_char_cons, !(Open.has_char_cons c). unfold LCU_NOYIELDMODE.
    change (negb (ctrue (Z.land INFO_LSTAT INFO_LSTAT))) with false. cbn match. one_char c.
    1, 2: match goal with |- context [checkprefixflags_loop ?m ?k ?b] =>
        specialize (IH b); destruct (checkprefixflags_loop m k b) as [[| c rest] bits] end; [| done];
      destruct IH as (H1 & H2 & H3); split; [done |]; rewrite H2, H3, !ctrue_lor; eval_bits; split; btauto.
    by rewrite (has_char_none "l~" c) by by repeat constructor.
Qed.

Lemma prefixflags_small mode mask b : small b -> small (checkprefixflags_loop mode mask b).2.
Proof.
  revert b. induction mode as [| c mode IH]; intros b Hb; cbn [checkprefixflags_loop]; [done |].
  repeat case_decide; [apply IH, lor_small; [done | by cbv] | | done].
  destruct (negb _); [done |]. apply IH, lor_small; [done | by cbv].
Qed.

(** A longer row of options adds its bits. *)
Lemma prefixflags_lor mode mask b :
  checkprefixflags_loop mode mask b =
    ((checkprefixflags_loop mode mask 0).1, Z.lor b (checkprefixflags_loop mode mask 0).2).
Proof.
  revert b. induction mode as [| c mode IH]; intros b; cbn [checkprefixflags_loop].
  - cbn [fst snd]. by rewrite Z.lor_0_r.
  - repeat case_decide.
    + rewrite IH, (IH (Z.lor 0 _)). cbn [fst snd]. by rewrite Z.lor_assoc, Z.lor_0_l.
    + destruct (negb _); [cbn [fst snd]; by rewrite Z.lor_0_r |].
      rewrite IH, (IH (Z.lor 0 _)). cbn [fst snd]. by rewrite Z.lor_assoc, Z.lor_0_l.
    + cbn [fst snd]. by rewrite Z.lor_0_r.
Qed.

(** The times of a mode. *)
Context {St : Type} `{!LuaStack St} `{!LuaArgs} (now : result Z).
Implicit Types (L : St).

Lemma last_time_cons chars c time times :
  last_time chars ((c, time) :: times) =
    match last_time chars times with
    | Some t => Some t
    | None => if has_char chars c then Some time else None
    end.
Proof.
  unfold last_time. destruct (has_char chars c) eqn:Hc.
  - rewrite filter_cons_True by done. rewrite last_cons. by destruct (last _).
  - rewrite filter_cons_False by (cbn; congruence). by destruct (last _).
Qed.

Lemma touch_loop_given i L mask t mode :
  touch_loop i L mask t mode =
    (times <- given_times i L mask mode;;
     Ok (match last_time "ab" times with Some x => Some x | None => t.1 end,
         match last_time "mb" times with Some x => Some x | None => t.2 end)).
Proof.
  revert i t. induction mode as [| c mode IH]; intros i t; cbn [touch_loop given_times].
  - cbn. by destruct t.
  - unfold set_times. destruct (checknumber L (3 + i)) as [time | | | | |]; cbn [rbind]; try done.
    destruct (luaL_argcheck _ _ _); cbn [rbind]; try done.
    assert (forall t' : option Z * option Z,
      (x <- given_times (S i) L mask mode;;
       Ok (match last_time "ab" x with Some y => Some y | None => t'.1 end,
           match last_time "mb" x with Some y => Some y | None => t'.2 end)) =
      touch_loop (S i) L mask t' mode) as Hgo by (intros; by rewrite IH).
    one_char c; cbn [rbind]; rewrite <- ?Hgo; eval_bits; cbn [rbind andb orb].
    1-3: destruct (given_times (S i) L mask mode); cbn [rbind fst snd]; try done;
      rewrite !last_time_cons; eval_bits; by repeat destruct (last_time _ _).
    + by destruct (ctrue _).
    + done.
    + rewrite (has_char_none "amb" c), (has_char_none "l" c), (has_char_none "~" c)
        by by repeat constructor. done.
Qed.

(** The bits of the options. *)
Definition touch_bits L (mask : Z) : Z :=
  match checkstring L 2 with Ok mode => (checkprefixflags mode mask).2 | _ => 0 end.

Lemma checktouchargs_given L mask :
  checktouchargs now L 2 mask = (r <- touch_args now L mask;; Ok (touch_bits L mask, r.2)) /\
  small (touch_bits L mask) /\
  forall r, touch_args now L mask = Ok r -> r.1 = ctrue (Z.land (touch_bits L mask) INFO_LSTAT).
Proof.
  unfold checktouchargs, touch_args, touch_bits.
  destruct (checkstring L 2) as [mode | | | | |]; cbn [rbind]; try done.
  pose proof (prefixflags_small mode mask 0 ltac:(by cbv)) as Hs. unfold checkprefixflags in *.
  destruct (checkprefixflags_loop mode mask 0) as [body bits]. cbn [snd] in *.
  rewrite touch_loop_given. destruct (given_times 0 L mask body) as [times | | | | |]; cbn [rbind]; try done.
  cbn [fst snd].
  destruct (last_time "ab" times) as [a |], (last_time "mb" times) as [m |];
    [rewrite decide_True by by split; eauto |
     rewrite decide_False by by intros [[? ?] [? ?]] ..]; cbn [rbind default].
  - split; [done |]. split; [done |]. by intros r [= <-].
  - destruct now; cbn [rbind]; (split; [done |]); (split; [done |]); naive_solver.
  - destruct now; cbn [rbind]; (split; [done |]); (split; [done |]); naive_solver.
  - destruct now; cbn [rbind]; (split; [done |]); (split; [done |]); naive_solver.
Qed.
End loops.

(** *** Each function does what it promises *)
Section refinement.
Context {St : Type} `{!LuaStack St} `{!LuaArgs}.
Context (DIR JUNCTION EXCL FICLONE FICLONE_FORCE : Z).
Context (now : result Z) (fileobj checkarray checkmemory : lvalue -> option Z).
Context (uv_sync uv_start uv_done : uv_call -> Z) (strerror : Z -> string).
Context (sched : positive) (wait : option (list lvalue)).
Context (flags_small : small DIR /\ small JUNCTION /\ small EXCL /\ small FICLONE /\ small FICLONE_FORCE).
(** libuv answers the same in its two modes. *)
Context (sync_answers : forall c, uv_sync c = answer uv_start uv_done c).
Implicit Types (L : St).

Abbreviation gives check := (c <- check;; Ok (c, answer_values uv_start uv_done strerror c)).

(** The values that a setup takes from the stack. *)
Ltac setup_args HL :=
  unfold checkstring, checkinteger, tointeger, tonumber, openedfile;
  rewrite ?(arg_ext _ _ _ HL), ?arg_push, ?arg_settop, ?gettop_push, ?gettop_settop by lia;
  repeat match goal with
  | |- context [decide (@eq nat ?a ?b)] =>
      first [rewrite (decide_True (P := @eq nat a b)) by lia | rewrite (decide_False (P := @eq nat a b)) by lia]
  | |- context [decide (le ?a ?b)] =>
      first [rewrite (decide_True (P := le a b)) by lia | rewrite (decide_False (P := le a b)) by lia]
  end;
  rewrite ?tointegerx_integer, ?tonumberx_number; cbn [default from_option id].
Ltac binds := repeat (match goal with |- context [rbind ?r _] => destruct r end; cbn [rbind]; try done).
Ltac at_once := binds; rewrite (called_answer _ _ _ _ sync_answers) by done; done.

Lemma ownfile_refines L :
  system_ownfile uv_sync uv_start uv_done strerror sched true wait L = gives (ownfile_call L).
Proof using sync_answers.
  unfold system_ownfile, ownfile_call, checkprefixflags, mode_chars.
  destruct (optstring L 4 "") as [mode | | | | |]; cbn [rbind]; try done.
  pose proof (ownmode_loop mode 0) as Hm. pose proof (prefixflags_small mode INFO_LSTAT 0 ltac:(by cbv)) as Hs.
  destruct (checkprefixflags_loop mode INFO_LSTAT 0) as [[| c rest] bits]; [| by rewrite Hm].
  destruct Hm as (-> & H1 & H2). cbn [rbind snd] in *.
  assert (forall path uid gid, callchown bits path uid gid =
    (if has_char mode "l" then FsLchown else FsChown) path uid gid) as Hcall.
  { intros. unfold callchown. rewrite H2. cbn. by destruct (has_char mode "l"). }
  destruct (ctrue (Z.land bits INFO_NOYIELD)).
  - binds. rewrite (called_answer _ _ _ _ sync_answers); [by rewrite Hcall |].
    rewrite Hcall. by destruct (has_char mode "l").
  - apply resetcoreq_answer.
    + intros _ _. rewrite gettop_push. lia.
    + intros L' HL'. unfold k_setupfileown. setup_args HL'. rewrite (int_small bits Hs).
      binds. by rewrite Hcall.
    + intros c. binds. intros [= <-]. by destruct (has_char mode "l").
Qed.

Lemma touchfile_refines L :
  system_touchfile now uv_sync uv_start uv_done strerror sched true wait L = gives (touchfile_call now L).
Proof using sync_answers.
  unfold system_touchfile, touchfile_call.
  destruct (checktouchargs_given now L INFO_LSTAT) as (-> & Hs & Hl).
  destruct (touch_args now L INFO_LSTAT) as [[lstat [a m]] | | | | |]; cbn [rbind snd]; try done.
  specialize (Hl _ eq_refl). cbn [fst] in *.
  assert (forall path, callutime (touch_bits L INFO_LSTAT) path a m =
    (if lstat then FsLutime else FsUtime) path a m) as Hcall.
  { intros. unfold callutime. rewrite <- Hl. by destruct lstat. }
  destruct (ctrue (Z.land (touch_bits L INFO_LSTAT) INFO_NOYIELD)).
  - binds. rewrite (called_answer _ _ _ _ sync_answers); [by rewrite Hcall |].
    rewrite Hcall. by destruct lstat.
  - apply resetcoreq_answer.
    + intros _ _. rewrite gettop_push. lia.
    + intros L' HL'. unfold k_setupfiletouch. setup_args HL'. rewrite (int_small _ Hs).
      binds. by rewrite Hcall.
    + intros c. binds. intros [= <-]. by destruct lstat.
Qed.

(** The modes that only tell whether to yield. *)
Lemma noyield_mode L i :
  (exists n, lcuL_checknoyieldmode L i = Ok n /\ no_mode L i = Ok tt) \/
  (exists r, lcuL_checknoyieldmode L i = (_ <- r;; Ok 0) /\ no_mode L i = r /\ r <> Ok tt).
Proof.
  unfold lcuL_checknoyieldmode, no_mode.
  destruct (optstring L i "") as [mode | | | | |]; cbn [rbind];
    [| right; eexists; split; [| split; [reflexivity |]]; done ..].
  pose proof (noyield_loop mode 0) as Hm. destruct (mode_loop noyield_char 0 mode) as [n | | | | |];
    [destruct Hm as [-> _]; left; by exists n |
     destruct Hm as (c & -> & ->); right; exists (unknown_mode c); by split_and! ..].
Qed.

Ltac noyield L i :=
  destruct (noyield_mode L i) as [(n & -> & ->) | (r & -> & -> & Hr)]; cbn [rbind];
  [| by (destruct r as [[] | | | | |])].

Lemma argperm_ext L L' i : values L' = values L -> argperm L' i = argperm L i.
Proof. intros HL. unfold argperm, checkinteger. by rewrite !(arg_ext _ _ _ HL). Qed.

Lemma perm_int L i perm : argperm L i = Ok perm -> int perm = perm.
Proof.
  unfold argperm.
  assert (forall x, (p <- checkinteger L i;; checkperm (Z.of_nat i) (inr p)) = Ok x -> int x = x) as Hi.
  { intros x. destruct (checkinteger L i); cbn [rbind checkperm]; [| done ..]. intros [= <-].
    pose proof (wraps_range 32 a ltac:(lia)). by apply wraps_id. }
  destruct (arg L i) as [| | | | mode | | | | |]; try apply Hi. cbn [checkperm].
  intros Hp. apply int_small. revert Hp. assert (small 0) as H0 by (by cbv). revert H0. generalize 0 as p0.
  induction (c_string mode) as [| c m IH]; intros p0 H0; cbn [mode_loop]; [by intros [= <-] |].
  unfold checkperm_char at 1. destruct (perm_bit c) as [b |] eqn:Hb; cbn [rbind]; [| done].
  apply IH, lor_small; [done |]. unfold perm_bit in Hb.
  repeat case_decide; (congruence || (injection Hb as <-; by cbv)).
Qed.

Lemma grantfile_refines L :
  system_grantfile uv_sync uv_start uv_done strerror sched true wait L = gives (grantfile_call L).
Proof using sync_answers.
  unfold system_grantfile, grantfile_call. pose proof (perm_int L 2) as Hp.
  destruct (argperm L 2) as [perm | | | | |]; cbn [rbind]; try done. specialize (Hp _ eq_refl).
  noyield L 3%nat. destruct (ctrue n); [at_once |]. apply resetcoreq_answer.
  - intros _ _. rewrite gettop_push. lia.
  - intros L' HL'. unfold k_setupfilegrant. setup_args HL'. rewrite Hp. by binds.
  - intros c. binds. by intros [= <-].
Qed.

Lemma linkfile_refines L :
  system_linkfile DIR JUNCTION uv_sync uv_start uv_done strerror sched true wait L
  = gives (linkfile_call DIR JUNCTION L).
Proof using sync_answers flags_small.
  unfold system_linkfile, linkfile_call, mode_chars.
  destruct (optstring L 3 "") as [mode | | | | |]; cbn [rbind]; try done.
  pose proof (linkfile_loop DIR JUNCTION mode (0, 0)) as Hm.
  destruct (mode_loop _ (0, 0) mode) as [[bits flags] | | | | |];
    [| destruct Hm as (c & -> & ->); done ..].
  destruct Hm as (-> & H1 & H2 & H3). cbn [rbind fst snd] in *.
  change (ctrue (Z.land 0 MKLNK_SYMBOLIC)) with false in H2. cbn [orb] in H2. rewrite <- H2.
  rewrite Z.lor_0_l in H3. rewrite <- H3.
  assert (0 <= flags < 2 ^ 53) as Hf.
  { assert (small flags) as [? ?]; [| split; lia]. rewrite H3.
    destruct flags_small as (? & ? & _). apply lor_small; by apply flag_small. }
  set (sym := ctrue (Z.land bits MKLNK_SYMBOLIC)).
  destruct (ctrue (Z.land bits MKLNK_NOYIELD)).
  - binds. rewrite (called_answer _ _ _ _ sync_answers); [done |]. by destruct sym.
  - apply resetcoreq_answer.
    + intros _ _. rewrite gettop_push. lia.
    + intros L' HL'. unfold k_setupmklnk. setup_args HL'. destruct sym.
      * destruct (tonumberx_small flags Hf) as (x & -> & Hx). cbn [from_option].
        rewrite Hx. by binds.
      * by binds.
    + intros c. binds. intros [= <-]. by destruct sym.
Qed.

Ltac simple_setup L k :=
  apply resetcoreq_answer;
  [ let c := fresh "c" in intros c; destruct (checkstring L 1) eqn:Hpath; cbn [rbind]; try done;
    intros _; apply checkstring_top in Hpath; lia
  | let L' := fresh "L'" in let HL' := fresh "HL" in
    intros L' HL'; unfold k; rewrite ?(argperm_ext _ _ _ HL'); setup_args HL'; by binds
  | intros c; binds; by intros [= <-] ].

Lemma movefile_refines L :
  system_movefile uv_sync uv_start uv_done strerror sched true wait L = gives (movefile_call L).
Proof using sync_answers.
  unfold system_movefile, movefile_call.
  noyield L 3%nat. destruct (ctrue n); [at_once |]. simple_setup L (@k_setupmvfile).
Qed.

Lemma makedir_refines L :
  system_makedir uv_sync uv_start uv_done strerror sched true wait L = gives (makedir_call L).
Proof using sync_answers.
  unfold system_makedir, makedir_call.
  noyield L 3%nat. destruct (ctrue n); [at_once |]. simple_setup L (@k_setupmkdir).
Qed.

Lemma copyfile_refines L :
  system_copyfile EXCL FICLONE FICLONE_FORCE uv_sync uv_start uv_done strerror sched true wait L
  = gives (copyfile_call EXCL FICLONE FICLONE_FORCE L).
Proof using sync_answers flags_small.
  unfold system_copyfile, copyfile_call, mode_chars.
  destruct (optstring L 3 "") as [mode | | | | |]; cbn [rbind]; try done.
  pose proof (copyfile_loop EXCL FICLONE FICLONE_FORCE mode (false, 0)) as Hm.
  destruct (mode_loop _ (false, 0) mode) as [[noyield flags] | | | | |];
    [| destruct Hm as (c & -> & ->); done ..].
  destruct Hm as (-> & _ & H1). cbn [rbind fst snd] in *. rewrite Z.lor_0_l in H1. rewrite <- H1.
  destruct noyield; [at_once |]. apply resetcoreq_answer.
  - intros _ _. rewrite gettop_push. lia.
  - intros L' HL'. unfold k_setupcpfile. setup_args HL'. rewrite int_small; [by binds |].
    rewrite H1. destruct flags_small as (_ & _ & ? & ? & ?). repeat apply lor_small; by apply flag_small.
  - intros c. binds. by intros [= <-].
Qed.

Lemma removefile_refines L :
  system_removefile uv_sync uv_start uv_done strerror sched true wait L = gives (removefile_call L).
Proof using sync_answers.
  unfold system_removefile, removefile_call, mode_chars.
  destruct (optstring L 2 "") as [mode | | | | |]; cbn [rbind]; try done.
  pose proof (rmfile_loop mode 0) as Hm. destruct (mode_loop rmfile_char 0 mode) as [bits | | | | |];
    [| destruct Hm as (c & -> & ->); done ..].
  destruct Hm as (-> & _ & H2). cbn [rbind].
  change (ctrue (Z.land 0 RMFILE_DIRECTORY)) with false in H2. cbn [orb] in H2. rewrite <- H2.
  set (dir := ctrue (Z.land bits RMFILE_DIRECTORY)).
  destruct (ctrue (Z.land bits RMFILE_NOYIELD)); [binds; rewrite (called_answer _ _ _ _ sync_answers); by destruct dir |].
  apply resetcoreq_answer.
  - intros _ _. rewrite gettop_push. lia.
  - intros L' HL'. unfold k_setuprmfile. rewrite (toboolean_arg L' 2) by lia. setup_args HL'.
    binds. by destruct dir.
  - intros c. binds. intros [= <-]. by destruct dir.
Qed.

(** The methods. *)
Lemma tosched_top L : tosched L = Ok tt -> (1 <= lua_gettop L)%nat.
Proof.
  unfold tosched, arg, lua_gettop. destruct (values L); [| cbn; lia]. by rewrite lookup_nil.
Qed.

Ltac method_of L :=
  unfold method; pose proof (tosched_top L) as Htop;
  destruct (tosched L) as [[] | | | | |]; cbn [rbind]; try done; specialize (Htop eq_refl).

Lemma openedfile_ext L L' : values L' = values L -> openedfile fileobj L' = openedfile fileobj L.
Proof. intros HL. unfold openedfile. by rewrite (arg_ext _ _ _ HL). Qed.

Ltac method_setup k :=
  let L' := fresh "L'" in let HL' := fresh "HL" in
  intros L' HL'; unfold k; rewrite ?(openedfile_ext _ _ HL');
  unfold callread, callwrite, getbuf, optinteger; setup_args HL'; by binds.
Ltac transfers_of := intros c; binds; by intros [= <-].

Lemma close_refines L :
  file_close fileobj uv_sync uv_start uv_done strerror sched true wait L = gives (close_call fileobj L).
Proof using sync_answers.
  unfold file_close, close_call. method_of L. noyield L 2%nat. destruct (ctrue n).
  - destruct (openedfile fileobj L) as [file | | | | |]; cbn [rbind]; try done.
    pose proof (called_answer _ _ _ strerror sync_answers L (FsClose file) eq_refl) as Hc.
    unfold called, Results.lcuL_pushresults in Hc. rewrite <- Hc.
    destruct (uv_sync (FsClose file) <? 0); [| done]. cbn [fst snd]. do 2 f_equal.
    unfold Results.lcuL_pusherrres, Results.lcu_pusherror. cbn [fst snd].
    rewrite !(returned_app _ (values L)) with (vs := [LBoolean false; LString (strerror (uv_sync (FsClose file))); LInteger (- uv_sync (FsClose file))]); try done.
    + by rewrite !values_push, (values_pop L (values L) []), <- !app_assoc by (done || by rewrite app_nil_r).
    + by rewrite !values_push, <- !app_assoc.
  - apply resetcoreq_answer; [by intros | method_setup (@k_setupclosef) | transfers_of].
Qed.

Lemma resize_refines L :
  file_resize fileobj uv_sync uv_start uv_done strerror sched true wait L = gives (resize_call fileobj L).
Proof using sync_answers.
  unfold file_resize, resize_call. method_of L. noyield L 3%nat. destruct (ctrue n); [at_once |].
  apply resetcoreq_answer; [by intros | method_setup (@k_setupfresize) | transfers_of].
Qed.

Lemma own_refines L :
  file_own fileobj uv_sync uv_start uv_done strerror sched true wait L = gives (own_call fileobj L).
Proof using sync_answers.
  unfold file_own, own_call. method_of L. noyield L 4%nat. destruct (ctrue n); [at_once |].
  apply resetcoreq_answer; [by intros | method_setup (@k_setupfobjown) | transfers_of].
Qed.

Lemma flush_refines L :
  file_flush fileobj uv_sync uv_start uv_done strerror sched true wait L = gives (flush_call fileobj L).
Proof using sync_answers.
  unfold file_flush, flush_call, mode_chars. method_of L.
  destruct (optstring L 2 "") as [mode | | | | |]; cbn [rbind]; try done.
  pose proof (flush_loop mode 0) as Hm. destruct (mode_loop flush_char 0 mode) as [bits | | | | |];
    [| destruct Hm as (c & -> & ->); done ..].
  destruct Hm as (-> & _ & H2). cbn [rbind].
  change (ctrue (Z.land 0 FLUSH_DATAONLY)) with false in H2. cbn [orb] in H2. rewrite <- H2.
  set (data := ctrue (Z.land bits FLUSH_DATAONLY)).
  destruct (ctrue (Z.land bits FLUSH_NOYIELD)); [binds; rewrite (called_answer _ _ _ _ sync_answers); by destruct data |].
  apply resetcoreq_answer.
  - intros _ _. rewrite gettop_push. lia.
  - intros L' HL'. unfold k_setupfobjflush. rewrite (toboolean_arg L' 2) by lia. setup_args HL'.
    binds. by destruct data.
  - intros c. binds. intros [= <-]. by destruct data.
Qed.

Lemma touch_refines L :
  file_touch now fileobj uv_sync uv_start uv_done strerror sched true wait L = gives (touch_call now fileobj L).
Proof using sync_answers.
  unfold file_touch, touch_call. method_of L.
  destruct (checktouchargs_given now L 0) as (-> & _ & _).
  destruct (touch_args now L 0) as [[lstat [a m]] | | | | |]; cbn [rbind snd fst]; try done.
  destruct (ctrue (Z.land (touch_bits L 0) INFO_NOYIELD)); [at_once |]. apply resetcoreq_answer.
  - intros _ _. rewrite gettop_push. lia.
  - intros L' HL'. unfold k_setupfobjtouch. setup_args HL'. by binds.
  - transfers_of.
Qed.

Lemma grant_refines L :
  file_grant fileobj uv_sync uv_start uv_done strerror sched true wait L = gives (grant_call fileobj L).
Proof using sync_answers.
  unfold file_grant, grant_call. method_of L. pose proof (perm_int L 2) as Hp.
  destruct (argperm L 2) as [perm | | | | |]; cbn [rbind]; try done. specialize (Hp _ eq_refl).
  noyield L 3%nat. destruct (ctrue n); [at_once |]. apply resetcoreq_answer.
  - intros _ _. rewrite gettop_push. lia.
  - intros L' HL'. unfold k_setupfobjgrant. setup_args HL'. rewrite Hp. by binds.
  - transfers_of.
Qed.

Lemma getbuf_ext check L L' i : values L' = values L -> getbuf check L' i = getbuf check L i.
Proof. intros HL. unfold getbuf, optinteger, checkinteger. by rewrite !(arg_ext _ _ _ HL). Qed.

Lemma read_refines L :
  file_read fileobj checkmemory uv_sync uv_start uv_done strerror sched true wait L
  = gives (read_call fileobj checkmemory L).
Proof using sync_answers.
  unfold file_read, read_call. method_of L. noyield L 6%nat.
  assert (forall c, (file <- openedfile fileobj L;; callread checkmemory L file) = Ok c -> transfers c = true) as Ht.
  { intros c. unfold callread. binds. by intros [= <-]. }
  destruct (ctrue n).
  - destruct (openedfile fileobj L) as [file | | | | |]; cbn [rbind] in *; try done.
    destruct (callread checkmemory L file) as [c | | | | |]; cbn [rbind]; try done.
    by rewrite (called_result_answer _ _ _ _ sync_answers) by by apply Ht.
  - apply resetcoreq_transfer; [| done]. intros L' HL'. unfold k_setupreadfile, callread, optinteger, checkinteger.
    rewrite (openedfile_ext _ _ HL'), (getbuf_ext _ _ _ _ HL'), !(arg_ext _ _ _ HL'). by binds.
Qed.

Lemma write_refines L :
  file_write fileobj checkarray uv_sync uv_start uv_done strerror sched true wait L
  = gives (write_call fileobj checkarray L).
Proof using sync_answers.
  unfold file_write, write_call. method_of L. noyield L 6%nat.
  assert (forall c, (file <- openedfile fileobj L;; callwrite fileobj checkarray L file) = Ok c -> transfers c = true) as Ht.
  { intros c. unfold callwrite. destruct (fileobj (arg L 2)); binds; by intros [= <-]. }
  destruct (ctrue n).
  - destruct (openedfile fileobj L) as [file | | | | |]; cbn [rbind] in *; try done.
    destruct (callwrite fileobj checkarray L file) as [c | | | | |]; cbn [rbind]; try done.
    by rewrite (called_result_answer _ _ _ _ sync_answers) by by apply Ht.
  - apply resetcoreq_transfer; [| done]. intros L' HL'. unfold k_setupwritefile, callwrite, optinteger, checkinteger.
    rewrite (openedfile_ext _ _ HL'), (getbuf_ext _ _ _ _ HL'), !(arg_ext _ _ _ HL').
    destruct (fileobj (arg L 2)); by binds.
Qed.

(** Functions and what they promise, one by one. *)
Lemma functions_refine :
  Forall2 (fun f c => forall L, f.2.2 L = gives (c L))
    (functions DIR JUNCTION EXCL FICLONE FICLONE_FORCE now fileobj checkarray checkmemory uv_sync
       uv_start uv_done strerror sched true wait)
    (calls DIR JUNCTION EXCL FICLONE FICLONE_FORCE now fileobj checkarray checkmemory).
Proof using sync_answers flags_small.
  unfold functions, calls.
  repeat (constructor; [intros L; cbn [fst snd]; first
    [ apply touchfile_refines | apply ownfile_refines | apply grantfile_refines | apply linkfile_refines
    | apply movefile_refines | apply copyfile_refines | apply removefile_refines | apply makedir_refines
    | apply close_refines | apply read_refines | apply write_refines | apply resize_refines
    | apply flush_refines | apply touch_refines | apply own_refines | apply grant_refines ] |]).
  constructor.
Qed.
End refinement.

(** *** The option that asks not to yield *)
Section blocking.
Context {St : Type} `{!LuaStack St} `{!LuaArgs}.
Context (DIR JUNCTION EXCL FICLONE FICLONE_FORCE : Z).
Context (now : result Z) (fileobj checkarray checkmemory : lvalue -> option Z).
Implicit Types (L : St).

(** [L'] has the option in front of the mode of [L]. *)
Definition with_option (n : nat) L L' : Prop :=
  exists pre mode rest, length pre = (n - 1)%nat /\
    values L = pre ++ LString mode :: rest /\ values L' = pre ++ LString (String "~" mode) :: rest.

Lemma with_option_args n L L' :
  with_option n L L' -> (1 <= n)%nat ->
  exists mode, arg L n = LString mode /\ arg L' n = LString (String "~" mode) /\
    forall i, (1 <= i)%nat -> i <> n -> arg L' i = arg L i.
Proof.
  intros (pre & mode & rest & Hn & HL & HL') H1. exists mode. unfold arg. rewrite HL, HL'.
  rewrite <- Hn, !list_lookup_middle by done. split; [done |]. split; [done |]. intros i Hi Hne.
  destruct (decide (i - 1 < length pre)%nat); [by rewrite !lookup_app_l |].
  rewrite !lookup_app_r by lia. by destruct (i - 1 - length pre)%nat eqn:He; [lia |].
Qed.

Lemma with_option_string n L L' mode :
  arg L n = LString mode -> arg L' n = LString (String "~" mode) ->
  checkstring L n = Ok (c_string mode) /\ checkstring L' n = Ok (String "~" (c_string mode)).
Proof. intros H1 H2. unfold checkstring. by rewrite H1, H2, !tolstring_string. Qed.

Lemma no_mode_option n L L' :
  with_option n L L' -> (1 <= n)%nat -> no_mode L' n = no_mode L n.
Proof.
  intros Ho Hn. destruct (with_option_args n L L' Ho Hn) as (mode & H1 & H2 & _).
  destruct (with_option_string n L L' mode H1 H2) as [Hs Hs'].
  unfold no_mode, optstring. rewrite Hs, Hs', H1, H2. done.
Qed.

Lemma touch_args_option mask L L' :
  with_option 2 L L' -> touch_args now L' mask = touch_args now L mask.
Proof.
  intros Ho. destruct (with_option_args 2 L L' Ho ltac:(lia)) as (mode & H1 & H2 & Ha).
  destruct (with_option_string 2 L L' mode H1 H2) as [Hs Hs'].
  unfold touch_args. rewrite Hs, Hs'. cbn [rbind]. unfold checkprefixflags. cbn [checkprefixflags_loop].
  unfold LCU_NOYIELDMODE. rewrite decide_True by done. rewrite prefixflags_lor.
  destruct (checkprefixflags_loop (c_string mode) mask 0) as [body bits]. cbn [fst snd].
  assert (forall i, given_times i L' mask body = given_times i L mask body) as ->.
  { induction body as [| c body IH]; intros i; cbn [given_times]; [done |].
    unfold checknumber. rewrite (Ha (3 + i)%nat) by lia. by rewrite IH. }
  by rewrite ctrue_lor.
Qed.

(** The mode and the other arguments of a call. *)
Ltac option_args n L L' Ho :=
  let mode := fresh "mode" in let H1 := fresh "H1" in let H2 := fresh "H2" in
  let Ha := fresh "Ha" in let Hs := fresh "Hs" in let Hs' := fresh "Hs'" in
  destruct (with_option_args n L L' Ho ltac:(lia)) as (mode & H1 & H2 & Ha);
  destruct (with_option_string n L L' mode H1 H2) as [Hs Hs'];
  unfold mode_chars, optstring; rewrite ?Hs, ?Hs', ?H1, ?H2;
  unfold argperm, openedfile, tosched, callread, callwrite, getbuf, optinteger, checkinteger;
  repeat match goal with
  | |- context [checkstring L' ?i] =>
      replace (checkstring L' i) with (checkstring L i) by (unfold checkstring; by rewrite (Ha i) by lia)
  | |- context [arg L' ?i] => rewrite (Ha i) by lia
  end.

Lemma calls_option i n c L L' :
  calls DIR JUNCTION EXCL FICLONE FICLONE_FORCE now fileobj checkarray checkmemory !! i = Some c ->
  [2; 4; 3; 3; 3; 3; 2; 3; 2; 6; 6; 3; 2; 2; 4; 3]%nat !! i = Some n ->
  with_option n L L' -> c L' = c L.
Proof.
  intros Hc Hn Ho.
  do 16 try (destruct i as [| i];
    [cbn in Hc, Hn; injection Hc as <-; injection Hn as <- |]); [.. | done].
  - unfold touchfile_call. rewrite (touch_args_option _ L L' Ho). option_args 2%nat L L' Ho. done.
  - unfold ownfile_call. option_args 4%nat L L' Ho. done.
  - unfold grantfile_call. rewrite (no_mode_option 3 L L') by (done || lia). option_args 3%nat L L' Ho. done.
  - unfold linkfile_call. option_args 3%nat L L' Ho. done.
  - unfold movefile_call. rewrite (no_mode_option 3 L L') by (done || lia). option_args 3%nat L L' Ho. done.
  - unfold copyfile_call. option_args 3%nat L L' Ho. done.
  - unfold removefile_call. option_args 2%nat L L' Ho. done.
  - unfold makedir_call. rewrite (no_mode_option 3 L L') by (done || lia). option_args 3%nat L L' Ho. done.
  - unfold close_call, method. rewrite (no_mode_option 2 L L') by (done || lia). option_args 2%nat L L' Ho. done.
  - unfold read_call, method. rewrite (no_mode_option 6 L L') by (done || lia). option_args 6%nat L L' Ho. done.
  - unfold write_call, method. rewrite (no_mode_option 6 L L') by (done || lia). option_args 6%nat L L' Ho. done.
  - unfold resize_call, method. rewrite (no_mode_option 3 L L') by (done || lia). option_args 3%nat L L' Ho. done.
  - unfold flush_call. option_args 2%nat L L' Ho. done.
  - unfold touch_call. rewrite (touch_args_option _ L L' Ho). option_args 2%nat L L' Ho. done.
  - unfold own_call, method. rewrite (no_mode_option 4 L L') by (done || lia). option_args 4%nat L L' Ho. done.
  - unfold grant_call. rewrite (no_mode_option 3 L L') by (done || lia). option_args 3%nat L L' Ho. done.
Qed.

(** A function with the option does not yield. *)
Context (uv_sync uv_start uv_done : uv_call -> Z) (strerror : Z -> string).
Context (sched : positive) (wait : option (list lvalue)) (yieldable : bool).

Lemma noyield_option n L mode :
  arg L n = LString (String "~" mode) ->
  match lcuL_checknoyieldmode L n with Ok k => ctrue k = true | _ => True end.
Proof.
  intros Hm. unfold lcuL_checknoyieldmode, optstring, checkstring. rewrite Hm, tolstring_string.
  rewrite decide_False by done. cbn [rbind].
  pose proof (noyield_loop (c_string (String "~" mode)) 0) as Hl.
  destruct (mode_loop _ 0 _) as [k | | | | |]; [| done ..]. destruct Hl as (_ & _ & Hk).
  apply ctrue_true. destruct Hk as [_ Hk]. specialize (Hk eq_refl). lia.
Qed.

Lemma touch_option L mask mode :
  arg L 2 = LString (String "~" mode) ->
  ctrue (Z.land (touch_bits L mask) INFO_NOYIELD) = true.
Proof.
  intros Hm. unfold touch_bits, checkstring. rewrite Hm, tolstring_string.
  change (c_string (String "~" mode)) with (String "~" (c_string mode)).
  unfold checkprefixflags. cbn [checkprefixflags_loop]. rewrite decide_True by done.
  rewrite prefixflags_lor. cbn [snd]. by rewrite ctrue_lor.
Qed.

(** A mode that starts with the option, and what the loops make of it. *)
Ltac with_mode n :=
  match goal with
  | Hm : arg ?L n = LString _ |- _ => unfold optstring, checkstring; rewrite !Hm, tolstring_string;
      rewrite decide_False by done; cbn [rbind];
      match goal with |- context [c_string (String "~" ?m)] =>
        change (c_string (String "~" m)) with (String "~" (c_string m)) end
  end.
Ltac no_yield := match goal with |- context [if ctrue ?k then _ else _] =>
  let Hk := fresh in assert (ctrue k = true) as Hk; [| by rewrite Hk] end.
Ltac by_noyield n :=
  match goal with Hm : arg ?L n = LString _ |- _ =>
    pose proof (noyield_option n L _ Hm);
    destruct (lcuL_checknoyieldmode L n) as [k | | | | |]; cbn [rbind]; try done; by no_yield end.

Lemma option_blocks i f n L :
  functions DIR JUNCTION EXCL FICLONE FICLONE_FORCE now fileobj checkarray checkmemory uv_sync
    uv_start uv_done strerror sched yieldable wait !! i = Some f ->
  [2; 4; 3; 3; 3; 3; 2; 3; 2; 6; 6; 3; 2; 2; 4; 3]%nat !! i = Some n ->
  (exists mode, arg L n = LString (String "~" mode)) ->
  forall f', functions DIR JUNCTION EXCL FICLONE FICLONE_FORCE now fileobj checkarray checkmemory uv_sync
    uv_start uv_done strerror sched true wait !! i = Some f' -> f.2.2 L = f'.2.2 L.
Proof.
  intros Hf Hn [mode Hm] f' Hf'.
  do 16 try (destruct i as [| i];
    [cbn in Hf, Hf', Hn; injection Hf as <-; injection Hf' as <-; injection Hn as <-; cbn [fst snd] |]);
    [.. | done].
  - unfold system_touchfile. destruct (checktouchargs_given now L INFO_LSTAT) as (-> & _).
    destruct (touch_args now L INFO_LSTAT) as [[? [? ?]] | | | | |]; cbn [rbind snd]; try done.
    by rewrite (touch_option L INFO_LSTAT mode Hm).
  - unfold system_ownfile. with_mode 4%nat. unfold checkprefixflags.
    pose proof (ownmode_loop (String "~" (c_string mode)) 0) as Hl.
    destruct (checkprefixflags_loop _ INFO_LSTAT 0) as [[| c rest] bits]; [| done].
    destruct Hl as (_ & Hl & _). by rewrite Hl.
  - unfold system_grantfile. destruct (argperm L 2); cbn [rbind]; try done. by_noyield 3%nat.
  - unfold system_linkfile. with_mode 3%nat.
    pose proof (linkfile_loop DIR JUNCTION (String "~" (c_string mode)) (0, 0)) as Hl.
    destruct (mode_loop _ (0, 0) _) as [[bits flags] | | | | |]; cbn [rbind]; try done.
    destruct Hl as (_ & Hl & _). by rewrite Hl.
  - unfold system_movefile. by_noyield 3%nat.
  - unfold system_copyfile. with_mode 3%nat.
    pose proof (copyfile_loop EXCL FICLONE FICLONE_FORCE (String "~" (c_string mode)) (false, 0)) as Hl.
    destruct (mode_loop _ (false, 0) _) as [[ny flags] | | | | |]; cbn [rbind]; try done.
    destruct Hl as (_ & Hl & _). by rewrite Hl.
  - unfold system_removefile. with_mode 2%nat.
    pose proof (rmfile_loop (String "~" (c_string mode)) 0) as Hl.
    destruct (mode_loop rmfile_char 0 _) as [bits | | | | |]; cbn [rbind]; try done.
    destruct Hl as (_ & Hl & _). by rewrite Hl.
  - unfold system_makedir. by_noyield 3%nat.
  - unfold file_close. destruct (tosched L); cbn [rbind]; try done. by_noyield 2%nat.
  - unfold file_read. destruct (tosched L); cbn [rbind]; try done. by_noyield 6%nat.
  - unfold file_write. destruct (tosched L); cbn [rbind]; try done. by_noyield 6%nat.
  - unfold file_resize. destruct (tosched L); cbn [rbind]; try done. by_noyield 3%nat.
  - unfold file_flush. destruct (tosched L); cbn [rbind]; try done. with_mode 2%nat.
    pose proof (flush_loop (String "~" (c_string mode)) 0) as Hl.
    destruct (mode_loop flush_char 0 _) as [bits | | | | |]; cbn [rbind]; try done.
    destruct Hl as (_ & Hl & _). by rewrite Hl.
  - unfold file_touch. destruct (tosched L); cbn [rbind]; try done.
    destruct (checktouchargs_given now L 0) as (-> & _).
    destruct (touch_args now L 0) as [[? [? ?]] | | | | |]; cbn [rbind snd]; try done.
    by rewrite (touch_option L 0 mode Hm).
  - unfold file_own. destruct (tosched L); cbn [rbind]; try done. by_noyield 4%nat.
  - unfold file_grant. destruct (tosched L); cbn [rbind]; try done.
    destruct (argperm L 2); cbn [rbind]; try done. by_noyield 3%nat.
Qed.
End blocking.

(** *** The properties *)

Section theorems.
Context {St : Type} `{!LuaStack St} `{!LuaArgs}.
Context (DIR JUNCTION EXCL FICLONE FICLONE_FORCE : Z).
Context (now : result Z) (fileobj checkarray checkmemory : lvalue -> option Z).
Context (uv_sync uv_start uv_done : uv_call -> Z) (strerror : Z -> string).
Context (sched : positive) (wait : option (list lvalue)).
Context (flags_small : small DIR /\ small JUNCTION /\ small EXCL /\ small FICLONE /\ small FICLONE_FORCE).
Context (sync_answers : forall c, uv_sync c = answer uv_start uv_done c).
Implicit Types (L : St).

Abbreviation all_functions yieldable :=
  (functions DIR JUNCTION EXCL FICLONE FICLONE_FORCE now fileobj checkarray checkmemory uv_sync
     uv_start uv_done strerror sched yieldable wait).

(** C27: each of the sixteen functions, called from a coroutine, refines its
    specification in both modes: it makes the one call of libuv that the arguments
    and the characters of the mode ask for, or fails as the first of them that is
    not valid, and it returns true, the number of bytes, or false and the error. *)
Theorem file_functions_refine (i : nat) f (L : St)
    (Hf : all_functions true !! i = Some f) :
  exists call, calls DIR JUNCTION EXCL FICLONE FICLONE_FORCE now fileobj checkarray checkmemory !! i = Some call /\
    f.2.2 L = (c <- call L;; Ok (c, answer_values uv_start uv_done strerror c)).
Proof using flags_small sync_answers.
  pose proof (functions_refine DIR JUNCTION EXCL FICLONE FICLONE_FORCE now fileobj checkarray checkmemory
    uv_sync uv_start uv_done strerror sched wait flags_small sync_answers) as Hall.
  destruct (Forall2_lookup_l _ _ _ _ _ Hall Hf) as (call & Hc & He). eauto.
Qed.

(** C28: the option in front of the mode of any of the functions changes neither the
    call that is made nor the values that are returned; and a function that is
    called with it does the same outside of a coroutine, where the others cannot
    yield. *)
Theorem option_changes_nothing (yieldable : bool) (i : nat) f f' (L L' : St)
    (Hf : all_functions true !! i = Some f) (Hf' : all_functions yieldable !! i = Some f')
    (Ho : with_option f.2.1 L L') :
  f'.2.2 L' = f.2.2 L.
Proof using flags_small sync_answers.
  assert ([2; 4; 3; 3; 3; 3; 2; 3; 2; 6; 6; 3; 2; 2; 4; 3]%nat !! i = Some f.2.1) as Hn.
  { clear -Hf. do 16 try (destruct i as [| i]; [cbn in *; by injection Hf as <- |]); done. }
  destruct (with_option_args _ L L' Ho) as (mode & _ & Hm & _).
  { clear -Hn. do 16 try (destruct i as [| i]; [cbn in *; injection Hn as <-; lia |]); done. }
  rewrite (option_blocks DIR JUNCTION EXCL FICLONE FICLONE_FORCE now fileobj checkarray checkmemory
    uv_sync uv_start uv_done strerror sched wait yieldable i f' f.2.1 L' Hf' Hn (ex_intro _ mode Hm) f Hf).
  pose proof (functions_refine DIR JUNCTION EXCL FICLONE FICLONE_FORCE now fileobj checkarray checkmemory
    uv_sync uv_start uv_done strerror sched wait flags_small sync_answers) as Hall.
  destruct (Forall2_lookup_l _ _ _ _ _ Hall Hf) as (call & Hc & He). rewrite !He.
  by rewrite (calls_option DIR JUNCTION EXCL FICLONE FICLONE_FORCE now fileobj checkarray checkmemory
    i f.2.1 call L L' Hc Hn Ho).
Qed.

(** A method that is called with something that is not a userdata does not
    raise an error: the scheduler is read from the argument before it is checked. *)
Theorem methods_trust_argument (yieldable : bool) (i : nat) f (L : St)
    (Hf : all_functions yieldable !! i = Some f) (Hm : (8 <= i)%nat)
    (Hu : forall p, arg L 1 <> LUserdata p) :
  f.2.2 L = Overrun.
Proof.
  assert (tosched L = Overrun) as Ht.
  { unfold tosched. destruct (arg L 1) eqn:E; try done. by destruct (Hu p). }
  do 8 (destruct i as [| i]; [lia |]).
  do 8 try (destruct i as [| i]; [cbn in Hf; injection Hf as <-; cbn [fst snd] |]); [.. | done];
    [ unfold file_close | unfold file_read | unfold file_write | unfold file_resize
    | unfold file_flush | unfold file_touch | unfold file_own | unfold file_grant ]; by rewrite Ht.
Qed.
End theorems.

Section fobjinfo.
Context {St : Type} `{!LuaStack St} `{!LuaArgs} (ntime2sec : Z * Z -> Z).
Context (fileobj : lvalue -> option Z) (uv_fs_fstat : bool -> Z -> Z * uv_fs_t).
Context (sched modeptr filereq : positive) (wait : option (list lvalue)).
Implicit Types (L : St).

Lemma c_string_idem s : c_string (c_string s) = c_string s.
Proof.
  induction s as [| c s IH]; cbn [c_string]; [done |]. case_decide; [done |].
  cbn [c_string]. by rewrite decide_False, IH.
Qed.

Definition stats (req : uv_fs_t) (mode : string) : list lvalue :=
  omap (fun c => pushfilestat ntime2sec c (fs_stat req)) (list_ascii_of_string mode).

Lemma values_push_stats L req mode :
  values (push_stats ntime2sec L req mode) = values L ++ stats req mode.
Proof.
  unfold push_stats, stats. generalize (list_ascii_of_string mode) as cs. intros cs. revert L.
  induction cs as [| c cs IH]; intros L; cbn [fold_left omap list_omap]; [by rewrite app_nil_r |].
  rewrite IH. destruct (pushfilestat ntime2sec c (fs_stat req)); [| done].
  rewrite values_push. by rewrite <- app_assoc.
Qed.

(** [File:info] gives the value of each character of the mode, in both modes
    and whatever follows the mode among the arguments: the light userdata with the
    mode is where the function for the results reads it. *)
Theorem fobjinfo_values (yieldable : bool) (L : St) (p : positive) (mode body : string) (bits : Z)
    (extra : list lvalue) (file : Z) (req : uv_fs_t)
    (HL : values L = LUserdata p :: LString mode :: extra)
    (Hfile : fileobj (LUserdata p) = Some file) (Hopen : 0 <= file)
    (Hmode : checkinfomode mode INFO_STAT = Ok (body, bits))
    (Huv : forall b, uv_fs_fstat b file = (0, req)) (Hreq : 0 <= fs_result req) :
  file_info ntime2sec fileobj uv_fs_fstat sched modeptr filereq yieldable wait L =
    if ctrue (Z.land bits INFO_NOYIELD) || yieldable then Ok (stats req body)
    else LuaError "unable to yield".
Proof.
  assert (checkinfomode (c_string mode) INFO_STAT = Ok (body, bits)) as Hmode'.
  { rewrite <- Hmode. unfold checkinfomode. by rewrite c_string_idem. }
  unfold file_info, tosched, checkstring. unfold arg at 1 2. rewrite HL. cbn [lookup list_lookup Nat.sub default from_option id].
  rewrite tolstring_string. cbn [rbind]. rewrite Hmode'. cbn [rbind]. set (L0 := lua_settop L 2).
  assert (values L0 = [LUserdata p; LString mode]) as HL0.
  { unfold L0. rewrite values_settop, HL. by destruct extra. }
  assert (forall L', (exists rest, values L' = LUserdata p :: LString mode :: rest) ->
    openedfile fileobj L' = Ok file) as Hof.
  { intros L' [rest HL']. unfold openedfile, arg. rewrite HL'. cbn. rewrite Hfile.
    by rewrite (proj2 (Z.leb_le _ _)). }
  destruct (ctrue (Z.land bits INFO_NOYIELD)); cbn [orb].
  - rewrite (Hof L0) by eauto. cbn [rbind]. rewrite Huv. cbn. f_equal.
    pose proof (values_push_stats L0 req body) as Hv. rewrite HL0 in Hv.
    apply (returned_app _ [LUserdata p; LString mode]); [by rewrite Hv |].
    unfold lua_gettop. rewrite Hv. cbn [length app]. lia.
  - destruct yieldable; unfold lcuT_resetcoreqk; [| done].
    set (L1 := lua_push L0 _).
    assert (values L1 = [LUserdata p; LString mode; LLightUserdata (Some modeptr)]) as HL1.
    { unfold L1. by rewrite values_push, HL0. }
    set (L2 := match wait with Some _ => _ | None => L1 end).
    assert (values L2 = values L1) as HL2 by (unfold L2; destruct wait; [apply values_after_previous | done]).
    unfold k_setupfobjinfo. rewrite (Hof L2) by (rewrite HL2, HL1; eauto). cbn [rbind]. rewrite Huv.
    cbn [rbind Z.ltb Z.compare]. rewrite startedopk_waits. cbv zeta. set (L3 := lua_remove _ _).
    assert (values L3 = values L1 ++ [LLightUserdata (Some filereq)]) as HL3.
    { rewrite <- HL2. apply values_without_sched. intros L'. apply values_push. }
    unfold returnfobjinfo. rewrite (proj2 (Z.leb_le _ _) Hreq).
    assert (values (lua_pop L3 1) = values L1) as HL4 by by apply (values_pop _ _ _ _ HL3).
    rewrite (arg_ext _ _ _ HL4). unfold arg. rewrite HL1. rewrite decide_True by done.
    cbn [rbind snd fst]. f_equal.
    pose proof (values_push_stats (lua_pop L3 1) req body) as Hv. rewrite HL4, HL1 in Hv.
    apply (returned_app _ [LUserdata p; LString mode; LLightUserdata (Some modeptr)]); [by rewrite Hv |].
    unfold lua_gettop. rewrite Hv. cbn [length app]. lia.
Qed.
End fobjinfo.

(** ** Examples *)

Abbreviation files_of := (fun v => match v with LUserdata 3 => Some 7 | _ => None end).
Abbreviation sizes_of := (fun v => match v with LString s => Some (Z.of_nat (String.length s)) | _ => None end).

(** A call that fails, and one that is done. *)
Definition example_done (c : uv_call) : Z :=
  match c with FsRename _ _ => -2 | FsWrite _ _ b _ => Buf.len b | _ => 0 end.
Definition example_start (c : uv_call) : Z := 0.
Definition example_sync (c : uv_call) : Z := example_done c.

Lemma example_sync_answers c : example_sync c = answer example_start example_done c.
Proof. reflexivity. Qed.

Abbreviation example_functions y w :=
  (functions (St := list lvalue) 1 2 1 2 4 (Ok 100) files_of sizes_of (fun _ => None) example_sync
     example_start example_done (fun _ => "no such file"%string) 9 y w).

Lemma small_flags : small 1 /\ small 2 /\ small 1 /\ small 2 /\ small 4.
Proof. by cbv. Qed.

Lemma file_functions_refine_witness :
  (exists f, example_functions true (Some [LInteger 1]) !! 3%nat = Some f /\
    f.2.2 [LString "a"; LString "b"; LString "jd"]
    = Ok (FsSymlink "a" "b" 3, [LBoolean true])) /\
  (exists f, example_functions true None !! 4%nat = Some f /\
    f.2.2 [LString "a"; LString "b"]
    = Ok (FsRename "a" "b", [LBoolean false; LString "no such file"; LInteger 2])).
Proof.
  split.
  - destruct (file_functions_refine (LuaStack0 := list_stack) 1 2 1 2 4 (Ok 100) files_of sizes_of
      (fun _ => None) example_sync example_start example_done (fun _ => "no such file"%string) 9
      (Some [LInteger 1]) small_flags example_sync_answers 3 _
      [LString "a"; LString "b"; LString "jd"] eq_refl) as (call & Hc & Hf).
    eexists. split; [reflexivity |]. rewrite Hf. injection Hc as <-. reflexivity.
  - destruct (file_functions_refine (LuaStack0 := list_stack) 1 2 1 2 4 (Ok 100) files_of sizes_of
      (fun _ => None) example_sync example_start example_done (fun _ => "no such file"%string) 9
      None small_flags example_sync_answers 4 _ [LString "a"; LString "b"] eq_refl) as (call & Hc & Hf).
    eexists. split; [reflexivity |]. rewrite Hf. injection Hc as <-. reflexivity.
Defined.

Lemma option_changes_nothing_witness :
  exists f f', example_functions true None !! 10%nat = Some f /\
    example_functions false None !! 10%nat = Some f' /\
    f'.2.2 [LUserdata 3; LString "hello"; LInteger 2; LInteger 4; LNil; LString "~"]
    = f.2.2 [LUserdata 3; LString "hello"; LInteger 2; LInteger 4; LNil; LString ""] /\
    f.2.2 [LUserdata 3; LString "hello"; LInteger 2; LInteger 4; LNil; LString ""]
    = Ok (FsWrite 7 (LString "hello") (Buf.Buf 1 3) (-1), [LInteger 3]).
Proof.
  do 2 eexists. split; [reflexivity |]. split; [reflexivity |]. split; [| reflexivity].
  apply (option_changes_nothing (LuaStack0 := list_stack) 1 2 1 2 4 (Ok 100) files_of sizes_of
    (fun _ => None) example_sync example_start example_done (fun _ => "no such file"%string) 9
    None small_flags example_sync_answers false 10); [reflexivity | reflexivity |].
  exists [LUserdata 3; LString "hello"; LInteger 2; LInteger 4; LNil], ""%string, []. by split.
Defined.

Lemma methods_trust_argument_witness :
  exists f, example_functions true None !! 8%nat = Some f /\ f.2.2 [LInteger 5] = Overrun.
Proof.
  eexists. split; [reflexivity |].
  apply (methods_trust_argument (LuaStack0 := list_stack) 1 2 1 2 4 (Ok 100) files_of sizes_of
    (fun _ => None) example_sync example_start example_done (fun _ => "no such file"%string) 9
    None true 8); [reflexivity | lia | done].
Defined.

Lemma fobjinfo_values_witness :
  let st := Stat (Some S_IFREG) 0x1ff 1 2 1 0 0 0 42 512 1 0 0 (0, 0) (0, 0) (0, 0) (0, 0) in
  let fstat := fun (_ : bool) (_ : Z) => (0, Fs 0 "" st (Statfs 0 0 0 0 0 0 0)) in
  let info := file_info (St := list lvalue) (fun _ => 0) files_of fstat 9 5 6 true (Some [LNil]) in
  info [LUserdata 3; LString "B?"; LNil] = Ok [LInteger 42; LString "file"].
Proof.
  intros st fstat info.
  refine (fobjinfo_values (LuaStack0 := list_stack) (fun _ => 0) files_of fstat 9 5 6 (Some [LNil]) true
    _ 3 "B?" "B?" 8 [LNil] 7 _ eq_refl eq_refl _ eq_refl (fun _ => eq_refl) _); done.
Defined.
