(* ===== verification/SockOps.v ===== *)
(** * The methods of sockets (src/src/lcommunf.c, lines 829 to 1590)

    Each of these methods checks its object, reads its arguments and makes one call
    of libuv: at once, or as the operation of the coroutine, which returns what the
    callback pushes.  [Sockets] has the methods that accept connections and those
    that tell addresses, [Stream] the ones that read. *)
From S2P Require Import Prelude Outcome LuaApi Results Buffers FileInfo Await UdataHandle NetAddr NetFind Sockets FileCalls.

Inductive class := UDPSOCKET | TCPACTIVE | TCPPASSIVE | PIPESHARE | PIPEACTIVE | PIPEPASSIVE | TERMSOCKET.
#[export] Instance class_eq_dec : EqDecision class.
Proof. solve_decision. Defined.

(** [LCU_UDPSOCKETCLS] and the others. *)
Definition class_name (c : class) : string :=
  match c with
  | UDPSOCKET => "coutil:udp" | TCPACTIVE => "coutil:tcpactive" | TCPPASSIVE => "coutil:tcppassive"
  | PIPESHARE => "coutil:pipeshare" | PIPEACTIVE => "coutil:pipeactive" | PIPEPASSIVE => "coutil:pipepassive"
  | TERMSOCKET => "coutil:terminal"
  end.

Record sock := Sock { sock_class : class; sock_flags : Z; handle : positive }.
Definition FLAG_UDPCONNECTED : Z := 0x04.

Inductive uv_call :=
  | UvClose (h : positive)
  | UdpBind (h : positive) (addr : lvalue)
  | UdpSetMembership (h : positive) (mcast : string) (iface : option string) (join : bool)
  | UdpSetSourceMembership (h : positive) (mcast : string) (iface : option string) (src : string) (join : bool)
  | UdpSetMulticastInterface (h : positive) (iface : option string)
  | UdpSetMulticastTtl (h : positive) (ttl : Z)
  | UdpSetMulticastLoop (h : positive) (on : bool)
  | UdpSetBroadcast (h : positive) (on : bool)
  | UdpConnect (h : positive) (addr : option lvalue)
  | UdpSend (h : positive) (data : lvalue) (buf : Buf.uv_buf_t) (addr : option lvalue)
  | UvShutdown (h : positive)
  | UvWrite (h : positive) (data : lvalue) (buf : Buf.uv_buf_t)
  | UvWrite2 (h : positive) (data : lvalue) (buf : Buf.uv_buf_t) (stream : option positive)
  | TcpBind (h : positive) (addr : lvalue)
  | TcpKeepalive (h : positive) (on : bool) (delay : Z)
  | TcpNodelay (h : positive) (on : bool)
  | TcpConnect (h : positive) (addr : lvalue)
  | PipeBind (h : positive) (name : string)
  | PipeChmod (h : positive) (flags : Z)
  | PipeConnect (h : positive) (name : string)
  | TtySetMode (h : positive) (mode : nat).

(** ** The methods *)
Section methods.
Context {St : Type} `{!LuaStack St} `{!LuaArgs}.
Context (UV_READABLE UV_WRITABLE : Z).
(** The object in a userdata when the method is called, and when its operation
    starts; an address; the size of a string or memory. *)
Context (object later : lvalue -> option sock).
Context (tonetaddr : lvalue -> option sockaddr) (checkarray : lvalue -> option Z).
(** libuv: what a call returns, and what its callback gets. *)
Context (uv uv_done : uv_call -> Z) (strerror : Z -> string).
Context (sched : positive) (yieldable : bool) (wait : option (list lvalue)).
Implicit Types (L : St).

Abbreviation outcome := (result (uv_call * list lvalue)).
Abbreviation setup_result := (result (uv_call * (Z * St))).

Definition sock_closed (s : sock) : bool := ctrue (lcuL_maskflag (sock_flags s) LCU_HANDLECLOSEDFLAG).

(** [luaL_checkudata], and [lcu_openedudhdl]. *)
Definition checkclass (c : class) L : result sock :=
  match object (arg L 1) with
  | Some s => if decide (sock_class s = c) then Ok s else ArgError 1 (class_name c +:+ " expected")
  | None => ArgError 1 (class_name c +:+ " expected")
  end.
Definition openedudhdl (c : class) L : result sock :=
  s <- checkclass c L;; _ <- luaL_argcheck (negb (sock_closed s)) 1 "closed object";; Ok s.

(** The setups take the object of the first argument as it is then. *)
Definition touserdata L : result sock := match later (arg L 1) with Some s => Ok s | None => Overrun end.

(** [lcuL_pushresults(L, 0, err)] with the error of the call. *)
Definition called L (c : uv_call) : outcome :=
  let r := Results.lcuL_pushresults strerror L 0 (uv c) in Ok (c, returned r.1 r.2).

(** [completereqop]; [uv_pipe_connect] returns nothing. *)
Definition completereqop L (c : uv_call) : St := (Results.lcuL_pushresults strerror L 0 (uv_done c)).2.
Definition started (c : uv_call) : Z := match c with PipeConnect _ _ => 0 | _ => uv c end.
Definition armed (c : uv_call) L : setup_result := arm started strerror c L id.
Definition resetcoreq L (setup : setup_t (Call := uv_call)) : outcome :=
  lcuT_resetcoreqk sched yieldable completereqop wait L setup None.

Definition checkoption L (i : nat) (def : option string) (opts : list string) : result nat :=
  s <- match def with Some def => optstring L i def | None => checkstring L i end;;
  luaL_checkoption (Z.of_nat i) opts s.

(** *** Every object *)

Definition object_gc (c : class) L : result (option uv_call) :=
  s <- checkclass c L;; Ok (if sock_closed s then None else Some (UvClose (handle s))).
Definition object_close (c : class) L : outcome :=
  s <- openedudhdl c L;; Ok (UvClose (handle s), returned 1 (lua_push L (LBoolean true))).

(** *** Addresses *)

Definition toobjaddr L (i : nat) (domain : family) : result lvalue :=
  match tonetaddr (arg L i) with
  | Some addr => _ <- chkaddrdom addr (Z.of_nat i) domain;; Ok (arg L i)
  | None => ArgError (Z.of_nat i) "coutil:netaddress expected"
  end.

(** *** UDP *)

Definition udp_bind L : outcome :=
  s <- openedudhdl UDPSOCKET L;;
  addr <- toobjaddr L 2 (Family.netdomainof (sock_flags s));;
  called L (UdpBind (handle s) addr).

Definition udp_options : list string :=
  ["mcastleave"; "mcastjoin"; "mcastiface"; "mcastttl"; "mcastloop"; "broadcast"]%string.

Definition udp_setoption L : outcome :=
  s <- openedudhdl UDPSOCKET L;;
  opt <- checkoption L 2 None udp_options;;
  match opt with
  | 0%nat | 1%nat =>
      mcast <- checkstring L 3;; iface <- optstring_null L 4;; src <- optstring_null L 5;;
      match src with
      | None => called L (UdpSetMembership (handle s) mcast iface (opt =? 1)%nat)
      | Some src => called L (UdpSetSourceMembership (handle s) mcast iface src (opt =? 1)%nat)
      end
  | 2%nat => iface <- optstring_null L 3;; called L (UdpSetMulticastInterface (handle s) iface)
  | 3%nat =>
      value <- checkinteger L 3;;
      _ <- luaL_argcheck ((0 <? value) && (value <? 256)) 3 "must be from 1 upto 255";;
      called L (UdpSetMulticastTtl (handle s) (int value))
  | 4%nat => called L (UdpSetMulticastLoop (handle s) (lua_toboolean L 3))
  | _ => called L (UdpSetBroadcast (handle s) (lua_toboolean L 3))
  end.

(** The flags of the object after a call. *)
Definition connected (err : Z) (addr : option lvalue) (flags : Z) : Z :=
  if 0 <=? err then
    match addr with
    | Some _ => lcuL_setflag flags FLAG_UDPCONNECTED
    | None => lcuL_clearflag flags FLAG_UDPCONNECTED
    end
  else flags.

(** An argument that is not given is not nil for [lua_isnil]. *)
Definition udp_connect L : result (Z * (uv_call * list lvalue)) :=
  s <- openedudhdl UDPSOCKET L;;
  addr <- (if decide (arg L 2 = LNil /\ (2 <= lua_gettop L)%nat) then Ok None
           else addr <- toobjaddr L 2 (Family.netdomainof (sock_flags s));; Ok (Some addr));;
  let c := UdpConnect (handle s) addr in
  r <- called L c;;
  Ok (connected (uv c) addr (sock_flags s), r).

Definition k_setupsend L : setup_result :=
  s <- touserdata L;;
  addr <- (if ctrue (lcuL_maskflag (sock_flags s) FLAG_UDPCONNECTED) then Ok None
           else addr <- toobjaddr L 5 (Family.netdomainof (sock_flags s));; Ok (Some addr));;
  buf <- getbuf checkarray L 2;;
  armed (UdpSend (handle s) (arg L 2) buf addr) L.

Definition udp_write L : outcome := _ <- openedudhdl UDPSOCKET L;; resetcoreq L k_setupsend.

(** *** Streams *)

Definition k_setupshutdown L : setup_result := s <- touserdata L;; armed (UvShutdown (handle s)) L.
Definition active_shutdown (c : class) L : outcome := _ <- openedudhdl c L;; resetcoreq L k_setupshutdown.

Definition k_setupwrite L : setup_result :=
  s <- touserdata L;; buf <- getbuf checkarray L 2;; armed (UvWrite (handle s) (arg L 2) buf) L.
Definition active_write (c : class) L : outcome := _ <- openedudhdl c L;; resetcoreq L k_setupwrite.

(** The classes of objects that can be sent. *)
Definition classes : list class := [TCPACTIVE; TCPPASSIVE; PIPEACTIVE; PIPEPASSIVE; PIPESHARE].

(** Something that is not a userdata is not sent; objects that are closed are. *)
Definition writeobj L : result (option positive) :=
  match arg L 5 with
  | LUserdata _ | LLightUserdata _ =>
      match later (arg L 5) with
      | Some s => if decide (sock_class s ∈ classes) then Ok (Some (handle s))
                  else ArgError 5 "writable object expected"
      | None => ArgError 5 "writable object expected"
      end
  | _ => Ok None
  end.

Definition k_setupwriteobj L : setup_result :=
  s <- touserdata L;; wrtstrm <- writeobj L;; buf <- getbuf checkarray L 2;;
  armed (UvWrite2 (handle s) (arg L 2) buf wrtstrm) L.
Definition pipe_write L : outcome := _ <- openedudhdl PIPESHARE L;; resetcoreq L k_setupwriteobj.

(** *** TCP *)

Definition tcp_bind (c : class) L : outcome :=
  s <- openedudhdl c L;;
  addr <- toobjaddr L 2 (Family.netdomainof (sock_flags s));;
  called L (TcpBind (handle s) addr).

Definition TcpOptions : list string := ["keepalive"; "nodelay"]%string.

(** The delay is converted to an [int] before it is checked. *)
Definition tcp_setoption L : outcome :=
  s <- openedudhdl TCPACTIVE L;;
  opt <- checkoption L 2 None TcpOptions;;
  let enabled := lua_toboolean L 3 in
  _ <- luaL_argcheck (3 <=? lua_gettop L)%nat 3 "value expected";;
  match opt with
  | 0%nat =>
      delay <- (if enabled then
                  delay <- checkinteger L 3;;
                  _ <- luaL_argcheck (0 <? int delay) 3 "invalid argument";; Ok (int delay)
                else Ok (-1));;
      called L (TcpKeepalive (handle s) enabled delay)
  | _ => called L (TcpNodelay (handle s) enabled)
  end.

Definition k_setuptcpconn L : setup_result :=
  s <- touserdata L;;
  addr <- toobjaddr L 2 (Family.netdomainof (sock_flags s));;
  armed (TcpConnect (handle s) addr) L.
Definition tcp_connect L : outcome := _ <- openedudhdl TCPACTIVE L;; resetcoreq L k_setuptcpconn.

(** *** Pipes *)

Definition pipe_bind (c : class) L : outcome :=
  s <- openedudhdl c L;; addr <- checkstring L 2;; called L (PipeBind (handle s) addr).

Definition PipeOptions : list string := ["permission"]%string.

Definition permission_char (flags : Z) (c : ascii) : result Z :=
  if decide (c = "r"%char) then Ok (Z.lor flags UV_READABLE)
  else if decide (c = "w"%char) then Ok (Z.lor flags UV_WRITABLE)
  else LuaError ("unknown option (got '" +:+ String c "')").

Definition pipe_setoption (c : class) L : outcome :=
  s <- openedudhdl c L;;
  _ <- checkoption L 2 None PipeOptions;;
  mode <- optstring L 3 "";;
  flags <- mode_loop permission_char 0 mode;;
  called L (PipeChmod (handle s) flags).

Definition k_setuppipeconn L : setup_result :=
  s <- touserdata L;; addr <- checkstring L 2;; armed (PipeConnect (handle s) addr) L.
Definition pipe_connect (c : class) L : outcome := _ <- openedudhdl c L;; resetcoreq L k_setuppipeconn.

(** *** Terminals *)

(** The list of the modes has no NULL after the last one: other names are compared
    with what follows it in memory. *)
Definition modes : list string := ["normal"; "raw"; "binary"]%string.
Definition terminal_setmode L : outcome :=
  s <- openedudhdl TERMSOCKET L;;
  name <- optstring L 2 "default";;
  match option_index 0 modes name with
  | Some mode => called L (TtySetMode (handle s) mode)
  | None => Overrun
  end.

(** [uv_tty_get_winsize] gives an error or the size. *)
Definition terminal_winsize (uv_tty_get_winsize : positive -> Z * (Z * Z)) L : result (list lvalue) :=
  s <- openedudhdl TERMSOCKET L;;
  let '(err, (width, height)) := uv_tty_get_winsize (handle s) in
  if ctrue err then let r := Results.lcuL_pusherrres strerror L err in Ok (returned r.1 r.2)
  else Ok (returned 2 (lua_push (lua_push L (LInteger width)) (LInteger height))).
End methods.

(** ** The tables of methods

    [lcuM_addcommunf]: the tables of functions, and those that are registered for
    each class, in order; later functions replace others of the same name.  A
    table that is registered with [lcuM_setfuncs(L, table, 1)] has the name of the
    class as an upvalue, which [toclass] gives. *)
Inductive method :=
  | M_object_close | M_ipsock_getdomain
  | M_udp_getaddress | M_udp_bind | M_udp_setoption | M_udp_connect | M_udp_write | M_udp_read
  | M_active_shutdown | M_active_write | M_active_read | M_passive_listen
  | M_tcp_getaddress | M_tcp_bind | M_tcp_setoption | M_tcp_connect | M_tcp_accept
  | M_pipe_getdomain | M_pipe_getaddress | M_pipe_bind | M_pipe_setoption
  | M_pipe_connect | M_pipe_accept | M_pipe_write | M_pipe_read
  | M_terminal_setmode | M_terminal_winsize.

Abbreviation luaL_Reg := (list (string * method)).
Definition object_reg : luaL_Reg := [("close"%string, M_object_close)].
Definition ip : luaL_Reg := [("getdomain"%string, M_ipsock_getdomain)].
Definition udpsocket : luaL_Reg :=
  [("getaddress"%string, M_udp_getaddress); ("bind"%string, M_udp_bind); ("setoption"%string, M_udp_setoption);
   ("connect"%string, M_udp_connect); ("write"%string, M_udp_write); ("read"%string, M_udp_read)].
Definition active : luaL_Reg :=
  [("shutdown"%string, M_active_shutdown); ("write"%string, M_active_write); ("read"%string, M_active_read)].
Definition passive : luaL_Reg := [("listen"%string, M_passive_listen)].
Definition tcpsocket : luaL_Reg := [("getaddress"%string, M_tcp_getaddress); ("bind"%string, M_tcp_bind)].
Definition tcpactive : luaL_Reg := [("setoption"%string, M_tcp_setoption); ("connect"%string, M_tcp_connect)].
Definition tcppassive : luaL_Reg := [("accept"%string, M_tcp_accept)].
Definition pipesocket : luaL_Reg :=
  [("getdomain"%string, M_pipe_getdomain); ("getaddress"%string, M_pipe_getaddress);
   ("bind"%string, M_pipe_bind); ("setoption"%string, M_pipe_setoption)].
Definition pipeactive : luaL_Reg := [("connect"%string, M_pipe_connect)].
Definition pipepassive : luaL_Reg := [("accept"%string, M_pipe_accept)].
Definition pipeipc : luaL_Reg := [("write"%string, M_pipe_write); ("read"%string, M_pipe_read)].
Definition terminal : luaL_Reg := [("setmode"%string, M_terminal_setmode); ("winsize"%string, M_terminal_winsize)].

(** The flag tells whether the table gets the upvalue. *)
Definition lcuM_addcommunf (c : class) : list (bool * luaL_Reg) :=
  match c with
  | UDPSOCKET => [(true, object_reg); (true, ip); (false, udpsocket)]
  | TCPACTIVE => [(true, object_reg); (true, ip); (true, tcpsocket); (true, active); (false, tcpactive)]
  | TCPPASSIVE => [(true, object_reg); (true, ip); (true, tcpsocket); (true, passive); (false, tcppassive)]
  | PIPESHARE => [(true, object_reg); (true, pipesocket); (true, active); (true, pipeactive); (false, pipeipc)]
  | PIPEACTIVE => [(true, object_reg); (true, pipesocket); (true, active); (true, pipeactive)]
  | PIPEPASSIVE => [(true, object_reg); (true, pipesocket); (true, passive); (false, pipepassive)]
  | TERMSOCKET => [(true, object_reg); (true, active); (false, terminal)]
  end.

(** The registered functions with their upvalue; the last of a name counts. *)
Definition registered (c : class) : list (string * (option class * method)) :=
  concat (map (fun t : bool * luaL_Reg =>
    map (fun f => (f.1, (if t.1 then Some c else None, f.2))) t.2) (lcuM_addcommunf c)).
Definition lookup_method (name : string) (fs : list (string * (option class * method)))
    : option (option class * method) :=
  fold_left (fun r f => if decide (f.1 = name) then Some f.2 else r) fs None.
Definition index_method (c : class) (name : string) : option (option class * method) :=
  lookup_method name (registered c).

Section run.
Context {St : Type} `{!LuaStack St} `{!LuaArgs}.
Context (UV_READABLE UV_WRITABLE : Z) (object later : lvalue -> option sock).
Context (tonetaddr : lvalue -> option sockaddr) (checkarray : lvalue -> option Z).
Context (uv uv_done : uv_call -> Z) (strerror : Z -> string).
Context (sched : positive) (yieldable : bool) (wait : option (list lvalue)).
Implicit Types (L : St).

Abbreviation outcome := (result (uv_call * list lvalue)).

(** [toclass] without an upvalue is NULL. *)
Definition toclass (up : option class) (f : class -> St -> outcome) L : outcome :=
  match up with Some c => f c L | None => Overrun end.

(** The methods that are modelled here. *)
Definition run (up : option class) (m : method) : option (St -> outcome) :=
  match m with
  | M_object_close => Some (toclass up (object_close object))
  | M_udp_bind => Some (udp_bind object tonetaddr uv strerror)
  | M_udp_setoption => Some (udp_setoption object uv strerror)
  | M_udp_connect => Some (fun L => r <- udp_connect object tonetaddr uv strerror L;; Ok r.2)
  | M_udp_write =>
      Some (udp_write object later tonetaddr checkarray uv uv_done strerror sched yieldable wait)
  | M_active_shutdown =>
      Some (toclass up (active_shutdown object later uv uv_done strerror sched yieldable wait))
  | M_active_write =>
      Some (toclass up (active_write object later checkarray uv uv_done strerror sched yieldable wait))
  | M_tcp_bind => Some (toclass up (tcp_bind object tonetaddr uv strerror))
  | M_tcp_setoption => Some (tcp_setoption object uv strerror)
  | M_tcp_connect =>
      Some (tcp_connect object later tonetaddr uv uv_done strerror sched yieldable wait)
  | M_pipe_bind => Some (toclass up (pipe_bind object uv strerror))
  | M_pipe_setoption => Some (toclass up (pipe_setoption UV_READABLE UV_WRITABLE object uv strerror))
  | M_pipe_connect =>
      Some (toclass up (pipe_connect object later uv uv_done strerror sched yieldable wait))
  | M_pipe_write =>
      Some (pipe_write object later checkarray uv uv_done strerror sched yieldable wait)
  | M_terminal_setmode => Some (terminal_setmode object uv strerror)
  | _ => None
  end.
End run.

(** *** Properties *)

(** The handle of a call, and whether the call has a callback. *)
Definition target (c : uv_call) : positive :=
  match c with
  | UvClose h | UdpBind h _ | UdpSetMembership h _ _ _ | UdpSetSourceMembership h _ _ _ _
  | UdpSetMulticastInterface h _ | UdpSetMulticastTtl h _ | UdpSetMulticastLoop h _
  | UdpSetBroadcast h _ | UdpConnect h _ | UdpSend h _ _ _ | UvShutdown h | UvWrite h _ _
  | UvWrite2 h _ _ _ | TcpBind h _ | TcpKeepalive h _ _ | TcpNodelay h _ | TcpConnect h _
  | PipeBind h _ | PipeChmod h _ | PipeConnect h _ | TtySetMode h _ => h
  end.
Definition waits (c : uv_call) : bool :=
  match c with
  | UdpSend _ _ _ _ | UvShutdown _ | UvWrite _ _ _ | UvWrite2 _ _ _ _ | TcpConnect _ _ | PipeConnect _ _ => true
  | _ => false
  end.

Section answers.
Context (uv uv_done : uv_call -> Z) (strerror : Z -> string).
(** What libuv tells of a call in the end; closing always succeeds. *)
Definition final (c : uv_call) : Z :=
  match c with
  | UvClose _ => 0
  | _ => if waits c then (if started uv c <? 0 then started uv c else uv_done c) else uv c
  end.
Definition final_values (c : uv_call) : list lvalue :=
  if final c <? 0 then [LBoolean false; LString (strerror (final c)); LInteger (- final c)]
  else [LBoolean true].
End answers.

Section properties.
Context {St : Type} `{!LuaStack St} `{!LuaArgs}.
Context (UV_READABLE UV_WRITABLE : Z) (object later : lvalue -> option sock).
Context (tonetaddr : lvalue -> option sockaddr) (checkarray : lvalue -> option Z).
Context (uv uv_done : uv_call -> Z) (strerror : Z -> string).
Context (sched : positive) (yieldable : bool) (wait : option (list lvalue)).
Implicit Types (L : St).

(** Objects keep their class and their handle. *)
Context (object_stays : forall v s, object v = Some s ->
  exists s', later v = Some s' /\ sock_class s' = sock_class s /\ handle s' = handle s).

Abbreviation run := (run UV_READABLE UV_WRITABLE object later tonetaddr checkarray uv uv_done strerror sched).

(** Reading arguments neither leaves the bounds of anything nor asserts. *)
Definition safe {A} (r : result A) : Prop := r <> Overrun /\ r <> AssertFail.

Lemma safe_bind {A B} (r : result A) (f : A -> result B) : safe r -> (forall a, safe (f a)) -> safe (a <- r;; f a).
Proof. intros [H1 H2] Hf. destruct r; cbn [rbind]; try apply Hf; done. Qed.

Lemma safe_ok {A} (a : A) : safe (Ok a).
Proof. done. Qed.
Lemma safe_argcheck cond i msg : safe (luaL_argcheck cond i msg).
Proof. by destruct cond. Qed.
Lemma safe_checkstring L i : safe (checkstring L i).
Proof. unfold checkstring. by destruct (lua_tolstring _). Qed.
Lemma safe_optstring L i def : safe (optstring L i def).
Proof. unfold optstring. case_decide; [done | apply safe_checkstring]. Qed.
Lemma safe_checkinteger L i : safe (checkinteger L i).
Proof. unfold checkinteger. by destruct (lua_tointegerx _). Qed.
Lemma safe_optinteger L i def : safe (optinteger L i def).
Proof. unfold optinteger. case_decide; [done | apply safe_checkinteger]. Qed.
Lemma safe_optstring_null L i : safe (optstring_null L i).
Proof. unfold optstring_null. case_decide; [done |]. apply safe_bind; [apply safe_checkstring | done]. Qed.
Lemma safe_checkoption L i def opts : safe (checkoption L i def opts).
Proof.
  unfold checkoption. apply safe_bind; [destruct def; [apply safe_optstring | apply safe_checkstring] |].
  intros a. unfold luaL_checkoption. by destruct (option_index 0 opts a).
Qed.
Lemma safe_toobjaddr L i domain : safe (toobjaddr tonetaddr L i domain).
Proof.
  unfold toobjaddr. destruct (tonetaddr _); [| done]. apply safe_bind; [apply safe_argcheck | done].
Qed.
Lemma safe_getbuf L i : safe (getbuf checkarray L i).
Proof.
  unfold getbuf. destruct (checkarray _); [| done].
  do 2 (apply safe_bind; [apply safe_optinteger | intros ?]). done.
Qed.
Lemma safe_writeobj L : safe (writeobj later L).
Proof. unfold writeobj. destruct (arg L 5); try done; destruct (later _); try done; by case_decide. Qed.
Lemma safe_permission flags mode : safe (mode_loop (permission_char UV_READABLE UV_WRITABLE) flags mode).
Proof.
  revert flags. induction mode as [| c mode IH]; intros flags; cbn [mode_loop]; [done |].
  apply safe_bind; [unfold permission_char; by repeat case_decide | apply IH].
Qed.

(** The calls of a method on handle [h], from a coroutine. *)
Definition good (h : positive) (r : result (uv_call * list lvalue)) : Prop :=
  r <> Overrun /\ r <> AssertFail /\
  forall c vs, r = Ok (c, vs) -> target c = h /\ vs = final_values uv uv_done strerror c.

Lemma good_bind {A} h (r : result A) (f : A -> result (uv_call * list lvalue)) :
  safe r -> (forall a, r = Ok a -> good h (f a)) -> good h (a <- r;; f a).
Proof. intros [H1 H2] H3. destruct r; cbn [rbind]; try (by apply H3); unfold good; naive_solver. Qed.

Lemma good_called h L c :
  target c = h -> waits c = false -> (forall h, c <> UvClose h) -> good h (called uv strerror L c).
Proof.
  intros Ht Hw Hc. unfold called. split; [done |]. split; [done |]. intros c' vs [= <- <-]. split; [done |].
  assert (final uv uv_done c = uv c) as Hf by (destruct c; cbn in *; done || by destruct (Hc h0)).
  unfold final_values. rewrite Hf. unfold Results.lcuL_pushresults.
  destruct (uv c <? 0); cbn [Nat.eqb fst snd].
  - apply (returned_app _ (values L)); [| done]. rewrite values_errres. 
    by rewrite (values_pop L (values L) []) by (rewrite ?app_nil_r; done).
  - apply (returned_app _ (values L)); [apply values_push | done].
Qed.

(** The operation of the coroutine: [check] is the part of the setup that makes the
    call. *)
Lemma good_reset h L (setup : setup_t (Call := uv_call)) (check : result uv_call) :
  yieldable = true -> safe check ->
  (forall c, check = Ok c -> target c = h /\ waits c = true) ->
  (forall L', values L' = values L -> setup L' = (c <- check;; armed uv strerror c L')) ->
  good h (resetcoreq uv_done strerror sched yieldable wait L setup).
Proof.
  intros Hy Hsafe Hc Hs. unfold resetcoreq.
  rewrite (resetcoreqk_none sched yieldable (started uv) (fun L c => completereqop uv_done strerror L c)
    strerror wait L setup check (fun c => if uv_done c <? 0
      then [LBoolean false; LString (strerror (uv_done c)); LInteger (- uv_done c)] else [LBoolean true]) Hy Hs)
    by (intros; apply values_pushresults0).
  apply good_bind; [done |]. intros c Hk. destruct (Hc c Hk) as [Ht Hw].
  split; [done |]. split; [done |]. intros c' vs [= <- <-]. split; [done |].
  unfold final_values. assert (final uv uv_done c = if started uv c <? 0 then started uv c else uv_done c) as ->.
  { destruct c; cbn in Hw; done || (cbn -[Z.ltb]; by rewrite Hw). }
  destruct (started uv c <? 0) eqn:Hneg; [by rewrite Hneg | done].
Qed.

Definition opened (c : class) L (s : sock) : Prop :=
  object (arg L 1) = Some s /\ sock_class s = c /\ sock_closed s = false.

Lemma openedudhdl_ok c L s : openedudhdl object c L = Ok s <-> opened c L s.
Proof.
  unfold openedudhdl, checkclass, opened.
  destruct (object (arg L 1)) as [s' |]; [| split; [done | by intros (? & _)]].
  destruct (decide (sock_class s' = c)) as [He | He]; cbn [rbind].
  - destruct (sock_closed s') eqn:Hc; cbn; split; [done | | by intros [= <-] | by intros ([= <-] & _ & _)].
    intros ([= <-] & _ & ?). congruence.
  - split; [done |]. by intros ([= <-] & ? & _).
Qed.

Lemma openedudhdl_bad c L :
  (forall s, ~ opened c L s) -> exists msg, openedudhdl object c L = ArgError 1 msg.
Proof.
  intros Hn. unfold opened, openedudhdl, checkclass in *. destruct (object (arg L 1)) as [s' |]; [| eauto].
  case_decide; [| eauto]. cbn [rbind]. destruct (sock_closed s') eqn:Hc; cbn; [eauto |].
  by destruct (Hn s').
Qed.

(** What follows the check of the object. *)
Lemma method_ok {B} c L s (f : sock -> result B) : opened c L s -> (x <- openedudhdl object c L;; f x) = f s.
Proof. intros ->%openedudhdl_ok. done. Qed.

Lemma method_bad {B} c L (f : sock -> result B) :
  (forall s, ~ opened c L s) -> exists msg, (x <- openedudhdl object c L;; f x) = ArgError 1 msg.
Proof. intros (msg & ->)%openedudhdl_bad. by exists msg. Qed.

Lemma touserdata_opened c L L' s :
  opened c L s -> values L' = values L ->
  exists s', later (arg L 1) = Some s' /\ touserdata later L' = Ok s' /\ handle s' = handle s.
Proof using object_stays.
  intros (Ho & _) HL. destruct (object_stays _ _ Ho) as (s' & Hs & _ & Hh). exists s'.
  split; [done |]. split; [| done]. unfold touserdata. by rewrite (arg_ext _ _ _ HL), Hs.
Qed.

Lemma toobjaddr_ext L L' i d : values L' = values L -> toobjaddr tonetaddr L' i d = toobjaddr tonetaddr L i d.
Proof. intros HL. unfold toobjaddr. by rewrite (arg_ext _ _ _ HL). Qed.
Lemma checkstring_ext L L' i : values L' = values L -> checkstring L' i = checkstring L i.
Proof. intros HL. unfold checkstring. by rewrite (arg_ext _ _ _ HL). Qed.
Lemma writeobj_ext L L' : values L' = values L -> writeobj later L' = writeobj later L.
Proof. intros HL. unfold writeobj. by rewrite (arg_ext _ _ _ HL). Qed.

Lemma rbind_assoc {A B D} (r : result A) (f : A -> result B) (g : B -> result D) :
  (b <- (a <- r;; f a);; g b) = (a <- r;; b <- f a;; g b).
Proof. by destruct r. Qed.

Lemma rbind_same {A B} (r : result A) (f g : A -> result B) :
  (forall a, f a = g a) -> (a <- r;; f a) = (a <- r;; g a).
Proof. intros Hfg. destruct r; cbn [rbind]; done || apply Hfg. Qed.

(** A method for objects of class [c]. *)
Definition method_good (c : class) (f : St -> result (uv_call * list lvalue)) : Prop :=
  forall L, (forall s, opened c L s -> good (handle s) (f L)) /\
    ((forall s, ~ opened c L s) -> exists msg, f L = ArgError 1 msg).

(** ... whose call is made at once. *)
Lemma called_method c f (g : sock -> St -> result (uv_call * list lvalue)) :
  (forall L, f L = (s <- openedudhdl object c L;; g s L)) ->
  (forall L s, good (handle s) (g s L)) -> method_good c f.
Proof.
  intros Hf Hg L. rewrite Hf. split; [| apply method_bad].
  intros s Ho. rewrite (method_ok c L s _ Ho). apply Hg.
Qed.

(** ... whose call is made by a setup. *)
Lemma waiting_method c f (setup : setup_t (Call := uv_call)) (check : sock -> St -> result uv_call) :
  yieldable = true ->
  (forall L, f L = (_ <- openedudhdl object c L;; resetcoreq uv_done strerror sched yieldable wait L setup)) ->
  (forall L, setup L = (s <- touserdata later L;; k <- check s L;; armed uv strerror k L)) ->
  (forall L L' s, values L' = values L -> check s L' = check s L) ->
  (forall s L, safe (check s L)) ->
  (forall s L k, check s L = Ok k -> target k = handle s /\ waits k = true) ->
  method_good c f.
Proof using object_stays.
  intros Hy Hf Hsetup Hext Hsafe Hc L. rewrite Hf. split; [| apply method_bad].
  intros s Ho. rewrite (method_ok c L s _ Ho).
  destruct (touserdata_opened c L L s Ho eq_refl) as (s' & Hl & _ & Hh).
  apply (good_reset _ _ _ (check s' L)); [done | apply Hsafe | |].
  - intros k Hk. rewrite <- Hh. by apply (Hc s' L).
  - intros L' HL'. rewrite Hsetup. destruct (touserdata_opened c L L' s Ho HL') as (s2 & Hl2 & -> & _).
    cbn [rbind]. assert (s2 = s') as -> by congruence. by rewrite (Hext L L').
Qed.

Ltac solve_safe := repeat first
  [ apply safe_ok | apply safe_argcheck | apply safe_checkstring | apply safe_optstring | apply safe_checkinteger
  | apply safe_optstring_null | apply safe_checkoption | apply safe_toobjaddr | apply safe_getbuf
  | apply safe_writeobj | apply safe_permission | apply safe_bind; [| intros ?] | case_match ].
Ltac solve_called := intros ? ?;
  repeat first [ apply good_called; [done | done | intros ? ?; discriminate]
               | apply good_bind; [solve_safe | intros ? _] | case_match ].
Ltac solve_waiting Hy chk :=
  eapply (waiting_method _ _ _ chk);
  [ exact Hy | done
  | intros ?; apply rbind_same; intros ?; rewrite ?rbind_assoc; first
      [ done | apply rbind_same; intros ?; rewrite ?rbind_assoc; first [ done | apply rbind_same; intros ?; done ] ]
  | intros ? ? ? HL'; cbv beta;
    rewrite ?(toobjaddr_ext _ _ _ _ HL'), ?(checkstring_ext _ _ _ HL'), ?(getbuf_ext _ _ _ _ HL'),
      ?(writeobj_ext _ _ HL'), ?(arg_ext _ _ _ HL'); done
  | intros ? ?; cbv beta; solve_safe
  | intros ? ? ?; cbv beta; repeat (intros (? & _ & ?)%rbind_ok; revert select (_ = Ok _)); by intros [= <-] ].

Lemma udp_bind_good : method_good UDPSOCKET (udp_bind object tonetaddr uv strerror).
Proof. eapply called_method; [done | solve_called]. Qed.
Lemma udp_setoption_good : method_good UDPSOCKET (udp_setoption object uv strerror).
Proof. eapply called_method; [done | solve_called]. Qed.
Lemma tcp_bind_good c : method_good c (tcp_bind object tonetaddr uv strerror c).
Proof. eapply called_method; [done | solve_called]. Qed.
Lemma tcp_setoption_good : method_good TCPACTIVE (tcp_setoption object uv strerror).
Proof. eapply called_method; [done | solve_called]. Qed.
Lemma pipe_bind_good c : method_good c (pipe_bind object uv strerror c).
Proof. eapply called_method; [done | solve_called]. Qed.
Lemma pipe_setoption_good c : method_good c (pipe_setoption UV_READABLE UV_WRITABLE object uv strerror c).
Proof. eapply called_method; [done | solve_called]. Qed.
Lemma udp_connect_good :
  method_good UDPSOCKET (fun L => r <- udp_connect object tonetaddr uv strerror L;; Ok r.2).
Proof.
  eapply (called_method _ _ (fun s L =>
    addr <- (if decide (arg L 2 = LNil /\ (2 <= lua_gettop L)%nat) then Ok None
             else addr <- toobjaddr tonetaddr L 2 (Family.netdomainof (sock_flags s));; Ok (Some addr));;
    called uv strerror L (UdpConnect (handle s) addr))).
  - intros L. unfold udp_connect. rewrite rbind_assoc. apply rbind_same. intros s. rewrite rbind_assoc.
    apply rbind_same. intros addr. done.
  - solve_called.
Qed.

Lemma object_close_good c : method_good c (object_close object c).
Proof.
  eapply called_method; [done |]. intros L s. split; [done |]. split; [done |]. intros k vs [= <- <-].
  split; [done |]. apply (returned_app _ (values L)); [apply values_push | done].
Qed.

Lemma udp_write_good :
  yieldable = true ->
  method_good UDPSOCKET (udp_write object later tonetaddr checkarray uv uv_done strerror sched yieldable wait).
Proof using object_stays.
  intros Hy. solve_waiting Hy (fun s L =>
    addr <- (if ctrue (lcuL_maskflag (sock_flags s) FLAG_UDPCONNECTED) then Ok None
             else addr <- toobjaddr tonetaddr L 5 (Family.netdomainof (sock_flags s));; Ok (Some addr));;
    buf <- getbuf checkarray L 2;; Ok (UdpSend (handle s) (arg L 2) buf addr)).
Qed.

Lemma active_shutdown_good c :
  yieldable = true ->
  method_good c (active_shutdown object later uv uv_done strerror sched yieldable wait c).
Proof using object_stays.
  intros Hy. solve_waiting Hy (fun (s : sock) (L : St) => Ok (UvShutdown (handle s)) : result uv_call).
Qed.

Lemma active_write_good c :
  yieldable = true ->
  method_good c (active_write object later checkarray uv uv_done strerror sched yieldable wait c).
Proof using object_stays.
  intros Hy. solve_waiting Hy (fun (s : sock) (L : St) =>
    buf <- getbuf checkarray L 2;; Ok (UvWrite (handle s) (arg L 2) buf)).
Qed.

Lemma pipe_write_good :
  yieldable = true ->
  method_good PIPESHARE (pipe_write object later checkarray uv uv_done strerror sched yieldable wait).
Proof using object_stays.
  intros Hy. solve_waiting Hy (fun (s : sock) (L : St) =>
    stream <- writeobj later L;; buf <- getbuf checkarray L 2;; Ok (UvWrite2 (handle s) (arg L 2) buf stream)).
Qed.

Lemma tcp_connect_good :
  yieldable = true ->
  method_good TCPACTIVE (tcp_connect object later tonetaddr uv uv_done strerror sched yieldable wait).
Proof using object_stays.
  intros Hy. solve_waiting Hy (fun (s : sock) (L : St) =>
    addr <- toobjaddr tonetaddr L 2 (Family.netdomainof (sock_flags s));; Ok (TcpConnect (handle s) addr)).
Qed.

Lemma pipe_connect_good c :
  yieldable = true ->
  method_good c (pipe_connect object later uv uv_done strerror sched yieldable wait c).
Proof using object_stays.
  intros Hy. solve_waiting Hy (fun (s : sock) (L : St) =>
    addr <- checkstring L 2;; Ok (PipeConnect (handle s) addr)).
Qed.

(** The class that a method in the table of class [c] checks for. *)
Lemma registered_method c name up m :
  index_method c name = Some (up, m) ->
  up = Some c \/ (up = None /\
    match m with
    | M_udp_bind | M_udp_setoption | M_udp_connect | M_udp_write => c = UDPSOCKET
    | M_tcp_setoption | M_tcp_connect => c = TCPACTIVE
    | M_pipe_write => c = PIPESHARE
    | M_terminal_setmode => c = TERMSOCKET
    | M_object_close | M_active_shutdown | M_active_write | M_tcp_bind
    | M_pipe_bind | M_pipe_setoption | M_pipe_connect => False
    | _ => True
    end).
Proof.
  unfold index_method, lookup_method, registered.
  destruct c; cbn; repeat case_decide; intros Hx; try discriminate Hx; injection Hx as <- <-; auto.
Qed.

(** With the upvalue, the methods that name their class are those of the tables
    that do not get it. *)
Lemma index_good c name up m f :
  yieldable = true -> index_method c name = Some (up, m) -> m <> M_terminal_setmode ->
  run yieldable wait up m = Some f -> method_good c f.
Proof using object_stays.
  intros Hy Hi Hne. pose proof Hi as Hi'. apply registered_method in Hi'.
  assert (match m with
    | M_udp_bind | M_udp_setoption | M_udp_connect | M_udp_write | M_tcp_setoption | M_tcp_connect
    | M_pipe_write | M_terminal_setmode => up = None | _ => True end) as Hno.
  { revert Hi. unfold index_method, lookup_method, registered.
    destruct c; cbn; repeat case_decide; intros Hx; try discriminate Hx; by injection Hx as <- <-. }
  destruct m; cbn [run SockOps.run toclass]; try done; intros [= <-];
    (destruct Hi' as [-> | [-> Hc]]; [try discriminate Hno | try done; subst c]); unfold toclass.
  - apply object_close_good.
  - apply udp_bind_good.
  - apply udp_setoption_good.
  - apply udp_connect_good.
  - by apply udp_write_good.
  - by apply active_shutdown_good.
  - by apply active_write_good.
  - apply tcp_bind_good.
  - apply tcp_setoption_good.
  - by apply tcp_connect_good.
  - apply pipe_bind_good.
  - apply pipe_setoption_good.
  - by apply pipe_connect_good.
  - by apply pipe_write_good.
Qed.


Lemma option_index_none name : forall opts i, option_index i opts name = None <-> name ∉ opts.
Proof.
  induction opts as [| o opts IH]; intros i; cbn [option_index]; [split; [intros _; apply not_elem_of_nil | done] |].
  rewrite not_elem_of_cons. destruct (String.eqb_spec o name) as [-> | Hne]; [split; [done | by intros [? _]] |].
  rewrite IH. split; [intros ?; split; [congruence | done] | by intros [_ ?]].
Qed.

(** [Terminal:setmode] reads beyond the list of the modes exactly when the mode
    is not in it, which includes the default when no mode is given. *)
Theorem setmode_overruns L s (Ho : opened TERMSOCKET L s) :
  (terminal_setmode object uv strerror L = Overrun <->
     exists name, optstring L 2 "default" = Ok name /\ name ∉ modes) /\
  (arg L 2 = LNil -> terminal_setmode object uv strerror L = Overrun).
Proof.
  assert (terminal_setmode object uv strerror L =
    (name <- optstring L 2 "default";;
     match option_index 0 modes name with
     | Some mode => called uv strerror L (TtySetMode (handle s) mode) | None => Overrun end)) as ->.
  { apply openedudhdl_ok in Ho. unfold terminal_setmode. by rewrite Ho. }
  assert (forall name, option_index 0 modes name = None <-> name ∉ modes) as Hin
    by (intros name; exact (option_index_none name modes 0%nat)).
  split.
  - destruct (optstring L 2 "default") as [name | | | | |] eqn:Hn; cbn [rbind];
      try (split; [done | by intros (? & ? & _)]);
      [| by destruct (safe_optstring L 2 "default")].
    destruct (option_index 0 modes name) eqn:Hx.
    + split; [by unfold called |]. intros (? & [= <-] & Hx'%Hin). congruence.
    + split; [| done]. intros _. exists name. split; [done |]. by apply Hin.
  - intros Hnil. unfold optstring. rewrite decide_True by done. done.
Qed.
End properties.

(** ** Where datagrams go *)

(** Calls of [udp:connect], each with its address and the result of libuv. *)
Definition connects (flags : Z) (cs : list (option lvalue * Z)) : Z :=
  fold_left (fun flags c => connected c.2 c.1 flags) cs flags.

(** Whether the last that libuv accepted had an address. *)
Definition has_peer (cs : list (option lvalue * Z)) : bool :=
  match last (filter (fun c => (0 <=? c.2) = true) cs) with
  | Some (Some _, _) => true
  | _ => false
  end.


Lemma connects_peer flags cs :
  Z.testbit flags 2 = false -> Z.testbit (connects flags cs) 2 = has_peer cs.
Proof.
  intros Hf. unfold connects, has_peer.
  induction cs as [| [addr err] cs IH] using rev_ind; [exact Hf |].
  rewrite fold_left_app. cbn [fold_left fst snd]. rewrite filter_app, filter_cons. unfold connected.
  cbn [snd]. destruct (0 <=? err) eqn:He.
  - rewrite decide_True by done. cbn [filter list_filter]. rewrite last_snoc.
    destruct addr; unfold lcuL_setflag, lcuL_clearflag.
    + rewrite Z.lor_spec. change FLAG_UDPCONNECTED with (2 ^ 2). by rewrite Z.pow2_bits_true, orb_true_r.
    + rewrite Z.land_spec, Z.lnot_spec by done. change FLAG_UDPCONNECTED with (2 ^ 2).
      by rewrite Z.pow2_bits_true, andb_false_r.
  - rewrite decide_False by done. cbn [filter list_filter]. by rewrite app_nil_r.
Qed.

(** The other flags of the object stay. *)
Lemma connects_other flags cs k : 0 <= k -> k <> 2 -> Z.testbit (connects flags cs) k = Z.testbit flags k.
Proof.
  intros Hk Hk2. unfold connects. revert flags. induction cs as [| [addr err] cs IH]; intros flags; [done |].
  cbn [fold_left fst snd]. rewrite IH. unfold connected. destruct (0 <=? err); [| done].
  destruct addr; unfold lcuL_setflag, lcuL_clearflag; change FLAG_UDPCONNECTED with (2 ^ 2).
  - rewrite Z.lor_spec, Z.pow2_bits_false by lia. apply orb_false_r.
  - rewrite Z.land_spec, Z.lnot_spec, Z.pow2_bits_false by lia. apply andb_true_r.
Qed.

Section datagrams.
Context {St : Type} `{!LuaStack St} `{!LuaArgs}.
Context (object later : lvalue -> option sock).
Context (tonetaddr : lvalue -> option sockaddr) (checkarray : lvalue -> option Z).
Context (uv uv_done : uv_call -> Z) (strerror : Z -> string).
Context (sched : positive) (wait : option (list lvalue)).
Implicit Types (L : St).

(** Whatever connects an object was used for since it was made, accepted or
    not, the family of its addresses and whether it is open are as they were; and
    the datagrams that are written to it go to the peer exactly when the last
    connect that was accepted had an address, and otherwise to the address that is
    given, which must be of the family of the object. *)
Theorem udp_write_destination flags cs h L (s : sock)
    (Hf : Z.testbit flags 2 = false)
    (Ho : opened object UDPSOCKET L s)
    (Hl : later (arg L 1) = Some (Sock UDPSOCKET (connects flags cs) h)) :
  Family.netdomainof (connects flags cs) = Family.netdomainof flags /\
  sock_closed (Sock UDPSOCKET (connects flags cs) h) = sock_closed (Sock UDPSOCKET flags h) /\
  udp_write object later tonetaddr checkarray uv uv_done strerror sched true wait L =
    (addr <- (if has_peer cs then Ok None
              else addr <- toobjaddr tonetaddr L 5 (Family.netdomainof flags);; Ok (Some addr));;
     buf <- getbuf checkarray L 2;;
     let c := UdpSend h (arg L 2) buf addr in Ok (c, final_values uv uv_done strerror c)).
Proof.
  assert (Family.netdomainof (connects flags cs) = Family.netdomainof flags) as Hd.
  { unfold Family.netdomainof. change Family.LCU_SOCKIPV6FLAG with (2 ^ 1).
    rewrite !ctrue_maskflag_bit by lia. by rewrite connects_other. }
  split; [exact Hd |]. split.
  { unfold sock_closed. cbn [sock_flags]. change LCU_HANDLECLOSEDFLAG with (2 ^ 0).
    rewrite !ctrue_maskflag_bit by lia. by rewrite connects_other. }
  unfold udp_write. rewrite (proj2 (openedudhdl_ok object UDPSOCKET L s) Ho). cbn [rbind].
  unfold resetcoreq. rewrite (resetcoreqk_none sched true (started uv) (fun L c => completereqop uv_done strerror L c)
    strerror wait L _ (addr <- (if has_peer cs then Ok None
              else addr <- toobjaddr tonetaddr L 5 (Family.netdomainof flags);; Ok (Some addr));;
     buf <- getbuf checkarray L 2;; Ok (UdpSend h (arg L 2) buf addr)) (fun c => if uv_done c <? 0
      then [LBoolean false; LString (strerror (uv_done c)); LInteger (- uv_done c)] else [LBoolean true])).
  - rewrite !rbind_assoc. apply rbind_same. intros addr. rewrite !rbind_assoc. apply rbind_same. intros buf.
    cbn [rbind]. cbv zeta. do 2 f_equal. unfold final_values. cbn [final waits started].
    destruct (uv (UdpSend h (arg L 2) buf addr) <? 0) eqn:Hn; [by rewrite Hn | done].
  - done.
  - intros L' HL'. unfold k_setupsend, touserdata. rewrite !(arg_ext _ _ _ HL'), Hl. cbn [rbind sock_flags handle].
    rewrite Hd, (toobjaddr_ext _ _ _ _ _ HL'), (getbuf_ext _ _ _ _ HL').
    change FLAG_UDPCONNECTED with (2 ^ 2). rewrite ctrue_maskflag_bit, connects_peer by done.
    rewrite !rbind_assoc. apply rbind_same. intros addr. rewrite !rbind_assoc. done.
  - intros c L'. apply values_pushresults0.
Qed.
End datagrams.

(** *** Examples *)
Section examples.
Let object (flags : Z) (v : lvalue) : option sock :=
  match v with
  | LUserdata 1 => Some (Sock TCPACTIVE 0 4)
  | LUserdata 2 => Some (Sock UDPSOCKET flags 5)
  | LUserdata 3 => Some (Sock TERMSOCKET 0 6)
  | _ => None
  end.
Let address (v : lvalue) : option sockaddr :=
  match v with LUserdata 9 => Some (Addr AF_INET 0 "abcd"%string) | _ => None end.
Let array (v : lvalue) : option Z :=
  match v with LString s => Some (Z.of_nat (String.length s)) | _ => None end.


Lemma setmode_overruns_witness :
  terminal_setmode (object 0) (fun _ => 0) (fun _ => ""%string) [LUserdata 3] = Overrun.
Proof.
  apply (proj2 (setmode_overruns (LuaStack0 := list_stack) (object 0) (fun _ => 0) (fun _ => ""%string)
    [LUserdata 3] (Sock TERMSOCKET 0 6) ltac:(split; [reflexivity | split; reflexivity]))).
  reflexivity.
Defined.

(** Connected, but for a second address that was not accepted. *)
Lemma udp_write_destination_witness :
  udp_write (object 0) (object (connects 0 [(Some (LUserdata 9), 0); (None, -9)])) address array (fun _ => 0)
    (fun _ => 0) (fun _ => ""%string) 7 true None [LUserdata 2; LString "hi"]
  = Ok (UdpSend 5 (LString "hi") (Buf.Buf 0 2) None, [LBoolean true]).
Proof.
  exact (proj2 (proj2 (udp_write_destination (LuaStack0 := list_stack) (object 0)
    (object (connects 0 [(Some (LUserdata 9), 0); (None, -9)])) address array (fun _ => 0)
    (fun _ => 0) (fun _ => ""%string) 7 None 0 [(Some (LUserdata 9), 0); (None, -9)] 5
    [LUserdata 2; LString "hi"] (Sock UDPSOCKET 0 5) eq_refl
    ltac:(split; [reflexivity | split; reflexivity]) eq_refl))).
Defined.
End examples.

(** ** Reading from a pipe that transfers objects *)
Section pipe_read.
Context {St : Type} `{!LuaStack St} `{!LuaArgs}.
Context (object : lvalue -> option sock) (checkmemory : lvalue -> option Z).
(** The number of objects that wait in the pipe; what [pushstreamread] returns, and
    the object it pushes. *)
Context (uv_pipe_pending_count : Z) (stream : Z * option lvalue) (strerror : Z -> string).
Implicit Types (L : St).

Definition pushstream L : St := from_option (lua_push L) L stream.2.

(** The results when the operation ends; the stack has the four arguments and what
    the callback pushed. *)
Definition k_recvpipedata L : nat * St :=
  if ctrue uv_pipe_pending_count then
    let L := pushstream L in Results.lcuL_pushresults strerror L (lua_gettop L - 4) stream.1
  else ((lua_gettop L - 4)%nat, L).

(** The values returned at once, or the stack for the operation of the object. *)
Definition pipe_read L : result (list lvalue + St) :=
  _ <- openedudhdl object PIPESHARE L;;
  if ctrue uv_pipe_pending_count then
    let L := lua_push L (LInteger 0) in
    let L := pushstream L in
    let r := Results.lcuL_pushresults strerror L 2 stream.1 in Ok (inl (returned r.1 r.2))
  else
    _ <- match checkmemory (arg L 2) with Some _ => Ok tt | None => ArgError 2 "memory expected" end;;
    _ <- optinteger L 3 1;; _ <- optinteger L 4 (-1);;
    Ok (inr (lua_settop L 4)).

Definition stream_values (n : Z) : list lvalue :=
  if stream.1 <? 0 then [LBoolean false; LString (strerror stream.1); LInteger (- stream.1)]
  else LInteger n :: option_list stream.2.

Lemma pushresults_stream L below n m :
  values L = below ++ LInteger n :: option_list stream.2 ->
  (stream.1 <? 0 = false -> m = length (LInteger n :: option_list stream.2)) ->
  let r := Results.lcuL_pushresults strerror L m stream.1 in
  returned r.1 r.2 = stream_values n.
Proof.
  intros HL Hm. unfold Results.lcuL_pushresults, stream_values. destruct (stream.1 <? 0).
  - cbn [fst snd]. eapply returned_app; [apply values_errres | done].
  - specialize (Hm eq_refl). subst m. by apply (returned_app _ below).
Qed.

(** An object that waits in the pipe is returned with no bytes, at once; bytes
    are returned with the object that came with them, if one did; but when that
    object cannot be taken, the number of the bytes that were read is not returned.
    (An object that is taken is pushed.) *)
Theorem pipe_read_objects L (below : list lvalue) (n : Z) s
    (Hs : 0 <= stream.1 -> is_Some stream.2) :
  (opened object PIPESHARE L s -> ctrue uv_pipe_pending_count = true ->
     pipe_read L = Ok (inl (stream_values 0))) /\
  (values L = below ++ [LInteger n] -> length below = 4%nat ->
     let r := k_recvpipedata L in
     returned r.1 r.2 = if ctrue uv_pipe_pending_count then stream_values n else [LInteger n]).
Proof.
  assert (forall L0 m, values (pushstream (lua_push L0 (LInteger m)))
            = values L0 ++ LInteger m :: option_list stream.2) as Hp.
  { intros L0 m. unfold pushstream. destruct stream.2; cbn [from_option option_list];
      rewrite !values_push; by rewrite <- ?app_assoc. }
  split.
  - intros Ho Hc. unfold pipe_read. rewrite (proj2 (openedudhdl_ok object PIPESHARE L s) Ho). cbn [rbind].
    rewrite Hc. do 2 f_equal. apply (pushresults_stream _ (values L)); [apply Hp |].
    intros [o Ho']%Z.ltb_ge%Hs. by rewrite Ho'.
  - intros HL Hb. unfold k_recvpipedata. destruct (ctrue uv_pipe_pending_count).
    + assert (values (pushstream L) = below ++ LInteger n :: option_list stream.2) as Hv.
      { unfold pushstream. destruct stream.2; cbn [from_option option_list]; rewrite ?values_push, HL;
          by rewrite <- ?app_assoc. }
      apply (pushresults_stream _ below); [done |]. intros _. unfold lua_gettop. rewrite Hv, length_app, Hb. lia.
    + cbn [fst snd]. apply (returned_app _ below); [done |]. unfold lua_gettop. rewrite HL, length_app, Hb. done.
Qed.
End pipe_read.

Lemma pipe_read_objects_witness :
  let r := k_recvpipedata 1 (-24, Some (LUserdata 8)) (fun _ => "too many open files"%string)
    [LUserdata 1; LUserdata 2; LNil; LNil; LInteger 100] in
  returned r.1 r.2 = [LBoolean false; LString "too many open files"; LInteger 24].
Proof.
  exact (proj2 (pipe_read_objects (LuaStack0 := list_stack) (fun _ => None) (fun _ => None) 1
    (-24, Some (LUserdata 8)) (fun _ => "too many open files"%string)
    [LUserdata 1; LUserdata 2; LNil; LNil; LInteger 100] [LUserdata 1; LUserdata 2; LNil; LNil] 100
    (Sock PIPESHARE 0 1) (fun H => match H eq_refl with end)) eq_refl eq_refl).
Defined.
