(* ===== verification/NameLookup.v ===== *)
(** * Searches that wait (src/src/lcommunf.c, lines 454 to 650 and 750 to 779)

    [system.findaddr] and [system.nameaddr] from the call by a script to what the
    coroutine returns, with the lists of results that libuv gives to their callbacks
    and who releases them; [system.netinfo], which does not wait.  [NetFind] has the
    modes, the requests, and the methods of the objects. *)
From stdpp Require Import gmap.
From S2P Require Import Prelude Outcome LuaApi Results FileInfo Await StackWith NetAddr NetFind.

(** ** Memory *)

(** The lists of [uv_getaddrinfo] that are not released, and the objects of a
    script: the pointer to the first entry, and what the pointers of the object lead
    to.  [None]: the memory of an object that has no metatable yet. *)
Abbreviation address_object := (option (option positive * AddressList)).

Record memory := Mem {
  lists : gmap positive (list addrinfo);
  objects : gmap positive address_object;
}.

Definition set_object (u : positive) (o : address_object) (m : memory) : memory :=
  Mem (lists m) (<[u := o]> (objects m)).

(** A result without entries is a null pointer. *)
Definition new_list (l : list addrinfo) (m : memory) : option positive * memory :=
  if decide (l = []) then (None, m)
  else let p := fresh (dom (lists m)) in (Some p, Mem (<[p := l]> (lists m)) (objects m)).

Definition uv_freeaddrinfo (p : option positive) (m : memory) : memory :=
  match p with Some p => Mem (delete p (lists m)) (objects m) | None => m end.

(** The list that a pointer leads to. *)
Definition entries (p : option positive) (m : memory) : list addrinfo :=
  match p with Some p => default [] (lists m !! p) | None => [] end.

(** What [found_gc] and [found_close] do to the memory. *)
Definition close_object (u : positive) (m : memory) : memory :=
  match objects m !! u with
  | Some (Some (p, a)) =>
      let r := found_gc a 0 in
      if r.2 =? 0 then m else set_object u (Some (None, r.1)) (uv_freeaddrinfo p m)
  | _ => m
  end.

Lemma delete_new (l : gmap positive (list addrinfo)) x :
  delete (fresh (dom l)) (<[fresh (dom l) := x]> l) = l.
Proof. apply delete_insert_id. apply not_elem_of_dom, is_fresh. Qed.

Lemma close_object_eq u m :
  close_object u m =
    match objects m !! u with
    | Some (Some (p, a)) =>
        if decide (start a = []) then m
        else set_object u (Some (None, AddrList [] [])) (uv_freeaddrinfo p m)
    | _ => m
    end.
Proof.
  unfold close_object. destruct (objects m !! u) as [[[p a] |] |]; [| done ..].
  unfold found_gc, closeaddrlist. by destruct (decide _).
Qed.

(** Every list is of one object, which can be used; the others are closed. *)
Record owned (m : memory) : Prop := {
  has_owner p : is_Some (lists m !! p) -> exists u a, objects m !! u = Some (Some (Some p, a));
  holds u p a : objects m !! u = Some (Some (Some p, a)) -> lists m !! p = Some (start a) /\ start a <> [];
  closed u a : objects m !! u = Some (Some (None, a)) -> start a = [];
  one_owner u u' p a a' :
    objects m !! u = Some (Some (Some p, a)) -> objects m !! u' = Some (Some (Some p, a')) -> u = u';
}.

Lemma owned_close u m : owned m -> owned (close_object u m).
Proof.
  intros Hm. rewrite close_object_eq. destruct (objects m !! u) as [[[p a] |] |] eqn:Hu; try done.
  destruct (decide (start a = [])) as [Ha | Ha]; [done |].
  destruct Hm as [Ho Hh Hc H1]. destruct p as [p |]; [| by destruct Ha; apply (Hc u)].
  split; cbn [lists objects set_object uv_freeaddrinfo].
  - intros q [l Hq]. destruct (decide (p = q)) as [<- | Hpq]; [by rewrite lookup_delete_eq in Hq |].
    rewrite lookup_delete_ne in Hq by done. destruct (Ho q) as (v & b & Hv); [by eexists |]. exists v, b.
    rewrite lookup_insert_ne; [done |]. intros <-. congruence.
  - intros v q b. destruct (decide (u = v)) as [<- |]; [by rewrite lookup_insert_eq |].
    rewrite lookup_insert_ne by done. intros Hv. rewrite lookup_delete_ne; [by eapply Hh |].
    intros <-. eauto.
  - intros v b. destruct (decide (u = v)) as [<- |]; [rewrite lookup_insert_eq; by intros [= <-] |].
    rewrite lookup_insert_ne by done. apply Hc.
  - intros v v' q b b'. destruct (decide (u = v)) as [<- |], (decide (u = v')) as [<- |];
      rewrite ?lookup_insert_eq, ?lookup_insert_ne by done; [done .. | apply H1].
Qed.

(** Once all the objects are closed no list is left. *)
Lemma close_all m us :
  owned m -> (forall u, u ∈ dom (objects m) -> u ∈ us) -> lists (foldr close_object m us) = ∅.
Proof.
  intros Hm Hus.
  assert (owned (foldr close_object m us) /\
    forall u p a, objects (foldr close_object m us) !! u = Some (Some (Some p, a)) ->
      u ∉ us /\ objects m !! u = Some (Some (Some p, a))) as [Hm' Hobj].
  { clear Hus. induction us as [| v us [IHo IH]]; cbn [foldr]; [split; [done |]; set_solver |].
    split; [by apply owned_close |]. intros u p a. rewrite close_object_eq.
    destruct (objects (foldr close_object m us) !! v) as [[[q b] |] |] eqn:Hv.
    - destruct (decide (start b = [])) as [Hb | Hb].
      + intros Hu. destruct (IH _ _ _ Hu) as [Hn Hu'].
        split; [| done]. intros [-> |]%elem_of_cons; [| done].
        rewrite Hu in Hv. injection Hv as <- <-. by apply (holds _ IHo _ _ _ Hu).
      + unfold set_object. cbn [objects].
        destruct (decide (v = u)) as [<- | Hvu]; [by rewrite lookup_insert_eq |].
        rewrite lookup_insert_ne by done.
        replace (objects (uv_freeaddrinfo q (foldr close_object m us)))
          with (objects (foldr close_object m us)) by by destruct q.
        intros [Hn Hu']%IH. split; [| done]. by intros [-> |]%elem_of_cons.
    - intros Hu. destruct (IH _ _ _ Hu) as [Hn Hu']. split; [| done]. intros [-> |]%elem_of_cons; [congruence | done].
    - intros Hu. destruct (IH _ _ _ Hu) as [Hn Hu']. split; [| done]. intros [-> |]%elem_of_cons; [congruence | done]. }
  apply map_eq. intros p. rewrite lookup_empty.
  destruct (lists (foldr close_object m us) !! p) eqn:Hp; [| done].
  destruct (has_owner _ Hm' p) as (u & a & Hu); [by eexists |].
  destruct (Hobj _ _ _ Hu) as [Hn Hu']. destruct Hn. apply Hus. by apply elem_of_dom_2 in Hu'.
Qed.

(** A list of no object stays. *)
Definition stray (p : positive) (l : list addrinfo) (m : memory) : Prop :=
  lists m !! p = Some l /\ forall u a, objects m !! u <> Some (Some (Some p, a)).

Lemma stray_set p l u o m : (forall a, o <> Some (Some p, a)) -> stray p l m -> stray p l (set_object u o m).
Proof.
  intros Ho [Hp Hu]. split; [done |]. intros v a. cbn [objects set_object].
  destruct (decide (u = v)) as [<- |]; [rewrite lookup_insert_eq; intros [= E]; by eapply Ho | by rewrite lookup_insert_ne].
Qed.

Lemma stray_close p l u m : stray p l m -> stray p l (close_object u m).
Proof.
  intros Hs. rewrite close_object_eq. destruct (objects m !! u) as [[[q a] |] |] eqn:Hu; try done.
  destruct (decide _); [done |]. apply stray_set; [done |]. destruct Hs as [Hp Ho], q as [q |]; [| done].
  split; [| done]. cbn [lists uv_freeaddrinfo]. rewrite lookup_delete_ne; [done |]. intros ->. by eapply Ho.
Qed.

(** ** [system.findaddr] *)
Module Find.

Definition query : Type := option string * option string * hints.

Section find.
Context {St : Type} `{!LuaStack St} `{!LuaArgs} `{!AiFlags}.
Context (UV_EAFNOSUPPORT : Z) (strerror : Z -> string) (sched : positive) (yieldable : bool).
(** libuv: what [uv_getaddrinfo] returns, and what it gives to the callback. *)
Context (uv_getaddrinfo : query -> Z) (answer : query -> Z * list addrinfo).
Implicit Types (L : St * memory) (m : memory).

(** [thread]: the stack of the coroutine that [lcuU_endcoreq] gives. *)
Definition uv_onresolved (thread : option St) (c : query) m : option St * memory :=
  let err := (answer c).1 in
  let '(results, m) := new_list (answer c).2 m in
  match thread with
  | Some L => (Some (lua_push (lua_push L (LInteger err)) (LLightUserdata results)), m)
  | None => (None, if negb (ctrue err) then uv_freeaddrinfo results m else m)
  end.

Definition resolved L (c : query) : St * memory :=
  let r := uv_onresolved (Some L.1) c L.2 in (default L.1 r.1, r.2).

Definition returnfound (_ : query) L : result (nat * (St * memory)) :=
  let list := lua_touserdata L 3 in
  let err := int (lua_tointeger L 4) in
  let results := lua_touserdata L 5 in
  let L := lua_settop L 3 in
  let r := NetFind.returnfound UV_EAFNOSUPPORT err (entries results L.2) 0 in
  let L := (L.1, if r.2 =? 0 then L.2 else uv_freeaddrinfo results L.2) in
  match r.1, list with
  | Ok found, Some u => Ok (1%nat, (L.1, set_object u (Some (results, found)) L.2))
  | UvError err, _ => Ok (Results.lcuL_pusherrres strerror L err)
  | _, _ => Overrun
  end.

Definition lua_newuserdatauv L : St * memory :=
  let u := fresh (dom (objects L.2)) in (lua_push L.1 (LUserdata u), set_object u None L.2).

(** The service is a string that is converted in place; it is as numeric as the
    argument. *)
Definition k_setupfindaddr L : result (query * (Z * (St * memory))) :=
  nodename <- optstring_null L 1;;
  servname <- optstring_null L 2;;
  mode <- optstring L 3 "";;
  let numeric := bool_decide (is_Some (lua_tointegerx (arg (lua_settop L 2) 2))) in
  c <- NetFind.k_setupfindaddr nodename servname (Some mode) numeric;;
  let L := lua_settop L 2 in
  let L := lua_newuserdatauv L in
  arm uv_getaddrinfo strerror c L id.

Definition system_findaddr (wait : option resumption) (how : resumption) L
    : result (option query * (nat * (St * memory))) :=
  resetcoreqk_stack sched yieldable resolved wait how L k_setupfindaddr (Some returnfound).

(** A call and all that follows: when a script resumed the coroutine, the callback
    comes when nobody waits for it. *)
Definition search (wait : option resumption) (how : resumption) L : result (list lvalue * memory) :=
  r <- system_findaddr wait how L;;
  let '(c, (n, L)) := r in
  Ok (returned n L,
      match how, c with
      | ByScript _, Some c => if uv_getaddrinfo c <? 0 then L.2 else (uv_onresolved None c L.2).2
      | _, _ => L.2
      end).

(** *** Specification *)

(** What the arguments ask for. *)
Definition query_of (L : St) : result query :=
  nodename <- optstring_null L 1;;
  servname <- optstring_null L 2;;
  mode <- optstring L 3 "";;
  NetFind.k_setupfindaddr nodename servname (Some mode) (bool_decide (is_Some (lua_tointegerx (arg L 2)))).

Definition failed (err : Z) : list lvalue := [LBoolean false; LString (strerror err); LInteger (- err)].

(** An object is made for every search that libuv is asked for; it has the list, and
    is returned, only when the coroutine gets a list with an entry for sockets. *)
Definition found_object c m : list lvalue * memory :=
  let u := fresh (dom (objects m)) in
  let l := (answer c).2 in
  if decide ((answer c).1 = 0) then
    if decide (findvalidaddr l = []) then (failed UV_EAFNOSUPPORT, set_object u None m)
    else
      let p := fresh (dom (lists m)) in
      ([LUserdata u], Mem (<[p := l]> (lists m)) (<[u := Some (Some p, AddrList l (findvalidaddr l))]> (objects m)))
  else (failed (answer c).1, set_object u None m).

Definition find_outcome (how : resumption) c m : list lvalue * memory :=
  let unused := set_object (fresh (dom (objects m))) None m in
  if uv_getaddrinfo c <? 0 then (failed (uv_getaddrinfo c), unused)
  else match how with ByScript vs => (vs, unused) | ByOperation _ => found_object c m end.
End find.

Section facts.
Context {St : Type} `{!LuaStack St} `{!LuaArgs} `{!AiFlags}.
Context (UV_EAFNOSUPPORT : Z) (strerror : Z -> string) (sched : positive) (yieldable : bool).
Context (uv_getaddrinfo : query -> Z) (answer : query -> Z * list addrinfo).
Implicit Types (L : St * memory) (m : memory).
(** The results of libuv are of type [int], and there is no list with an error. *)
Context (int_answers : forall c, int (answer c).1 = (answer c).1).
Context (failed_empty : forall c, (answer c).1 <> 0 -> (answer c).2 = []).

Lemma setup_query L (L0 : St) :
  values L = values L0 ->
  k_setupfindaddr strerror uv_getaddrinfo L =
    (c <- query_of L0;; arm uv_getaddrinfo strerror c (lua_newuserdatauv (lua_settop L 2)) id).
Proof.
  intros HL. unfold k_setupfindaddr, query_of, optstring_null, optstring, checkstring, arg.
  rewrite values_settop, HL.
  assert (resize 2 LNil (values L0) !! 1%nat = Some (default LNil (values L0 !! 1%nat))) as E.
  { destruct (values L0) as [| a [| b l]]; done. }
  cbn [Nat.sub]. rewrite E. cbn [default from_option id].
  repeat (case_decide || case_match); cbn [rbind]; done || (by destruct (NetFind.k_setupfindaddr _ _ _ _)).
Qed.


(** What the coroutine does with the results. *)
Lemma returnfound_results c m (L1 : St) v1 v2 :
  let u := fresh (dom (objects m)) in
  let r := new_list (answer c).2 (set_object u None m) in
  values L1 = [v1; v2; LUserdata u; LInteger (answer c).1; LLightUserdata r.1] ->
  exists n L2, returnfound UV_EAFNOSUPPORT strerror c (L1, r.2) = Ok (n, L2) /\
    (returned n L2, L2.2) = found_object UV_EAFNOSUPPORT strerror answer c m.
Proof using int_answers failed_empty.
  intros u r HL. unfold returnfound. set (L3 := lua_settop (L1, r.2) 3).
  assert (values L3 = [v1; v2] ++ [LUserdata u]) as HL3
    by (unfold L3; rewrite values_settop; cbn [values stack_and fst]; by rewrite HL).
  assert (lua_touserdata (L1, r.2) 3 = Some u) as ->
    by (unfold lua_touserdata, lua_at; cbn [values stack_and fst]; by rewrite HL).
  assert (lua_touserdata (L1, r.2) 5 = r.1) as ->
    by (unfold lua_touserdata, lua_at; cbn [values stack_and fst]; by rewrite HL).
  assert (lua_tointeger (L1, r.2) 4 = (answer c).1) as ->
    by (unfold lua_tointeger, lua_at; cbn [values stack_and fst]; by rewrite HL).
  rewrite int_answers. change L3.2 with r.2.
  assert (entries r.1 r.2 = (answer c).2) as ->.
  { unfold r, new_list. destruct (decide ((answer c).2 = [])) as [-> |]; [done |].
    cbn [fst snd entries lists]. by rewrite lookup_insert_eq. }
  assert (forall err m', exists n L2, Ok (Results.lcuL_pusherrres strerror (L3.1, m') err) = Ok (n, L2) /\
    (returned n L2, L2.2) = (failed strerror err, m')) as Herr.
  { intros err m'. eexists _, _. split; [apply f_equal, surjective_pairing |]. f_equal.
    apply (returned_app _ (values L3)); [| done]. exact (values_errres strerror (L3.1, m') err). }
  unfold NetFind.returnfound, found_object.
  unfold ctrue. destruct (Z.eqb_spec (answer c).1 0) as [E0 | E0]; cbn [negb].
  - rewrite (decide_True _ _ E0). destruct (decide (findvalidaddr (answer c).2 = [])) as [Hf | Hf]; cbn [fst snd].
    + change (Z.succ 0 =? 0) with false. cbn match.
      destruct (Herr UV_EAFNOSUPPORT (uv_freeaddrinfo r.1 r.2)) as (n & L2 & -> & E).
      exists n, L2. split; [done |]. rewrite E. f_equal. unfold r, new_list.
      destruct (decide _); [done |]. cbn [fst snd uv_freeaddrinfo]. unfold set_object. cbn [lists objects].
      by rewrite delete_new.
    + eexists _, _. split; [done |]. cbn [fst snd]. f_equal.
      { by apply (returned_app _ [v1; v2]). }
      unfold r, new_list. destruct (decide ((answer c).2 = [])) as [He | He]; [by rewrite He in Hf |].
      unfold set_object. cbn [fst snd Z.eqb lists objects]. rewrite insert_insert.
      by rewrite decide_True.
  - rewrite (decide_False _ _ E0). cbn [fst snd Z.eqb].
    destruct (Herr (answer c).1 r.2) as (n & L2 & -> & E). exists n, L2. split; [done |]. rewrite E. f_equal.
    unfold r, new_list. by rewrite (failed_empty c E0).
Qed.

Lemma owned_unused m : owned m -> owned (set_object (fresh (dom (objects m))) None m).
Proof.
  intros [Ho Hh Hc H1]. set (u := fresh _).
  assert (objects m !! u = None) as Hu by apply not_elem_of_dom, is_fresh.
  assert (forall v o, <[u := None]> (objects m) !! v = Some (Some o) -> objects m !! v = Some (Some o)) as Hlook.
  { intros v o. destruct (decide (u = v)) as [<- |]; [by rewrite lookup_insert_eq | by rewrite lookup_insert_ne]. }
  split; cbn [lists objects set_object].
  - intros p Hp. destruct (Ho p Hp) as (v & a & Hv). exists v, a. rewrite lookup_insert_ne; [done | congruence].
  - intros v p a Hv. eauto.
  - intros v a Hv. eauto.
  - intros v v' p a a' Hv Hv'. eauto.
Qed.

Lemma owned_found c m : owned m -> owned (found_object UV_EAFNOSUPPORT strerror answer c m).2.
Proof.
  intros Hm. unfold found_object. set (u := fresh (dom (objects m))). set (p := fresh (dom (lists m))).
  destruct (decide _); [| by apply owned_unused]. destruct (decide _) as [| Hf]; [by apply owned_unused |].
  assert (objects m !! u = None) as Hu by apply not_elem_of_dom, is_fresh.
  assert (lists m !! p = None) as Hp by apply not_elem_of_dom, is_fresh.
  destruct Hm as [Ho Hh Hc H1]. cbn [snd].
  assert (forall v a, objects m !! v = Some (Some (Some p, a)) -> False) as Hnew
    by (intros v a [Hv _]%Hh; congruence).
  split; cbn [lists objects].
  - intros q. destruct (decide (p = q)) as [<- | Hpq].
    + intros _. exists u. eexists. by rewrite lookup_insert_eq.
    + rewrite lookup_insert_ne by done. intros Hq. destruct (Ho q Hq) as (v & a & Hv). exists v, a.
      rewrite lookup_insert_ne; [done | congruence].
  - intros v q a. destruct (decide (u = v)) as [<- |].
    + rewrite lookup_insert_eq. intros [= <- <-]. rewrite lookup_insert_eq. split; [done |]. cbn.
      by intros E; rewrite E in Hf.
    + rewrite lookup_insert_ne by done. intros Hv. rewrite lookup_insert_ne; [by eapply Hh |].
      intros <-. eauto.
  - intros v a. destruct (decide (u = v)) as [<- |]; [by rewrite lookup_insert_eq |].
    rewrite lookup_insert_ne by done. apply Hc.
  - intros v v' q a a'. destruct (decide (u = v)) as [<- |], (decide (u = v')) as [<- |];
      rewrite ?lookup_insert_eq, ?lookup_insert_ne by done; [done | | | apply H1];
      intros E1 E2; simplify_eq; exfalso; eauto.
Qed.

Lemma returned_failed L err : returned 3 (Results.lcuL_pusherrres strerror L err).2 = failed strerror err.
Proof. by apply (returned_app _ (values L)); [apply values_errres |]. Qed.

Lemma resumed_found c (L : St * memory) v1 v2 u m :
  u = fresh (dom (objects m)) -> values L = [v1; v2; LUserdata u] -> L.2 = set_object u None m ->
  exists n L2, startedopk_stack sched (resolved answer) (Some (returnfound UV_EAFNOSUPPORT strerror)) (c, (-1, L))
    = Ok (c, (n, L2)) /\ (returned n L2, L2.2) = found_object UV_EAFNOSUPPORT strerror answer c m.
Proof using int_answers failed_empty.
  intros Hu HL Hm. unfold startedopk_stack. cbn [Z.ltb Z.compare]. cbv zeta. set (L3 := lua_remove _ _).
  set (r := new_list (answer c).2 (set_object u None m)).
  assert (values L3 = values L ++ [LInteger (answer c).1; LLightUserdata r.1]) as HL3.
  { apply values_without_sched_at. unfold resolved, uv_onresolved. cbn [snd lua_push stack_and].
    rewrite Hm. fold r. destruct r as [results m']. cbn [fst snd default values stack_and from_option id].
    by rewrite !values_push, <- !app_assoc. }
  assert (L3.2 = r.2) as Hm3.
  { unfold L3, resolved, uv_onresolved. cbn. rewrite Hm. fold r. by destruct r. }
  destruct (returnfound_results c m L3.1 v1 v2) as (n & L2 & E & E2).
  { change (values L3.1) with (values L3). rewrite HL3, HL, <- Hu. done. }
  exists n, L2. split; [| done]. rewrite <- Hu in E. fold r in E. rewrite <- Hm3, <- surjective_pairing in E.
  by rewrite E.
Qed.
Lemma find_ends c how (L : St * memory) v1 v2 u m :
  u = fresh (dom (objects m)) -> values L = [v1; v2; LUserdata u] -> L.2 = set_object u None m ->
  exists n L2,
    (r <- arm uv_getaddrinfo strerror c L id;;
     k_endop sched (resolved answer) how (Some (returnfound UV_EAFNOSUPPORT strerror)) r) = Ok (c, (n, L2)) /\
    (returned n L2,
     match how with
     | ByScript _ => if uv_getaddrinfo c <? 0 then L2.2 else (uv_onresolved (St := St) answer None c L2.2).2
     | ByOperation _ => L2.2
     end) = find_outcome UV_EAFNOSUPPORT strerror uv_getaddrinfo answer how c m.
Proof using int_answers failed_empty.
  intros Hu HL Hm. unfold arm, find_outcome. rewrite <- Hu.
  destruct (Z.ltb_spec (uv_getaddrinfo c) 0) as [Hneg | Hpos]; cbn [rbind].
  - exists 3%nat, (Results.lcuL_pusherrres strerror L (uv_getaddrinfo c)).2. split.
    + by destruct how.
    + rewrite returned_failed. destruct how; f_equal; exact Hm.
  - destruct how as [extra | vs].
    + cbn [k_endop]. destruct (resumed_found c L v1 v2 u m Hu HL Hm) as (n & L2 & E & E2). by exists n, L2.
    + cbn [k_endop Z.ltb Z.compare]. eexists _, _. split; [done |]. f_equal.
      * apply (returned_script sched vs L).
      * cbn [lua_remove stack_and snd]. unfold resumed_by_script. rewrite rest_pushes. cbn [lua_push stack_and snd].
        unfold id. rewrite Hm. unfold uv_onresolved, new_list.
        destruct (decide ((answer c).2 = [])) as [He | He]; [by destruct (negb _) |].
        unfold ctrue. destruct (Z.eqb_spec (answer c).1 0) as [E0 | E0]; [| by destruct He; apply failed_empty].
        cbn [negb fst snd uv_freeaddrinfo]. unfold set_object. cbn [lists objects]. by rewrite delete_new.
Qed.

Lemma search_operation (L : St) m how (Hy : yieldable = true) (wait : option (list lvalue)) :
  search UV_EAFNOSUPPORT strerror sched yieldable uv_getaddrinfo answer (ByOperation <$> wait) how (L, m) =
    (c <- query_of L;; Ok (find_outcome UV_EAFNOSUPPORT strerror uv_getaddrinfo answer how c m)).
Proof using int_answers failed_empty.
  unfold search, system_findaddr, resetcoreqk_stack. rewrite Hy.
  assert (exists L1, values L1 = values L /\ L1.2 = m /\
    from_option (fun how => k_resetopk sched how (L, m)) (inl (L, m)) (ByOperation <$> wait) = inl L1)
    as (L1 & HL1 & Hm1 & ->).
  { destruct wait as [extra |]; [| by exists (L, m)]. exists (after_previous sched extra (L, m)).
    split_and!; [exact (values_after_previous sched extra (L, m)) | apply rest_after_previous | done]. }
  rewrite (setup_query L1 L HL1). destruct (query_of L) as [c | | | | |]; cbn [rbind]; try done.
  set (u := fresh (dom (objects m))). set (L2 := lua_newuserdatauv _).
  assert (exists v1 v2, values L2 = [v1; v2; LUserdata u]) as (v1 & v2 & HL2).
  { exists (default LNil (values L !! 0%nat)), (default LNil (values L !! 1%nat)).
    unfold L2, lua_newuserdatauv. cbn [values stack_and fst lua_settop snd]. rewrite Hm1. fold u.
    rewrite values_push, values_settop. change (values L1.1) with (values L1). rewrite HL1.
    by destruct (values L) as [| ? [| ? [| ? ?]]]. }
  assert (L2.2 = set_object u None m) as Hm2 by (unfold L2, lua_newuserdatauv; cbn; by rewrite Hm1).
  destruct (find_ends c how L2 v1 v2 u m eq_refl HL2 Hm2) as (n & L3 & E & E3).
  destruct (arm _ _ _ _ _) as [r | | | | |]; try discriminate E. cbn [rbind] in E |- *. rewrite E.
  cbn [rbind fst snd]. by rewrite <- E3.
Qed.

Lemma stray_find p l how c m :
  stray p l m -> stray p l (find_outcome UV_EAFNOSUPPORT strerror uv_getaddrinfo answer how c m).2.
Proof.
  intros Hs. unfold find_outcome, found_object. destruct (_ <? 0); [by apply stray_set |].
  destruct how; [| by apply stray_set].
  destruct (decide _); [| by apply stray_set]. destruct (decide _); [by apply stray_set |]. cbn [snd].
  set (q := fresh (dom (lists m))).
  assert (q <> p).
  { intros E. pose proof (is_fresh (dom (lists m))) as Hq. fold q in Hq. destruct Hq. rewrite E.
    apply elem_of_dom. exists l. apply Hs. }
  change (Mem ?ls (<[?u := ?o]> ?os)) with (set_object u o (Mem ls os)).
  apply stray_set; [congruence |]. destruct Hs as [Hp Ho]. split; [| done]. cbn [lists].
  by rewrite lookup_insert_ne.
Qed.

(** C34: when a script has resumed the coroutine, and the coroutine waits for that
    search to end before its next one is made, the callback takes it for one that
    waits for the results: the list is given as a value that the next search drops,
    and is not released, whatever objects are closed later. *)
Theorem findaddr_leaks (L L0 : St) m (c : query) (l : list addrinfo) (how : resumption)
    (Hy : yieldable = true) (Hm : owned m) (Hc : answer c = (0, l)) (Hl : l <> []) :
  let p := fresh (dom (lists m)) in
  let extra := [LInteger 0; LLightUserdata (Some p)] in
  let '(thread, m1) := uv_onresolved answer (Some L0) c m in
  thread = Some (fold_left lua_push extra L0) /\
  forall vs m2,
    search UV_EAFNOSUPPORT strerror sched yieldable uv_getaddrinfo answer (Some (ByOperation extra)) how (L, m1)
      = Ok (vs, m2) ->
    forall us, lists (foldr close_object m2 us) !! p = Some l.
Proof using int_answers failed_empty.
  intros p. unfold uv_onresolved, new_list. rewrite Hc. cbn [fst snd]. cbv zeta.
  rewrite decide_False by done. fold p. set (m1 := Mem _ _). split; [done |].
  intros vs m2 Hs us.
  assert (stray p l m1) as Hp.
  { split; [apply lookup_insert_eq |]. intros u a [Hu _]%(holds _ Hm).
    pose proof (is_fresh (dom (lists m))) as Hf. destruct Hf. apply elem_of_dom. by eexists. }
  assert (stray p l m2) as Hp2; [| clear Hs; induction us as [| u us IH]; cbn [foldr]; [apply Hp2 |]].
  - pose proof (search_operation L m1 how Hy (Some [LInteger 0; LLightUserdata (Some p)])) as E.
    cbn [fmap option_fmap option_map] in E. rewrite E in Hs.
    apply rbind_ok in Hs as (c' & _ & [= E2]). change m2 with (vs, m2).2. rewrite <- E2. by apply stray_find.
  - assert (stray p l (foldr close_object m2 us)) as Hus.
    { clear IH. induction us; cbn [foldr]; [done |]. by apply stray_close. }
    apply (stray_close _ _ u _ Hus).
Qed.
End facts.
End Find.

(** ** [system.nameaddr] *)
Module Name.

Section name.
Context {St : Type} `{!LuaStack St} `{!LuaArgs}.
Context (strerror : Z -> string) (sched : positive) (yieldable : bool).
(** [NI_IDN] and [_GNU_SOURCE] are defined; the address in an object of a script. *)
Context (idn gnu : bool) (netaddress : positive -> option sockaddr).
(** libuv: what the call that is made returns; the error, the name of the host and
    the service that it gives to a callback; the error, the list and the canonical
    name of its first entry for a search by name. *)
Context (uv_start : name_request -> Z) (names : name_request -> Z * (option string * option string)).
Context (canonical : string -> Z * (list addrinfo * option string)).
Implicit Types (L : St * memory) (m : memory).

(** [lua_pushstring] of a pointer that may be [NULL]. *)
Definition string_or_nil (s : option string) : lvalue :=
  match s with Some s => LString (c_string s) | None => LNil end.

(** The callbacks, with the stack of the coroutine that [lcuU_endcoreq] gives. *)
Definition uv_onaddrnamed (thread : option St) (err : Z) (hostname servname : option string) : option St :=
  match thread with
  | Some L =>
      Some (if negb (ctrue err) then lua_push (lua_push L (string_or_nil hostname)) (string_or_nil servname)
            else (Results.lcuL_pushresults strerror L 0 err).2)
  | None => None
  end.

Definition uv_onservnamed (thread : option St) (err : Z) (servname : option string) : option St :=
  match thread with
  | Some L =>
      Some (if negb (ctrue err) then lua_push L (string_or_nil servname)
            else (Results.lcuL_pushresults strerror L 0 err).2)
  | None => None
  end.

(** [canonname]: of the first entry of the results. *)
Definition uv_oncannonical (thread : option St) (err : Z) (results : option positive) (canonname : option string) m
    : option St * memory :=
  (match thread with
   | Some L =>
       Some (if negb (ctrue err) then lua_push L (string_or_nil canonname)
             else (Results.lcuL_pushresults strerror L 0 err).2)
   | None => None
   end, uv_freeaddrinfo results m).

(** The callback of the request. *)
Definition named (thread : option St) (c : name_request) m : option St * memory :=
  match c with
  | Canonical name =>
      let '(results, m) := new_list (canonical name).2.1 m in
      uv_oncannonical thread (canonical name).1 results (canonical name).2.2 m
  | ServiceName _ _ => (uv_onservnamed thread (names c).1 (names c).2.2, m)
  | AddressNames _ _ => (uv_onaddrnamed thread (names c).1 (names c).2.1 (names c).2.2, m)
  end.

Definition done_named L (c : name_request) : St * memory :=
  let r := named (Some L.1) c L.2 in (default L.1 r.1, r.2).

(** The type of the first argument, and its value. *)
Definition name_arg_of (v : lvalue) : name_arg :=
  match v with
  | LString s => NameString (c_string s)
  | LInteger _ | LNumber _ => NamePort (default 0 (lua_tointegerx v))
  | LUserdata p => match netaddress p with Some a => NameAddress a | None => NameOther end
  | _ => NameOther
  end.

(** The mode is not read when the first argument is a string. *)
Definition request_of {St} `{!LuaStack St} (L : St) : result name_request :=
  mode <- match arg L 1 with LString _ => Ok "" | _ => optstring L 2 "" end;;
  NetFind.k_setupnameaddr idn gnu (name_arg_of (arg L 1)) (Some mode).

Definition k_setupnameaddr L : result (name_request * (Z * (St * memory))) :=
  c <- request_of L;; arm uv_start strerror c L id.

Definition system_nameaddr (wait : option (list lvalue)) L : result (name_request * list lvalue) :=
  lcuT_resetcoreqk sched yieldable done_named wait L k_setupnameaddr None.

(** What the coroutine gets. *)
Definition failure (err : Z) : list lvalue := [LBoolean false; LString (strerror err); LInteger (- err)].
Definition answer_error (c : name_request) : Z :=
  match c with Canonical name => (canonical name).1 | _ => (names c).1 end.
Definition answer_values (c : name_request) : list lvalue :=
  match c with
  | Canonical name => [string_or_nil (canonical name).2.2]
  | ServiceName _ _ => [string_or_nil (names c).2.2]
  | AddressNames _ _ => [string_or_nil (names c).2.1; string_or_nil (names c).2.2]
  end.

(** [system.nameaddr] gives the canonical name of a name, the service of a port, or
    the host and the service of an address, or the error of libuv: when the request
    is made as when it is done.  The list of a search by name is released, whether
    the coroutine waits for it or not. *)
Theorem nameaddr_results (L : St) m (wait : option (list lvalue)) (Hy : yieldable = true)
    (Herr : forall c, answer_error c <= 0) :
  system_nameaddr wait (L, m) =
    (c <- request_of L;;
     Ok (c, if uv_start c <? 0 then failure (uv_start c)
            else if answer_error c =? 0 then answer_values c else failure (answer_error c))) /\
  (forall (thread : option St) c, (named thread c m).2 = m).
Proof.
  split.
  - unfold system_nameaddr.
    erewrite (resetcoreqk_none sched yieldable uv_start done_named strerror wait (L, m) k_setupnameaddr (request_of L)
      (fun c => if answer_error c =? 0 then answer_values c else failure (answer_error c))); [done | done | |].
    + intros L' HL'. unfold k_setupnameaddr, request_of, optstring, checkstring.
      by rewrite !(arg_ext (L, m) L' _ HL').
    + intros c [L' m']. unfold done_named, named. specialize (Herr c).
      assert (forall err, err <= 0 -> err <> 0 ->
        values (Results.lcuL_pushresults strerror L' 0 err).2 = values L' ++ failure err) as Hf.
      { intros err H1 H2. rewrite values_pushresults0. by rewrite (proj2 (Z.ltb_lt _ _)) by lia. }
      destruct c as [name | a flags | a flags]; cbn [answer_error answer_values fst snd] in *;
        [destruct (new_list _ _) as [results m''] |..];
        unfold uv_oncannonical, uv_onservnamed, uv_onaddrnamed, ctrue;
        match goal with |- context [?x =? 0] => destruct (Z.eqb_spec x 0) as [E | E] end; cbn [negb fst snd default from_option id values stack_and];
        rewrite ?Hf by done; rewrite ?values_push, <- ?app_assoc; done.
  - intros thread [name | a flags | a flags]; cbn [named]; [| done ..].
    unfold new_list. destruct (decide _); [done |]. cbn. destruct m as [l o]. cbn.
    by rewrite delete_new.
Qed.
End name.
End Name.

(** ** [system.netinfo] *)
Module NetInfo.

Section netinfo.
Context {St : Type} `{!LuaStack St} `{!LuaArgs}.
Context (strerror : Z -> string) (uv_inet_ntop : family -> string -> Z + string) (UV_EAI_ADDRFAMILY : Z).
(** libuv: an error and a text, an error and the interfaces. *)
Context (uv_if_indextoiid uv_if_indextoname : Z -> Z * string).
Context (uv_interface_addresses : Z * list uv_interface_address_t).
Implicit Types (L : St).

Definition options : list string := ["id"; "name"; "all"].
Definition INT_MAX : Z := 2 ^ 31 - 1.

(** [netinfo]: the address of the new object.  The list is the one of the object when
    there is no error. *)
Definition system_netinfo (netinfo : positive) L : result (NetInfoList * (nat * St)) :=
  name <- checkstring L 1;;
  option <- luaL_checkoption 1 options name;;
  if (option <? 2)%nat then
    i <- checkinteger L 2;;
    _ <- luaL_argcheck ((0 <? i) && (i <=? INT_MAX)) 2 "out of range";;
    let f := if (option =? 0)%nat then uv_if_indextoiid else uv_if_indextoname in
    if (f i).1 <? 0 then Ok (None, Results.lcuL_pusherrres strerror L (f i).1)
    else Ok (None, (1%nat, lua_push L (LString (f i).2)))
  else
    let L := lua_push L (LUserdata netinfo) in
    let err := uv_interface_addresses.1 in
    if err <? 0 then Ok (None, Results.lcuL_pusherrres strerror L err)
    else
      let L := lua_replace L 1 in
      let L := lua_settop L 2 in
      let L := lua_push L (LInteger 0) in
      let L := lua_push L (default LNil (lua_at L (-3))) in
      Ok (Some uv_interface_addresses.2, (4%nat, L)).

(** [for i, ... in system.netinfo("all", mode) do]: the values of each turn.  The
    object, the mode and the index are the arguments of each call. *)
Fixpoint netinfo_turns (fuel : nat) (l : NetInfoList) (mode : string) (previdx : Z)
    : option (result (list (list lvalue))) :=
  match fuel with
  | O => None
  | S fuel =>
      match netinfo_call uv_inet_ntop UV_EAI_ADDRFAMILY l mode (Some previdx) with
      | Ok (LInteger i :: vs) =>
          r ← netinfo_turns fuel l mode i;
          Some (rest <- r;; Ok ((LInteger i :: vs) :: rest))
      | Ok _ => Some (Ok [])
      | r => Some (_ <- r;; Ok [])
      end
  end.

Definition describe (mode : string) (d : uv_interface_address_t * (string * string * Z)) : list lvalue :=
  let '(iface, (lit, mac, k)) := d in netinfo_value iface lit mac k <$> list_ascii_of_string (c_string mode).

Lemma netinfo_call_at l mode (k : nat) :
  Z.of_nat (length l) < 2 ^ 31 -> (k <= length l)%nat ->
  netinfo_call uv_inet_ntop UV_EAI_ADDRFAMILY (Some l) mode (Some (Z.of_nat k)) =
    match l !! k with
    | Some iface => mode_loop (netinfo_char uv_inet_ntop UV_EAI_ADDRFAMILY iface) [LInteger (Z.of_nat k + 1)] (c_string mode)
    | None => Ok []
    end.
Proof.
  intros Hl Hk. unfold netinfo_call, openednetinfo. cbn [rbind default from_option]. unfold id.
  rewrite (wraps_id 32) by (change (2 ^ (32 - 1)) with (2 ^ 31); lia).
  rewrite (proj2 (Z.leb_le _ _)), Nat2Z.id by lia. cbn [andb].
  destruct (l !! k) eqn:E.
  - apply lookup_lt_Some in E. by rewrite (proj2 (Z.ltb_lt _ _)) by lia.
  - apply lookup_ge_None in E. by rewrite (proj2 (Z.ltb_ge _ _)) by lia.
Qed.

(** [system.netinfo("all", mode)] starts a loop over the interfaces that libuv
    gives: the loop ends, and visits every interface once and in order, with its
    index and what the characters of the mode stand for, if they are at most twenty:
    nothing makes space in the stack for more. *)
Theorem netinfo_iterates (L : St) (netinfo : positive) (mode : string)
    (ds : list (uv_interface_address_t * (string * string * Z)))
    (HL : values L = [LString "all"; LString mode]) (Huv : uv_interface_addresses = (0, ds.*1))
    (Hd : forall d, d ∈ ds -> described uv_inet_ntop d.1 d.2.1.1 d.2.1.2 d.2.2)
    (Hm : chars_in netinfo_chars (c_string mode) = true) (Hroom : (String.length (c_string mode) <= 20)%nat)
    (Hlen : Z.of_nat (length ds) < 2 ^ 31) :
  exists l n L', system_netinfo netinfo L = Ok (l, (n, L')) /\
    returned n L' = [LUserdata netinfo; LString mode; LInteger 0; LUserdata netinfo] /\
    netinfo_turns (S (length ds)) l mode 0 =
      Some (Ok (imap (fun i d => LInteger (Z.of_nat i + 1) :: describe mode d) ds)).
Proof.
  unfold system_netinfo, checkstring, arg. rewrite HL. cbn [lookup list_lookup Nat.sub default from_option id].
  rewrite tolstring_string. cbn [rbind]. change (luaL_checkoption 1 options (c_string "all")) with (Ok 2%nat).
  cbn [rbind Nat.ltb Nat.leb]. rewrite Huv. cbn [fst snd Z.ltb Z.compare].
  eexists _, _, _. split; [done |].
  set (L1 := lua_settop _ 2).
  assert (values L1 = [LUserdata netinfo; LString mode]) as HL1.
  { unfold L1. rewrite values_settop.
    rewrite (values_replace_app _ [] (LString "all") [LString mode] (LUserdata netinfo) 1);
      [done | by rewrite values_push, HL | done]. }
  split.
  { apply (returned_app _ []); [| done]. rewrite !values_push, HL1.
    unfold lua_at, lua_absindex, lua_gettop. by rewrite values_push, HL1. }
  assert (forall pre rest, ds = pre ++ rest ->
    netinfo_turns (S (length rest)) (Some ds.*1) mode (Z.of_nat (length pre)) =
      Some (Ok (imap (fun i d => LInteger (Z.of_nat (length pre + i) + 1) :: describe mode d) rest)))
    as H0; [| by apply (H0 [])].
  intros pre rest. revert pre. induction rest as [| d rest IH]; intros pre Hds.
  - rewrite app_nil_r in Hds. subst pre. cbn [netinfo_turns length imap].
    rewrite netinfo_call_at by (rewrite length_fmap; lia).
    by rewrite lookup_ge_None_2 by (rewrite length_fmap; lia).
  - change (S (length (d :: rest))) with (S (S (length rest))).
    remember (S (length rest)) as fuel. cbn [netinfo_turns].
    rewrite netinfo_call_at by (rewrite ?length_fmap, ?Hds, ?length_app; rewrite ?Hds, ?length_app in Hlen; lia).
    rewrite list_lookup_fmap, Hds, list_lookup_middle by done. cbn [fmap option_fmap option_map].
    assert (d ∈ ds) as Hin by (rewrite Hds; set_solver). destruct d as [iface [[lit mac] k]].
    rewrite (proj1 (netinfo_loop uv_inet_ntop UV_EAI_ADDRFAMILY iface lit mac k _ _ (Hd _ Hin)) Hm).
    cbn [app]. rewrite <- Hds. subst fuel. specialize (IH (pre ++ [(iface, (lit, mac, k))])).
    rewrite length_app in IH. cbn [length] in IH.
    replace (Z.of_nat (length pre) + 1) with (Z.of_nat (length pre + 1)) by lia.
    rewrite IH by (by rewrite <- app_assoc). cbn [mbind option_bind rbind imap describe].
    rewrite Nat.add_0_r. do 3 f_equal; [by rewrite Nat2Z.inj_add |].
    apply imap_ext. intros i x _. unfold compose. do 2 f_equal. lia.
Qed.
End netinfo.
End NetInfo.

(** ** Examples *)

Definition example_list : list addrinfo :=
  [AddrInfo AF_INET (SOCK_OTHER 3) 0 (Addr AF_INET 80 "0000"); AddrInfo AF_INET SOCK_STREAM 0 (Addr AF_INET 80 "0000")].
Definition no_memory : memory := Mem ∅ ∅.

Lemma owned_none : owned no_memory.
Proof. split; cbn; intros *; rewrite ?lookup_empty; done || by intros [? ?]. Qed.


Lemma findaddr_leaks_witness :
  let search := Find.search (St := list lvalue) (-3000) (fun _ => ""%string) 9 true (fun _ => 0)
    (fun _ => (0, example_list)) in
  exists vs m2, search (Some (ByOperation [LInteger 0; LLightUserdata (Some 1%positive)])) (ByOperation [])
      ([LString "host"; LString "80"], Mem {[1%positive := example_list]} ∅) = Ok (vs, m2) /\
    lists (foldr close_object m2 [1%positive]) !! 1%positive = Some example_list /\
    lists (foldr close_object m2 [1%positive]) !! 2%positive = None.
Proof.
  pose proof (Find.findaddr_leaks (LuaStack0 := list_stack) (-3000) (fun _ => ""%string) 9 true (fun _ => 0)
    (fun _ => (0, example_list)) (fun _ => eq_refl) (fun _ H => match H eq_refl with end)
    [LString "host"; LString "80"] [] no_memory (None, None, Hints None SOCK_ANY 0 0) example_list (ByOperation [])
    eq_refl owned_none eq_refl ltac:(discriminate)) as [_ H].
  eexists _, _. split; [vm_compute; reflexivity |]. split; [| by vm_compute].
  eapply H. vm_compute. reflexivity.
Defined.

Lemma nameaddr_results_witness :
  Name.system_nameaddr (St := list lvalue) (fun _ => ""%string) 9 true true true (fun _ => None) (fun _ => 0)
    (fun _ => (0, (None, Some "http"%string))) (fun _ => (0, ([], None))) None ([LInteger 80], no_memory)
  = Ok (ServiceName (Addr AF_INET (htons 80) (string_of_list_ascii (repeat "000"%char 4))) [], [LString "http"]).
Proof.
  refine (eq_trans (proj1 (Name.nameaddr_results (LuaStack0 := list_stack) (fun _ => ""%string) 9 true true true
    (fun _ => None) (fun _ => 0) (fun _ => (0, (None, Some "http"%string))) (fun _ => (0, ([], None)))
    [LInteger 80] no_memory None eq_refl _)) _).
  - by intros [].
  - vm_compute. reflexivity.
Defined.

Lemma netinfo_iterates_witness :
  let iface := Interface "eth0" false (Addr AF_INET 0 "abcd") (Addr AF_INET 0 (prefix_mask 4 20)) "123456" in
  let ntop := fun (_ : family) (_ : string) => inr "97.98.99.100"%string in
  exists l n L', NetInfo.system_netinfo (fun _ => ""%string) (fun _ => (0, ""%string)) (fun _ => (0, ""%string))
      (0, [iface]) 5 [LString "all"; LString "nl"] = Ok (l, (n, L')) /\
    NetInfo.netinfo_turns ntop (-3000) 2 l "nl" 0 = Some (Ok [[LInteger 1; LString "eth0"; LInteger 20]]).
Proof.
  intros iface ntop.
  destruct (NetInfo.netinfo_iterates (LuaStack0 := list_stack) (fun _ => ""%string) ntop (-3000)
    (fun _ => (0, ""%string)) (fun _ => (0, ""%string)) (0, [iface]) [LString "all"; LString "nl"] 5 "nl"
    [(iface, ("97.98.99.100"%string, mac_text "1" "2" "3" "4" "5" "6", 20))])
    as (l & n & L' & E & _ & H); try done.
  - intros d ->%list_elem_of_singleton. unfold described. split_and!; try by vm_compute.
    + by left.
    + by left.
    + by exists "1"%char, "2"%char, "3"%char, "4"%char, "5"%char, "6"%char.
  - first [by vm_compute | vm_compute; lia].
  - by exists l, n, L'.
Defined.
