(* ===== verification/SockAddr.v ===== *)
(** * The addresses of sockets (src/src/lcommunf.c, lines 855 to 909, 1374 to 1385 and 1476 to 1496)

    The method [getaddress] of sockets of UDP and TCP, which writes to an object that
    the script gives or to a new one, and of pipes, which gives a string. *)
From stdpp Require Import gmap.
From S2P Require Import Prelude Outcome LuaApi Results FileInfo Await StackWith UdataHandle NetAddr NetFind Sockets SockOps.

(** The objects with addresses. *)
Abbreviation addresses := (gmap positive sockaddr).

Definition AddrSites : list string := ["self"; "peer"]%string.
Definition LCU_PIPEADDRBUF : Z := 128.

(** The object and what it holds. *)
Definition tonetaddr (m : addresses) (v : lvalue) : option (positive * sockaddr) :=
  match v with LUserdata p => pair p <$> m !! p | _ => None end.

Section getaddress.
Context {St : Type} `{!LuaStack St} `{!LuaArgs}.
Context (object : lvalue -> option sock) (strerror : Z -> string).
Implicit Types (L : St * addresses).

(** libuv: the error or the address of a handle, of its own or of its peer; of a pipe
    for a buffer of a size the error, the size and the text. *)
Context (uv_getname : bool -> positive -> Z + sockaddr) (UV_ENOBUFS : Z).
Context (uv_pipe_getname : bool -> positive -> Z -> Z * (Z * string)) (buffer : positive).

(** The object with the address, and the size of its memory. *)
Definition settopaddrarg L (i : nat) (domain : family) : result (positive * Z * (St * addresses)) :=
  match tonetaddr L.2 (arg L i) with
  | Some (p, addr) =>
      let L := lua_settop L i in
      _ <- chkaddrdom addr (Z.of_nat i) domain;;
      Ok (p, Family.sizeof_sockaddr (sa_family addr), L)
  | None =>
      let L := lua_settop L (i - 1) in
      addr <- newaddress domain;;
      let p := fresh (dom L.2) in
      Ok (p, Family.sizeof_sockaddr domain, (lua_push L.1 (LUserdata p), <[p := addr]> L.2))
  end.

(** libuv writes the address to the object, and its size. *)
Definition getaddress (c : class) L : result (nat * (St * addresses)) :=
  s <- openedudhdl object c L;;
  peer <- checkoption L 2 (Some "self"%string) AddrSites;;
  let domain := Family.netdomainof (sock_flags s) in
  r <- settopaddrarg L 3 domain;;
  let '(p, size, L) := r in
  match uv_getname (negb (peer =? 0)%nat) (handle s) with
  | inl err => Ok (Results.lcuL_pushresults strerror L 1 err)
  | inr a =>
      _ <- rassert (Family.sizeof_sockaddr (sa_family a) =? size);;
      Ok (Results.lcuL_pushresults strerror (L.1, <[p := a]> L.2) 1 0)
  end.

Definition udp_getaddress L := getaddress UDPSOCKET L.
Definition tcp_getaddress (c : class) L := getaddress c L.

(** The first buffer is of the function; if it is too small libuv is called once more,
    with a buffer of the size that it tells. *)
Definition pipe_getaddress (c : class) L : result (nat * (St * addresses)) :=
  s <- openedudhdl object c L;;
  peer <- checkoption L 2 (Some "self"%string) AddrSites;;
  let f := uv_pipe_getname (negb (peer =? 0)%nat) (handle s) in
  let r := f LCU_PIPEADDRBUF in
  let '(L, (err, (bufsz, buf))) :=
    if (negb (r.1 =? 0)) && (r.1 =? UV_ENOBUFS) then (lua_push L (LUserdata buffer), f r.2.1) else (L, r) in
  let L := if err =? 0 then lua_push L (LString (take_string (Z.to_nat bufsz) buf)) else L in
  Ok (Results.lcuL_pushresults strerror L 1 err).

(** *** Properties *)

(** What the arguments select: the site, and an object to be written or none. *)
Definition site_of (L : St) : result bool :=
  peer <- checkoption L 2 (Some "self"%string) AddrSites;; Ok (negb (peer =? 0)%nat).

Definition failed (err : Z) : list lvalue := [LBoolean false; LString (strerror err); LInteger (- err)].

(** The object at [p] is returned with the address, and nothing else changes. *)
Definition addressed (c : class) (L : St) (m : addresses) (name : Z + sockaddr) (p : positive) : Prop :=
  exists n (L' : St) (m' : addresses), getaddress c (L, m) = Ok (n, (L', m')) /\
    (forall q, q <> p -> m' !! q = m !! q) /\
    match name with
    | inl err => returned n L' = failed err
    | inr a => returned n L' = [LUserdata p] /\ m' !! p = Some a
    end.

Lemma arg_pair (L : St) (m : addresses) i : arg (L, m) i = arg L i.
Proof. done. Qed.

Lemma getaddress_named c (L L1 : St) (m m1 : addresses) s peer p size below :
  openedudhdl object c L = Ok s -> site_of L = Ok peer ->
  (forall err, uv_getname peer (handle s) = inl err -> err < 0) ->
  (forall a, uv_getname peer (handle s) = inr a -> Family.sizeof_sockaddr (sa_family a) = size) ->
  settopaddrarg (L, m) 3 (Family.netdomainof (sock_flags s)) = Ok (p, size, (L1, m1)) ->
  values L1 = below ++ [LUserdata p] -> (forall q, q <> p -> m1 !! q = m !! q) ->
  addressed c L m (uv_getname peer (handle s)) p.
Proof.
  intros Hs Hpeer Herr Hsize Hset HL1 Hm1. unfold addressed, getaddress.
  change (openedudhdl object c (L, m)) with (openedudhdl object c L).
  change (checkoption (L, m) 2 (Some "self"%string) AddrSites) with (checkoption L 2 (Some "self"%string) AddrSites).
  rewrite Hs. unfold site_of in Hpeer. cbn [rbind].
  destruct (checkoption L 2 _ _) as [o | | | | |]; try done. cbn [rbind] in Hpeer |- *.
  injection Hpeer as Hp. rewrite Hset. cbn [rbind]. rewrite Hp.
  destruct (uv_getname peer (handle s)) as [err | a] eqn:Hname.
  - specialize (Herr err eq_refl). unfold Results.lcuL_pushresults. rewrite (proj2 (Z.ltb_lt _ _) Herr).
    eexists _, _, _. split; [reflexivity |].
    split; [done |]. cbn [snd fst].
    apply (returned_app _ (values (lua_pop L1 1))); [| done]. apply values_errres.
  - rewrite (Hsize a eq_refl), Z.eqb_refl. cbn [rassert rbind].
    eexists _, _, _. split; [done |]. split; [intros q Hq; by rewrite lookup_insert_ne, Hm1 by done |].
    split; [by apply (returned_app _ below) | apply lookup_insert_eq].
Qed.

(** The object that is returned is the third argument when it has an address, which
    must be of the family of the socket, and a new one otherwise; only this object
    changes, and it gets the address that libuv tells. *)
Theorem getaddress_writes (c : class) (L : St) (m : addresses) (s : sock) (peer : bool)
    (Hs : openedudhdl object c L = Ok s) (Hpeer : site_of L = Ok peer)
    (Huv : forall err, uv_getname peer (handle s) = inl err -> err < 0)
    (Hfam : forall a, uv_getname peer (handle s) = inr a -> sa_family a = Family.netdomainof (sock_flags s)) :
  match tonetaddr m (arg L 3) with
  | Some (p, addr) =>
      if decide (sa_family addr = Family.netdomainof (sock_flags s))
      then addressed c L m (uv_getname peer (handle s)) p
      else getaddress c (L, m) = ArgError 3 "wrong domain"
  | None => addressed c L m (uv_getname peer (handle s)) (fresh (dom m))
  end.
Proof.
  destruct (tonetaddr m (arg L 3)) as [[p addr] |] eqn:Hto.
  - assert (arg L 3 = LUserdata p) as Harg.
    { unfold tonetaddr in Hto. destruct (arg L 3); try done. destruct (m !! p0); by simplify_option_eq. }
    destruct (decide _) as [Hd | Hd].
    + apply (getaddress_named c L (lua_settop L 3) m m s peer p (Family.sizeof_sockaddr (sa_family addr))
               (take 2 (resize 3 LNil (values L)))); try done.
      * intros a Ha. by rewrite Hd, (Hfam a Ha).
      * unfold settopaddrarg. cbn [snd]. rewrite arg_pair, Hto. unfold chkaddrdom.
        by rewrite bool_decide_true.
      * rewrite values_settop. unfold arg in Harg. destruct (values L) as [| x [| y [| z l]]]; try done.
        cbn in Harg. subst z. cbn. by rewrite resize_0.
    + unfold getaddress. change (openedudhdl object c (L, m)) with (openedudhdl object c L).
      change (checkoption (L, m) 2 (Some "self"%string) AddrSites) with (checkoption L 2 (Some "self"%string) AddrSites).
      rewrite Hs. unfold site_of in Hpeer. cbn [rbind].
      destruct (checkoption L 2 _ _) as [o | | | | |]; try done. cbn [rbind].
      unfold settopaddrarg. cbn [snd]. rewrite arg_pair, Hto. unfold chkaddrdom. by rewrite bool_decide_false.
  - assert (is_inet (Family.netdomainof (sock_flags s))) as Hin
      by (unfold Family.netdomainof; destruct (ctrue _); [by right | by left]).
    assert (exists addr, newaddress (Family.netdomainof (sock_flags s)) = Ok addr) as [addr Hnew]
      by (destruct Hin as [-> | ->]; by eexists).
    apply (getaddress_named c L (lua_push (lua_settop L 2) (LUserdata (fresh (dom m)))) m (<[fresh (dom m) := addr]> m)
      s peer _ (Family.sizeof_sockaddr (Family.netdomainof (sock_flags s))) (resize 2 LNil (values L))); try done.
    + intros a Ha. by rewrite (Hfam a Ha).
    + unfold settopaddrarg. cbn [snd]. rewrite arg_pair, Hto. cbn [Nat.sub]. by rewrite Hnew.
    + by rewrite values_push, values_settop.
    + intros q Hq. by rewrite lookup_insert_ne.
Qed.

(** The address of a pipe is returned whole, however long it is, when libuv tells the
    size that it needs. *)
Theorem pipe_getaddress_whole (c : class) (L : St) (m : addresses) (s : sock) (peer : bool) (name : string)
    (Hs : openedudhdl object c L = Ok s) (Hpeer : site_of L = Ok peer) (Hbufs : UV_ENOBUFS < 0)
    (Huv : forall size, uv_pipe_getname peer (handle s) size =
       if Z.of_nat (String.length name) <? size then (0, (Z.of_nat (String.length name), name))
       else (UV_ENOBUFS, (Z.of_nat (String.length name) + 1, ""%string))) :
  exists n (L' : St), pipe_getaddress c (L, m) = Ok (n, (L', m)) /\ returned n L' = [LString name].
Proof.
  unfold pipe_getaddress. change (openedudhdl object c (L, m)) with (openedudhdl object c L).
  change (checkoption (L, m) 2 (Some "self"%string) AddrSites) with (checkoption L 2 (Some "self"%string) AddrSites).
  rewrite Hs. unfold site_of in Hpeer. cbn [rbind].
  destruct (checkoption L 2 _ _) as [o | | | | |]; try done. cbn [rbind] in Hpeer |- *. injection Hpeer as Hp.
  rewrite Hp, Huv. destruct (Z.ltb_spec (Z.of_nat (String.length name)) LCU_PIPEADDRBUF); cbn [fst snd].
  - cbn. rewrite Nat2Z.id, take_string_all. eexists _, _. split; [done |].
    apply (returned_app _ (values L)); [| done]. apply values_push.
  - rewrite (proj2 (Z.eqb_neq _ _)), Z.eqb_refl by lia. cbn [negb andb]. rewrite Huv.
    rewrite (proj2 (Z.ltb_lt _ _)) by lia. cbn. rewrite Nat2Z.id, take_string_all. eexists _, _. split; [done |].
    apply (returned_app _ (values (lua_push L (LUserdata buffer)))); [| done]. apply values_push.
Qed.
End getaddress.

(** ** Examples *)

Definition example_socket (v : lvalue) : option sock :=
  match v with LUserdata 9 => Some (Sock UDPSOCKET 0 7) | LUserdata 8 => Some (Sock PIPEACTIVE 0 7) | _ => None end.

Lemma getaddress_writes_witness :
  let a := Addr AF_INET 80 "abcd" in
  let m : addresses := {[3%positive := Addr AF_INET 0 "0000"]} in
  addressed (St := list lvalue) example_socket (fun _ => ""%string) (fun _ _ => inr a) UDPSOCKET
    [LUserdata 9; LNil; LUserdata 3] m (inr a) 3 /\
  addressed (St := list lvalue) example_socket (fun _ => ""%string) (fun _ _ => inr a) UDPSOCKET
    [LUserdata 9; LString "peer"] m (inr a) (fresh (dom m)).
Proof.
  intros a m. split.
  - refine (getaddress_writes (LuaStack0 := list_stack) example_socket (fun _ => ""%string) (fun _ _ => inr a) UDPSOCKET
      [LUserdata 9; LNil; LUserdata 3] m (Sock UDPSOCKET 0 7) false eq_refl eq_refl _ _).
    + done.
    + by intros ? [= <-].
  - refine (getaddress_writes (LuaStack0 := list_stack) example_socket (fun _ => ""%string) (fun _ _ => inr a) UDPSOCKET
      [LUserdata 9; LString "peer"] m (Sock UDPSOCKET 0 7) true eq_refl eq_refl _ _).
    + done.
    + by intros ? [= <-].
Defined.

Definition example_pipe (size : Z) : Z * (Z * string) :=
  if 3 <? size then (0, (3, "tmp"%string)) else (-105, (4, ""%string)).

Lemma pipe_getaddress_whole_witness :
  exists n L', pipe_getaddress (St := list lvalue) example_socket (fun _ => ""%string) (-105)
    (fun _ _ => example_pipe) 2 PIPEACTIVE ([LUserdata 8], ∅) = Ok (n, (L', ∅)) /\ returned n L' = [LString "tmp"].
Proof.
  exact (pipe_getaddress_whole (LuaStack0 := list_stack) example_socket (fun _ => ""%string) (-105)
    (fun _ _ => example_pipe) 2 PIPEACTIVE [LUserdata 8] ∅ (Sock PIPEACTIVE 0 7) false "tmp" eq_refl eq_refl
    ltac:(lia) (fun size => eq_refl)).
Defined.
