(* ===== verification/DirList.v ===== *)
(** * Lists of directories (src/src/lfilef.c, lines 1103 to 1201)

    [system.listdir] returns an object that gives the entries of a directory one by
    one, also as the closing value of a loop.  The request of libuv that has the
    entries is in the object, and is cleaned up when they are over, when the object
    is closed or collected, or when the coroutine that asked for it does not wait
    any more. *)
From S2P Require Import Prelude Outcome Steps.

Inductive uv_dirent_type_t :=
  | UV_DIRENT_UNKNOWN | UV_DIRENT_FILE | UV_DIRENT_DIR | UV_DIRENT_LINK | UV_DIRENT_FIFO
  | UV_DIRENT_SOCKET | UV_DIRENT_CHAR | UV_DIRENT_BLOCK.
Abbreviation uv_dirent_t := (string * uv_dirent_type_t)%type.

(** The request: not initialised, given to libuv, done with the entries that are
    left, cleaned up. *)
Inductive fs_request := Raw | Pending | Done (rest : list uv_dirent_t) | Cleaned.

Record DirectoryList := DirList { result : Z; filereq : fs_request }.
Implicit Types (d : DirectoryList).

(** libuv: the entries in a request that is done; [UV_EOF] is negative. *)
Definition uv_fs_scandir_next (req : fs_request) : option (option uv_dirent_t * fs_request) :=
  match req with
  | Done (entry :: rest) => Some (Some entry, Done rest)
  | Done [] => Some (None, Done [])
  | _ => None
  end.
Definition uv_fs_req_cleanup (req : fs_request) : option fs_request :=
  match req with Done _ => Some Cleaned | _ => None end.

Definition type_name (type : uv_dirent_type_t) : string :=
  match type with
  | UV_DIRENT_SOCKET => "socket"
  | UV_DIRENT_LINK => "link"
  | UV_DIRENT_FILE => "file"
  | UV_DIRENT_BLOCK => "block"
  | UV_DIRENT_DIR => "directory"
  | UV_DIRENT_CHAR => "character"
  | UV_DIRENT_FIFO => "pipe"
  | UV_DIRENT_UNKNOWN => "unknown"
  end.

Definition cleaned d : option DirectoryList :=
  req ← uv_fs_req_cleanup (filereq d); Some (DirList (-1) req).

(** The metamethods [__gc] and [__close]. *)
Definition dirinfo_gc d : option DirectoryList :=
  if 0 <=? result d then cleaned d else Some d.

(** The metamethod [__call]: the strings that it returns. *)
Definition dirinfo_call d : option (Outcome.result (list string) * DirectoryList) :=
  if 0 <=? result d then
    r ← uv_fs_scandir_next (filereq d);
    let '(entry, req) := (r : option uv_dirent_t * fs_request) in
    match entry with
    | None => d ← cleaned (DirList (result d) req); Some (Ok [], d)
    | Some (name, type) => Some (Ok [name; type_name type], DirList (result d) req)
    end
  else Some (ArgError 1 "closed", d).

(** [lcuT_newudreq]: the field of the result is what was in the memory. *)
Definition new_dirlist (garbage : Z) : DirectoryList := DirList garbage Raw.

(** What libuv does: the number of entries, or an error and nothing to clean up. *)
Definition scanned (res : Z) (entries : list uv_dirent_t) : DirectoryList :=
  DirList res (if res <? 0 then Cleaned else Done entries).

(** [returnlistdir]. *)
Definition returnlistdir d : Outcome.result DirectoryList :=
  if result d <? 0 then UvError (result d) else Ok d.

(** [system_listdir] in the mode that does not yield; the other mode starts with
    [k_setuplistdir], in a coroutine. *)
Definition listdir_now (res : Z) (entries : list uv_dirent_t) (_ : DirectoryList)
    : Outcome.result DirectoryList * DirectoryList :=
  let d := scanned res entries in
  (if res <? 0 then UvError res else returnlistdir d, d).
Definition listdir_start (yieldable : bool) (err : Z) d : Outcome.result unit * DirectoryList :=
  if yieldable then
    if err <? 0 then (UvError err, DirList 0 Cleaned) else (Ok tt, DirList 0 Pending)
  else (LuaError "unable to yield", d).

(** [uv_onlistdir]; [thread]: a coroutine waits. *)
Definition uv_onlistdir (thread : bool) (res : Z) (entries : list uv_dirent_t) d
    : option (option (Outcome.result DirectoryList) * DirectoryList) :=
  lcu_assert (match filereq d with Pending => true | _ => false end) ≫= λ _,
  let d := scanned res entries in
  if thread then Some (Some (returnlistdir d), d)
  else Some (None, DirList (-1) Cleaned).

(** ** Properties *)

(** An iterator over the entries that are left, [None] when it is closed. *)
Definition iterator := option (list uv_dirent_t).
Definition next (it : iterator) : Outcome.result (list string) * iterator :=
  match it with
  | None => (ArgError 1 "closed", None)
  | Some [] => (Ok [], None)
  | Some ((name, type) :: rest) => (Ok [name; type_name type], Some rest)
  end.

Definition iterates d (it : iterator) : Prop :=
  match it with
  | Some rest => 0 <= result d /\ filereq d = Done rest
  | None => result d < 0 /\ filereq d = Cleaned
  end.

Inductive op := Call | Close.
Definition exec (op : op) d : option (list (Outcome.result (list string)) * DirectoryList) :=
  match op with
  | Call => r ← dirinfo_call d; Some ([r.1], r.2)
  | Close => d ← dirinfo_gc d; Some ([], d)
  end.
Fixpoint runs (ops : list op) d : option (list (Outcome.result (list string)) * DirectoryList) :=
  match ops with
  | [] => Some ([], d)
  | op :: ops => r ← exec op d; rs ← runs ops r.2; Some (r.1 ++ rs.1, rs.2)
  end.
Fixpoint spec_runs (ops : list op) (it : iterator) : list (Outcome.result (list string)) * iterator :=
  match ops with
  | [] => ([], it)
  | Call :: ops => let r := next it in let rs := spec_runs ops r.2 in (r.1 :: rs.1, rs.2)
  | Close :: ops => spec_runs ops None
  end.

Lemma call_iterates d it :
  iterates d it -> exists d', dirinfo_call d = Some ((next it).1, d') /\ iterates d' (next it).2.
Proof.
  unfold dirinfo_call. destruct it as [[| [name type] rest] |], d as [res req]; cbn; intros [H1 H2]; subst req.
  - rewrite (proj2 (Z.leb_le _ _) H1). cbn. eexists. split; [reflexivity |]. done.
  - rewrite (proj2 (Z.leb_le _ _) H1). cbn. eexists. split; [reflexivity |]. done.
  - rewrite (proj2 (Z.leb_gt _ _) H1). eexists. split; [reflexivity |]. done.
Qed.

Lemma gc_iterates d it :
  iterates d it -> exists d', dirinfo_gc d = Some d' /\ iterates d' None.
Proof.
  unfold dirinfo_gc. destruct it as [rest |], d as [res req]; cbn; intros [H1 H2]; subst req.
  - rewrite (proj2 (Z.leb_le _ _) H1). cbn. eexists. split; [reflexivity |]. done.
  - rewrite (proj2 (Z.leb_gt _ _) H1). eexists. split; [reflexivity |]. done.
Qed.

Lemma runs_iterate ops d it :
  iterates d it ->
  exists d', runs ops d = Some ((spec_runs ops it).1, d') /\ iterates d' (spec_runs ops it).2.
Proof.
  revert d it. induction ops as [| [] ops IH]; intros d it Hd; cbn [runs spec_runs exec].
  - by exists d.
  - destruct (call_iterates d it Hd) as (d1 & -> & H1). cbn. destruct (IH d1 _ H1) as (d2 & -> & H2).
    cbn. by exists d2.
  - destruct (gc_iterates d it Hd) as (d1 & -> & H1). cbn. destruct (IH d1 _ H1) as (d2 & -> & H2).
    cbn. by exists d2.
Qed.

(** How a script gets a list: at once; after a wait; or never, because the directory
    cannot be read or the coroutine was resumed. *)
Inductive obtained : Outcome.result DirectoryList -> DirectoryList -> iterator -> Prop :=
  | at_once g res entries :
      obtained (listdir_now res entries (new_dirlist g)).1 (listdir_now res entries (new_dirlist g)).2
        (if res <? 0 then None else Some entries)
  | after_wait g res entries r d :
      uv_onlistdir true res entries (listdir_start true 0 (new_dirlist g)).2 = Some (Some r, d) ->
      obtained r d (if res <? 0 then None else Some entries)
  | cancelled g res entries d :
      uv_onlistdir false res entries (listdir_start true 0 (new_dirlist g)).2 = Some (None, d) ->
      obtained (Ok d) d None.

Lemma obtained_iterates r d it : obtained r d it -> iterates d it.
Proof.
  intros [g res entries | g res entries r' d' Hd | g res entries d' Hd]; [| revert Hd ..]; cbn -[Z.ltb].
  - unfold scanned. destruct (Z.ltb_spec res 0); by cbn.
  - intros [= <- <-]. unfold scanned. destruct (Z.ltb_spec res 0); by cbn.
  - by intros [= <-].
Qed.



(** Outside of a coroutine, the function fails before the request is
    initialised; when the object is collected, what is in its memory decides
    whether a request that was never made is cleaned up. *)
Theorem listdir_unyieldable (garbage : Z) :
  let r := listdir_start false 0 (new_dirlist garbage) in
  r.1 = LuaError "unable to yield" /\ (dirinfo_gc r.2 = None <-> 0 <= garbage).
Proof.
  split; [done |]. unfold dirinfo_gc. cbn. destruct (Z.leb_spec 0 garbage); split; (done || lia).
Qed.
