(* ===== verification/LuaStates.v ===== *)
(** * New Lua states (src/src/lmodaux.c, lines 108 to 235, and src/src/lcoroutm.c, lines 21 to 55)

    The states in which tasks and state coroutines run their chunks are made by
    [lcuL_newstate] after the state that makes them: [initluastate] gives them the
    loaders of the standard libraries and copies those of [package.preload].  Lua
    is not part of the repository: dumping a function and loading its bytecodes
    are parameters. *)
From stdpp Require Import gmap strings.
From S2P Require Import Prelude Outcome LuaApi.

(** Functions: in C or in Lua; and those of the new state, which can share functions
    of C. *)
Inductive function := CFunction (f : positive) | LuaFunction (f : positive).
Inductive loader := SharedC (f : positive) | Bytecodes (code : string).

(** What a table may have as a value: a function or something else. *)
Abbreviation field := (option function).

(** An address in the registry, of a full userdata, which its state finalizes, or
    light. *)
Inductive regval := FullUserdata (p : positive) | LightUserdata (p : positive).
Definition lua_touserdata (v : regval) : positive := match v with FullUserdata p | LightUserdata p => p end.

(** A state: its panic function, the addresses of the map of channels and of the
    copies of the standard descriptors in the registry, the state of warnings,
    [package.preload], and the first value of the stack of its main thread. *)
Record lua_world := World {
  atpanic : option positive;
  channels : option regval;
  stdiofd : option regval;
  warnstate : Z;
  preload : gmap string loader;
  first : option positive;
}.

Section states.
(** [lua_dump] with its writer, and whether the bytecodes can be loaded; the
    functions of the standard libraries. *)
Context (lua_dump : positive -> option string) (loads : string -> bool) (luaopen : string -> positive).

Definition stdlibs : list string :=
  ["_G"; "coroutine"; "table"; "io"; "os"; "string"; "math"; "utf8"; "debug"]%string.

(** The standard libraries are in [package.preload], and replace nothing there. *)
Definition add_stdlibs (t : gmap string loader) : gmap string loader :=
  fold_left (fun t name => <[name := SharedC (luaopen name)]> t) stdlibs t.

(** A function of [package.preload] in the new state, [None] for nil. *)
Definition copy_loader (f : function) : result (option loader) :=
  match f with
  | CFunction f => Ok (Some (SharedC f))
  | LuaFunction f =>
      match lua_dump f with
      | None => Ok None
      | Some code => _ <- rassert (loads code);; Ok (Some (Bytecodes code))
      end
  end.

Definition settable (t : gmap string loader) (name : string) (f : option loader) : gmap string loader :=
  match f with Some f => <[name := f]> t | None => delete name t end.

(** The traversal of the table of [L], in the order of [lua_next].  A key that is a
    number is converted to a string in the place where [lua_next] reads it next. *)
Fixpoint copy_preload (fields : list (lvalue * field)) (t : gmap string loader) : result (gmap string loader) :=
  match fields with
  | [] => Ok t
  | (LString name, Some f) :: fields => f <- copy_loader f;; copy_preload fields (settable t name f)
  | (LInteger _, Some f) :: fields | (LNumber _, Some f) :: fields => Overrun
  | _ :: fields => copy_preload fields t
  end.

(** [copylightud]: a field of the registry of [L] in the one of the new state. *)
Definition copylightud (field : option regval) : option regval :=
  match field with Some ud => Some (LightUserdata (lua_touserdata ud)) | None => None end.

(** [initluastate]: [L] with the fields of its [package.preload], [thread]: the thread
    that is made to run the code. *)
Definition initluastate (L : lua_world) (fields : list (lvalue * field)) (thread : positive) : result lua_world :=
  t <- copy_preload fields (add_stdlibs ∅);;
  Ok (World None (copylightud (channels L)) (copylightud (stdiofd L)) 0 t (Some thread)).

(** [lcuL_newstate]: the panic function of [L], its new state with the thread, or
    the error that is raised in [L] when the protected call fails and the state was
    closed.  [alloc]: the result of [lua_newstate] is not NULL, which is not
    checked. *)
Definition lcuL_newstate (L : lua_world) (fields : list (lvalue * field)) (thread : positive)
    (alloc : bool) (memerr : option string) : option positive * result (positive * lua_world) :=
  let panic := atpanic L in  (* set to NULL, and restored *)
  (panic,
   if alloc then
     match memerr with
     | Some msg => LuaError msg
     | None =>
         NL <- initluastate L fields thread;;
         match first NL with
         | Some th => Ok (th, World panic (channels NL) (stdiofd NL) (warnstate NL) (preload NL) (first NL))
         | None => Overrun
         end
     end
   else Overrun).

(** [lcuL_tomain], of thread [th] of state [NL]. *)
Definition lcuL_tomain (th : positive) (NL : lua_world) : result lua_world :=
  _ <- rassert (bool_decide (first NL = Some th));; Ok NL.

(** [doloaded] of state coroutines: what [coroutine.load] and [coroutine.loadfile]
    return, and whether the state is closed or is that of the new object. *)
Inductive loaded := LoadFailed (vs : list lvalue) | LoadedObject (NL : positive).
Definition doloaded (th : positive) (NL : lua_world) (status : lua_status) (errmsg : string) : result loaded :=
  if bool_decide (status = LUA_OK) then Ok (LoadedObject th)
  else _ <- lcuL_tomain th NL;; Ok (LoadFailed [LBoolean false; LString errmsg]).

(** ** Properties *)

(** What a name of the table is in the new state. *)
Definition copied (f : option field) (name : string) : option loader :=
  match f with
  | Some (Some (CFunction f)) => Some (SharedC f)
  | Some (Some (LuaFunction f)) => Bytecodes <$> lua_dump f
  | _ => if bool_decide (name ∈ stdlibs) then Some (SharedC (luaopen name)) else None
  end.

Fixpoint field_of (fields : list (lvalue * field)) (name : string) : option field :=
  match fields with
  | [] => None
  | (k, f) :: fields => if decide (k = LString name) then Some f else field_of fields name
  end.

Lemma add_stdlibs_lookup t name :
  add_stdlibs t !! name = if bool_decide (name ∈ stdlibs) then Some (SharedC (luaopen name)) else t !! name.
Proof using luaopen.
  unfold add_stdlibs. generalize stdlibs. intros l. revert t.
  induction l as [| x l IH] using rev_ind; intros t; [done |].
  rewrite fold_left_app. cbn [fold_left]. destruct (decide (name = x)) as [-> | Hne].
  - rewrite lookup_insert_eq, bool_decide_true by (apply elem_of_app; right; by apply list_elem_of_singleton). done.
  - rewrite lookup_insert_ne, IH by done.
    rewrite (bool_decide_ext (name ∈ l ++ [x]) (name ∈ l)); [done |].
    rewrite elem_of_app, list_elem_of_singleton. split; [by intros [? | ?] | by left].
Qed.

(** Keys that are numbers are not functions, and the bytecodes of every function can
    be loaded. *)
Definition plain_fields (fields : list (lvalue * field)) : Prop :=
  NoDup fields.*1 /\
  Forall (fun p : lvalue * field => match p with (LInteger _, Some _) | (LNumber _, Some _) => False | _ => True end) fields.

Lemma field_of_notin fields name : LString name ∉ fields.*1 -> field_of fields name = None.
Proof.
  induction fields as [| [k f] fields IH]; [done |]. cbn [fmap list_fmap fst field_of].
  rewrite not_elem_of_cons. intros [Hk Hn]. rewrite decide_False by congruence. by apply IH.
Qed.

Lemma copy_preload_lookup fields t :
  plain_fields fields ->
  (forall f code, lua_dump f = Some code -> loads code = true) ->
  exists t', copy_preload fields t = Ok t' /\
    forall name, t' !! name =
      match field_of fields name with
      | Some (Some (LuaFunction f)) => Bytecodes <$> lua_dump f
      | Some (Some (CFunction f)) => Some (SharedC f)
      | _ => t !! name
      end.
Proof.
  intros [Hnd Hk] Hl. revert t. induction fields as [| [k f] fields IH]; intros t; [by exists t |].
  apply NoDup_cons in Hnd as [Hn Hnd]. apply Forall_cons in Hk as [Hk Hks].
  specialize (IH Hnd Hks). cbn [fst snd] in *.
  assert (forall name, (forall s, k <> LString s) \/ f = None ->
    field_of ((k, f) :: fields) name =
      if decide (k = LString name) then Some None else field_of fields name) as Hskip.
  { intros name Hc. cbn [field_of]. case_decide; [| done]. destruct Hc as [Hc | ->]; [by destruct (Hc name) | done]. }
  destruct f as [f |]; cbn [copy_preload]; [destruct k | destruct k]; try done;
    try (destruct (IH t) as (t' & -> & Ht); exists t'; split; [done |]; intros name; rewrite Ht;
         rewrite Hskip by first [by left | by right]; case_decide as Hd; [| done];
         try discriminate Hd; injection Hd as Hd; subst; by rewrite (field_of_notin _ _ Hn)).
  assert (exists o, copy_loader f = Ok o /\
    o = match f with LuaFunction f => Bytecodes <$> lua_dump f | CFunction f => Some (SharedC f) end) as (o & -> & Ho).
  { destruct f as [g | g]; cbn; [by eexists |].
    destruct (lua_dump g) as [code |] eqn:Hg; [| by eexists]. rewrite (Hl _ _ Hg). by eexists. }
  cbn [rbind]. destruct (IH (settable t s o)) as (t' & -> & Ht). exists t'. split; [done |].
  intros name. rewrite Ht. cbn [field_of]. case_decide as Hd.
  - injection Hd as ->. rewrite field_of_notin by done. unfold settable. subst o.
    destruct f as [g | g]; [by rewrite lookup_insert_eq |].
    destruct (lua_dump g); cbn; [by rewrite lookup_insert_eq | by rewrite lookup_delete_eq].
  - assert (settable t s o !! name = t !! name) as ->; [| done].
    unfold settable. destruct o; [by rewrite lookup_insert_ne by congruence | by rewrite lookup_delete_ne by congruence].
Qed.

(** A new state shares the map of channels, the standard descriptors and the panic
    function of the one that makes it, finalizes none of them, and its warnings are
    off; a name can be
    required in it with the function that [package.preload] has for it there, if
    it has one (the same function of C, or one with the bytecodes of the function
    of Lua, or none when it cannot be dumped), and otherwise with the standard
    library of that name; and the thread that is returned leads back to the
    state, to close it. *)
Theorem newstate_inherits (L : lua_world) (fields : list (lvalue * field)) (thread : positive)
    (Hf : plain_fields fields)
    (Hl : forall f code, lua_dump f = Some code -> loads code = true) :
  exists NL, lcuL_newstate L fields thread true None = (atpanic L, Ok (thread, NL)) /\
    atpanic NL = atpanic L /\ warnstate NL = 0 /\
    (forall field, field = channels \/ field = stdiofd ->
       lua_touserdata <$> field NL = lua_touserdata <$> field L /\
       forall p, field NL <> Some (FullUserdata p)) /\
    (forall name, preload NL !! name = copied (field_of fields name) name) /\
    lcuL_tomain thread NL = Ok NL.
Proof.
  destruct (copy_preload_lookup fields (add_stdlibs ∅) Hf Hl) as (t & Hc & Ht).
  unfold lcuL_newstate, initluastate. rewrite Hc. cbn [rbind first]. eexists. split; [reflexivity |].
  cbn [atpanic warnstate preload first]. split_and!; try done.
  - intros field [-> | ->]; cbn; unfold copylightud; by case_match.
  - intros name. rewrite Ht. unfold copied. rewrite add_stdlibs_lookup, lookup_empty.
    by destruct (field_of fields name) as [[[|] |] |].
  - unfold lcuL_tomain. cbn [first]. by rewrite bool_decide_true.
Qed.
End states.

Lemma newstate_inherits_witness :
  exists NL, (lcuL_newstate (fun f => if decide (f = 4%positive) then Some "code"%string else None) (fun _ => true)
      (fun _ => 1%positive) (World (Some 9%positive) (Some (FullUserdata 8)) None 1 ∅ None)
      [(LString "mod", Some (LuaFunction 4)); (LString "io", Some (LuaFunction 5)); (LBoolean true, None)]
      7 true None).2 = Ok (7%positive, NL) /\
    lua_touserdata <$> channels NL = Some 8%positive /\ preload NL !! "mod"%string = Some (Bytecodes "code") /\
    preload NL !! "io"%string = None /\ preload NL !! "os"%string = Some (SharedC 1).
Proof.
  destruct (newstate_inherits (fun f => if decide (f = 4%positive) then Some "code"%string else None) (fun _ => true)
      (fun _ => 1%positive) (World (Some 9%positive) (Some (FullUserdata 8)) None 1 ∅ None)
      [(LString "mod", Some (LuaFunction 4)); (LString "io", Some (LuaFunction 5)); (LBoolean true, None)] 7)
    as (NL & Hn & _ & _ & Hc & Hp & _).
  - split; [| by repeat constructor].
    cbn. repeat (apply NoDup_cons; split; [set_solver |]). apply NoDup_nil_2.
  - reflexivity.
  - exists NL. rewrite Hn. split; [reflexivity |]. split; [exact (proj1 (Hc channels (or_introl eq_refl))) |]. rewrite !Hp. split_and!; reflexivity.
Defined.
