(* ===== verification/Threads.v ===== *)
(** * Objects of thread pools (src/src/lthreadm.c)

    The functions of module [coutil.threads]: what [threads.count] returns, how a
    chunk becomes a task ([dochunk]), and the life of the objects that refer to a
    pool ([lthpool.c] has the pools; see [ThreadPool] and [ThreadPoolSys]). *)
From stdpp Require Import gmap sets.
From S2P Require Import Prelude Steps Outcome LuaApi StateQ ThreadPool Results Transfer FileInfo.

(** ** threads.count *)
Module Count.
Section count.
Context {Q : Type} `{!StateQueue Q}.
Implicit Types (p : lcu_ThreadPool Q) (c : lcu_ThreadCount).

(** The field of a character, [None] for those that are not known. *)
Definition count_value c (opt : ascii) : option Z :=
  if decide (opt = "e"%char) then Some (c_expected c)
  else if decide (opt = "a"%char) then Some (c_actual c)
  else if decide (opt = "r"%char) then Some (c_running c)
  else if decide (opt = "p"%char) then Some (c_pending c)
  else if decide (opt = "s"%char) then Some (c_suspended c)
  else if decide (opt = "n"%char) then Some (c_numoftasks c)
  else None.

Definition push_count c (vs : list Z) (opt : ascii) : result (list Z) :=
  match count_value c opt with
  | Some v => Ok (vs ++ [v])
  | None => LuaError ("bad option (got '" +:+ String opt "')")
  end.

(** [garbage]: the counts are not initialised. *)
Definition threads_count (garbage : lcu_ThreadCount) p (opt : string) : result (list Z) :=
  let opt := c_string opt in
  let c := lcuTP_counttpool p garbage (if (String.length opt <? 6)%nat then opt else "earpsn") in
  mode_loop (push_count c) [] opt.

(** The counts of a pool. *)
Definition counts p : lcu_ThreadCount :=
  ThreadPool.Count (size p) (threads p) (running p) (pending p) (tasks p - running p - pending p) (tasks p).

(** *** Properties *)

(** What was counted is the pool's, and the rest is as it was. *)
Lemma counted p (what : list ascii) c x :
  count_value (fold_left (count_one p) what c) x =
    if bool_decide (x ∈ what) then count_value (counts p) x else count_value c x.
Proof.
  revert c. induction what as [| y what IH]; intros c; cbn [fold_left]; [done |].
  rewrite IH. destruct (decide (x ∈ what)) as [Hx | Hx].
  - rewrite !bool_decide_true by set_solver. done.
  - rewrite (bool_decide_false (x ∈ what)) by done. destruct (decide (x = y)) as [-> | Hne].
    + rewrite bool_decide_true by set_solver. destruct c. unfold count_value.
      repeat (case_decide; [subst; done |]). done.
    + rewrite bool_decide_false by set_solver. destruct c. unfold count_one.
      destruct y as [[] [] [] [] [] [] [] []]; cbn; unfold count_value; cbn;
        repeat (case_decide; [subst; done |]); done.
Qed.

Definition options : string := "earpsn".

(** The loop that pushes the values. *)
Lemma push_counts c c' (o : string) vs :
  (forall x, x ∈ list_ascii_of_string o -> count_value c x = count_value c' x) ->
  if chars_in options o
  then mode_loop (push_count c) vs o = Ok (vs ++ omap (count_value c') (list_ascii_of_string o))
  else exists x, x ∈ list_ascii_of_string o /\ has_char options x = false /\
    mode_loop (push_count c) vs o = LuaError ("bad option (got '" +:+ String x "')").
Proof.
  revert vs. induction o as [| x o IH]; intros vs Heq; cbn [chars_in mode_loop list_ascii_of_string].
  { by rewrite app_nil_r. }
  change (bool_decide (count_char x options <> 0%nat)) with (has_char options x).
  assert (has_char options x = bool_decide (is_Some (count_value c x))) as Hx.
  { apply eq_true_iff_eq. rewrite has_char_elem, bool_decide_eq_true. unfold count_value, options. cbn.
    rewrite !elem_of_cons, elem_of_nil. repeat case_decide; subst; naive_solver. }
  unfold push_count at 1 3. rewrite Hx. destruct (count_value c x) as [v |] eqn:Hv.
  - rewrite bool_decide_true by eauto. cbn [andb rbind omap list_omap].
    rewrite <- (Heq x), Hv by set_solver. specialize (IH (vs ++ [v])).
    destruct (chars_in options o).
    + rewrite IH by set_solver. by rewrite <- app_assoc.
    + destruct IH as (y & Hy & Hn & Hl); [set_solver |]. exists y. split; [set_solver | done].
  - rewrite bool_decide_false by by intros []. cbn. exists x. split; [set_solver |].
    by rewrite Hx, bool_decide_false by by intros [].
Qed.

(** For each character of the option, the values are the counters of the pool,
    whatever was in the memory of the counts, for options of any length; an
    option with another character is an error. *)
Theorem count_values (garbage : lcu_ThreadCount) p (opt : string) :
  let o := c_string opt in
  if chars_in options o
  then threads_count garbage p opt = Ok (omap (count_value (counts p)) (list_ascii_of_string o))
  else exists x, x ∈ list_ascii_of_string o /\ has_char options x = false /\
    threads_count garbage p opt = LuaError ("bad option (got '" +:+ String x "')").
Proof.
  intros o. unfold threads_count. fold o. apply (push_counts _ (counts p) o []).
  intros x Hx. unfold lcuTP_counttpool. rewrite counted.
  destruct (String.length o <? 6)%nat; [by rewrite bool_decide_true |].
  case_bool_decide as Hin; [done |]. cbn in Hin. rewrite !elem_of_cons, elem_of_nil in Hin.
  unfold count_value. repeat (case_decide; [naive_solver |]). done.
Qed.
End count.
End Count.

(** ** Chunks that become tasks *)
Module Chunk.
Section chunk.
Context {St : Type} `{!LuaStack St}.
(** Memory of the host, the stack slots of the protected calls, and
    [uv_strerror]. *)
Context (mem : nat -> bool) (memmsg : lvalue) (aux : list lvalue) (strerror : Z -> string).
Implicit Types (L NL : St).

(** The new state is closed, or is a task of the pool. *)
Inductive fate := StateClosed | StateTask (NL : St).
Record chunk_end := ChunkEnd { results : list lvalue; state : fate; warned : bool }.

Definition top_values L (n : nat) : list lvalue := drop (lua_gettop L - n) (values L).

Definition returntoperrmsg L NL : chunk_end :=
  let L := lua_push L (LBoolean false) in
  let '(status, _, L) := lcuL_pushfrom mem memmsg aux None L NL (-1) "error" in
  ChunkEnd (top_values L 2) StateClosed (negb (bool_decide (status = LUA_OK))).

(** [status]: of the function that loaded the chunk; [added]: what
    [lcuTP_addtpooltask] returns. *)
Definition dochunk L NL (status : lua_status) (narg : nat) (added : Z) : option chunk_end :=
  if negb (bool_decide (status = LUA_OK)) then Some (returntoperrmsg L NL)
  else
    let top := lua_gettop L in
    r ← lcuL_movefrom mem memmsg aux None NL L (if (narg <? top)%nat then (top - narg)%nat else 0%nat) "argument";
    let '(status, _, NL, L) := (r : lua_status * option St * St * St) in
    if negb (bool_decide (status = LUA_OK)) then Some (returntoperrmsg L NL)
    else if negb (added =? 0) then
      let r := Results.lcuL_pusherrres strerror L added in
      Some (ChunkEnd (top_values r.2 r.1) StateClosed false)
    else Some (ChunkEnd (top_values (lua_push L (LBoolean true)) 1) (StateTask NL) false).

Lemma top_values_app L l vs n : values L = l ++ vs -> length vs = n -> top_values L n = vs.
Proof.
  intros HL <-. unfold top_values, lua_gettop. rewrite HL, length_app, Nat.add_sub. apply drop_app_length.
Qed.

Context (Haux : length aux = 4%nat) (Hmem : forall i, mem i = true).
Context (Hstack : forall n (s : St), lua_checkstack s n = true).

Lemma returntoperrmsg_message L NL l msg :
  values NL = l ++ [LString msg] ->
  returntoperrmsg L NL = ChunkEnd [LBoolean false; LString msg] StateClosed false.
Proof using All.
  intros HN. unfold returntoperrmsg, lcuL_pushfrom. rewrite Hstack. cbn [negb default from_option].
  unfold auxpushfrom. rewrite (at_top NL l (LString msg) [] (-1)) by done. cbn [pushfrom]. rewrite Hmem.
  pose proof (pcall3_values (lua_push L (LBoolean false)) aux (inr [LString msg]) Haux) as Hp.
  unfold pcall3 in *. cbn [fst snd] in *. unfold id. rewrite (bool_decide_true (LUA_OK = LUA_OK)) by done. cbn [negb].
  f_equal. apply (top_values_app _ (values L)); [| done]. rewrite Hp, values_push. by rewrite <- app_assoc.
Qed.

(** The state made for a chunk has one end.  It becomes a task, with the chunk
    and copies of all the arguments in their order, when the chunk was loaded,
    every argument can be copied and the pool takes the task; otherwise it is
    closed, and the script gets false and the message of what failed. *)
Theorem chunk_becomes_task L NL (base args : list lvalue) (chunk : lvalue) (status : lua_status)
    (narg : nat) (added : Z)
    (HL : values L = base ++ args) (Hn : length base = narg \/ (length base < narg)%nat /\ args = [])
    (HN : values NL = [chunk]) (Hmsg : status <> LUA_OK -> exists msg, chunk = LString msg) :
  exists e, dochunk L NL status narg added = Some e /\
    if bool_decide (status = LUA_OK) && forallb transferable args && (added =? 0)
    then results e = [LBoolean true] /\ exists NL', state e = StateTask NL' /\ values NL' = chunk :: args
    else state e = StateClosed /\ exists msg rest, results e = LBoolean false :: LString msg :: rest.
Proof using All.
  unfold dochunk. destruct (bool_decide (status = LUA_OK)) eqn:Hst; cbn [negb andb]; last first.
  { apply bool_decide_eq_false in Hst. destruct (Hmsg Hst) as [msg ->]. eexists. split; [reflexivity |].
    rewrite (returntoperrmsg_message L NL [] msg HN). cbn. eauto. }
  assert ((if (narg <? lua_gettop L)%nat then (lua_gettop L - narg)%nat else 0%nat) = length args) as ->.
  { unfold lua_gettop. rewrite HL, length_app. destruct Hn as [<- | [Hn ->]]; cbn [length].
    - destruct (Nat.ltb_spec (length base) (length base + length args)); lia.
    - by rewrite (proj2 (Nat.ltb_ge _ _)) by lia. }
  unfold lcuL_movefrom. rewrite lcu_assert_true; cbn [mbind option_bind]; last first.
  { apply Nat.leb_le. unfold lua_gettop. rewrite HL, length_app. lia. }
  rewrite !Hstack. cbn [negb orb]. rewrite (auxmovefrom_eq mem memmsg L base args "argument" HL).
  pose proof (movefrom_loop_spec mem memmsg (length args) 0 L base args "argument" HL eq_refl) as Hok.
  destruct (forallb transferable args) eqn:Ht; cbn [andb].
  - rewrite Hok; [| | done]; last first.
    { intros v Hv. rewrite forallb_forall in Ht. by apply Ht, list_elem_of_In. }
    pose proof (pcall3_values (default NL None) aux (inr args) Haux) as Hp. unfold pcall3 in *. cbn [snd] in *.
    rewrite decide_True by done. rewrite bool_decide_true by done. cbn [negb].
    destruct (added =? 0); cbn [negb].
    + eexists. split; [reflexivity |]. cbn [results state]. split.
      { apply (top_values_app _ base); [| done]. by rewrite values_push, (values_pop L base args). }
      eexists. split; [reflexivity |]. rewrite Hp. cbn. by rewrite HN.
    + eexists. split; [reflexivity |]. cbn [results state]. split; [done |].
      exists (strerror added), [LInteger (- added)]. apply (top_values_app _ base); [| done].
      unfold Results.lcuL_pusherrres, Results.lcu_pusherror. cbn [fst snd].
      rewrite !values_push, (values_pop L base args) by done. by rewrite <- !app_assoc.
  - destruct (movefrom_loop mem memmsg (length args) 0 L _ "argument") as [[st e] | ws] eqn:Hr; last first.
    { apply (movefrom_loop_ok mem memmsg _ _ _ base args) in Hr as [-> Hall]; [| done ..].
      assert (forallb transferable args = true) by (apply forallb_forall; intros v Hv; by apply Hall, list_elem_of_In).
      congruence. }
    destruct (movefrom_loop_failed mem memmsg _ _ _ base args "argument" st e HL eq_refl Hr) as [Hne _].
    assert (exists msg, e = LString msg) as [msg ->].
    { clear -Hr Hmem. revert Hr. generalize (1 + Z.of_nat (length base)) 0%nat.
      induction (length args) as [| n IH]; intros i k; cbn [movefrom_loop]; [done |].
      destruct (pushfrom _ _ _); [intros [= _ <-]; eauto |]. rewrite Hmem.
      destruct (movefrom_loop mem memmsg n (S k) L (i + 1) "argument") as [[] |] eqn:E; [| done].
      intros [= <- <-]. by apply (IH (i + 1) (S k)). }
    pose proof (pcall3_values (default NL None) aux (inl (st, LString msg)) Haux) as Hp.
    unfold pcall3 in *. cbn [snd] in *. rewrite (bool_decide_false (st = LUA_OK)) by done. cbn [negb].
    eexists. split; [reflexivity |]. cbn [default from_option] in Hp. unfold id in Hp. rewrite HN in Hp.
    rewrite (returntoperrmsg_message _ _ [chunk] msg Hp). cbn. eauto.
Qed.
End chunk.

Lemma chunk_becomes_task_witness :
  exists e, dochunk (St := list lvalue) (fun _ => true) LNil [LNil; LNil; LNil; LNil] (fun _ => ""%string)
      [LUserdata 1; LString "x"; LNil; LNil; LInteger 7; LString "data"] [LFunction 4] LUA_OK 4 0 = Some e /\
    results e = [LBoolean true] /\
    exists NL', state e = StateTask NL' /\ values NL' = [LFunction 4; LInteger 7; LString "data"].
Proof.
  apply (chunk_becomes_task (LuaStack0 := list_stack) (fun _ => true) LNil [LNil; LNil; LNil; LNil]
    (fun _ => ""%string) eq_refl (fun _ => eq_refl) (fun _ _ => eq_refl)
    [LUserdata 1; LString "x"; LNil; LNil; LInteger 7; LString "data"] [LFunction 4]
    [LUserdata 1; LString "x"; LNil; LNil] [LInteger 7; LString "data"] (LFunction 4) LUA_OK 4 0
    eq_refl (or_introl eq_refl) eq_refl). done.
Defined.
End Chunk.

(** ** The life of the objects *)
Module Refs.

(** The pools that the state made, true until [lcuTP_closetpool]; those whose
    sentinel is in the registry; those whose sentinel was finalized; what each
    object refers to ([NULL] once it is closed); the pool that runs the state, if it is a
    task; whether [lua_close] is calling finalizers. *)
Record world := World {
  pools : gmap positive bool;
  sentinels : gset positive;
  finalized : gset positive;
  refs : gmap positive (option positive);
  own : option positive;
  closing : bool;
}.
Implicit Types (w : world) (p r : positive).

Definition initial (own : option positive) : world := World ∅ ∅ ∅ ∅ own false.

Definition set_pools ps w := World ps (sentinels w) (finalized w) (refs w) (own w) (closing w).
Definition set_sentinels ss w := World (pools w) ss (finalized w) (refs w) (own w) (closing w).
Definition set_refs rs w := World (pools w) (sentinels w) (finalized w) rs (own w) (closing w).

(** [lcuTP_closetpool] frees the pool. *)
Definition closetpool p w : option world :=
  lcu_assert (bool_decide (pools w !! p = Some true)) ≫= λ _,
  Some (set_pools (<[p := false]> (pools w)) w).

Definition new_ref r p w : world := set_refs (<[r := Some p]> (refs w)) w.

(** [threads_create] with a size; [err_create] and [err_resize] are the results of
    the functions of the pool. *)
Definition threads_create r p (size err_create err_resize : Z) w : option world :=
  if negb (err_create =? 0) then Some w
  else
    let w := set_pools (<[p := true]> (pools w)) w in
    if (0 <? size) && negb (err_resize =? 0) then closetpool p w
    else Some (new_ref r p (set_sentinels ({[p]} ∪ sentinels w) w)).

(** ... and without arguments. *)
Definition threads_current r w : option world :=
  match own w with None => Some w | Some p => Some (new_ref r p w) end.

(** [tothreads]: an error when the object is closed.  The pool must not be freed. *)
Definition tothreads r w : option (Outcome.result positive) :=
  ref ← refs w !! r;
  match ref : option positive with
  | None => Some (ArgError 1 "closed threads")
  | Some p =>
      lcu_assert (bool_decide (pools w !! p = Some true \/ own w = Some p)) ≫= λ _, Some (Ok p)
  end.

(** [threads_resize], [threads_count], [threads_dostring] and [threads_dofile]. *)
Definition threads_use r w : option world := _ ← tothreads r w; Some w.

Definition threads_close r w : option world :=
  ref ← refs w !! r;
  match ref : option positive with
  | None => Some w  (* "closed threads" *)
  | Some p =>
      w ← (if bool_decide (p ∈ sentinels w)
           then closetpool p (set_sentinels (sentinels w ∖ {[p]}) w) else Some w);
      Some (set_refs (<[r := None]> (refs w)) w)
  end.

(** The state starts to close; [tpoolgc_gc] is called for each sentinel. *)
Definition state_closes w : option world :=
  Some (World (pools w) (sentinels w) (finalized w) (refs w) (own w) true).
Definition tpoolgc_gc p w : option world :=
  w ← closetpool p w;
  Some (World (pools w) (sentinels w) ({[p]} ∪ finalized w) (refs w) (own w) (closing w)).

Inductive action :=
  | Create r p (size err_create err_resize : Z)
  | Current r
  | Use r
  | Close r
  | StateCloses
  | Finalize p.

Definition exec w (a : action) : option world :=
  match a with
  | Create r p size e1 e2 => threads_create r p size e1 e2 w
  | Current r => threads_current r w
  | Use r => threads_use r w
  | Close r => threads_close r w
  | StateCloses => state_closes w
  | Finalize p => tpoolgc_gc p w
  end.

(** The memory of a new pool is not in use.  A sentinel is finalized once, when the
    state closes.  [late]: other finalizers may use the objects then. *)
Definition enabled (late : bool) w (a : action) : Prop :=
  match a with
  | Create r p _ _ _ =>
      closing w = false /\ refs w !! r = None /\ pools w !! p <> Some true /\ own w <> Some p
  | Current r => closing w = false /\ refs w !! r = None
  | Use r | Close r => is_Some (refs w !! r) /\ (late = false -> closing w = false)
  | StateCloses => closing w = false
  | Finalize p => closing w = true /\ p ∈ sentinels w /\ p ∉ finalized w
  end.

Abbreviation reachable o late := (reached (initial o) (enabled late) exec).

(** *** Properties *)

(** A pool is open exactly while its sentinel is in the registry and was not
    finalized; until the state closes, objects refer to open pools. *)
Record inv w : Prop := {
  inv_open : forall p, pools w !! p = Some true <-> p ∈ sentinels w /\ p ∉ finalized w;
  inv_refs : closing w = false -> forall r p, refs w !! r = Some (Some p) ->
    pools w !! p = Some true \/ own w = Some p;
  inv_one : closing w = false -> forall r r' p, refs w !! r = Some (Some p) ->
    refs w !! r' = Some (Some p) -> own w <> Some p -> r = r';
  inv_own : forall p, own w = Some p -> pools w !! p <> Some true;
  inv_final : closing w = false -> finalized w = ∅;
}.

Lemma closetpool_open p w :
  pools w !! p = Some true -> closetpool p w = Some (set_pools (<[p := false]> (pools w)) w).
Proof. intros Hp. unfold closetpool. by rewrite bool_decide_eq_true_2. Qed.

Lemma create_step r p size e1 e2 w :
  inv w -> enabled false w (Create r p size e1 e2) ->
  exists w', threads_create r p size e1 e2 w = Some w' /\ inv w'.
Proof.
  intros [H1 H2 H3 H4 H5] (Hc & Hr & Hp & Ho). specialize (H2 Hc). specialize (H3 Hc).
  pose proof (H5 Hc) as Hfin. unfold threads_create. destruct (e1 =? 0); cbn [negb]; [| by exists w].
  destruct (_ && _).
  - rewrite closetpool_open by (cbn; apply lookup_insert_eq). eexists. split; [reflexivity |].
    constructor; cbn; intros; rewrite ?insert_insert_eq in *.
    + rewrite <- H1. rewrite lookup_insert_Some. naive_solver.
    + destruct (H2 r0 p0) as [? | ?]; [done | | by right]. left. rewrite lookup_insert_ne; [done |]. congruence.
    + eauto.
    + rewrite lookup_insert_Some. naive_solver.
    + done.
  - eexists. split; [reflexivity |]. constructor; cbn; intros.
    + rewrite lookup_insert_Some, elem_of_union, elem_of_singleton, H1, Hfin. set_solver.
    + revert H0. rewrite lookup_insert_Some. intros [[<- [= <-]] | [Hne Hr0]].
      { left. apply lookup_insert_eq. }
      destruct (H2 r0 p0 Hr0) as [? | ?]; [left | by right]. rewrite lookup_insert_ne; [done |]. congruence.
    + revert H0 H6. rewrite !lookup_insert_Some.
      intros [[<- [= <-]] | [? Hr1]] [[<- E] | [? Hr2]]; [done | | | by apply (H3 r0 r' p0)].
      * destruct (H2 r' p Hr2); [done | naive_solver].
      * injection E as <-. destruct (H2 r0 p Hr1); [done | naive_solver].
    + rewrite lookup_insert_Some. naive_solver.
    + done.
Qed.

Lemma close_step r w :
  inv w -> closing w = false -> is_Some (refs w !! r) ->
  exists w', threads_close r w = Some w' /\ inv w' /\ refs w' !! r = Some None.
Proof.
  intros [H1 H2 H3 H4 H5] Hc [ref Hr]. specialize (H2 Hc). specialize (H3 Hc). pose proof (H5 Hc) as Hfin.
  unfold threads_close. rewrite Hr. cbn [mbind option_bind]. destruct ref as [p |]; last first.
  { exists w. split; [done |]. split; [by constructor |]. done. }
  case_bool_decide as Hin.
  - assert (pools w !! p = Some true) as Hp by (apply H1; rewrite Hfin; set_solver).
    rewrite closetpool_open by done. cbn [mbind option_bind]. eexists. split; [reflexivity |].
    split; [| apply lookup_insert_eq]. constructor; cbn; intros.
    + rewrite lookup_insert_Some, elem_of_difference, elem_of_singleton, H1. naive_solver.
    + revert H0. rewrite lookup_insert_Some. intros [[_ ?] | [Hne Hr0]]; [done |].
      destruct (H2 r0 p0 Hr0) as [? | ?]; [left | by right]. rewrite lookup_insert_ne; [done |].
      intros <-. apply Hne. apply (H3 r r0 p); [done | done |]. intros Ho. by apply (H4 p).
    + revert H0 H6. rewrite !lookup_insert_Some. naive_solver.
    + rewrite lookup_insert_Some. naive_solver.
    + done.
  - cbn [mbind option_bind]. eexists. split; [reflexivity |].
    split; [| apply lookup_insert_eq]. constructor; cbn; intros; try done.
    + revert H0. rewrite lookup_insert_Some. intros [[_ ?] | [Hne Hr0]]; [done |]. by apply (H2 r0).
    + revert H0 H6. rewrite !lookup_insert_Some. naive_solver.
    + by apply H4.
Qed.

Lemma use_step r w :
  inv w -> closing w = false -> is_Some (refs w !! r) ->
  tothreads r w = Some (match refs w !! r with Some (Some p) => Ok p | _ => ArgError 1 "closed threads" end).
Proof.
  intros Hi Hc [ref Hr]. unfold tothreads. rewrite Hr. cbn [mbind option_bind]. destruct ref as [p |]; [| done].
  rewrite lcu_assert_true; [done |]. apply bool_decide_eq_true_2. by apply (inv_refs w Hi Hc r).
Qed.

Lemma refs_step_ok w a : inv w -> enabled false w a -> exists w', exec w a = Some w' /\ inv w'.
Proof.
  intros Hi He. destruct a as [r p size e1 e2 | r | r | r | | p]; cbn [exec].
  - by apply create_step.
  - destruct He as [Hc Hr]. unfold threads_current. destruct (own w) as [p |] eqn:Ho; [| by exists w].
    destruct Hi as [H1 H2 H3 H4 H5]. specialize (H2 Hc). specialize (H3 Hc).
    eexists. split; [reflexivity |]. constructor; cbn; rewrite ?Ho; intros; try done.
    + revert H0. rewrite lookup_insert_Some. intros [[_ [= <-]] | [Hne Hr0]]; [by right |].
      destruct (H2 r0 p0 Hr0) as [? | ?]; [by left | right; congruence].
    + revert H0 H6. rewrite !lookup_insert_Some. intros [[<- ?] | [? Hr1]] [[<- ?] | [? Hr2]]; try congruence.
      apply (H3 r0 r' p0); congruence.
    + apply H4. congruence.
    + by apply H5.
  - destruct He as [Hr Hc]. specialize (Hc eq_refl). exists w. split; [| done].
    unfold threads_use. by rewrite (use_step r w Hi Hc Hr).
  - destruct He as [Hr Hc]. destruct (close_step r w Hi (Hc eq_refl) Hr) as (w' & Hw & Hi' & _). eauto.
  - eexists. split; [reflexivity |]. destruct Hi as [H1 H2 H3 H4 H5]. constructor; cbn; try done.
  - destruct He as (Hc & Hin & Hnf). destruct Hi as [H1 H2 H3 H4 H5].
    assert (pools w !! p = Some true) as Hp by by apply H1.
    unfold tpoolgc_gc. rewrite closetpool_open by done. cbn [mbind option_bind].
    eexists. split; [reflexivity |]. constructor; cbn; rewrite ?Hc; try done.
    + intros q. rewrite lookup_insert_Some, H1, elem_of_union, elem_of_singleton. clear. naive_solver.
    + intros q Hq. rewrite lookup_insert_Some. specialize (H4 q Hq). clear -H4. naive_solver.
Qed.

Lemma refs_inv o w : reachable o false w -> inv w.
Proof.
  apply (reached_safe _ _ _ inv); [| apply refs_step_ok].
  constructor; cbn; try done. intros p. set_solver.
Qed.



(** A finalizer of the script that is called after the one of the sentinel uses
    a pool that was freed, and closing the object frees the pool again. *)
Theorem late_use_of_pool :
  exists w, reachable None true w /\ closing w = true /\
    tothreads 1 w = None /\ threads_close 1 w = None.
Proof.
  apply (reached_run _ _ _ [Create 1 5 4 0 0; StateCloses; Finalize 5]).
  cbn -[exec]. repeat (split; [vm_compute; naive_solver |]). vm_compute. naive_solver.
Qed.
End Refs.
