(* ===== verification/Scheduler.v ===== *)
(** * Running the loop (src/src/lscheduf.c)

    [system.run] runs the loop of libuv.  When the main coroutine of a task runs
    it and all that is left are channels, the loop stops and the task is suspended
    ([lcuU_checksuspend] and [k_resumeall]) until a channel wakes it.  The counters
    of the operations are inputs here; [OperationSys] shows what they count. *)
From S2P Require Import Prelude Steps.

(** [UV_RUN_DEFAULT], [UV_RUN_ONCE] and [UV_RUN_NOWAIT]. *)
Inductive run_mode := RunLoop | RunStep | RunReady.
#[export] Instance run_mode_eq_dec : EqDecision run_mode.
Proof. solve_decision. Defined.

(** Where the call of [system.run] is: in [uv_run], called by [k_resumeall] or by
    [lcuM_run], or yielding. *)
Inductive status := Idle | Running (resumeall : bool) (mode : run_mode) | Suspended.
#[export] Instance status_eq_dec : EqDecision status.
Proof. solve_decision. Defined.

(** [data]: [loop->data] is set; [stopped]: [uv_stop] was called; [pushed]: the
    userdata of channels that [lcuU_checksuspend] left in the stack of the call;
    [asked]: a script called [system.halt] in this run; [returned]: what the last
    run returned; [nasync] and [nactive]: the counters of the scheduler. *)
Record world := World {
  st : status; data : bool; stopped : bool; pushed : nat; asked : bool;
  returned : option bool; nasync : Z; nactive : Z;
}.
Implicit Types (w : world).

Definition initial : world := World Idle false false 0 false None 0 0.

Definition lcu_shallsuspend w : bool := (0 <? nasync w) && (nasync w =? nactive w).

(** [lcuU_checksuspend]; [task]: the state is of a task that has used channels. *)
Definition lcuU_checksuspend (task : bool) w : world :=
  if lcu_shallsuspend w && task then
    World (st w) (data w) true (S (pushed w)) (asked w) (returned w) (nasync w) (nactive w)
  else w.

(** [lcuM_run] up to [uv_run]; [taskmain]: the main coroutine of a task calls it.
    [false]: the error "already running". *)
Definition lcuM_run (mode : run_mode) (taskmain : bool) w : bool * world :=
  if data w then (false, w)
  else
    let status :=
      if bool_decide (mode = RunLoop) && taskmain then
        if lcu_shallsuspend w then Suspended else Running true mode
      else Running false mode in
    (true, World status true (stopped w) 0 false (returned w) (nasync w) (nactive w)).

(** [uv_run] returns; [k_resumeall] yields or ends, [lcuM_run] ends. *)
Definition uv_run_returns w : option world :=
  let pending := 0 <? nactive w in
  let ends := World Idle false false 0 false (Some pending) (nasync w) (nactive w) in
  match st w with
  | Running true _ =>
      if pending && (0 <? Z.of_nat (pushed w))
      then Some (World Suspended (data w) false 0 (asked w) (returned w) (nasync w) (nactive w))
      else Some ends
  | Running false _ => Some ends
  | _ => None
  end.

(** The task is resumed: [k_resumeall] again. *)
Definition k_resumeall w : option world :=
  match st w with
  | Suspended =>
      Some (World (Running true RunLoop) (data w) (stopped w) 0 (asked w) (returned w) (nasync w) (nactive w))
  | _ => None
  end.

Definition lcuM_isrunning w : bool := data w.

(** [false]: the error "not running". *)
Definition lcuM_halt w : bool * world :=
  if data w then
    (true, World (st w) (data w) true (pushed w) true (returned w) (nasync w) (nactive w))
  else (false, w).

(** Operations start and end: in the functions of libuv, or before the loop runs. *)
Definition counted (na nc : Z) w : world :=
  World (st w) (data w) (stopped w) (pushed w) (asked w) (returned w) na nc.

Inductive action :=
  | Run (mode : run_mode) (taskmain : bool)
  | Counts (na nc : Z)
  | Halt
  | CallbackEnd
  | LoopReturns
  | Wake.

Definition exec (task : bool) w (a : action) : option world :=
  match a with
  | Run mode taskmain => Some (lcuM_run mode taskmain w).2
  | Counts na nc => Some (counted na nc w)
  | Halt => Some (lcuM_halt w).2
  | CallbackEnd => Some (lcuU_checksuspend task w)
  | LoopReturns => uv_run_returns w
  | Wake => k_resumeall w
  end.

Definition in_loop w : Prop := exists r m, st w = Running r m.

(** libuv returns when it was stopped, when nothing is active, or after one turn
    for the other modes.  After [uv_stop] it ends the turn it is in, so other
    functions may still be called ([later]). *)
Definition enabled (later : bool) w (a : action) : Prop :=
  match a with
  | Run _ _ => True
  | Counts na nc =>
      0 <= na <= nc /\ st w <> Suspended /\ (later = false -> pushed w = 0%nat)
  | Halt => st w <> Suspended /\ (later = false -> pushed w = 0%nat)
  | CallbackEnd => in_loop w /\ (later = false -> pushed w = 0%nat)
  | LoopReturns => in_loop w /\
      (stopped w = true \/ nactive w = 0 \/ forall r, st w <> Running r RunLoop)
  | Wake => st w = Suspended
  end.

Abbreviation reachable task later := (reached initial (enabled later) (exec task)).

(** ** Properties *)

(** The field of the loop is set while a call of [system.run] is in it or suspended;
    a loop that was stopped was halted or checked. *)
Record inv w : Prop := {
  inv_data : data w = true <-> st w <> Idle;
  inv_mode : forall m, st w = Running true m -> m = RunLoop;
  inv_stop : stopped w = true -> asked w = true \/ (0 < pushed w)%nat;
  inv_idle : ~ in_loop w -> pushed w = 0%nat /\ stopped w = false;
  inv_asked : st w = Idle -> asked w = false;
}.

Lemma not_in_loop w : st w = Idle \/ st w = Suspended -> ~ in_loop w.
Proof. intros [H | H] (r & m & E); congruence. Qed.

Lemma exec_inv task later w a w' : inv w -> enabled later w a -> exec task w a = Some w' -> inv w'.
Proof.
  intros Hi He. pose proof Hi as [H1 H2 H3 H4 H5]. destruct a as [mode tm | na nc | | | |]; cbn [exec].
  - intros [= <-]. unfold lcuM_run. destruct (data w) eqn:Hd; [done |]. cbn [snd].
    assert (st w = Idle) as Hst.
    { destruct (decide (st w = Idle)); [done |]. assert (false = true) by by apply H1. done. }
    destruct (H4 (not_in_loop w (or_introl Hst))) as [_ Hns].
    constructor; cbn; rewrite ?Hns; try done.
    + by repeat case_match.
    + case_bool_decide; destruct tm; cbn; try destruct (lcu_shallsuspend w); naive_solver.
  - intros [= <-]. by constructor.
  - intros [= <-]. unfold lcuM_halt. destruct (data w) eqn:Hd; [| done]. cbn [snd].
    destruct He as [Hns _]. constructor; cbn; try done.
    + by left.
    + intros Hn. exfalso. apply Hn. unfold in_loop. cbn. destruct (st w) as [| r m |] eqn:E; [| eauto | done].
      by destruct (proj1 H1 eq_refl).
    + intros E. by destruct (proj1 H1 eq_refl).
  - intros [= <-]. unfold lcuU_checksuspend. destruct (_ && _); [| done].
    destruct He as [(r & m & Hl) _]. constructor; cbn; try done.
    + right. lia.
    + intros []. by exists r, m.
  - unfold uv_run_returns. destruct (st w) as [| [] m |] eqn:E; try done.
    + case_match; intros [= <-]; constructor; cbn; try done.
      destruct (proj2 H1). done. split; done.
    + intros [= <-]. constructor; cbn; try done.
  - unfold k_resumeall. cbn in He. rewrite He. intros [= <-].
    destruct (H4 (not_in_loop w (or_intror He))) as [_ Hns]. rewrite Hns.
    constructor; cbn; try done.
    + rewrite He in H1. naive_solver.
    + by intros m [= <-].
Qed.

Lemma loop_inv task later w : reachable task later w -> inv w.
Proof.
  apply (reached_preserved _ _ _ inv); [| intros w0 a w'; apply exec_inv].
  constructor; cbn; done.
Qed.

(** When libuv calls nothing after the loop was stopped. *)
Definition strict (task : bool) w : Prop :=
  ((0 < pushed w)%nat \/ st w = Suspended -> lcu_shallsuspend w = true).

Lemma strict_step task w a w' :
  inv w -> strict task w -> enabled false w a -> exec task w a = Some w' -> strict task w'.
Proof.
  unfold strict. intros Hi Hs He. destruct a as [mode tm | na nc | | | |]; cbn [exec].
  - intros [= <-]. unfold lcuM_run. destruct (data w); [done |]. cbn.
    intros [? | Hst]; [lia |]. change (lcu_shallsuspend w = true).
    destruct (bool_decide _ && tm); [| done]. by destruct (lcu_shallsuspend w).
  - intros [= <-]. destruct He as (_ & Hns & Hp). specialize (Hp eq_refl). cbn. intros [? | ?]; [lia | done].
  - intros [= <-]. unfold lcuM_halt. destruct (data w); done.
  - intros [= <-]. unfold lcuU_checksuspend. destruct (lcu_shallsuspend w && task) eqn:Hc; [| done].
    intros _. apply andb_true_iff in Hc as [Hc _]. exact Hc.
  - unfold uv_run_returns. destruct (st w) as [| [] m |] eqn:E; try done.
    + case_match eqn:Hp; intros [= <-]; cbn; [| intros [? | ?]; [lia | done]].
      intros _. apply andb_true_iff in Hp as [_ Hp%Z.ltb_lt]. apply Hs. left. lia.
    + intros [= <-]. cbn. intros [? | ?]; [lia | done].
  - unfold k_resumeall. cbn in He. rewrite He. intros [= <-]. cbn. intros [? | ?]; [lia | done].
Qed.

Lemma loop_strict task w : reachable task false w -> inv w /\ strict task w.
Proof.
  apply (reached_preserved _ _ _ (fun w => inv w /\ strict task w)).
  - split; [constructor; cbn; done | intros [? | ?]; [cbn in *; lia | done]].
  - intros w0 a w' [Hi Hs] He Hx. split; [by apply (exec_inv task false w0 a) | by apply (strict_step task w0 a)].
Qed.



(** A task whose script calls [system.halt] does not return from [system.run] when
    channels are all that is left: it is suspended.  And when a function that is
    called in the turn in which the loop was stopped starts an operation that is
    not on a channel, the task is suspended while that operation is active, and no
    loop runs to end it. *)
Theorem suspended_without_reason :
  (exists w, reachable true false w /\ asked w = true /\ st w = Suspended) /\
  (exists w, reachable true true w /\ st w = Suspended /\ nasync w < nactive w).
Proof.
  split.
  - apply (reached_run _ _ _ [Run RunLoop true; Counts 1 1; Halt; CallbackEnd; LoopReturns]).
    cbn -[exec]. unfold in_loop. repeat (split; [vm_compute; naive_solver lia |]). vm_compute. naive_solver lia.
  - apply (reached_run _ _ _ [Run RunLoop true; Counts 3 3; CallbackEnd; Counts 2 3; CallbackEnd; LoopReturns]).
    cbn -[exec]. unfold in_loop. repeat (split; [vm_compute; naive_solver lia |]). vm_compute. naive_solver lia.
Qed.
