(* ===== verification/SysInfo.v ===== *)
(** * Information about the system (src/src/linfof.c)

    [system.cpuinfo] gives an iterator over the processors, [system.procinfo] one
    value for each character of its mode, from calls of libuv that are made when a
    character needs them, and [system.random] fills a memory, at once or while the
    coroutine is suspended. *)
From S2P Require Import Prelude Outcome LuaApi Results Buffers FileInfo Await.

(** ** Processors *)
Module Cpu.

Record uv_cpu_info_t := CpuInfo {
  model : string; speed : Z; user : Z; nice : Z; sys : Z; idle : Z; irq : Z;
}.

(** [None]: the list was freed. *)
Record CpuInfoList := CpuList { cpu : option (list uv_cpu_info_t) }.
Implicit Types (l : CpuInfoList).

Definition openedcpuinfo l : result (list uv_cpu_info_t) :=
  match cpu l with Some cpus => Ok cpus | None => ArgError 1 "closed cpuinfo" end.

(** The second result tells whether [uv_free_cpu_info] is called. *)
Definition cpuinfo_gc l : CpuInfoList * bool :=
  match cpu l with Some _ => (CpuList None, true) | None => (l, false) end.

Definition cpuinfo_len l : result Z := cpus <- openedcpuinfo l;; Ok (Z.of_nat (length cpus)).

Definition cpu_value (info : uv_cpu_info_t) (c : ascii) : option lvalue :=
  if decide (c = "m"%char) then Some (LString (model info))
  else if decide (c = "c"%char) then Some (LInteger (speed info))
  else if decide (c = "u"%char) then Some (LInteger (user info))
  else if decide (c = "n"%char) then Some (LInteger (nice info))
  else if decide (c = "s"%char) then Some (LInteger (sys info))
  else if decide (c = "i"%char) then Some (LInteger (idle info))
  else if decide (c = "d"%char) then Some (LInteger (irq info))
  else None.

Definition LUA_MINSTACK : nat := 20.

(** A function of C may push [LUA_MINSTACK] values above its arguments, and nothing
    here asks for more.  [room]: the slots that are left. *)
Definition push_cpu (info : uv_cpu_info_t) (s : nat * list lvalue) (c : ascii) : result (nat * list lvalue) :=
  let '(room, vs) := s in
  match cpu_value info c with
  | Some v => match room with O => Overrun | S room => Ok (room, vs ++ [v]) end
  | None => unknown_mode c
  end.

(** [previdx]: the third argument, if it is given; [nargs]: the number of arguments.
    [1 + (int)previdx] must be an [int]. *)
Definition cpuinfo_call l (mode : string) (previdx : option Z) (nargs : nat) : result (list lvalue) :=
  cpus <- openedcpuinfo l;;
  let prev := int (default 0 previdx) in
  if prev =? 2 ^ 31 - 1 then Overrun else
  let i := 1 + prev in
  if (0 <? i) && (i <=? Z.of_nat (length cpus)) then
    match cpus !! Z.to_nat (i - 1) with
    | Some info =>
        (* the arguments but for two are dropped, and [i] is pushed *)
        s <- mode_loop (push_cpu info) ((nargs + LUA_MINSTACK - 3)%nat, [LInteger i]) (c_string mode);;
        Ok s.2
    | None => Overrun
    end
  else Ok [].

(** [system_cpuinfo]: the list, which is also the state and the closing value of the
    loop that it starts, and the first value of the control variable. *)
Definition system_cpuinfo (uv_cpu_info : Z * list uv_cpu_info_t) : result (CpuInfoList * Z) :=
  if uv_cpu_info.1 <? 0 then UvError uv_cpu_info.1 else Ok (CpuList (Some uv_cpu_info.2), 0).

(** [for i, ... in system.cpuinfo(mode) do]: the values of each turn. *)
Fixpoint cpu_loop (fuel : nat) l (mode : string) (prev : Z) : option (result (list (list lvalue))) :=
  match fuel with
  | O => None
  | S fuel =>
      match cpuinfo_call l mode (Some prev) 3 with
      | Ok (LInteger i :: vs) =>
          r ← cpu_loop fuel l mode i;
          Some (rest <- r;; Ok ((LInteger i :: vs) :: rest))
      | Ok _ => Some (Ok [])
      | ArgError a m => Some (ArgError a m) | LuaError m => Some (LuaError m)
      | UvError e => Some (UvError e) | Overrun => Some Overrun | AssertFail => Some AssertFail
      end
  end.

(** *** Properties *)

Definition cpu_chars : string := "mcunsid".
Definition cpu_values (mode : string) (info : uv_cpu_info_t) : list lvalue :=
  omap (cpu_value info) (list_ascii_of_string mode).

Lemma cpu_known info c :
  bool_decide (count_char c cpu_chars <> 0%nat) = true -> exists v, cpu_value info c = Some v.
Proof.
  intros Hc. apply (has_char_elem cpu_chars) in Hc. cbn in Hc. rewrite !elem_of_cons, elem_of_nil in Hc.
  destruct_or! Hc; subst; done || (eexists; reflexivity).
Qed.

Lemma push_cpus info mode room vs :
  chars_in cpu_chars mode = true -> (String.length mode <= room)%nat ->
  mode_loop (push_cpu info) (room, vs) mode = Ok ((room - String.length mode)%nat, vs ++ cpu_values mode info).
Proof.
  unfold cpu_values. revert room vs. induction mode as [| c mode IH]; intros room vs;
    cbn [mode_loop chars_in String.length list_ascii_of_string omap list_omap].
  - intros _ _. by rewrite Nat.sub_0_r, app_nil_r.
  - intros [Hc Hm]%andb_true_iff Hl.
    destruct (cpu_known info c Hc) as [v Hv].
    cbn [push_cpu]. rewrite Hv. destruct room as [| room]; [lia |]. cbn [rbind].
    rewrite IH by (done || lia). rewrite <- app_assoc. done.
Qed.

Lemma cpuinfo_call_values cpus mode (k : nat) info :
  chars_in cpu_chars (c_string mode) = true -> (String.length (c_string mode) <= 20)%nat ->
  Z.of_nat (length cpus) < 2 ^ 31 -> cpus !! k = Some info ->
  cpuinfo_call (CpuList (Some cpus)) mode (Some (Z.of_nat k)) 3
  = Ok (LInteger (Z.of_nat k + 1) :: cpu_values (c_string mode) info).
Proof.
  intros Hm Hlen Hc Hk. pose proof (lookup_lt_Some _ _ _ Hk) as Hlt.
  unfold cpuinfo_call, openedcpuinfo. cbn [cpu rbind default from_option id].
  rewrite (wraps_id 32) by (cbn; lia). rewrite (proj2 (Z.eqb_neq _ _)) by lia.
  rewrite (proj2 (Z.ltb_lt _ _)), (proj2 (Z.leb_le _ _)) by lia. cbn [andb].
  replace (Z.to_nat (1 + Z.of_nat k - 1)) with k by lia. rewrite Hk.
  rewrite push_cpus by (done || (cbn; lia)). cbn [rbind snd]. by rewrite Z.add_comm.
Qed.

(** For modes of at most twenty known characters, the loop over the iterator
    ends, and visits each processor once, in order, with its index and the value of
    each character. *)
Theorem cpuinfo_iterates (cpus : list uv_cpu_info_t) (mode : string)
    (Hm : chars_in cpu_chars (c_string mode) = true) (Hlen : (String.length (c_string mode) <= 20)%nat)
    (Hc : Z.of_nat (length cpus) < 2 ^ 31 - 1) :
  exists l first, system_cpuinfo (0, cpus) = Ok (l, first) /\
    cpu_loop (S (length cpus)) l mode first
    = Some (Ok (imap (fun k info => LInteger (Z.of_nat k + 1) :: cpu_values (c_string mode) info) cpus)).
Proof.
  exists (CpuList (Some cpus)), 0. split; [done |].
  assert (forall pre rest, cpus = pre ++ rest ->
    cpu_loop (S (length rest)) (CpuList (Some cpus)) mode (Z.of_nat (length pre))
    = Some (Ok (imap (fun k info => LInteger (Z.of_nat (length pre + k) + 1) :: cpu_values (c_string mode) info) rest)))
    as H; [| by apply (H [])].
  intros pre rest. revert pre. induction rest as [| info rest IH]; intros pre Hcp.
  - rewrite app_nil_r in Hcp. subst pre. cbn [cpu_loop length imap].
    unfold cpuinfo_call, openedcpuinfo. cbn [cpu rbind default from_option id].
    rewrite (wraps_id 32) by (cbn; lia). rewrite (proj2 (Z.eqb_neq _ _)) by lia.
    rewrite (proj2 (Z.leb_gt _ _)) by lia. by rewrite andb_false_r.
  - change (S (length (info :: rest))) with (S (S (length rest))).
    remember (S (length rest)) as fuel. cbn [cpu_loop].
    rewrite (cpuinfo_call_values cpus mode (length pre) info) by
      (done || lia || (rewrite Hcp; by apply list_lookup_middle)).
    subst fuel. specialize (IH (pre ++ [info])). rewrite length_app in IH. cbn [length] in IH.
    replace (Z.of_nat (length pre) + 1) with (Z.of_nat (length pre + 1)) by lia.
    rewrite IH by (by rewrite <- app_assoc). cbn [mbind option_bind rbind imap].
    rewrite Nat.add_0_r. do 3 f_equal; [by rewrite Nat2Z.inj_add |].
    apply imap_ext. intros k x _. unfold compose. do 2 f_equal. lia.
Qed.

Lemma cpuinfo_iterates_witness :
  exists l first,
    system_cpuinfo (0, [CpuInfo "x" 2400 1 2 3 4 5; CpuInfo "y" 800 6 7 8 9 10]) = Ok (l, first) /\
    cpu_loop 3 l "mc" first
  = Some (Ok [[LInteger 1; LString "x"; LInteger 2400]; [LInteger 2; LString "y"; LInteger 800]]).
Proof.
  apply (cpuinfo_iterates [CpuInfo "x" 2400 1 2 3 4 5; CpuInfo "y" 800 6 7 8 9 10] "mc");
    [reflexivity | apply Nat.leb_le; reflexivity | reflexivity].
Defined.

(** With longer modes the values are more than a function may push. *)
Theorem cpuinfo_overflows (info : uv_cpu_info_t) (mode : string)
    (Hm : chars_in cpu_chars (c_string mode) = true) (Hlen : (20 < String.length (c_string mode))%nat) :
  cpuinfo_call (CpuList (Some [info])) mode (Some 0) 3 = Overrun.
Proof.
  unfold cpuinfo_call, openedcpuinfo. cbn [cpu rbind default from_option id].
  change (int 0 =? 2 ^ 31 - 1) with false.
  change ((0 <? 1 + int 0) && (1 + int 0 <=? Z.of_nat (length [info]))) with true.
  change ([info] !! Z.to_nat (1 + int 0 - 1)) with (Some info).
  change (3 + LUA_MINSTACK - 3)%nat with 20%nat. cbn match.
  revert Hm Hlen. generalize (c_string mode) as m. clear mode. intros m.
  generalize 20%nat as room. generalize [LInteger (1 + int 0)] as vs. intros vs room. revert vs room.
  induction m as [| c m IH]; intros vs room; cbn [chars_in String.length mode_loop]; [lia |].
  intros [Hc Hm]%andb_true_iff Hl.
  destruct (cpu_known info c Hc) as [v Hv].
  cbn [push_cpu]. rewrite Hv. destruct room as [| room]; [done |]. cbn [rbind]. apply IH; [done | lia].
Qed.

Lemma cpuinfo_overflows_witness :
  cpuinfo_call (CpuList (Some [CpuInfo "x" 2400 1 2 3 4 5])) "mmmmmmmmmmmmmmmmmmmmm" (Some 0) 3 = Overrun.
Proof. apply cpuinfo_overflows; [reflexivity | apply Nat.ltb_lt; reflexivity]. Defined.
End Cpu.

(** ** The process *)
Module Proc.

Record uv_utsname_t := Utsname { sysname : string; release : string; version : string; machine : string }.
(** The strings of a user may be [NULL]. *)
Record uv_passwd_t := Passwd {
  username : option string; uid : Z; gid : Z; shell : option string; homedir : option string;
}.
(** Times are the bits of a number, by [lcu_time2sec]. *)
Record uv_rusage_t := Rusage {
  ru_utime : Z; ru_stime : Z; ru_maxrss : Z; ru_ixrss : Z; ru_idrss : Z; ru_isrss : Z; ru_minflt : Z;
  ru_majflt : Z; ru_nswap : Z; ru_inblock : Z; ru_oublock : Z; ru_msgsnd : Z; ru_msgrcv : Z;
  ru_nsignals : Z; ru_nvcsw : Z; ru_nivcsw : Z;
}.

Definition LOADAVG : Z := 0x01.
Definition RUSAGE : Z := 0x02.
Definition UTSNAME : Z := 0x04.
Definition PASSWD : Z := 0x08.

Section proc.
(** The functions of libuv, with the error of those that return one. *)
Context (uv_loadavg : Z * Z * Z) (uv_getrusage : Z * uv_rusage_t) (uv_os_uname : Z * uv_utsname_t)
  (uv_os_get_passwd : Z * uv_passwd_t).
Context (UV_ENOBUFS UV_MAXHOSTNAMESIZE : Z) (uv_exepath uv_os_gethostname uv_os_tmpdir : StrOut.getter_t).
Context (uv_uptime uv_resident_set_memory : Z * Z).
Context (uv_os_getpid uv_os_getppid uv_get_total_memory uv_get_free_memory uv_get_constrained_memory : Z).

(** The flags of the structures that were filled, and the calls that filled them,
    by their flag. *)
Abbreviation procinf := (Z * list Z)%type.

Definition fill {A} (flag err : Z) (a : A) (p : procinf) : result (A * procinf) :=
  if ctrue (Z.land p.1 flag) then Ok (a, p)
  else if ctrue err then UvError err
  else Ok (a, (Z.lor p.1 flag, p.2 ++ [flag])).

Definition sysload (p : procinf) : result ((Z * Z * Z) * procinf) := fill LOADAVG 0 uv_loadavg p.
Definition sysusage (p : procinf) : result (uv_rusage_t * procinf) := fill RUSAGE uv_getrusage.1 uv_getrusage.2 p.
Definition sysname' (p : procinf) : result (uv_utsname_t * procinf) := fill UTSNAME uv_os_uname.1 uv_os_uname.2 p.
Definition sysuser (p : procinf) : result (uv_passwd_t * procinf) :=
  fill PASSWD uv_os_get_passwd.1 uv_os_get_passwd.2 p.

Definition strout (g : StrOut.getter_t) (p : procinf) : result (lvalue * procinf) :=
  match (StrOut.lcu_pushstrout UV_ENOBUFS UV_MAXHOSTNAMESIZE g).1 with
  | StrOut.Pushed s => Ok (LString s, p)
  | StrOut.Raised err => UvError err
  end.
Definition pushstring (s : option string) : lvalue := from_option LString LNil s.

(** The number of the structure times 1024 must be a [lua_Integer]. *)
Definition kilobytes (z : Z) : result Z :=
  let z := lua_Integer z * 1024 in
  if (- 2 ^ 63 <=? z) && (z <? 2 ^ 63) then Ok z else Overrun.

(** The errors of these functions are ignored, and what they did not write is read. *)
Definition unchecked (r : Z * Z) : result Z := if r.1 <? 0 then Overrun else Ok r.2.

Definition usage (f : uv_rusage_t -> Z) (p : procinf) : result (lvalue * procinf) :=
  r <- sysusage p;; Ok (LInteger (lua_Integer (f r.1)), r.2).
Definition usage_kb (f : uv_rusage_t -> Z) (p : procinf) : result (lvalue * procinf) :=
  r <- sysusage p;; z <- kilobytes (f r.1);; Ok (LInteger z, r.2).
Definition usage_time (f : uv_rusage_t -> Z) (p : procinf) : result (lvalue * procinf) :=
  r <- sysusage p;; Ok (LNumber (f r.1), r.2).
Definition uname (f : uv_utsname_t -> string) (p : procinf) : result (lvalue * procinf) :=
  r <- sysname' p;; Ok (LString (f r.1), r.2).
Definition user (f : uv_passwd_t -> lvalue) (p : procinf) : result (lvalue * procinf) :=
  r <- sysuser p;; Ok (f r.1, r.2).
Definition load (f : Z * Z * Z -> Z) (p : procinf) : result (lvalue * procinf) :=
  r <- sysload p;; Ok (LNumber (f r.1), r.2).
Definition plain (z : Z) (p : procinf) : result (lvalue * procinf) := Ok (LInteger (lua_Integer z), p).

(** The cases of the [switch] of [system_procinfo]. *)
Definition cases : list (ascii * (procinf -> result (lvalue * procinf))) := [
  ("e"%char, strout uv_exepath); ("n"%char, strout uv_os_gethostname); ("T"%char, strout uv_os_tmpdir);
  ("h"%char, uname machine); ("k"%char, uname sysname); ("v"%char, uname release); ("V"%char, uname version);
  ("$"%char, user (fun u => pushstring (shell u))); ("H"%char, user (fun u => pushstring (homedir u)));
  ("U"%char, user (fun u => pushstring (username u)));
  ("u"%char, user (fun u => LInteger (lua_Integer (uid u)))); ("g"%char, user (fun u => LInteger (lua_Integer (gid u))));
  ("="%char, usage_kb ru_isrss); ("d"%char, usage_kb ru_idrss); ("m"%char, usage_kb ru_ixrss);
  ("R"%char, usage_kb ru_maxrss);
  ("<"%char, usage ru_msgrcv); (">"%char, usage ru_msgsnd); ("i"%char, usage ru_inblock);
  ("o"%char, usage ru_oublock); ("p"%char, usage ru_minflt); ("P"%char, usage ru_majflt);
  ("S"%char, usage ru_nsignals); ("w"%char, usage ru_nswap); ("x"%char, usage ru_nvcsw);
  ("X"%char, usage ru_nivcsw);
  ("c"%char, usage_time ru_utime); ("s"%char, usage_time ru_stime);
  ("1"%char, load (fun l => l.1.1)); ("l"%char, load (fun l => l.1.2)); ("L"%char, load (fun l => l.2));
  ("t"%char, fun p => v <- unchecked uv_uptime;; Ok (LNumber v, p));
  ("#"%char, plain uv_os_getpid); ("^"%char, plain uv_os_getppid); ("b"%char, plain uv_get_total_memory);
  ("f"%char, plain uv_get_free_memory); ("M"%char, plain uv_get_constrained_memory);
  ("r"%char, fun p => v <- unchecked uv_resident_set_memory;; Ok (LInteger (lua_Integer v), p)) ].

Definition case_of (c : ascii) : option (procinf -> result (lvalue * procinf)) :=
  snd <$> find (fun x : ascii * (procinf -> result (lvalue * procinf)) => bool_decide (x.1 = c)) cases.

Definition procinfo_char (s : procinf * list lvalue) (c : ascii) : result (procinf * list lvalue) :=
  match case_of c with
  | Some get => r <- get s.1;; Ok (r.2, s.2 ++ [r.1])
  | None => unknown_mode c
  end.

(** The mode has less than [INT_MAX] characters; the calls are a result of the
    model only. *)
Definition system_procinfo (mode : string) : result (list lvalue * list Z) :=
  _ <- luaL_argcheck (Z.of_nat (String.length mode) <? 2 ^ 31 - 1) 1 "too many options";;
  s <- mode_loop procinfo_char ((0, []), []) (c_string mode);;
  Ok (s.2, s.1.2).

(** *** Properties *)

(** The value of a character on its own. *)
Definition value (c : ascii) : result lvalue :=
  match case_of c with Some get => r <- get (0, []);; Ok r.1 | None => unknown_mode c end.

(** The values of the characters, up to the first error. *)
Fixpoint in_order (mode : string) : result (list lvalue) :=
  match mode with
  | EmptyString => Ok []
  | String c mode => v <- value c;; vs <- in_order mode;; Ok (v :: vs)
  end.

(** The structures that were filled are those of the flags, each by one call, and
    the calls for them did not fail. *)
Definition flag_err (flag : Z) : Z :=
  if flag =? RUSAGE then uv_getrusage.1 else if flag =? UTSNAME then uv_os_uname.1
  else if flag =? PASSWD then uv_os_get_passwd.1 else 0.
Definition filled (p : procinf) : Prop :=
  NoDup p.2 /\ forall flag, flag ∈ [LOADAVG; RUSAGE; UTSNAME; PASSWD] ->
    (ctrue (Z.land p.1 flag) = true <-> flag ∈ p.2) /\ (flag ∈ p.2 -> flag_err flag = 0).

(** A case gives the value of its character whatever was filled before. *)
Definition steady (get : procinf -> result (lvalue * procinf)) : Prop :=
  forall p, filled p ->
    match get (0, []) with
    | Ok (v, _) => exists p', get p = Ok (v, p') /\ filled p'
    | _ => (r <- get p;; Ok r.1) = (r <- get (0, []);; Ok r.1)
    end.

Lemma land_lor_flag f flag g :
  flag ∈ [LOADAVG; RUSAGE; UTSNAME; PASSWD] -> g ∈ [LOADAVG; RUSAGE; UTSNAME; PASSWD] ->
  ctrue (Z.land (Z.lor f flag) g) = ctrue (Z.land f g) || bool_decide (flag = g).
Proof.
  intros Hf Hg. rewrite Z.land_lor_distr_l. rewrite !elem_of_cons, elem_of_nil in Hf, Hg.
  assert (flag <> g -> Z.land flag g = 0) as Hne by (destruct_or! Hf; destruct_or! Hg; subst; done).
  assert (flag = g -> Z.land flag g = g /\ g <> 0) as Heq by (destruct_or! Hf; destruct_or! Hg; subst; done).
  destruct (decide (flag = g)) as [He | He].
  - rewrite bool_decide_true, orb_true_r by done. destruct (Heq He) as [-> Hg0].
    apply ctrue_true. rewrite Z.lor_eq_0_iff. naive_solver.
  - rewrite bool_decide_false, orb_false_r, (Hne He), Z.lor_0_r by done. done.
Qed.

Lemma fill_steady {A} (flag err : Z) (a : A) (p : procinf) :
  flag ∈ [LOADAVG; RUSAGE; UTSNAME; PASSWD] -> err = flag_err flag -> filled p ->
  if ctrue err then fill flag err a p = UvError err
  else exists p', fill flag err a p = Ok (a, p') /\ filled p'.
Proof.
  intros Hf -> [Hd Hp]. unfold fill. destruct (Hp flag Hf) as [H1 H2].
  destruct (ctrue (Z.land p.1 flag)) eqn:Hc.
  - rewrite (H2 (proj1 H1 eq_refl)). cbn. by exists p.
  - destruct (ctrue (flag_err flag)) eqn:He; [done |]. eexists. split; [reflexivity |].
    assert (flag ∉ p.2) as Hn by (intros Hin; discriminate (proj2 H1 Hin)).
    split; cbn [fst snd].
    + apply NoDup_app. split; [done |]. split; [| apply NoDup_singleton]. set_solver.
    + intros g Hg. destruct (Hp g Hg) as [G1 G2]. rewrite land_lor_flag by done.
      rewrite orb_true_iff, bool_decide_eq_true, elem_of_app, elem_of_cons, elem_of_nil, G1.
      split; [naive_solver |]. intros [Hin | [-> | []]]; [by apply G2 |].
      apply ctrue_false in He. done.
Qed.

Lemma filled_empty : filled (0, []).
Proof.
  split; [apply NoDup_nil_2 |]. intros flag Hf. cbn [fst snd]. rewrite Z.land_0_l.
  split; [split; [done | by intros ?%elem_of_nil] | by intros ?%elem_of_nil].
Qed.

(** The cases that fill a structure, and the others. *)
Lemma steady_fill {A} (flag err : Z) (a : A) (k : A -> result lvalue) :
  flag ∈ [LOADAVG; RUSAGE; UTSNAME; PASSWD] -> err = flag_err flag ->
  steady (fun p => r <- fill flag err a p;; v <- k r.1;; Ok (v, r.2)).
Proof.
  intros Hf He p Hp. pose proof (fill_steady flag err a p Hf He Hp) as H1.
  pose proof (fill_steady flag err a (0, []) Hf He filled_empty) as H0.
  destruct (ctrue err); [by rewrite H0, H1 |].
  destruct H0 as (p0 & -> & _), H1 as (p1 & -> & Hp1). cbn [rbind fst snd].
  destruct (k a); cbn [rbind]; [| done ..]. by exists p1.
Qed.

Lemma steady_plain (r : result lvalue) : steady (fun p => v <- r;; Ok (v, p)).
Proof. intros p Hp. destruct r; cbn [rbind]; [| done ..]. by exists p. Qed.

Lemma steady_uname f : steady (uname f).
Proof. refine (steady_fill UTSNAME _ _ (fun u => Ok (LString (f u))) _ eq_refl). set_solver. Qed.
Lemma steady_user f : steady (user f).
Proof. refine (steady_fill PASSWD _ _ (fun u => Ok (f u)) _ eq_refl). set_solver. Qed.
Lemma steady_usage f : steady (usage f).
Proof. refine (steady_fill RUSAGE _ _ (fun u => Ok (LInteger (lua_Integer (f u)))) _ eq_refl). set_solver. Qed.
Lemma steady_usage_time f : steady (usage_time f).
Proof. refine (steady_fill RUSAGE _ _ (fun u => Ok (LNumber (f u))) _ eq_refl). set_solver. Qed.
Lemma steady_load f : steady (load f).
Proof. refine (steady_fill LOADAVG _ _ (fun u => Ok (LNumber (f u))) _ eq_refl). set_solver. Qed.
Lemma steady_usage_kb f : steady (usage_kb f).
Proof.
  intros p Hp. pose proof (steady_fill RUSAGE uv_getrusage.1 uv_getrusage.2 (fun u => z <- kilobytes (f u);; Ok (LInteger z))
    ltac:(set_solver) eq_refl p Hp) as H. unfold usage_kb.
  assert (forall p, (r <- sysusage p;; v <- (z <- kilobytes (f r.1);; Ok (LInteger z));; Ok (v, r.2))
    = (r <- sysusage p;; z <- kilobytes (f r.1);; Ok (LInteger z, r.2))) as E.
  { intros p'. destruct (sysusage p'); cbn [rbind]; try done. by destruct (kilobytes _). }
  unfold sysusage in *. by rewrite !E in H.
Qed.
Lemma steady_strout g : steady (strout g).
Proof. intros p Hp. unfold strout. destruct (_.1); [| done]. by exists p. Qed.

Lemma cases_steady : Forall (fun x => steady x.2) cases.
Proof.
  unfold cases. repeat apply Forall_cons_2; [.. | apply Forall_nil_2]; cbn [snd]; first
    [ apply steady_strout | apply steady_uname | apply steady_user | apply steady_usage
    | apply steady_usage_kb | apply steady_usage_time | apply steady_load
    | exact (steady_plain (Ok _)) | idtac ].
  - intros p Hp. destruct (unchecked uv_uptime); cbn [rbind]; [| done ..]. by exists p.
  - intros p Hp. destruct (unchecked uv_resident_set_memory); cbn [rbind]; [| done ..]. by exists p.
Qed.

Lemma case_steady c get : case_of c = Some get -> steady get.
Proof.
  unfold case_of. destruct (find _ cases) as [[c' g] |] eqn:Hf; [| done]. cbn. intros [= <-].
  apply find_some in Hf as [Hin _]. apply list_elem_of_In in Hin.
  by apply (proj1 (Forall_forall _ _) cases_steady (c', g)).
Qed.

(** The loop, from structures that may be filled. *)
Lemma procinfo_loop mode p vs :
  filled p ->
  match in_order mode with
  | Ok ws => exists p', mode_loop procinfo_char (p, vs) mode = Ok (p', vs ++ ws) /\ filled p'
  | _ => (s <- mode_loop procinfo_char (p, vs) mode;; Ok s.2) = in_order mode
  end.
Proof.
  revert p vs. induction mode as [| c mode IH]; intros p vs Hp; cbn [in_order mode_loop].
  { exists p. by rewrite app_nil_r. }
  unfold procinfo_char at 1 3 5 7 9 11, value. destruct (case_of c) as [get |] eqn:Hc; [| done].
  pose proof (case_steady c get Hc p Hp) as Hs. cbn [fst snd].
  destruct (get (0, [])) as [[v p0] | | | | |]; cbn [rbind fst snd] in *;
    [| destruct (get p) as [[]| | | | |]; cbn [rbind] in *; congruence ..].
  destruct Hs as (p' & -> & Hp'). cbn [rbind fst snd]. specialize (IH p' (vs ++ [v]) Hp').
  destruct (in_order mode) as [ws | | | | |]; cbn [rbind];
    [| destruct (mode_loop procinfo_char (p', vs ++ [v]) mode); cbn [rbind] in *; congruence ..].
  destruct IH as (p'' & -> & Hp''). exists p''. by rewrite <- app_assoc.
Qed.

(** The values are those of the characters of the mode, in order, or the first
    error of one of them, as if each character were on its own; and each of the
    structures of libuv is filled by at most one call, however many characters
    need it. *)
Theorem procinfo_values (mode : string) (Hlen : Z.of_nat (String.length mode) < 2 ^ 31 - 1) :
  (r <- system_procinfo mode;; Ok r.1) = in_order (c_string mode) /\
  (forall vs calls, system_procinfo mode = Ok (vs, calls) -> NoDup calls).
Proof.
  unfold system_procinfo. rewrite (proj2 (Z.ltb_lt _ _) Hlen). cbn [luaL_argcheck rbind].
  pose proof (procinfo_loop (c_string mode) (0, []) [] filled_empty) as H.
  destruct (in_order (c_string mode)) as [ws | | | | |].
  - destruct H as (p' & -> & Hp'). cbn [rbind fst snd]. split; [done |]. intros vs calls [= _ <-]. apply Hp'.
  - destruct (mode_loop _ _ _); cbn [rbind snd] in *; split; (done || congruence).
  - destruct (mode_loop _ _ _); cbn [rbind snd] in *; split; (done || congruence).
  - destruct (mode_loop _ _ _); cbn [rbind snd] in *; split; (done || congruence).
  - destruct (mode_loop _ _ _); cbn [rbind snd] in *; split; (done || congruence).
  - destruct (mode_loop _ _ _); cbn [rbind snd] in *; split; (done || congruence).
Qed.
End proc.

Lemma procinfo_values_witness :
  let usage := Rusage 1 2 3 4 5 6 7 8 9 10 11 12 13 14 15 16 in
  let name := Utsname "Linux" "6.1" "#1" "x86_64" in
  let pass := Passwd (Some "ann") 1000 100 None (Some "/home/ann") in
  let exe : StrOut.getter_t := fun _ _ => (0, 8, "/bin/lua"%string) in
  let info := system_procinfo (0, 0, 0) (0, usage) (0, name) (0, pass) (-105) 256 exe exe exe (0, 7) (0, 8)
    42 1 2 3 4 in
  exists calls,
    info "kRU$pu" = Ok ([LString "Linux"; LInteger 3072; LString "ann"; LNil; LInteger 7; LInteger 1000], calls) /\
    NoDup calls.
Proof.
  intros usage name pass exe info. eexists. split; [reflexivity |].
  apply (proj2 (procinfo_values (0, 0, 0) (0, usage) (0, name) (0, pass) (-105) 256 exe exe exe (0, 7) (0, 8)
    42 1 2 3 4 "kRU$pu" ltac:(reflexivity))
    [LString "Linux"; LInteger 3072; LString "ann"; LNil; LInteger 7; LInteger 1000]).
  reflexivity.
Defined.
End Proc.

(** ** Random bytes *)
Module Random.
Section random.
Context {St : Type} `{!LuaStack St} `{!LuaArgs}.
(** The size of a memory; libuv, when it is called without a callback, when it is
    called with one, and when it is done. *)
Context (checkmemory : lvalue -> option Z).
Abbreviation fill_t := (lvalue * Buf.uv_buf_t)%type.
Context (uv_sync uv_start uv_done : fill_t -> Z) (strerror : Z -> string).
Context (sched : positive) (yieldable : bool) (wait : option (list lvalue)).
Implicit Types (L : St).

(** [lcu_getoutputbuf]: the memory and its part. *)
Definition outputbuf L : result fill_t :=
  match checkmemory (arg L 1) with
  | None => ArgError 1 "memory expected"
  | Some sz =>
      start <- optinteger L 2 1;; stop <- optinteger L 3 (-1);;
      Ok (arg L 1, Buf.setupbuf (Some start) (Some stop) sz)
  end.
(** ... and the stack with the memory alone. *)
Definition callrandom L : result (fill_t * St) :=
  c <- outputbuf L;; Ok (c, lua_settop L 1).

Definition uv_onrandom L (c : fill_t) : St := lua_push L (LInteger (uv_done c)).

Definition returnrand (_ : fill_t) L : result (nat * St) :=
  let err := int (tointeger L 2) in
  Ok (Results.lcuL_pushresults strerror (lua_settop L 1) 1 err).

Definition k_setuprand L : result (fill_t * (Z * St)) :=
  r <- callrandom L;; arm uv_start strerror r.1 r.2 id.

Definition system_random L : result (fill_t * list lvalue) :=
  noyield <- lcuL_checknoyieldmode L 4;;
  if ctrue noyield then
    r <- callrandom L;;
    let x := Results.lcuL_pushresults strerror r.2 1 (uv_sync r.1) in Ok (r.1, returned x.1 x.2)
  else lcuT_resetcoreqk sched yieldable uv_onrandom wait L k_setuprand (Some returnrand).

Definition answer (c : fill_t) : Z := if uv_start c <? 0 then uv_start c else uv_done c.

(** In both modes the part of the memory that is filled is the one of the
    positions that are given, and the memory, or false and the error, is returned. *)
Theorem random_fills (L : St) (Hy : yieldable = true) (Hnil : checkmemory LNil = None)
    (Hs : forall c, uv_sync c = answer c) (Hint : forall c, int (answer c) = answer c) :
  system_random L =
    (_ <- lcuL_checknoyieldmode L 4;; c <- outputbuf L;;
     Ok (c, if answer c <? 0
            then [LBoolean false; LString (strerror (answer c)); LInteger (- answer c)]
            else [arg L 1])).
Proof.
  assert (forall L' err, values L' = [arg L 1] ->
    let x := Results.lcuL_pushresults strerror L' 1 err in
    returned x.1 x.2 = if err <? 0 then [LBoolean false; LString (strerror err); LInteger (- err)] else [arg L 1])
    as Hres.
  { intros L' err HL'. cbv zeta. unfold Results.lcuL_pushresults. destruct (err <? 0); cbn [fst snd Nat.eqb].
    - apply (returned_app _ []); [| done]. unfold Results.lcuL_pusherrres, Results.lcu_pusherror. cbn [fst snd].
      rewrite !values_push, (values_pop L' [] [arg L 1]), <- !app_assoc by done. done.
    - by apply (returned_app _ []). }
  assert (forall c, outputbuf L = Ok c -> values (lua_settop L 1) = [arg L 1]) as Hmem.
  { unfold outputbuf. intros c. destruct (checkmemory (arg L 1)) eqn:Hm; [| done]. intros _.
    rewrite values_settop. unfold arg in *. destruct (values L) as [| v l] eqn:HL; [cbn in Hm; congruence |].
    by destruct l. }
  unfold system_random. destruct (lcuL_checknoyieldmode L 4) as [n | | | | |]; cbn [rbind]; try done.
  destruct (ctrue n).
  { unfold callrandom. destruct (outputbuf L) as [c | | | | |]; cbn [rbind fst snd]; try done.
    rewrite Hs. by rewrite (Hres _ _ (Hmem c eq_refl)). }
  unfold lcuT_resetcoreqk. rewrite Hy. set (L2 := match wait with Some _ => _ | None => L end).
  assert (values L2 = values L) as HL2 by (unfold L2; destruct wait; [apply values_after_previous | done]).
  assert (outputbuf L2 = outputbuf L) as Hc.
  { unfold outputbuf, optinteger, checkinteger. by rewrite !(arg_ext _ _ _ HL2). }
  unfold k_setuprand, callrandom. rewrite Hc.
  destruct (outputbuf L) as [c | | | | |]; cbn [rbind fst snd]; try done. specialize (Hmem c eq_refl).
  set (L3 := lua_settop L2 1).
  assert (values L3 = [arg L 1]) as HL3 by (unfold L3; by rewrite values_settop, HL2, <- values_settop).
  unfold arm, answer.
  destruct (Z.ltb_spec (uv_start c) 0) as [Hneg | Hpos]; cbn [rbind].
  - rewrite (proj2 (Z.ltb_lt _ _) Hneg), startedopk_returns by done. do 2 f_equal.
    apply (returned_app _ (values L3)); [| done].
    unfold Results.lcuL_pusherrres, Results.lcu_pusherror. cbn [fst snd]. by rewrite !values_push, <- !app_assoc.
  - rewrite startedopk_waits. cbv zeta. unfold id. set (L4 := lua_remove _ _).
    assert (values L4 = [arg L 1] ++ [LInteger (uv_done c)]) as HL4.
    { rewrite <- HL3. apply values_without_sched. intros L'. apply values_push. }
    unfold returnrand. cbn [rbind]. f_equal. f_equal.
    assert (int (tointeger L4 2) = uv_done c) as ->.
    { unfold tointeger, arg. rewrite HL4. cbn [app lookup list_lookup Nat.sub default from_option id].
      rewrite tointegerx_integer. cbn [from_option id]. specialize (Hint c). unfold answer in Hint.
      by rewrite (proj2 (Z.ltb_ge _ _) Hpos) in Hint. }
    apply Hres. by rewrite values_settop, HL4.
Qed.
End random.

Abbreviation files_sizes := (fun v => match v with LUserdata 3 => Some 8 | _ => None end).

Lemma random_fills_witness :
  system_random (St := list lvalue) files_sizes (fun _ => -4001) (fun _ => 0) (fun _ => -4001)
    (fun _ => "operation canceled"%string) 9 true None [LUserdata 3; LInteger 2; LInteger (-2)]
  = Ok ((LUserdata 3, Buf.Buf 1 6), [LBoolean false; LString "operation canceled"; LInteger 4001]).
Proof.
  exact (random_fills (LuaStack0 := list_stack) files_sizes (fun _ => -4001) (fun _ => 0) (fun _ => -4001)
    (fun _ => "operation canceled"%string) 9 true None [LUserdata 3; LInteger 2; LInteger (-2)]
    eq_refl eq_refl (fun _ => eq_refl) (fun _ => eq_refl)).
Defined.
End Random.
