(* ===== verification/StdStreams.v ===== *)
(** * Standard streams (src/src/lttyaux.c and src/src/lstdiof.c)

    Every state of the process uses copies of the descriptors of the standard
    streams ([lcuTY_tostdiofd]), and the module [system] has an object for each of
    those that libuv knows ([lcuM_addstdiof]). *)
From stdpp Require Import gmap sets.
From S2P Require Import Prelude Outcome.

(** ** Copies of descriptors *)
Module Dup.

(** The open descriptors of the process, and what each of them is. *)
Abbreviation fdtable := (gmap Z positive).
Implicit Types (t : fdtable) (fd : Z).

Section dup.
(** What "/dev/null" is, and the descriptor that [open] gives: the lowest that is
    not in use, or -1. *)
Context (null : positive) (lowest : fdtable -> Z).

Definition open_null t : Z * fdtable :=
  let fd := lowest t in if fd <? 0 then (-1, t) else (fd, <[fd := null]> t).

(** [dup3] fails for a descriptor that is not open, and for equal ones. *)
Definition dup3 (fd newfd : Z) t : Z * fdtable :=
  match t !! fd with
  | Some x => if fd =? newfd then (-1, t) else (newfd, <[newfd := x]> t)
  | None => (-1, t)
  end.

Definition lcu_dupfd fd t : Z * fdtable :=
  let '(newfd, t) := open_null t in
  if 0 <=? newfd then
    let '(result, t) := dup3 fd newfd t in
    if result =? -1 then (-1, delete newfd t) else (newfd, t)
  else (newfd, t).

Definition LCU_STDIOFDCOUNT : nat := 3.
Definition STDERR_FILENO : Z := 2.

(** The copies of the first descriptors, in order. *)
Fixpoint tostdiofd (fds : list Z) t : list Z * fdtable :=
  match fds with
  | [] => ([], t)
  | fd :: fds =>
      let '(newfd, t) := lcu_dupfd fd t in
      let '(rest, t) := tostdiofd fds t in (newfd :: rest, t)
  end.

(** [saved]: what is in the registry. *)
Definition lcuTY_tostdiofd (saved : option (list Z)) t : list Z * (option (list Z) * fdtable) :=
  match saved with
  | Some fds => (fds, (saved, t))
  | None => let '(fds, t) := tostdiofd [0; 1; 2] t in (fds, (Some fds, t))
  end.

Definition stdiofd_gc (fds : list Z) t : fdtable :=
  fold_left (fun t fd => if STDERR_FILENO <? fd then delete fd t else t) fds t.

(** *** Properties *)
Context (lowest_free : forall t, 0 <= lowest t -> t !! lowest t = None).

(** A descriptor that is given is new, and a copy; otherwise nothing changes. *)
Lemma dupfd_copy fd t :
  let '(newfd, t') := lcu_dupfd fd t in
  (newfd = -1 /\ t' = t) \/
  (0 <= newfd /\ t !! newfd = None /\ exists x, t !! fd = Some x /\ t' = <[newfd := x]> t).
Proof using lowest_free.
  unfold lcu_dupfd, open_null. destruct (Z.ltb_spec (lowest t) 0) as [Hneg | Hpos]; [by left |].
  pose proof (lowest_free t Hpos) as Hfree. rewrite (proj2 (Z.leb_le _ _) Hpos). unfold dup3.
  destruct (Z.eqb_spec fd (lowest t)) as [-> | Hne].
  - rewrite lookup_insert_eq. cbn. left. by rewrite delete_insert_id.
  - rewrite lookup_insert_ne by congruence. destruct (t !! fd) as [x |] eqn:Hx.
    + rewrite (proj2 (Z.eqb_neq _ _)) by lia. right. split; [done |]. split; [done |].
      exists x. by rewrite insert_insert_eq.
    + cbn. left. by rewrite delete_insert_id.
Qed.

(** The descriptors of the process are not changed, and each of those that are
    given is a copy of its own. *)
Lemma copies fds t :
  let '(news, t') := tostdiofd fds t in
  length news = length fds /\ t ⊆ t' /\
  (forall d, t' !! d <> t !! d -> d ∈ news /\ t !! d = None) /\
  (forall d, d < 0 -> t' !! d = t !! d) /\
  (forall i newfd, news !! i = Some newfd -> newfd <> -1 ->
     t !! newfd = None /\ exists fd x, fds !! i = Some fd /\ t' !! fd = Some x /\ t' !! newfd = Some x).
Proof using lowest_free.
  revert t. induction fds as [| fd fds IH]; intros t; cbn [tostdiofd].
  { by split_and!. }
  pose proof (dupfd_copy fd t) as Hd. destruct (lcu_dupfd fd t) as [newfd t1].
  specialize (IH t1). destruct (tostdiofd fds t1) as [news t2].
  destruct IH as (Hlen & Hsub & Hch & Hneg & Hcp).
  assert (t ⊆ t1) as Hsub1.
  { destruct Hd as [[_ ->] | (_ & Hn & x & _ & ->)]; [done | by apply insert_subseteq]. }
  assert (forall d, t1 !! d <> t !! d -> d = newfd /\ t !! d = None) as Hch1.
  { intros d Hne. destruct Hd as [[_ ->] | (_ & Hn & x & _ & ->)]; [done |].
    destruct (decide (d = newfd)) as [-> |]; [done |]. by rewrite lookup_insert_ne in Hne. }
  assert (forall d, t1 !! d = None -> t !! d = None) as Hnone.
  { intros d Hn. destruct (t !! d) as [y |] eqn:Hy; [| done].
    by rewrite (lookup_weaken _ _ _ _ Hy Hsub1) in Hn. }
  split; [cbn; congruence |]. split; [by transitivity t1 |]. split.
  - intros d Hne. destruct (decide (t2 !! d = t1 !! d)) as [He | Hne'].
    + rewrite He in Hne. destruct (Hch1 d Hne) as [-> Hn]. split; [left | done].
    + destruct (Hch d Hne') as [Hin Hn]. split; [by right |]. by apply (Hnone d).
  - split.
    { intros d Hd0. rewrite Hneg by done. destruct (decide (t1 !! d = t !! d)) as [| Hne]; [done |].
      destruct (Hch1 d Hne) as [-> _]. destruct Hd as [[_ ->] | (? & _)]; [done | lia]. }
    intros [| i] n Hi Hn1; cbn in Hi.
    + injection Hi as <-. destruct Hd as [[? _] | (_ & Hn & x & Hx & Ht1)]; [done |]. split; [done |].
      exists fd, x. split; [done |]. split.
      * apply (lookup_weaken t); [done | by transitivity t1].
      * apply (lookup_weaken t1); [| done]. rewrite Ht1. apply lookup_insert_eq.
    + destruct (Hcp i n Hi Hn1) as (Hn & fd' & x & Hfd & Hx & Hnx).
      split; [by apply (Hnone n) |]. by exists fd', x.
Qed.

(** The copies of the standard descriptors are new descriptors of the process
    for the same streams, those that cannot be copied are -1, and no other
    descriptor is changed; when the three are open, releasing the copies leaves
    the descriptors as they were. *)
Theorem stdio_copies (t : fdtable) :
  let '(fds, (saved, t')) := lcuTY_tostdiofd None t in
  saved = Some fds /\ lcuTY_tostdiofd saved t' = (fds, (saved, t')) /\ t ⊆ t' /\
  (forall i newfd, fds !! i = Some newfd -> newfd <> -1 ->
     t !! newfd = None /\ exists x, t' !! Z.of_nat i = Some x /\ t' !! newfd = Some x) /\
  ((forall fd, 0 <= fd <= 2 -> is_Some (t !! fd)) -> stdiofd_gc fds t' = t).
Proof using lowest_free.
  unfold lcuTY_tostdiofd. pose proof (copies [0; 1; 2] t) as Hc.
  destruct (tostdiofd [0; 1; 2] t) as [fds t'] eqn:Et. destruct Hc as (_ & Hsub & Hch & Hneg & Hcp).
  split; [done |]. split; [done |]. split; [done |]. split.
  - intros i n Hi Hn. destruct (Hcp i n Hi Hn) as (Hnone & fd & x & Hfd & Hx & Hnx). split; [done |].
    exists x. split; [| done]. destruct i as [| [| [| i]]]; cbn in Hfd; naive_solver.
  - intros Hopen. apply map_eq. intros d.
    assert (forall fds t d, stdiofd_gc fds t !! d =
      if decide (d ∈ fds /\ STDERR_FILENO < d) then None else t !! d) as Hgc.
    { clear. unfold stdiofd_gc. intros fds. induction fds as [| fd fds IH]; intros t d; cbn [fold_left].
      { rewrite decide_False; [done |]. by intros [?%elem_of_nil _]. }
      rewrite IH. destruct (decide (d ∈ fds /\ STDERR_FILENO < d)) as [[Hin Hlt] | Hn].
      { rewrite decide_True; [done |]. split; [by right | done]. }
      destruct (decide (d ∈ fd :: fds /\ STDERR_FILENO < d)) as [[[-> | Hin]%elem_of_cons Hlt] | Hn'].
      - rewrite (proj2 (Z.ltb_lt _ _) Hlt). apply lookup_delete_eq.
      - naive_solver.
      - destruct (Z.ltb_spec STDERR_FILENO fd); [| done]. apply lookup_delete_ne. intros ->.
        apply Hn'. split; [left | done]. }
    rewrite Hgc. destruct (decide (d ∈ fds /\ STDERR_FILENO < d)) as [[Hin Hlt] | Hn].
    + apply list_elem_of_lookup in Hin as [i Hi].
      destruct (Hcp i d Hi ltac:(unfold STDERR_FILENO in *; lia)) as [Hnone _]. done.
    + destruct (decide (t' !! d = t !! d)) as [| Hne]; [done |].
      destruct (Hch d Hne) as [Hin Hnone]. exfalso. apply Hn. split; [done |]. unfold STDERR_FILENO.
      destruct (Z.lt_ge_cases d 0); [by rewrite Hneg in Hne |].
      destruct (Z.lt_ge_cases 2 d); [done |].
      destruct (Hopen d ltac:(lia)) as [y Hy]. congruence.
Qed.
End dup.

(** The lowest of some descriptors that is not in use. *)
Fixpoint first_free (fds : list Z) t : Z :=
  match fds with
  | [] => -1
  | fd :: fds => if decide (t !! fd = None) then fd else first_free fds t
  end.

Lemma first_free_free fds t : 0 <= first_free fds t -> t !! first_free fds t = None.
Proof. induction fds as [| fd fds IH]; cbn [first_free]; [lia |]. by case_decide. Qed.

Lemma stdio_copies_witness :
  let t : fdtable := {[0 := 10%positive; 1 := 11%positive; 2 := 12%positive; 4 := 13%positive]} in
  let '(fds, (saved, t')) := lcuTY_tostdiofd 1 (first_free [0; 1; 2; 3; 4; 5; 6; 7]) None t in
  fds = [3; 5; 6] /\ t' !! 6 = Some 12%positive /\ t ⊆ t'.
Proof.
  intros t. pose proof (stdio_copies 1 (first_free [0; 1; 2; 3; 4; 5; 6; 7]) (first_free_free _) t) as H.
  revert H. destruct (lcuTY_tostdiofd _ _ None t) as [fds [saved t']] eqn:E.
  assert (fds = [3; 5; 6]) as -> by (vm_compute in E; by injection E).
  assert (t' !! 6 = Some 12%positive) as Ht by (vm_compute in E; injection E as _ <-; by vm_compute).
  intros (_ & _ & Hs & _). exact (conj eq_refl (conj Ht Hs)).
Defined.
End Dup.

(** ** Objects for the streams *)
Module Stdio.

Inductive uv_handle_type := UV_TTY | UV_TCP | UV_UDP | UV_NAMED_PIPE | UV_FILE | UV_OTHER.

(** What is in the stack: the scheduler, the table of the module, an object for the
    stream [i], nil. *)
Inductive slot := Sched | Mod | Object (i : nat) | Nil.
#[export] Instance slot_eq_dec : EqDecision slot.
Proof. solve_decision. Defined.

(** The answers of libuv for a descriptor: initialising a handle (for pipes, again
    without transfers), opening it with the descriptor, its address. *)
Record answers := Answers {
  type : uv_handle_type; init_err : Z; open_err : Z; init2_err : Z; open2_err : Z; name_err : Z; ipv6 : bool;
}.

(** [in_loop]: libuv has the handle of the object; [flags]: of the object, [None]
    while it has the flag of closed handles that [lcuT_createudhdl] sets;
    [owner]: the value that is kept as its scheduler. *)
Record object := Obj { in_loop : bool; flags : option Z; owner : slot }.

Definition LCU_SOCKIPV6FLAG : Z := 1.
Definition LCU_SOCKTRANFFLAG : Z := 2.
Definition UV_EINVAL : Z := -22.
Definition UV_EAI_SOCKTYPE : Z := -3011.

(** The state of the loop: the stack (the top first), the objects, the fields of the
    module and the warnings. *)
Record state := State {
  stack : list slot; objects : list (nat * object); fields : list nat; warnings : list (nat * Z);
}.
Implicit Types (s : state).

Definition at_index s (k : nat) : slot := default Nil (stack s !! (k - 1)%nat).

(** The object is pushed; [lcuT_createudhdl] takes the scheduler from index -2, and
    the code for files from index -3 when the object is already at the top. *)
Definition push_object (i : nat) (o : object) s : state :=
  State (Object i :: stack s) ((i, o) :: objects s) (fields s) (warnings s).
Definition push_nil s : state := State (Nil :: stack s) (objects s) (fields s) (warnings s).

(** The socket of a kind with addresses: [uv_tcp_t] and [uv_udp_t]. *)
Definition socket (i : nat) (a : answers) s : Z * state :=
  let owner := at_index s 2 in
  if init_err a <? 0 then (init_err a, push_nil (push_object i (Obj false None owner) s))
  else if open_err a <? 0 then (open_err a, push_object i (Obj true None owner) s)
  else if name_err a <? 0 then (name_err a, push_object i (Obj true None owner) s)
  else (name_err a, push_object i (Obj true (Some (if ipv6 a then LCU_SOCKIPV6FLAG else 0)) owner) s).

Definition pipe (i : nat) (a : answers) s : Z * state :=
  let owner := at_index s 2 in
  if init_err a <? 0 then (init_err a, push_object i (Obj false None owner) s)
  else if 0 <=? open_err a then (open_err a, push_object i (Obj true (Some LCU_SOCKTRANFFLAG) owner) s)
  else if open_err a =? UV_EINVAL then
    if init2_err a <? 0 then (init2_err a, push_object i (Obj true None owner) s)
    else (open2_err a, push_object i (Obj true (if 0 <=? open2_err a then Some 0 else None) owner) s)
  else (open_err a, push_object i (Obj true None owner) s).

Definition tty (i : nat) (a : answers) s : Z * state :=
  let owner := at_index s 2 in
  if init_err a <? 0 then (init_err a, push_object i (Obj false None owner) s)
  else (init_err a, push_object i (Obj true (Some 0) owner) s).

Definition stream (i : nat) (a : answers) s : Z * state :=
  match type a with
  | UV_TTY => tty i a s
  | UV_TCP | UV_UDP => socket i a s
  | UV_NAMED_PIPE => pipe i a s
  | UV_FILE => (0, push_object i (Obj false (Some 0) (at_index s 2)) s)
  | UV_OTHER => (UV_EAI_SOCKTYPE, push_nil s)
  end.

(** [lua_setfield(L, -2, name)] needs the table below the value. *)
Definition lcuM_addstdiof_step (i : nat) (a : answers) s : result state :=
  let '(err, s) := stream i a s in
  if err <? 0 then Ok (State (tail (stack s)) (objects s) (fields s) (warnings s ++ [(i, err)]))
  else if decide (at_index s 2 = Mod) then
    Ok (State (tail (stack s)) (objects s) (fields s ++ [i]) (warnings s))
  else LuaError "attempt to index a userdata value".

Fixpoint lcuM_addstdiof (i : nat) (fds : list answers) s : result state :=
  match fds with
  | [] => Ok s
  | a :: fds => s <- lcuM_addstdiof_step i a s;; lcuM_addstdiof (S i) fds s
  end.

Definition initial : state := State [Mod; Sched] [] [] [].

(** *** Properties *)

(** The error of a stream, negative when it gets no field. *)
Definition stream_err (a : answers) : Z := (stream 0 a initial).1.

(** A handle that cannot even be initialised. *)
Definition init_fails (a : answers) : bool :=
  match type a with UV_TCP | UV_UDP => init_err a <? 0 | _ => false end.

(** Streams that fail although libuv has their handle. *)
Definition dangling (a : answers) : bool :=
  match type a with
  | UV_TCP | UV_UDP => (0 <=? init_err a) && ((open_err a <? 0) || (name_err a <? 0))
  | UV_NAMED_PIPE => (0 <=? init_err a) && (stream_err a <? 0)
  | _ => false
  end.

Definition numbered (P : answers -> bool) (i : nat) (fds : list answers) : list nat :=
  fst <$> filter (fun x : nat * answers => P x.2 = true) (zip (seq i (length fds)) fds).

Lemma stream_cases i a s :
  stack s = [Mod; Sched] ->
  exists o, (stream i a s).1 = stream_err a /\
    fields (stream i a s).2 = fields s /\ warnings (stream i a s).2 = warnings s /\
    ((stack (stream i a s).2 = Nil :: stack s /\ stream_err a < 0 /\ objects (stream i a s).2 = objects s /\ dangling a = false) \/
     (objects (stream i a s).2 = (i, o) :: objects s /\ owner o = Sched /\
      (in_loop o = true /\ flags o = None <-> dangling a = true) /\
      (0 <= stream_err a -> is_Some (flags o)) /\
      stack (stream i a s).2 = (if init_fails a then [Nil] else []) ++ Object i :: stack s /\
      (init_fails a = true -> stream_err a < 0))).
Proof.
  intros Hs. destruct a as [ty e1 e2 e3 e4 e5 v6]. destruct s as [st ob fi wa]. cbn in Hs. subst st.
  unfold stream_err, dangling, init_fails, stream, stream_err.
  destruct ty; cbn -[Z.ltb Z.leb Z.eqb UV_EINVAL UV_EAI_SOCKTYPE]; unfold tty, socket, pipe;
    cbn -[Z.ltb Z.leb Z.eqb UV_EINVAL UV_EAI_SOCKTYPE];
    repeat match goal with
    | |- context [?x <? 0] => destruct (Z.ltb_spec x 0); cbn -[Z.ltb Z.leb Z.eqb UV_EINVAL UV_EAI_SOCKTYPE]
    | |- context [0 <=? ?x] => destruct (Z.leb_spec 0 x); cbn -[Z.ltb Z.leb Z.eqb UV_EINVAL UV_EAI_SOCKTYPE]
    | |- context [?x =? UV_EINVAL] => destruct (Z.eqb_spec x UV_EINVAL); cbn -[Z.ltb Z.leb Z.eqb UV_EINVAL UV_EAI_SOCKTYPE]
    end; try lia;
    try (eexists; split_and!; [reflexivity | reflexivity | reflexivity |]; right;
      split_and!; [reflexivity | reflexivity | cbn; naive_solver lia | cbn; intros; (by eexists) || lia | reflexivity |
        done || (intros; lia)]);
    try (exists (Obj false None Nil); split_and!; [reflexivity | reflexivity | reflexivity |]; left; done).
Qed.

(** One turn, when the handle can be initialised. *)
Lemma addstdiof_turn i a s :
  stack s = [Mod; Sched] -> init_fails a = false ->
  exists s', lcuM_addstdiof_step i a s = Ok s' /\ stack s' = [Mod; Sched] /\
    fields s' = fields s ++ (if 0 <=? stream_err a then [i] else []) /\
    warnings s' = warnings s ++ (if 0 <=? stream_err a then [] else [(i, stream_err a)]) /\
    exists os, objects s' = os ++ objects s /\
      (forall j o, (j, o) ∈ os -> j = i /\ owner o = Sched) /\
      ((exists o, (i, o) ∈ os /\ in_loop o = true /\ flags o = None) <-> dangling a = true).
Proof.
  intros Hs Hi. destruct (stream_cases i a s Hs) as (o & He & Hf & Hw & Hc).
  unfold lcuM_addstdiof_step. destruct (stream i a s) as [err s1]. cbn [fst snd] in *. subst err.
  destruct Hc as [(Hst & Hneg & Hob & Hnd) | (Hob & Hown & Hd & Hfl & Hst & _)].
  - rewrite (proj2 (Z.ltb_lt _ _)), (proj2 (Z.leb_gt _ _)) by done. eexists. split; [reflexivity |].
    cbn. rewrite Hst, Hob, Hf, Hw, app_nil_r. cbn. split_and!; try done. exists []. split_and!; [done | |].
    + by intros j o' ?%elem_of_nil.
    + rewrite Hnd. split; [by intros (? & ?%elem_of_nil & _) | done].
  - rewrite Hi in Hst. cbn in Hst. destruct (Z.leb_spec 0 (stream_err a)) as [Hpos | Hneg].
    + rewrite (proj2 (Z.ltb_ge _ _)) by done. unfold at_index. rewrite Hst, Hs. cbn.
      eexists. split; [reflexivity |]. cbn. rewrite ?Hst, Hob, Hf, Hw, app_nil_r, ?Hs. split_and!; try done.
      exists [(i, o)]. split_and!; [done | |]; set_solver.
    + rewrite (proj2 (Z.ltb_lt _ _)) by done. eexists. split; [reflexivity |].
      cbn. rewrite ?Hst, Hob, Hf, Hw, app_nil_r, ?Hs. split_and!; try done.
      exists [(i, o)]. split_and!; [done | |]; set_solver.
Qed.

Lemma addstdiof_loop fds i s :
  stack s = [Mod; Sched] -> Forall (fun a => init_fails a = false) fds ->
  exists s', lcuM_addstdiof i fds s = Ok s' /\ stack s' = [Mod; Sched] /\
    fields s' = fields s ++ numbered (fun a => 0 <=? stream_err a) i fds /\
    exists os, objects s' = os ++ objects s /\
      forall j, ((exists o, (j, o) ∈ os /\ in_loop o = true /\ flags o = None) <->
        exists k a, j = (i + k)%nat /\ fds !! k = Some a /\ dangling a = true) /\
        forall o, (j, o) ∈ os -> owner o = Sched.
Proof.
  revert i s. induction fds as [| a fds IH]; intros i s Hs Hi; cbn [lcuM_addstdiof].
  { exists s. rewrite app_nil_r. split_and!; try done. exists []. split; [done |]. intros j. split; [| by intros o ?%elem_of_nil].
    split; [by intros (? & ?%elem_of_nil & _) | by intros (k & a & _ & Hk & _)]. }
  apply Forall_cons in Hi as [Ha Hi].
  destruct (addstdiof_turn i a s Hs Ha) as (s1 & -> & Hs1 & Hf1 & _ & os1 & Ho1 & Hown1 & Hd1).
  cbn [rbind]. destruct (IH (S i) s1 Hs1 Hi) as (s2 & -> & Hs2 & Hf2 & os2 & Ho2 & Hj2).
  exists s2. split; [done |]. split; [done |]. split.
  { rewrite Hf2, Hf1, <- app_assoc. f_equal. unfold numbered. cbn [length seq zip zip_with].
    destruct (0 <=? stream_err a) eqn:He.
    - by rewrite filter_cons_True by done.
    - by rewrite filter_cons_False by (cbn; congruence). }
  exists (os2 ++ os1). split; [by rewrite Ho2, Ho1, app_assoc |]. intros j. destruct (Hj2 j) as [Hj Hown2]. split.
  - split.
    + intros (o & [Hin | Hin]%elem_of_app & Ho).
      * destruct (proj1 Hj (ex_intro _ o (conj Hin Ho))) as (k & b & -> & Hk & Hb). exists (S k), b.
        split; [lia | done].
      * destruct (Hown1 j o Hin) as [-> _]. exists 0%nat, a. split; [lia |]. split; [done |].
        apply Hd1. by exists o.
    + intros ([| k] & b & -> & Hk & Hb); cbn in Hk.
      * injection Hk as <-. destruct (proj2 Hd1 Hb) as (o & Hin & Ho). exists o.
        rewrite Nat.add_0_r. split; [set_solver | done].
      * destruct (proj2 Hj) as (o & Hin & Ho); [exists k, b; split; [lia | done] |]. exists o. set_solver.
  - intros o [Hin | Hin]%elem_of_app; [by apply Hown2 | by destruct (Hown1 j o Hin)].
Qed.

(** When every handle can be initialised, each stream that libuv can open is a
    field of the module, with an object that keeps the scheduler, and the stack
    is left as it was; but an object whose handle was initialised and could not be
    opened keeps the flag of closed ones, so it will be freed without libuv
    giving up its handle. *)
Theorem stdio_fields (fds : list answers) (Hi : Forall (fun a => init_fails a = false) fds) :
  exists s, lcuM_addstdiof 0 fds initial = Ok s /\ stack s = stack initial /\
    fields s = numbered (fun a => 0 <=? stream_err a) 0 fds /\
    (forall j o, (j, o) ∈ objects s -> owner o = Sched) /\
    (forall j, (exists o, (j, o) ∈ objects s /\ in_loop o = true /\ flags o = None) <->
       exists a, fds !! j = Some a /\ dangling a = true).
Proof.
  destruct (addstdiof_loop fds 0 initial eq_refl Hi) as (s & Hx & Hs & Hf & os & Ho & Hj).
  exists s. rewrite app_nil_r in Ho. rewrite Ho. split_and!; [done | done | done | |].
  - intros j o. apply (Hj j).
  - intros j. rewrite (proj1 (Hj j)). split; [intros (k & a & -> & Hk); by exists a | intros (a & Hk); by exists j, a].
Qed.

Lemma stdio_fields_witness :
  exists s, lcuM_addstdiof 0 [Answers UV_TTY 0 0 0 0 0 false; Answers UV_NAMED_PIPE 0 (-9) 0 0 0 false;
      Answers UV_FILE 0 0 0 0 0 false] initial = Ok s /\
    fields s = [0%nat; 2%nat] /\
    exists o, (1%nat, o) ∈ objects s /\ in_loop o = true /\ flags o = None.
Proof.
  destruct (stdio_fields [Answers UV_TTY 0 0 0 0 0 false; Answers UV_NAMED_PIPE 0 (-9) 0 0 0 false;
      Answers UV_FILE 0 0 0 0 0 false]) as (s & Hx & _ & Hf & _ & Hd).
  { repeat constructor. }
  exists s. split; [exact Hx |]. split; [exact Hf |]. apply Hd. eexists. split; reflexivity.
Defined.

(** A socket that cannot be initialised leaves its object in the stack, and the next
    stream is stored in it instead of the module: the module cannot be loaded. *)
Theorem stdio_init_error (a b : answers) (fds : list answers)
    (Ha : init_fails a = true) (Hb : type b = UV_TTY) (He : 0 <= init_err b) :
  lcuM_addstdiof 0 (a :: b :: fds) initial = LuaError "attempt to index a userdata value".
Proof.
  destruct a as [ta e1 e2 e3 e4 e5 v6], b as [tb f1 f2 f3 f4 f5 v7]. cbn in Hb, He. subst tb.
  unfold init_fails in Ha. cbn in Ha. destruct ta; try done; apply Z.ltb_lt in Ha as Hlt;
    cbn [lcuM_addstdiof]; unfold lcuM_addstdiof_step, stream, socket; cbn -[Z.ltb];
    rewrite (proj2 (Z.ltb_lt _ _) Hlt); cbn -[Z.ltb]; rewrite (proj2 (Z.ltb_lt _ _) Hlt); cbn -[Z.ltb];
    unfold tty; cbn -[Z.ltb]; rewrite (proj2 (Z.ltb_ge _ _) He); cbn -[Z.ltb];
    rewrite (proj2 (Z.ltb_ge _ _) He); done.
Qed.

Lemma stdio_init_error_witness :
  lcuM_addstdiof 0 [Answers UV_TCP (-24) 0 0 0 0 false; Answers UV_TTY 0 0 0 0 0 false] initial
  = LuaError "attempt to index a userdata value".
Proof. apply stdio_init_error; [reflexivity | reflexivity | cbn; lia]. Defined.
End Stdio.
