(* ===== verification/Environ.v ===== *)
(** * Environments (src/src/lprocesf.c)

    The environment that is packed into memory for a new process, read back into
    a table and indexed by name; strings as arguments of a call. *)
From S2P Require Import Prelude Outcome LuaApi.

(** ** Environments *)
Module Env.

(** The table in the order of [lua_next]. *)
Abbreviation table := (list (lvalue * lvalue)).

Section env.
(** [lua_tostring] of a number that is not an integer. *)
Context (number_text : Z -> string).

Definition tostring (v : lvalue) : option string :=
  match v with
  | LString s => Some (c_string s)
  | LInteger i => Some (fmt_int i)
  | LNumber bits => Some (number_text bits)
  | _ => None
  end.

Definition sizeof_pointer : Z := 8.

Definition bad_name (name : string) : string :=
  "bad name '" +:+ name +:+ "' in environment (cannot contain '=')".

(** The first traversal: the number of variables and the size of the memory.
    [strlen] of a null pointer is undefined, and so is the traversal after the
    conversion of a key that is a number. *)
Fixpoint check_env (t : table) (envc envsz : Z) : result (Z * Z) :=
  match t with
  | [] => Ok (envc, envsz)
  | (k, v) :: t =>
      match tostring k, tostring v with
      | Some name, None => LuaError (bad_name name)
      | Some name, Some value =>
          match find_char "=" name with
          | Some _ => LuaError (bad_name name)
          | None =>
              match k with
              | LString _ =>
                  check_env t (envc + 1)
                    (size_t (envsz + sizeof_pointer
                       + (Z.of_nat (String.length name) + 1 + Z.of_nat (String.length value) + 1)))
              | _ => Overrun
              end
          end
      | None, _ => Overrun
      end
  end.

(** The memory after the pointers: what is written so far, and the pointers as
    places in it. *)
Record procenv := ProcEnv { envl : list nat; envmem : string }.

Definition NUL : string := String "000" EmptyString.

(** The second traversal: a key, '=', the value and its final zero. *)
Fixpoint fill_env (t : table) (e : procenv) : procenv :=
  match t with
  | [] => e
  | (k, v) :: t =>
      let entry := default EmptyString (tostring k) +:+ "=" +:+ default EmptyString (tostring v) +:+ NUL in
      fill_env t (ProcEnv (envl e ++ [String.length (envmem e)]) (envmem e +:+ entry))
  end.

(** The environment and the size of its memory. *)
Definition newprocenv (t : table) : result (procenv * Z) :=
  r <- check_env t 0 sizeof_pointer;;
  Ok (fill_env t (ProcEnv [] EmptyString), r.2).

(** The string at a pointer. *)
Definition string_at (e : procenv) (p : nat) : string := c_string (drop_string p (envmem e)).

(** [strchr] that finds nothing gives a null pointer. *)
Fixpoint unpackenv_loop (e : procenv) (ps : list nat) (tab : gmap string string)
  : result (gmap string string) :=
  match ps with
  | [] => Ok tab
  | p :: ps =>
      let s := string_at e p in
      match find_char "=" s with
      | Some i => unpackenv_loop e ps (<[take_string i s := drop_string (S i) s]> tab)
      | None => Overrun
      end
  end.
Definition system_unpackenv (e : procenv) (tab : gmap string string) : result (gmap string string) :=
  unpackenv_loop e (envl e) tab.

(** [strncmp(name, s, len)] is zero, for the name as C sees it and its length in
    Lua. *)
Fixpoint strncmp_eq (name s : string) (len : nat) : bool :=
  match len with
  | O => true
  | S len =>
      match name, s with
      | String a name, String b s => if decide (a = b) then strncmp_eq name s len else false
      | EmptyString, EmptyString => true
      | _, _ => false
      end
  end.

(** [name]: the string and its length in Lua. *)
Fixpoint index_loop (e : procenv) (ps : list nat) (name : string) (len : nat) : option string :=
  match ps with
  | [] => None
  | p :: ps =>
      let s := string_at e p in
      if strncmp_eq (c_string name) s len
         && bool_decide (String.get (p + len) (envmem e) = Some "="%char)
      then Some (c_string (drop_string (p + len + 1) (envmem e)))
      else index_loop e ps name len
  end.
Definition procenv_index (e : procenv) (name : string) : result (option string) :=
  _ <- luaL_argcheck (bool_decide (find_char "=" (c_string name) = None)) 2 "cannot contain '='";;
  Ok (index_loop e (envl e) name (String.length name)).
End env.

(** ** Properties *)

(** The entry of a variable and the memory of a list of them. *)
Definition entry (p : string * string) : string := p.1 +:+ String "=" (p.2 +:+ NUL).
Fixpoint memory (ps : list (string * string)) : string :=
  match ps with [] => EmptyString | p :: ps => entry p +:+ memory ps end.
Fixpoint places (ps : list (string * string)) (at_ : nat) : list nat :=
  match ps with [] => [] | p :: ps => at_ :: places ps (at_ + String.length (entry p)) end.

(** A variable that can be stored: no zeros, and no '=' in its name. *)
Definition storable (p : string * string) : Prop :=
  c_string p.1 = p.1 /\ c_string p.2 = p.2 /\ find_char "=" p.1 = None.

Lemma c_string_app s r : c_string s = s -> c_string (s +:+ String "000" r) = s.
Proof.
  induction s as [| c s IH]; [done |]. cbn [c_string].
  change (String c s +:+ String "000" r) with (String c (s +:+ String "000" r)). cbn [c_string].
  destruct (decide (c = "000"%char)); [done |]. intros [= Hs]. by rewrite IH.
Qed.

Lemma c_string_entry p rest :
  storable p -> c_string (entry p +:+ rest) = p.1 +:+ String "=" p.2.
Proof.
  destruct p as [n v]. intros (Hn & Hv & _). unfold entry, NUL. cbn [fst snd] in *.
  rewrite string_app_assoc.
  change (String "=" (v +:+ String "000" "") +:+ rest)
    with (String "=" ((v +:+ String "000" "") +:+ rest)).
  rewrite string_app_assoc. change (String "000" "" +:+ rest) with (String "000" rest).
  induction n as [| c n IH].
  - change ("" +:+ String "=" (v +:+ String "000" rest)) with (String "=" (v +:+ String "000" rest)).
    cbn. by rewrite c_string_app.
  - cbn [c_string] in Hn. destruct (decide (c = "000"%char)) as [| Hc]; [done |].
    injection Hn as Hn. change (String c n +:+ ?r) with (String c (n +:+ r)). cbn [c_string].
    rewrite decide_False by done. by rewrite IH.
Qed.
Lemma entry_found p rest :
  storable p ->
  find_char "=" (c_string (entry p +:+ rest)) = Some (String.length p.1).
Proof. intros Hp. rewrite c_string_entry by done. by apply find_char_app, Hp. Qed.

Lemma fill_env_memory nt t ps l m :
  Forall2 (fun kv p => kv.1 = LString p.1 /\ tostring nt kv.2 = Some p.2) t ps ->
  Forall storable ps ->
  fill_env nt t (ProcEnv l m)
  = ProcEnv (l ++ places ps (String.length m)) (m +:+ memory ps).
Proof.
  intros Ht. revert l m. induction Ht as [| [k v] p t ps [Hk Hv] Ht IH]; intros l m Hs.
  - cbn. by rewrite app_nil_r, string_app_nil_r.
  - inversion Hs as [| ?? Hp Hs']; subst. cbn in Hk, Hv. subst k.
    cbn [fill_env tostring memory places]. rewrite Hv. cbn [default from_option]. unfold id.
    rewrite (proj1 Hp). change (p.1 +:+ "=" +:+ p.2 +:+ NUL) with (entry p).
    rewrite IH by done. rewrite string_app_length, string_app_assoc, <- app_assoc. done.
Qed.

Lemma check_env_size nt t ps c sz :
  Forall2 (fun kv p => kv.1 = LString p.1 /\ tostring nt kv.2 = Some p.2) t ps ->
  Forall storable ps ->
  check_env nt t c (size_t sz)
  = Ok (c + Z.of_nat (length ps),
        size_t (sz + sizeof_pointer * Z.of_nat (length ps) + Z.of_nat (String.length (memory ps)))).
Proof.
  intros Ht. revert c sz. induction Ht as [| [k v] p t ps [Hk Hv] Ht IH]; intros c sz Hs.
  - cbn [check_env length memory String.length]. f_equal. f_equal; [lia | f_equal; lia].
  - inversion Hs as [| ?? Hp Hs']; subst. cbn in Hk, Hv. subst k.
    cbn [check_env tostring]. destruct Hp as (Hn & _ & He). rewrite Hn, Hv, He.
    rewrite <- Z.add_assoc, wrapu_add by lia.
    rewrite IH by done. cbn [length memory]. unfold entry, NUL.
    rewrite !string_app_length. cbn [String.length]. rewrite !string_app_length. cbn [String.length].
    f_equal. f_equal; [lia | f_equal; unfold sizeof_pointer; lia].
Qed.

(** A loop over the pointers meets one entry after the other. *)
Lemma string_at_entry l pre p rest :
  storable p ->
  string_at (ProcEnv l (pre +:+ entry p +:+ rest)) (String.length pre)
  = p.1 +:+ String "=" p.2.
Proof. intros Hp. unfold string_at. cbn [envmem]. by rewrite drop_string_app, c_string_entry. Qed.

Lemma memory_next pre p ps :
  pre +:+ memory (p :: ps) = (pre +:+ entry p) +:+ memory ps.
Proof. cbn [memory]. by rewrite string_app_assoc. Qed.

Lemma unpackenv_loop_memory l ps pre tab :
  Forall storable ps -> NoDup ps.*1 ->
  unpackenv_loop (ProcEnv l (pre +:+ memory ps)) (places ps (String.length pre)) tab
  = Ok (list_to_map ps ∪ tab).
Proof.
  revert pre tab. induction ps as [| p ps IH]; intros pre tab Hs Hd.
  - cbn. by rewrite map_empty_union.
  - inversion Hs as [| ?? Hp Hs']; subst. inversion Hd as [| ?? Hnin Hd']; subst.
    cbn [places unpackenv_loop memory]. rewrite string_at_entry by done.
    rewrite find_char_app by apply Hp. rewrite take_string_app.
    assert (drop_string (S (String.length p.1)) (p.1 +:+ String "=" p.2) = p.2) as ->.
    { clear. induction p.1 as [| c n IH]; [done | exact IH]. }
    change (entry p +:+ memory ps) with (memory (p :: ps)).
    rewrite memory_next, <- string_app_length, IH by done.
    f_equal. destruct p as [n v]. cbn [list_to_map fst snd foldr]. unfold list_to_map. cbn.
    rewrite <- insert_union_l, <- insert_union_r; [done |].
    by apply not_elem_of_list_to_map_1.
Qed.

Lemma strncmp_eq_prefix name s :
  strncmp_eq name s (String.length name) = true <-> exists r, s = name +:+ r.
Proof.
  revert s. induction name as [| c name IH]; intros s; cbn [String.length strncmp_eq].
  - split; [by exists s | done].
  - destruct s as [| b s]; [split; [done | by intros [r [=]]] |].
    destruct (decide (c = b)) as [-> | Hc].
    + rewrite IH. split; intros [r Hr]; exists r; [by rewrite Hr | by injection Hr].
    + split; [done |]. intros [r Hr]. by injection Hr.
Qed.

Lemma string_get_skip pre k s :
  String.get (String.length pre + k) (pre +:+ s) = String.get k s.
Proof. induction pre as [| c pre IH]; [done | exact IH]. Qed.

(** The test of the loop succeeds for the name of the entry. *)
Lemma index_test pre p rest name :
  storable p -> find_char "=" name = None ->
  strncmp_eq name (p.1 +:+ String "=" p.2) (String.length name)
    && bool_decide (String.get (String.length pre + String.length name)
                      (pre +:+ entry p +:+ rest) = Some "="%char)
  = bool_decide (name = p.1).
Proof.
  intros (Hn & Hv & He) Hname. destruct p as [n v]. cbn [fst snd] in *.
  unfold entry. cbn [fst snd]. rewrite string_get_skip, string_app_assoc.
  change (String "=" (v +:+ NUL) +:+ rest) with (String "=" ((v +:+ NUL) +:+ rest)).
  apply eq_true_iff_eq. rewrite andb_true_iff, strncmp_eq_prefix, !bool_decide_eq_true.
  split; [| intros ->; split; [eauto | apply string_get_app]].
  intros [[r Hr] Hget].
  revert name Hname Hr Hget. induction n as [| c n IH]; intros name Hname Hr Hget.
  - destruct name as [| d name]; [done |]. injection Hr as <- Hr.
    cbn in Hname. done.
  - destruct name as [| d name].
    + cbn in Hget, He. injection Hget as ->. done.
    + injection Hr as <- Hr. f_equal. cbn [find_char] in *.
      destruct (decide (c = "="%char)); [done |].
      destruct (find_char "=" n) eqn:E1; [done |]. destruct (find_char "=" name) eqn:E2; [done |].
      cbn [c_string] in Hn. destruct (decide (c = "000"%char)); [done |]. injection Hn as Hn.
      apply IH; done.
Qed.

Lemma index_loop_memory l ps pre name :
  Forall storable ps -> NoDup ps.*1 -> c_string name = name -> find_char "=" name = None ->
  index_loop (ProcEnv l (pre +:+ memory ps)) (places ps (String.length pre)) name (String.length name)
  = (list_to_map ps : gmap string string) !! name.
Proof.
  intros Hs Hd Hc Hn. revert pre. induction ps as [| p ps IH]; intros pre; [done |].
  inversion Hs as [| ?? Hp Hs']; subst. inversion Hd as [| ?? Hnin Hd']; subst.
  cbn [places index_loop memory]. rewrite string_at_entry, Hc by done. cbn [envmem].
  rewrite index_test by done. destruct p as [n v]. cbn [fst] in *.
  change (list_to_map ((n, v) :: ps)) with (<[n:=v]> (list_to_map ps : gmap string string)).
  case_bool_decide as Hname.
  - subst n. rewrite lookup_insert_eq. f_equal. destruct Hp as (_ & Hv & _). cbn [snd] in Hv.
    rewrite <- Nat.add_assoc. unfold entry. cbn [fst snd].
    assert (forall k s, drop_string (String.length pre + k) (pre +:+ s) = drop_string k s) as Hd1.
    { clear. induction pre as [| c pre IH]; [done | exact IH]. }
    rewrite Hd1, Nat.add_1_r, string_app_assoc.
    assert (forall s, drop_string (S (String.length name)) (name +:+ String "=" s) = s) as Hd2.
    { clear. intros s. induction name as [| c n IH]; [done | exact IH]. }
    change (String "=" (v +:+ NUL) +:+ memory ps) with (String "=" ((v +:+ NUL) +:+ memory ps)).
    rewrite Hd2, string_app_assoc. by apply c_string_app.
  - rewrite lookup_insert_ne by done.
    change (entry (n, v) +:+ memory ps) with (memory ((n, v) :: ps)).
    rewrite memory_next, <- string_app_length. by apply IH.
Qed.

(** C19: a table of variables, its names without '=', is packed into exactly the
    memory that was counted: the pointers with the null pointer, and the
    entries.  Unpacking the memory stores the same variables, and the value of
    every name is found in it. *)
Theorem env_roundtrip nt (t : table) (ps : list (string * string)) (tab : gmap string string) :
  Forall2 (fun kv p => kv.1 = LString p.1 /\ tostring nt kv.2 = Some p.2) t ps ->
  Forall storable ps -> NoDup ps.*1 ->
  sizeof_pointer * (Z.of_nat (length t) + 1) + Z.of_nat (String.length (memory ps)) < 2 ^ 64 ->
  exists e sz, newprocenv nt t = Ok (e, sz) /\
    sz = sizeof_pointer * (Z.of_nat (length (envl e)) + 1) + Z.of_nat (String.length (envmem e)) /\
    system_unpackenv e tab = Ok (list_to_map ps ∪ tab) /\
    forall name, c_string name = name ->
      procenv_index e name
      = if find_char "=" name is Some _ then ArgError 2 "cannot contain '='"
        else Ok ((list_to_map ps : gmap string string) !! name).
Proof.
  intros Ht Hs Hd Hsz. pose proof (Forall2_length _ _ _ Ht) as Hl.
  assert (length (places ps 0) = length ps) as Hp.
  { generalize 0%nat. clear. induction ps; intros k; cbn; congruence. }
  exists (ProcEnv (places ps 0) (memory ps)). eexists. split.
  { unfold newprocenv. rewrite <- (wrapu_id 64 sizeof_pointer) by done.
    erewrite check_env_size by done. cbn [rbind snd]. by erewrite fill_env_memory. }
  cbn [envl envmem]. split; [| split].
  - rewrite Hp, wrapu_id; unfold sizeof_pointer in *; lia.
  - apply (unpackenv_loop_memory _ ps ""); done.
  - intros name Hc. unfold procenv_index, luaL_argcheck. rewrite Hc.
    destruct (find_char "=" name) eqn:Hf; [by rewrite bool_decide_eq_false_2 |].
    rewrite bool_decide_eq_true_2 by done. cbn [rbind envl]. f_equal.
    by apply (index_loop_memory _ ps "").
Qed.

Lemma env_roundtrip_witness :
  exists e sz,
    newprocenv (fun _ => ""%string) [(LString "HOME", LString "/root"); (LString "N", LInteger 12)]
    = Ok (e, sz) /\
    sz = sizeof_pointer * (Z.of_nat (length (envl e)) + 1) + Z.of_nat (String.length (envmem e)) /\
    system_unpackenv e ∅ = Ok (list_to_map [("HOME", "/root"); ("N", "12")]%string ∪ ∅) /\
    forall name, c_string name = name ->
      procenv_index e name
      = if find_char "=" name is Some _ then ArgError 2 "cannot contain '='"
        else Ok ((list_to_map [("HOME", "/root"); ("N", "12")]%string : gmap string string) !! name).
Proof.
  apply (env_roundtrip (fun _ => ""%string) _ [("HOME", "/root"); ("N", "12")]%string ∅).
  - repeat constructor.
  - repeat constructor.
  - apply (bool_decide_unpack _). vm_compute. exact I.
  - reflexivity.
Defined.

(** The first variable that cannot be stored decides the error.  A name with
    '=' is reported, and with the same message a value that is not a string,
    whatever its name; a key that is neither a string nor a number is not
    checked, and [strlen] reads from a null pointer. *)
Theorem newprocenv_bad nt (t : table) (ps : list (string * string)) (k v : lvalue) (rest : table) :
  Forall2 (fun kv p => kv.1 = LString p.1 /\ tostring nt kv.2 = Some p.2) t ps ->
  Forall storable ps ->
  match tostring nt k with
  | Some name =>
      tostring nt v = None \/ is_Some (find_char "=" name) ->
      newprocenv nt (t ++ (k, v) :: rest) = LuaError (bad_name name)
  | None => newprocenv nt (t ++ (k, v) :: rest) = Overrun
  end.
Proof.
  intros Ht Hs.
  assert (forall c sz, exists c' sz',
    check_env nt (t ++ (k, v) :: rest) c sz = check_env nt ((k, v) :: rest) c' sz') as Hskip.
  { induction Ht as [| [k' v'] p t ps [Hk Hv] Ht IH]; intros c sz; [by exists c, sz |].
    inversion Hs as [| ?? (Hn & _ & He) Hs']; subst. cbn in Hk, Hv. subst k'.
    rewrite <- app_comm_cons. cbn [check_env tostring]. rewrite Hn, Hv, He. by apply IH. }
  unfold newprocenv. destruct (Hskip 0 sizeof_pointer) as (c & sz & ->). cbn [check_env].
  destruct (tostring nt k) as [name |]; [| done].
  intros [Hv | [i Hi]]; [by rewrite Hv |]. destruct (tostring nt v); by rewrite ?Hi.
Qed.

Lemma newprocenv_bad_witness :
  newprocenv (fun _ => ""%string) [(LString "HOME", LString "/root"); (LString "X", LBoolean true)]
  = LuaError "bad name 'X' in environment (cannot contain '=')".
Proof.
  apply (newprocenv_bad (fun _ => ""%string) [(LString "HOME", LString "/root")]
           [("HOME", "/root")]%string (LString "X") (LBoolean true) []).
  - repeat constructor.
  - repeat constructor.
  - left. reflexivity.
Defined.

End Env.

(** ** Arguments that are strings *)
Section check.
Context (number_text : Z -> string) (typename : lvalue -> string).

Definition luaL_checkstring (arg : Z) (v : lvalue) : result string :=
  match Env.tostring number_text v with
  | Some s => Ok s
  | None => ArgError arg ("string expected, got " +:+ typename v)
  end.
End check.
