(* ===== verification/EnvAccess.v ===== *)
(** * The environment and the directory of the process
    (src/src/lprocesf.c, lines 205 to 281 and 317 to 323)

    [system.getenv] gives the value of a variable, or a table with all of them;
    [system.setenv] changes one; [system.getdir] and [system.setdir]. *)
From stdpp Require Import gmap strings.
From S2P Require Import Prelude Outcome LuaApi Results Buffers Await Environ.

Section access.
Context {St : Type} `{!LuaStack St} `{!LuaArgs}.
Context (UV_ENOBUFS UV_MAXHOSTNAMESIZE : Z) (strerror : Z -> string).
(** libuv: the variables of the process in their order, or an error; the getter of a
    variable and of the directory; the functions that change them. *)
Context (uv_os_environ : Z * list (string * string)) (uv_os_getenv : string -> StrOut.getter_t).
Context (uv_cwd : StrOut.getter_t) (uv_chdir uv_os_unsetenv : string -> Z) (uv_os_setenv : string -> string -> Z).
(** The function [environ2table] as a value, the table that [lua_createtable]
    makes, and the address of the list of variables. *)
Context (environ2table_fn newtable envlist : positive).
Implicit Types (L : St).

(** The contents of the tables. *)
Abbreviation tables := (gmap positive (gmap string string)).

(** [environ2table]: from the last variable to the first. *)
Definition environ2table (envs : list (string * string)) (t : gmap string string) : gmap string string :=
  fold_left (fun t p => <[p.1 := p.2]> t) (rev envs) t.

(** What [system_getenv] does: a failure, the value of a variable, or the protected
    call of a function with its three arguments. *)
Inductive getenv_end :=
  | Failed (vs : list lvalue)
  | Has (s : string)
  | PCall (f : lvalue) (args : list lvalue).

(** The array has 256 bytes; the rest is as in [lcu_pushstrout]. *)
Definition getenv_value (name : string) L : getenv_end :=
  match (StrOut.lcu_pushstrout UV_ENOBUFS 256 (uv_os_getenv name)).1 with
  | StrOut.Pushed s => Has s
  | StrOut.Raised err => let r := Results.lcuL_pusherrres strerror L err in Failed (returned r.1 r.2)
  end.

Definition system_getenv L : result getenv_end :=
  match lua_gettop L, arg L 1 with
  | O, _ | _, LTable _ =>
      let '(err, envs) := uv_os_environ in
      if err <? 0 then let r := Results.lcuL_pusherrres strerror L err in Ok (Failed (returned r.1 r.2))
      else
        let L := lua_push L (LFunction environ2table_fn) in
        let L := if (1 <? lua_gettop L)%nat then lua_insert (lua_settop L 2) 1
                 else lua_push L (LTable newtable) in
        let L := lua_push L (LLightUserdata (Some envlist)) in
        let L := lua_push L (LInteger (Z.of_nat (length envs))) in
        match returned 4 L with
        | f :: args => Ok (PCall f args)
        | [] => Overrun
        end
  | _, _ => name <- checkstring L 1;; Ok (getenv_value name L)
  end.

(** The call of [environ2table] itself; other functions do what they do. *)
Definition pcall (f : lvalue) (args : list lvalue) (ts : tables) : option (lvalue * tables) :=
  match f, args with
  | LFunction p, [LTable t; LLightUserdata (Some l); LInteger n] =>
      if decide (p = environ2table_fn /\ l = envlist /\ n = Z.of_nat (length uv_os_environ.2))
      then Some (LTable t, <[t := environ2table uv_os_environ.2 (default ∅ (ts !! t))]> ts)
      else None
  | _, _ => None
  end.

Definition system_setenv L : result (list lvalue) :=
  name <- checkstring L 1;;
  err <- (if decide (arg L 2 = LNil /\ (2 <= lua_gettop L)%nat) then Ok (uv_os_unsetenv name)
          else value <- checkstring L 2;; Ok (uv_os_setenv name value));;
  let r := Results.lcuL_pushresults strerror L 0 err in Ok (returned r.1 r.2).

Definition system_getdir L : result (list lvalue) :=
  match (StrOut.lcu_pushstrout UV_ENOBUFS UV_MAXHOSTNAMESIZE uv_cwd).1 with
  | StrOut.Pushed s => Ok (returned 1 (lua_push L (LString s)))
  | StrOut.Raised err => UvError err
  end.

Definition system_setdir L : result (list lvalue) :=
  path <- checkstring L 1;;
  let r := Results.lcuL_pushresults strerror L 0 (uv_chdir path) in Ok (returned r.1 r.2).

(** The table is the first argument; see [Environ.Env.newprocenv]. *)
Definition system_packenv (number_text : Z -> string) (fields : positive -> Env.table) L : result Env.procenv :=
  match arg L 1 with
  | LTable t => r <- Env.newprocenv number_text (fields t);; Ok r.1
  | _ => ArgError 1 "table expected"
  end.

(** ** Properties *)

Fixpoint first_value (name : string) (envs : list (string * string)) : option string :=
  match envs with
  | [] => None
  | (n, v) :: envs => if decide (n = name) then Some v else first_value name envs
  end.

(** The first variable of a name is the one that counts. *)
Lemma environ2table_first envs t name :
  environ2table envs t !! name = match first_value name envs with Some v => Some v | None => t !! name end.
Proof.
  unfold environ2table. revert t. induction envs as [| [n v] envs IH]; intros t; [done |].
  cbn [rev first_value]. rewrite fold_left_app. cbn [fold_left fst snd].
  case_decide as Hn; [subst; by rewrite lookup_insert_eq |]. by rewrite lookup_insert_ne, IH by done.
Qed.

(** Without arguments or with one table, all the variables are added to a new
    table or to the one that is given, which is the result: each name with the
    value of its first variable, and the other fields as they were. *)
Theorem getenv_table L (ts : tables) (t : positive)
    (Henv : 0 <= uv_os_environ.1)
    (HL : (values L = [] /\ t = newtable) \/ values L = [LTable t]) :
  exists f args ts', system_getenv L = Ok (PCall f args) /\ pcall f args ts = Some (LTable t, ts') /\
    (forall t', t' <> t -> ts' !! t' = ts !! t') /\
    exists fields, ts' !! t = Some fields /\
      forall name, fields !! name =
        match first_value name uv_os_environ.2 with
        | Some v => Some v | None => default ∅ (ts !! t) !! name end.
Proof.
  assert (system_getenv L = Ok (PCall (LFunction environ2table_fn)
    [LTable t; LLightUserdata (Some envlist); LInteger (Z.of_nat (length uv_os_environ.2))])) as ->.
  { unfold system_getenv. destruct uv_os_environ as [err envs] eqn:E. cbn [fst snd] in *.
    assert (lua_gettop L = 0%nat \/ lua_gettop L <> 0%nat /\ arg L 1 = LTable t) as Hcase.
    { unfold lua_gettop, arg. destruct HL as [[HL _] | HL]; rewrite HL; cbn; [left | right]; done. }
    rewrite (proj2 (Z.ltb_ge _ _) Henv).
    set (L1 := lua_push L (LFunction environ2table_fn)).
    set (L2 := if (1 <? lua_gettop L1)%nat then _ else _).
    assert (values L2 = [LFunction environ2table_fn; LTable t]) as H2.
    { unfold L2. assert (values L1 = values L ++ [LFunction environ2table_fn]) as H1 by apply values_push.
      unfold lua_gettop. rewrite H1. destruct HL as [[HL ->] | HL]; rewrite HL in *; cbn [app length Nat.ltb Nat.leb].
      - by rewrite values_push, H1.
      - apply (values_insert _ [] [LTable t]). rewrite values_settop, H1. done. }
    set (L3 := lua_push (lua_push L2 _) _).
    assert (returned 4 L3 = [LFunction environ2table_fn; LTable t; LLightUserdata (Some envlist);
                             LInteger (Z.of_nat (length envs))]) as H3.
    { apply (returned_app _ []); [| done]. unfold L3. by rewrite !values_push, H2. }
    destruct Hcase as [Hz | [Hnz Ha]]; [by rewrite Hz, H3 |].
    rewrite Ha. destruct (lua_gettop L) as [| n] eqn:Htop; [done |]. by rewrite H3. }
  do 3 eexists. split; [reflexivity |]. cbn [pcall]. rewrite decide_True by done.
  split; [reflexivity |]. split; [intros t' Hne; by apply lookup_insert_ne |].
  eexists. split; [apply lookup_insert_eq |]. intros name. apply environ2table_first.
Qed.

(** With a second argument the table is not filled: the function is dropped from
    the stack in its place, and the second argument is called with the table and
    the address of the list. *)
Theorem getenv_calls_argument L (t : positive) (v : lvalue) (extra : list lvalue)
    (Henv : 0 <= uv_os_environ.1) (HL : values L = LTable t :: v :: extra) :
  system_getenv L = Ok (PCall v
    [LTable t; LLightUserdata (Some envlist); LInteger (Z.of_nat (length uv_os_environ.2))]).
Proof.
  unfold system_getenv. destruct uv_os_environ as [err envs] eqn:E. cbn [fst snd] in *.
  rewrite (proj2 (Z.ltb_ge _ _) Henv).
  set (L1 := lua_push L (LFunction environ2table_fn)).
  assert (values L1 = values L ++ [LFunction environ2table_fn]) as H1 by apply values_push.
  assert (1 <? lua_gettop L1 = true)%nat as ->.
  { unfold lua_gettop. rewrite H1, HL. done. }
  set (L2 := lua_insert _ 1).
  assert (values L2 = [v; LTable t]) as H2.
  { apply (values_insert _ [] [LTable t]). rewrite values_settop, H1, HL. by destruct extra. }
  set (L3 := lua_push (lua_push L2 _) _).
  assert (returned 4 L3 = [v; LTable t; LLightUserdata (Some envlist); LInteger (Z.of_nat (length envs))]) as H3.
  { apply (returned_app _ []); [| done]. unfold L3. by rewrite !values_push, H2. }
  assert (arg L 1 = LTable t) as -> by (unfold arg; by rewrite HL).
  assert (exists n, lua_gettop L = S n) as [n ->] by (unfold lua_gettop; rewrite HL; by eexists).
  by rewrite H3.
Qed.

(** The value of a variable is returned whole, whatever its length, and false
    with the error when it does not exist. *)
Theorem getenv_any_length L (name : string) (Hneg : UV_ENOBUFS < 0)
    (HL : arg L 1 = LString name) :
  (forall s, StrOut.writes UV_ENOBUFS (uv_os_getenv (c_string name)) s ->
     system_getenv L = Ok (Has s)) /\
  (forall e, e < 0 -> e <> UV_ENOBUFS -> StrOut.fails (uv_os_getenv (c_string name)) e ->
     system_getenv L = Ok (Failed [LBoolean false; LString (strerror e); LInteger (- e)])).
Proof.
  assert (exists n, lua_gettop L = S n) as [n Htop].
  { unfold arg, lua_gettop in *. destruct (values L); [done | by eexists]. }
  assert (system_getenv L = Ok (getenv_value (c_string name) L)) as ->.
  { unfold system_getenv. rewrite Htop, HL. unfold checkstring. by rewrite HL, tolstring_string. }
  unfold getenv_value. split.
  - intros s Hw. by rewrite (StrOut.pushstrout_whole UV_ENOBUFS 256 _ s Hneg Hw).
  - intros e He Hne Hf. rewrite (StrOut.pushstrout_raises UV_ENOBUFS 256 _ e Hneg He Hne Hf).
    do 2 f_equal. apply (returned_app _ (values L)); [apply values_errres | done].
Qed.
End access.

(** *** Examples *)
Section examples.
Let environ : Z * list (string * string) := (0, [("HOME", "/home/ann"); ("LANG", "C"); ("HOME", "/")]%string).
Let getter (name : string) : StrOut.getter_t := fun n cap =>
  if 4 <? cap then (0, 4, "/bin"%string) else (-105, 5, ""%string).

Lemma getenv_table_witness :
  exists f args ts', system_getenv (St := list lvalue) (-105) (fun _ => ""%string) environ getter 1 2 3 [] = Ok (PCall f args) /\
    pcall environ 1 3 f args ∅ = Some (LTable 2, ts') /\
    exists fields, ts' !! 2%positive = Some fields /\
      fields !! "HOME"%string = Some "/home/ann"%string /\ fields !! "PATH"%string = None.
Proof.
  destruct (getenv_table (LuaStack0 := list_stack) (-105) (fun _ => ""%string) environ getter 1 2 3 []
    ∅ 2 ltac:(cbn; lia) (or_introl (conj eq_refl eq_refl))) as (f & args & ts' & Hg & Hp & _ & fields & Hf & Hn).
  exists f, args, ts'. split; [exact Hg |]. split; [exact Hp |]. exists fields. split; [exact Hf |].
  split; [exact (Hn "HOME"%string) | exact (Hn "PATH"%string)].
Defined.

Lemma getenv_calls_argument_witness :
  system_getenv (St := list lvalue) (-105) (fun _ => ""%string) environ getter 1 2 3 [LTable 5; LFunction 7]
  = Ok (PCall (LFunction 7) [LTable 5; LLightUserdata (Some 3%positive); LInteger 3]).
Proof.
  exact (getenv_calls_argument (LuaStack0 := list_stack) (-105) (fun _ => ""%string) environ getter 1 2 3
    [LTable 5; LFunction 7] 5 (LFunction 7) [] ltac:(cbn; lia) eq_refl).
Defined.

Lemma getenv_any_length_witness :
  system_getenv (St := list lvalue) (-105) (fun _ => ""%string) environ getter 1 2 3 [LString "PATH"]
  = Ok (Has "/bin").
Proof.
  apply (proj1 (getenv_any_length (LuaStack0 := list_stack) (-105) (fun _ => ""%string) environ getter 1 2 3
    [LString "PATH"] "PATH" ltac:(lia) eq_refl)).
  intros n cap. reflexivity.
Defined.
End examples.
