(* ===== verification/Signals.v ===== *)
(** * Signals and priorities (src/src/lprocesf.c)

    The table of the names of signals, how a signal is emitted and awaited, and
    the names of the priorities of a process. *)
From S2P Require Import Prelude Outcome LuaApi Environ.

(** ** Signals and priorities *)
Module Signals.

Inductive signame :=
  | SIGSTOP | SIGINT | SIGTERM | SIGTSTP | SIGCONT | SIGHUP | SIGTTIN | SIGTTOU | SIGWINCH
  | SIGQUIT | SIGCHLD | SIGABRT | SIGPIPE | SIGURG | SIGUSR1 | SIGUSR2 | SIGTRAP | SIGXFSZ
  | SIGALRM | SIGXCPU | SIGPROF | SIGVTALRM | SIGPOLL | SIGSYS | SIGBREAK.

(** The rows that depend on the platform, in the order of the source. *)
Definition rows : list (string * signame) :=
  [("STOP", SIGSTOP); ("interrupt", SIGINT); ("terminate", SIGTERM); ("stop", SIGTSTP);
   ("continue", SIGCONT); ("hangup", SIGHUP); ("stdinoff", SIGTTIN); ("stdoutoff", SIGTTOU);
   ("winresize", SIGWINCH); ("quit", SIGQUIT); ("child", SIGCHLD); ("abort", SIGABRT);
   ("brokenpipe", SIGPIPE); ("urgentsock", SIGURG); ("userdef1", SIGUSR1); ("userdef2", SIGUSR2);
   ("trap", SIGTRAP); ("filelimit", SIGXFSZ); ("clocktime", SIGALRM); ("cpulimit", SIGXCPU);
   ("cputotal", SIGPROF); ("cputime", SIGVTALRM); ("polling", SIGPOLL); ("sysargerr", SIGSYS);
   ("break", SIGBREAK)]%string.

Section signals.
Context (number_text : Z -> string) (typename : lvalue -> string).
(** The numbers that the headers of the platform define. *)
Context (SIGKILL : Z) (defined : signame -> option Z).

Definition CATCHABLE_INDEX : nat := if defined SIGSTOP is Some _ then 2 else 1.

Definition signals : list (string * Z) :=
  ("TERMINATE"%string, SIGKILL) :: omap (fun r => pair r.1 <$> defined r.2) rows.

(** The first row with the number. *)
Fixpoint find_value (rows : list (string * Z)) (signum : Z) : option string :=
  match rows with
  | [] => None
  | (name, value) :: rows => if decide (value = signum) then Some name else find_value rows signum
  end.
Definition pushsignal (signum : Z) : list lvalue :=
  [LString (default "signal" (find_value signals signum))%string; LInteger signum].

(** The first row with the name. *)
Fixpoint find_name (rows : list (string * Z)) (name : string) : option Z :=
  match rows with
  | [] => None
  | (n, value) :: rows => if String.eqb n name then Some value else find_name rows name
  end.
Definition checksignal (arg : Z) (v : lvalue) (catch : bool) : result Z :=
  name <- luaL_checkstring number_text typename arg v;;
  match find_name (drop (if catch then CATCHABLE_INDEX else 0) signals) name with
  | Some value => Ok value
  | None => ArgError arg ("invalid signal '" +:+ name +:+ "'")
  end.

(** [uv_pid_t] is an [int]. *)
Definition checkpid (pid : Z) : Z := int pid.

(** [uv_kill] gets the number as an [int]. *)
Definition system_emitsig (uv_kill : Z -> Z -> Z) (pid : Z) (v : lvalue) : result unit :=
  signal <- (if v is LInteger i then Ok i else checksignal 2 v false);;
  let err := uv_kill (checkpid pid) (int signal) in
  if err <? 0 then UvError err else Ok tt.

(** The results of [system.awaitsig]: [arg] is the first argument of the call and
    [last] the value on the top of the stack. *)
Definition lua_tonumber (v : lvalue) : option Z := match v with LInteger i => Some i | _ => None end.
Definition returnsignal (arg last : lvalue) : result (list lvalue) :=
  signum <- checksignal 1 arg true;;
  if decide (lua_tonumber last = Some signum) then Ok [arg]
  else Ok [LBoolean false; LString "unexpected signal"].

(** The handle that waits for a signal: its number is zero while it is stopped. *)
Section await.
Context (uv_signal_init : Z) (uv_signal_start : Z -> Z) (uv_signal_stop : Z).

(** [handle] is the number in a handle that is kept, [None] for a handle to be
    initialised ([loop] is not null).  The result is the number in the handle
    that waits. *)
Definition k_setupsignal (arg : lvalue) (handle : option Z) : result Z :=
  signum <- checksignal 1 arg true;;
  match handle with
  | Some n =>
      if decide (n <> signum) then
        if uv_signal_stop <? 0 then UvError uv_signal_stop
        else if uv_signal_start signum <? 0 then UvError (uv_signal_start signum) else Ok signum
      else Ok n
  | None =>
      if uv_signal_init <? 0 then UvError uv_signal_init
      else if uv_signal_start signum <? 0 then UvError (uv_signal_start signum) else Ok signum
  end.

(** [uv_onsignal] pushes the number of the signal, which is the one of the
    handle, and resumes the coroutine. *)
Definition uv_onsignal (signum : Z) : lvalue := LInteger signum.
End await.
End signals.

(** *** Priorities *)
Inductive priority := HIGHEST | HIGH | ABOVE_NORMAL | NORMAL | BELOW_NORMAL | LOW.
#[export] Instance priority_eq_dec : EqDecision priority.
Proof. solve_decision. Defined.

Definition options : list string := ["highest"; "high"; "above"; "normal"; "below"; "low"]%string.

Section priority.
Context (number_text : Z -> string) (typename : lvalue -> string).
Context (UV_PRIORITY : priority -> Z).
(** The priorities of the processes. *)
Context {os : Type} (uv_os_getpriority : Z -> os -> Z * Z) (uv_os_setpriority : Z -> Z -> os -> Z * os).

Definition priority_name (value : Z) : string :=
  if decide (value = UV_PRIORITY HIGHEST) then "highest"
  else if decide (value = UV_PRIORITY HIGH) then "high"
  else if decide (value = UV_PRIORITY ABOVE_NORMAL) then "above"
  else if decide (value = UV_PRIORITY NORMAL) then "normal"
  else if decide (value = UV_PRIORITY BELOW_NORMAL) then "below"
  else if decide (value = UV_PRIORITY LOW) then "low"
  else "other".

Definition system_getpriority (pid : Z) (s : os) : result (list lvalue) :=
  let '(err, value) := uv_os_getpriority (checkpid pid) s in
  if err <? 0 then UvError err else Ok [LString (priority_name value); LInteger value].

Definition option_priority (option : nat) : priority :=
  match option with
  | 0 => HIGHEST | 1 => HIGH | 2 => ABOVE_NORMAL | 3 => NORMAL | 4 => BELOW_NORMAL | _ => LOW
  end%nat.

Definition checkpriority (v : lvalue) : result Z :=
  match v with
  | LInteger value =>
      _ <- luaL_argcheck ((-20 <=? value) && (value <? 20)) 2 "out of range";; Ok (int value)
  | _ =>
      name <- luaL_checkstring number_text typename 2 v;;
      option <- luaL_checkoption 2 options name;;
      Ok (UV_PRIORITY (option_priority option))
  end.
Definition system_setpriority (pid : Z) (v : lvalue) (s : os) : result (list lvalue * os) :=
  value <- checkpriority v;;
  let '(err, s) := uv_os_setpriority (checkpid pid) value s in
  if err <? 0 then UvError err else Ok ([LBoolean true], s).
End priority.
(** *** Properties *)

Lemma find_name_in rows name value :
  find_name rows name = Some value -> (name, value) ∈ rows.
Proof.
  induction rows as [| [n v] rows IH]; cbn [find_name]; [done |].
  destruct (String.eqb_spec n name) as [-> |].
  - intros [= ->]. apply list_elem_of_here.
  - intros H. by apply list_elem_of_further, IH.
Qed.

Lemma find_name_unique rows name value :
  NoDup rows.*1 -> (name, value) ∈ rows -> find_name rows name = Some value.
Proof.
  induction rows as [| [n v] rows IH]; cbn [find_name fmap list_fmap fst]; [by intros _ ?%elem_of_nil |].
  intros [Hn Hd]%NoDup_cons [[= -> ->] | Hin]%elem_of_cons; [by rewrite String.eqb_refl |].
  destruct (String.eqb_spec n name) as [-> |]; [| by apply IH].
  contradict Hn. apply list_elem_of_fmap. by exists (name, value).
Qed.

Lemma find_value_unique rows name value :
  NoDup rows.*2 -> (name, value) ∈ rows -> find_value rows value = Some name.
Proof.
  induction rows as [| [n v] rows IH]; cbn [find_value fmap list_fmap snd]; [by intros _ ?%elem_of_nil |].
  intros [Hn Hd]%NoDup_cons [[= -> ->] | Hin]%elem_of_cons; [by rewrite decide_True |].
  destruct (decide (v = value)) as [-> |]; [| by apply IH].
  contradict Hn. apply list_elem_of_fmap. by exists (name, value).
Qed.

Lemma find_value_None rows value : value ∉ rows.*2 -> find_value rows value = None.
Proof.
  induction rows as [| [n v] rows IH]; cbn [find_value fmap list_fmap snd]; [done |].
  intros [? ?]%not_elem_of_cons. rewrite decide_False by congruence. by apply IH.
Qed.

(** The names of a selection of the rows are some of the names. *)
Lemma omap_names defined (l : list (string * signame)) :
  (omap (fun r => pair r.1 <$> defined r.2) l : list (string * Z)).*1 `sublist_of` l.*1.
Proof.
  induction l as [| [n s] l IH]; [constructor |]. cbn.
  destruct (defined s : option Z); cbn; by constructor.
Qed.

Lemma names_distinct : NoDup ("TERMINATE"%string :: rows.*1).
Proof. apply (bool_decide_unpack _). vm_cast_no_check I. Qed.

Lemma signals_names SIGKILL defined : NoDup (signals SIGKILL defined).*1.
Proof.
  refine (sublist_NoDup _ _ names_distinct _).
  unfold signals. rewrite fmap_cons. apply sublist_skip, omap_names.
Qed.

(** The names before [CATCHABLE_INDEX] are the ones of signals that cannot be
    caught. *)
Lemma catchable_names SIGKILL defined :
  exists first,
    signals SIGKILL defined
    = (first ++ drop (CATCHABLE_INDEX defined) (signals SIGKILL defined))%list /\
    forall name, name ∈ first.*1 <->
      name = "TERMINATE"%string \/ name = "STOP"%string /\ is_Some (defined SIGSTOP).
Proof.
  assert (forall l, omap (fun r => pair r.1 <$> defined r.2) (("STOP"%string, SIGSTOP) :: l)
    = ((if defined SIGSTOP is Some v then [("STOP"%string, v)] else [])
       ++ omap (fun r => pair r.1 <$> defined r.2) l)%list) as Homap.
  { intros l. cbn. by destruct (defined SIGSTOP). }
  unfold signals, CATCHABLE_INDEX. change rows with (("STOP"%string, SIGSTOP) :: tail rows).
  rewrite Homap.
  generalize (omap (fun r : string * signame => pair r.1 <$> defined r.2) (tail rows)) as rest.
  clear Homap. intros rest. destruct (defined SIGSTOP) as [v |].
  - exists [("TERMINATE"%string, SIGKILL); ("STOP"%string, v)]. split; [reflexivity |]. intros name. cbn [fmap list_fmap fst].
    rewrite !elem_of_cons, elem_of_nil. split; [intros [| [|]]; [by left | by right | done] |].
    intros [| []]; tauto.
  - exists [("TERMINATE"%string, SIGKILL)]. split; [reflexivity |]. intros name. cbn [fmap list_fmap fst].
    rewrite elem_of_cons, elem_of_nil. split; [intros [|]; [by left | done] |].
    intros [| [_ [? [=]]]]. by left.
Qed.

(** The rows of STOP are the ones of the platform. *)
Lemma stop_defined SIGKILL defined v :
  ("STOP"%string, v) ∈ signals SIGKILL defined -> is_Some (defined SIGSTOP).
Proof.
  unfold signals. rewrite elem_of_cons. intros [[=] | Hin].
  apply list_elem_of_omap in Hin as ([n s] & Hr & Hs). cbn in Hs.
  destruct (defined s) eqn:Hd; [| done]. injection Hs as -> ->.
  unfold rows in Hr. rewrite !elem_of_cons, elem_of_nil in Hr.
  repeat destruct Hr as [Hr | Hr]; try discriminate Hr; [| done].
  injection Hr as ->. by exists v.
Qed.

(** The numbers of the platform being distinct, a name and its number
    determine each other: the name is accepted when a signal is emitted, and the
    number is reported by that name.  Exactly the two signals that cannot be
    caught are refused where a signal is awaited, and numbers that have no row
    are reported as "signal". *)
Theorem signals_roundtrip nt tn SIGKILL defined arg :
  NoDup (signals SIGKILL defined).*2 ->
  (forall name value, c_string name = name ->
    (checksignal nt tn SIGKILL defined arg (LString name) false = Ok value
     <-> (name, value) ∈ signals SIGKILL defined) /\
    (checksignal nt tn SIGKILL defined arg (LString name) true = Ok value
     <-> (name, value) ∈ signals SIGKILL defined /\
         name <> "TERMINATE"%string /\ name <> "STOP"%string) /\
    ((name, value) ∈ signals SIGKILL defined ->
     pushsignal SIGKILL defined value = [LString name; LInteger value])) /\
  (forall value, value ∉ (signals SIGKILL defined).*2 ->
    pushsignal SIGKILL defined value = [LString "signal"; LInteger value]).
Proof.
  intros Hv. pose proof (signals_names SIGKILL defined) as Hn.
  split; [intros name value Hc; split; [| split] |].
  - unfold checksignal, luaL_checkstring. cbn [Env.tostring]. rewrite Hc. cbn [rbind drop].
    split.
    + destruct (find_name _ name) eqn:Hf; [| done]. intros [= ->]. by apply find_name_in.
    + intros Hin. by rewrite drop_0, (find_name_unique _ _ _ Hn Hin).
  - destruct (catchable_names SIGKILL defined) as (first & Hsplit & Hfirst).
    unfold checksignal, luaL_checkstring. cbn [Env.tostring]. rewrite Hc. cbn [rbind].
    set (rest := drop (CATCHABLE_INDEX defined) (signals SIGKILL defined)) in *.
    rewrite Hsplit in Hn |- *. rewrite fmap_app in Hn. apply NoDup_app in Hn as (Hn1 & Hdisj & Hn2).
    split.
    + destruct (find_name rest name) eqn:Hf; [| done]. intros [= ->].
      apply find_name_in in Hf.
      assert (name ∈ rest.*1) as Hin by (apply list_elem_of_fmap; by exists (name, value)).
      assert ((name, value) ∈ signals SIGKILL defined) as Hs
        by (rewrite Hsplit; apply elem_of_app; by right).
      rewrite <- Hsplit. split; [done |].
      split; intros ->; revert Hin; apply Hdisj, Hfirst; [by left | right; eauto using stop_defined].
    + rewrite <- Hsplit. intros (Hs & Ht & Hst). rewrite Hsplit in Hs.
      apply elem_of_app in Hs as [Hs | Hs]; [| by rewrite (find_name_unique _ _ _ Hn2 Hs)].
      assert (name ∈ first.*1) as [|[]]%Hfirst by (apply list_elem_of_fmap; by exists (name, value)); done.
  - intros Hin. unfold pushsignal. by rewrite (find_value_unique _ _ _ Hv Hin).
  - intros value Hin. unfold pushsignal. by rewrite find_value_None.
Qed.

Definition linux (s : signame) : option Z :=
  match s with
  | SIGSTOP => Some 19 | SIGINT => Some 2 | SIGTERM => Some 15 | SIGTSTP => Some 20
  | SIGCONT => Some 18 | SIGHUP => Some 1 | SIGTTIN => Some 21 | SIGTTOU => Some 22
  | SIGWINCH => Some 28 | SIGQUIT => Some 3 | SIGCHLD => Some 17 | SIGABRT => Some 6
  | SIGPIPE => Some 13 | SIGURG => Some 23 | SIGUSR1 => Some 10 | SIGUSR2 => Some 12
  | SIGTRAP => Some 5 | SIGXFSZ => Some 25 | SIGALRM => Some 14 | SIGXCPU => Some 24
  | SIGPROF => Some 27 | SIGVTALRM => Some 26 | SIGPOLL => Some 29 | SIGSYS => Some 31
  | SIGBREAK => None
  end.

Lemma signals_roundtrip_witness :
  pushsignal 9 linux 15 = [LString "terminate"; LInteger 15] /\
  pushsignal 9 linux 64 = [LString "signal"; LInteger 64] /\
  ~ checksignal (fun _ => ""%string) (fun _ => "nil"%string) 9 linux 1 (LString "STOP") true = Ok 19.
Proof.
  destruct (signals_roundtrip (fun _ => ""%string) (fun _ => "nil"%string) 9 linux 1) as [H H0].
  { apply (bool_decide_unpack _). vm_compute. exact I. }
  split; [| split].
  - apply (proj2 (proj2 (H "terminate"%string 15 eq_refl))).
    apply (bool_decide_unpack _). vm_compute. exact I.
  - apply H0. apply (bool_decide_unpack _). vm_compute. exact I.
  - intros Hs. apply (proj1 (proj2 (H "STOP"%string 19 eq_refl))) in Hs. by destruct Hs as (_ & _ & []).
Defined.

(** The handle waits for the signal that was asked for, also when it was kept
    from another wait, so that the coroutine gets the argument back. *)
Lemma signal_awaited nt tn SIGKILL defined init start stop arg handle n :
  k_setupsignal nt tn SIGKILL defined init start stop arg handle = Ok n ->
  returnsignal nt tn SIGKILL defined arg (uv_onsignal n) = Ok [arg].
Proof.
  unfold k_setupsignal, returnsignal, uv_onsignal. intros H.
  apply rbind_ok in H as (signum & -> & H). cbn [rbind lua_tonumber].
  assert (n = signum) as -> by (destruct handle; repeat case_match; simplify_eq/=; first [done | by apply dec_stable]).
  by rewrite decide_True.
Qed.

Lemma priority_name_option nt tn UV_PRIORITY p :
  (forall p q, UV_PRIORITY p = UV_PRIORITY q -> p = q) ->
  checkpriority nt tn UV_PRIORITY (LString (priority_name UV_PRIORITY (UV_PRIORITY p)))
  = Ok (UV_PRIORITY p).
Proof.
  intros Hinj. unfold priority_name.
  repeat match goal with
  | |- context [decide (UV_PRIORITY p = UV_PRIORITY ?q)] =>
      destruct (decide (UV_PRIORITY p = UV_PRIORITY q)) as [->%Hinj | ?]; [reflexivity |]
  end.
  by destruct p.
Qed.

Lemma priority_name_cases UV_PRIORITY v :
  (exists p, v = UV_PRIORITY p) \/ priority_name UV_PRIORITY v = "other"%string.
Proof. unfold priority_name. repeat (case_decide; [eauto |]). by right. Qed.

Lemma checkpriority_string nt tn UV_PRIORITY n v :
  (forall p q, UV_PRIORITY p = UV_PRIORITY q -> p = q) ->
  c_string n = n -> checkpriority nt tn UV_PRIORITY (LString n) = Ok v ->
  (exists p, v = UV_PRIORITY p) /\ priority_name UV_PRIORITY v = n.
Proof.
  intros Hinj Hc. unfold checkpriority, luaL_checkstring. cbn [Env.tostring rbind]. rewrite Hc.
  cbn [rbind]. intros H. apply rbind_ok in H as (i & Hi%luaL_checkoption_cases & [= <-]).
  split; [eauto |]. unfold priority_name.
  destruct i as [| [| [| [| [| [| i]]]]]]; cbn in Hi; [injection Hi as <-; cbn .. | done];
    repeat (rewrite decide_False by (intros Hq%Hinj; done));
    by rewrite decide_True.
Qed.

(** Where the system gives back the priority that was set: the name or the
    number that was set is found again, and the name that is reported for it sets
    the same priority, but for "other", which is not accepted. *)
Theorem priority_roundtrip nt tn UV_PRIORITY {os : Type} uv_os_getpriority uv_os_setpriority
    pid arg (s s' : os) r :
  (forall p q, UV_PRIORITY p = UV_PRIORITY q -> p = q) ->
  (forall p, -20 <= UV_PRIORITY p < 20) ->
  (forall pid v s err s', uv_os_setpriority pid v s = (err, s') -> 0 <= err ->
     -20 <= v < 20 -> uv_os_getpriority pid s' = (0, v)) ->
  system_setpriority nt tn UV_PRIORITY uv_os_setpriority pid arg s = Ok (r, s') ->
  exists name v,
    system_getpriority UV_PRIORITY uv_os_getpriority pid s' = Ok [LString name; LInteger v] /\
    -20 <= v < 20 /\
    (forall i, arg = LInteger i -> v = i) /\
    (forall n, arg = LString n -> c_string n = n -> name = n) /\
    checkpriority nt tn UV_PRIORITY (LString name)
    = if decide (name = "other"%string) then ArgError 2 "invalid option 'other'" else Ok v.
Proof.
  intros Hinj Hrange Hos H. unfold system_setpriority in H.
  apply rbind_ok in H as (v & Hv & H).
  destruct (uv_os_setpriority (checkpid pid) v s) as [err s1] eqn:Hset.
  destruct (Z.ltb_spec err 0) as [| Herr]; [done |]. injection H as <- <-.
  assert (-20 <= v < 20 /\ forall i, arg = LInteger i -> v = i) as [Hr Hi].
  { unfold checkpriority in Hv. destruct arg; apply rbind_ok in Hv as (x & Hx & Hv);
      try (apply rbind_ok in Hv as (o & _ & [= <-]); by split).
    apply luaL_argcheck_ok in Hx. injection Hv as <-.
    apply andb_true_iff in Hx as [Hx1%Z.leb_le Hx2%Z.ltb_lt].
    rewrite wraps_id by lia. split; [done | by intros ? [= ->]]. }
  exists (priority_name UV_PRIORITY v), v. split; [| split; [done | split; [done | split]]].
  - unfold system_getpriority. by rewrite (Hos _ _ _ _ _ Hset Herr Hr).
  - intros n -> Hn. by apply (checkpriority_string nt tn UV_PRIORITY).
  - case_decide as Ho; [by rewrite Ho |].
    destruct (priority_name_cases UV_PRIORITY v) as [[p ->] | ?]; [| done].
    by apply priority_name_option.
Qed.

Definition libuv_priority (p : priority) : Z :=
  match p with
  | HIGHEST => -20 | HIGH => -14 | ABOVE_NORMAL => -7 | NORMAL => 0 | BELOW_NORMAL => 10 | LOW => 19
  end.

Lemma priority_roundtrip_witness :
  exists name v,
    system_getpriority libuv_priority (fun _ s => (0, s)) 12 (-7) = Ok [LString name; LInteger v] /\
    -20 <= v < 20 /\
    (forall i, LString "above" = LInteger i -> v = i) /\
    (forall n, LString "above" = LString n -> c_string n = n -> name = n) /\
    checkpriority (fun _ => ""%string) (fun _ => "nil"%string) libuv_priority (LString name)
    = if decide (name = "other"%string) then ArgError 2 "invalid option 'other'" else Ok v.
Proof.
  apply (priority_roundtrip (fun _ => ""%string) (fun _ => "nil"%string) libuv_priority
           (fun _ s => (0, s)) (fun _ v _ => (0, v)) 12 (LString "above") 0 (-7) [LBoolean true]).
  - intros [] []; by intros [=].
  - intros []; vm_compute; split; congruence.
  - by intros ????? [= <- <-].
  - reflexivity.
Defined.

End Signals.
