(* ===== verification/Process.v ===== *)
(** * The execution of programs (src/src/lprocesf.c)

    How the command of [system.execute] becomes the options of [uv_spawn]: the
    fields of the command, its streams, and the array of its arguments. *)
From S2P Require Import Prelude Outcome LuaApi Environ.

(** ** The program to execute *)
Module Exec.

(** lcuconf.h *)
Definition LCU_EXECARGCOUNT : Z := 255.

(** The places of the array of arguments. *)
Inductive slot := Unset | Null | Arg (s : string).

Definition write (args : list slot) (i : Z) (x : slot) : result (list slot) :=
  if (0 <=? i) && (i <? Z.of_nat (length args)) then Ok (<[Z.to_nat i := x]> args) else Overrun.

(** The arguments that the new program gets. *)
Fixpoint argv (args : list slot) : result (list string) :=
  match args with
  | Arg s :: args => r <- argv args;; Ok (s :: r)
  | Null :: _ => Ok []
  | _ => Overrun
  end.

(** What [getstreamfield] stores in a container; a pipe with its modes. *)
Record pipe := Pipe { readable : bool; writable : bool; socktranf : bool }.
Inductive stdio :=
  | INHERIT_FD (fd : Z)
  | CREATE_PIPE (p : pipe)
  | INHERIT_STREAM (v : lvalue)
  | IGNORE.

Inductive environment := Inherited | NewEnv (e : Env.procenv) | PackedEnv (v : lvalue).

Record process_options := ProcOpts {
  file : string; cwd : option string; streams : list stdio; args : list slot; env : environment }.

(** The metatables that are known. *)
Inductive meta := FILEHANDLE | TCPACTIVE | PIPEACTIVE | OTHERMETA.

Section exec.
Context (number_text : Z -> string) (typename : lvalue -> string).
(** The fields of the command, of other tables their length as an integer, their
    elements and their pairs; the metatable of a value and the descriptor of a
    file; whether a value is a packed environment. *)
Context (field : string -> lvalue).
Context (len : positive -> Z) (index : positive -> Z -> lvalue) (pairs : positive -> Env.table).
Context (getmetatable : lvalue -> option meta) (fileno : lvalue -> Z) (is_procenv : lvalue -> bool).
Context (uv_pipe_init : bool -> Z) (uv_strerror : Z -> string).

Definition getstrfield (name : string) (required : bool) : result (option string) :=
  let v := field name in
  if required || bool_decide (v <> LNil) then
    match Env.tostring number_text v with
    | Some s => Ok (Some s)
    | None => LuaError ("bad field " +:+ name +:+ " (must be a string)")
    end
  else Ok None.

Definition stream_char (name : string) (p : pipe) (c : ascii) : result pipe :=
  if decide (c = "w"%char) then Ok (Pipe true (writable p) (socktranf p))
  else if decide (c = "r"%char) then Ok (Pipe (readable p) true (socktranf p))
  else if decide (c = "s"%char) then Ok (Pipe (readable p) (writable p) true)
  else LuaError ("unknown '" +:+ name +:+ "' mode char (got '" +:+ String c "')").

Definition getstreamfield (name : string) (deffd : Z) : result stdio :=
  match field name with
  | LNil => Ok (INHERIT_FD deffd)
  | LString mode =>
      p <- mode_loop (stream_char name) (Pipe false false false) (c_string mode);;
      let err := uv_pipe_init (socktranf p) in
      if err =? 0 then Ok (CREATE_PIPE p) else LuaError (uv_strerror err)
  | LBoolean b => if b then LuaError ("bad field " +:+ name +:+ " (got true)") else Ok IGNORE
  | v =>
      match getmetatable v with
      | Some FILEHANDLE => Ok (INHERIT_FD (fileno v))
      | Some (TCPACTIVE | PIPEACTIVE) => Ok (INHERIT_STREAM v)
      | Some OTHERMETA => LuaError ("bad field " +:+ name +:+ " (invalid stream)")
      | None => Ok IGNORE
      end
  end.

(** The array of the caller, [args], has a place more than [LCU_EXECARGCOUNT]; a
    longer one is allocated. *)
Definition newargs (argc : Z) : result (list slot) :=
  if argc >? LCU_EXECARGCOUNT then
    if argc =? 2 ^ 31 - 1 then Overrun else Ok (replicate (Z.to_nat (argc + 1)) Unset)
  else Ok (replicate (Z.to_nat (LCU_EXECARGCOUNT + 1)) Unset).

(** The arguments of the call. *)
Fixpoint stack_args (values : list lvalue) (i : Z) (args : list slot) : result (list slot) :=
  match values with
  | [] => Ok args
  | v :: values =>
      s <- luaL_checkstring number_text typename (i + 1) v;;
      args <- write args i (Arg s);;
      stack_args values (i + 1) args
  end.

(** The elements of the field, [count] of them from [i]. *)
Fixpoint table_args (p : positive) (count : nat) (i : Z) (args : list slot) : result (list slot) :=
  match count with
  | O => Ok args
  | S count =>
      match Env.tostring number_text (index p i) with
      | None =>
          LuaError ("bad value #" +:+ fmt_int i +:+ " in field 'arguments' (must be a string)")
      | Some s => args <- write args i (Arg s);; table_args p count (i + 1) args
      end
  end.

Definition getprocargs (arguments : lvalue) : result (Z * list slot) :=
  match arguments with
  | LTable p =>
      let argc := int (1 + len p) in
      args <- newargs argc;;
      args <- table_args p (Z.to_nat (argc - 1)) 1 args;;
      Ok (argc, args)
  | LNil => args <- newargs 0;; Ok (0, args)
  | _ => ArgError 1 "field 'arguments' must be a table"
  end.

Definition getprocenv (v : lvalue) : result environment :=
  match v with
  | LNil => Ok Inherited
  | LTable p => e <- Env.newprocenv number_text (pairs p);; Ok (NewEnv e.1)
  | v => if is_procenv v then Ok (PackedEnv v) else ArgError 3 "packed environment expected"
  end.

(** [values]: the arguments of the call. *)
Definition getprocopts (values : list lvalue) : result process_options :=
  match values with
  | (LString _ | LInteger _ | LNumber _) :: _ =>
      let argc := Z.of_nat (length values) in
      args <- newargs argc;;
      args <- stack_args values 0 args;;
      args <- write args argc Null;;
      match args with
      | Arg s :: _ => Ok (ProcOpts s None [INHERIT_FD 0; INHERIT_FD 1; INHERIT_FD 2] args Inherited)
      | _ => Overrun
      end
  | LTable _ :: _ =>
      file <- getstrfield "execfile" true;;
      cwd <- getstrfield "runpath" false;;
      in_ <- getstreamfield "stdin" 0;;
      out <- getstreamfield "stdout" 1;;
      err <- getstreamfield "stderr" 2;;
      let arguments := field "arguments" in
      let environment := field "environment" in
      a <- getprocargs arguments;;
      env <- getprocenv environment;;
      let file := default EmptyString file in
      args <- write a.2 0 (Arg file);;
      args <- write args a.1 Null;;
      Ok (ProcOpts file cwd [in_; out; err] args env)
  | _ => ArgError 1 "table or string expected"
  end.
End exec.
(** *** Properties *)

Lemma write_mid pre x post y i :
  i = Z.of_nat (length pre) -> write (pre ++ x :: post) i y = Ok (pre ++ y :: post).
Proof.
  intros ->. unfold write. rewrite length_app. cbn [length].
  rewrite (proj2 (Z.leb_le _ _)) by lia. rewrite (proj2 (Z.ltb_lt _ _)) by lia. cbn [andb].
  by rewrite Nat2Z.id, insert_app_here.
Qed.

Lemma write_first x post y : write (x :: post) 0 y = Ok (y :: post).
Proof. by apply (write_mid [] x post y 0). Qed.

Lemma argv_texts texts rest : argv (map Arg texts ++ Null :: rest) = Ok texts.
Proof. induction texts as [| s texts IH]; [done |]. cbn [map app argv]. by rewrite IH. Qed.

Lemma stack_args_texts nt tn values texts pre m i :
  Forall2 (fun v s => Env.tostring nt v = Some s) values texts ->
  i = Z.of_nat (length pre) -> (length values <= m)%nat ->
  stack_args nt tn values i (pre ++ replicate m Unset)
  = Ok (pre ++ map Arg texts ++ replicate (m - length values) Unset).
Proof.
  intros Ht. revert pre m i.
  induction Ht as [| v s values texts Hv Ht IH]; intros pre m i Hi Hm; cbn [length] in *.
  - cbn. by rewrite Nat.sub_0_r.
  - destruct m as [| m]; [lia |]. cbn [stack_args replicate map app]. unfold luaL_checkstring.
    rewrite Hv. cbn [rbind]. rewrite write_mid by done. cbn [rbind].
    rewrite cons_middle, app_assoc, IH by (rewrite ?length_app; cbn [length]; lia).
    rewrite <- app_assoc. done.
Qed.

Lemma table_args_texts nt index p texts pre m i :
  (forall k s, texts !! k = Some s -> Env.tostring nt (index p (i + Z.of_nat k)) = Some s) ->
  i = Z.of_nat (length pre) -> (length texts <= m)%nat ->
  table_args nt index p (length texts) i (pre ++ replicate m Unset)
  = Ok (pre ++ map Arg texts ++ replicate (m - length texts) Unset).
Proof.
  revert pre m i. induction texts as [| s texts IH]; intros pre m i Ht Hi Hm; cbn [length] in *.
  - cbn. by rewrite Nat.sub_0_r.
  - destruct m as [| m]; [lia |]. cbn [table_args replicate map app].
    pose proof (Ht 0%nat s eq_refl) as H0. rewrite Z.add_0_r in H0. rewrite H0.
    rewrite write_mid by done. cbn [rbind].
    rewrite cons_middle, app_assoc, IH; try (rewrite ?length_app; cbn [length]; lia).
    + rewrite <- app_assoc. done.
    + intros k s' Hk. rewrite <- (Ht (S k) s' Hk). do 2 f_equal. lia.
Qed.

Lemma newargs_room n :
  0 <= n < 2 ^ 31 - 1 -> exists m, newargs n = Ok (replicate m Unset) /\ n < Z.of_nat m.
Proof.
  intros Hn. unfold newargs, LCU_EXECARGCOUNT. destruct (Z.gtb_spec n 255).
  - destruct (Z.eqb_spec n (2 ^ 31 - 1)); [lia |]. eexists. split; [done | lia].
  - eexists. split; [done | lia].
Qed.

Lemma getprocargs_table nt field len index texts p :
  field "arguments"%string = LTable p -> 0 <= len p < 2 ^ 31 - 2 -> Z.of_nat (length texts) = len p ->
  (forall k s, texts !! k = Some s -> Env.tostring nt (index p (1 + Z.of_nat k)) = Some s) ->
  exists rest,
    getprocargs nt len index (field "arguments"%string)
    = Ok (1 + len p, Unset :: map Arg texts ++ Unset :: rest).
Proof.
  intros -> Hn Hl Ht. cbn [getprocargs]. rewrite wraps_id by lia.
  destruct (newargs_room (1 + len p) ltac:(lia)) as (m & -> & Hm). cbn [rbind].
  destruct m as [| m]; [lia |]. replace (Z.to_nat (1 + len p - 1)) with (length texts) by lia.
  cbn [replicate]. change (Unset :: replicate m Unset) with ([Unset] ++ replicate m Unset).
  rewrite table_args_texts by (done || lia). cbn [rbind app].
  destruct (m - length texts)%nat as [| j] eqn:Hj; [lia |]. by exists (replicate j Unset).
Qed.

(** C20: the new program gets the arguments of the call, or the file that is
    executed before the elements of the field 'arguments', however many there
    are, in an array that is large enough and ends with a null pointer.  Without
    the field it gets no argument at all, not even the name of the file; a
    negative length of the field, which a metamethod can give, writes outside of
    the array. *)
Theorem procopts_argv nt tn field len index pairs meta fileno is_procenv pipe_init strerror :
  let run values :=
    o <- getprocopts nt tn field len index pairs meta fileno is_procenv pipe_init strerror values;;
    l <- argv (args o);; Ok (file o, l) in
  (forall values f texts,
     Forall2 (fun v s => Env.tostring nt v = Some s) values (f :: texts) ->
     Z.of_nat (length texts) < 2 ^ 31 - 2 ->
     run values = Ok (f, f :: texts)) /\
  (forall t f dir s0 s1 s2 e,
     Env.tostring nt (field "execfile"%string) = Some f ->
     getstrfield nt field "runpath" false = Ok dir ->
     getstreamfield field meta fileno pipe_init strerror "stdin" 0 = Ok s0 ->
     getstreamfield field meta fileno pipe_init strerror "stdout" 1 = Ok s1 ->
     getstreamfield field meta fileno pipe_init strerror "stderr" 2 = Ok s2 ->
     getprocenv nt pairs is_procenv (field "environment"%string) = Ok e ->
     (field "arguments"%string = LNil -> run [LTable t] = Ok (f, [])) /\
     (forall p, field "arguments"%string = LTable p ->
        (forall texts, Z.of_nat (length texts) = len p -> len p < 2 ^ 31 - 2 ->
           (forall k s, texts !! k = Some s -> Env.tostring nt (index p (1 + Z.of_nat k)) = Some s) ->
           run [LTable t] = Ok (f, f :: texts)) /\
        (- 2 ^ 31 <= len p < -1 -> run [LTable t] = Overrun))).
Proof.
  split.
  - intros values f texts Ht Hl. pose proof (Forall2_length _ _ _ Ht) as Hlen. cbn [length] in Hlen.
    destruct (newargs_room (Z.of_nat (length values)) ltac:(lia)) as (m & Hnew & Hm).
    pose proof (stack_args_texts nt tn values (f :: texts) [] m 0 Ht eq_refl ltac:(lia)) as Hstack.
    cbn [app] in Hstack.
    destruct (m - length values)%nat as [| j] eqn:Hj; [lia |].
    cbn [replicate] in Hstack.
    assert (exists v vs, values = v :: vs /\ Env.tostring nt v = Some f) as (v & vs & -> & Hv)
      by (inversion Ht; subst; eauto).
    cbn [length] in Hlen.
    destruct v; cbn in Hv; try done; cbn [getprocopts]; rewrite Hnew; cbn [rbind];
      rewrite Hstack; cbn [rbind]; rewrite write_mid by (rewrite length_map; cbn [length]; lia);
      cbn [rbind map app args file];
      change (Arg f :: (map Arg texts ++ ?r)%list) with (map Arg (f :: texts) ++ r)%list; by rewrite argv_texts.
  - intros t f dir s0 s1 s2 e Hf Hdir H0 H1 H2 He. cbn [getprocopts].
    assert (getstrfield nt field "execfile" true = Ok (Some f)) as Hfile
      by (unfold getstrfield; cbn [orb]; by rewrite Hf).
    rewrite Hfile, Hdir, H0, H1, H2, He. cbn [orb rbind].
    split; [| intros p Hp; split].
    + intros ->. cbn [getprocargs]. reflexivity.
    + intros texts Hl Hn Ht.
      destruct (getprocargs_table nt field len index texts p Hp ltac:(lia) Hl Ht) as (rest & ->).
      cbn [rbind fst snd default from_option]. unfold id.
      rewrite write_first. cbn [app rbind].
      rewrite app_comm_cons, write_mid by (cbn [length]; rewrite length_map; lia).
      cbn [rbind args file].
      change ((Arg f :: map Arg texts) ++ ?r)%list with (map Arg (f :: texts) ++ r)%list. by rewrite argv_texts.
    + intros Hn. rewrite Hp. cbn [getprocargs]. rewrite wraps_id by lia.
      unfold newargs, LCU_EXECARGCOUNT. destruct (Z.gtb_spec (1 + len p) 255); [lia |].
      cbn [rbind]. replace (Z.to_nat (1 + len p - 1)) with 0%nat by lia. cbn [table_args rbind fst snd].
      unfold write at 1. cbn [andb Z.leb]. rewrite length_replicate.
      change (0 <? Z.of_nat (Z.to_nat (255 + 1))) with true. cbn [andb rbind].
      unfold write. by rewrite (proj2 (Z.leb_gt 0 (1 + len p))) by lia.
Qed.

Lemma procopts_argv_witness :
  let run values :=
    o <- getprocopts (fun _ => ""%string) (fun _ => "nil"%string)
           (fun name => if decide (name = "execfile"%string) then LString "ls"
                        else if decide (name = "arguments"%string) then LTable 5 else LNil)
           (fun _ => 2) (fun _ i => LInteger i) (fun _ => []) (fun _ => None) (fun _ => 0)
           (fun _ => false) (fun _ => 0) (fun _ => ""%string) values;;
    l <- argv (args o);; Ok (file o, l) in
  run [LString "ls"; LString "-l"] = Ok ("ls", ["ls"; "-l"])%string /\
  run [LTable 1] = Ok ("ls", ["ls"; "1"; "2"])%string.
Proof.
  destruct (procopts_argv (fun _ => ""%string) (fun _ => "nil"%string)
    (fun name => if decide (name = "execfile"%string) then LString "ls"
                 else if decide (name = "arguments"%string) then LTable 5 else LNil)
    (fun _ => 2) (fun _ i => LInteger i) (fun _ => []) (fun _ => None) (fun _ => 0)
    (fun _ => false) (fun _ => 0) (fun _ => ""%string)) as [Hs Ht].
  split.
  - apply (Hs [LString "ls"; LString "-l"] "ls"%string ["-l"%string]); [repeat constructor | reflexivity].
  - apply (Ht 1%positive "ls"%string None (INHERIT_FD 0) (INHERIT_FD 1) (INHERIT_FD 2) Inherited
             eq_refl eq_refl eq_refl eq_refl eq_refl eq_refl) with (p := 5%positive).
    + reflexivity.
    + reflexivity.
    + reflexivity.
    + intros [| [| k]] s; [by intros [= <-] .. |]. done.
Defined.

End Exec.
