(* ===== verification/Execute.v ===== *)
(** * Running programs (src/src/lprocesf.c, lines 499 to 540)

    [system.execute] from the call by a script to the end of the program.  [Process]
    has the options that are given to [uv_spawn]; here is what is left in the stack of
    the coroutine, the setup of the operation and the function that libuv calls when
    the program ends. *)
From S2P Require Import Prelude Outcome LuaApi Results Environ Signals Process Operation Await.
Import Exec.

Section execute.
Context {St : Type} `{!LuaStack St}.
Context (strerror : Z -> string) (sched : positive) (yieldable : bool).
(** The parameters of [getprocopts] and [pushsignal]. *)
Context (number_text : Z -> string) (typename : lvalue -> string) (field : string -> lvalue).
Context (len : positive -> Z) (index : positive -> Z -> lvalue) (pairs : positive -> Env.table).
Context (getmetatable : lvalue -> option meta) (fileno : lvalue -> Z) (is_procenv : lvalue -> bool).
Context (uv_pipe_init : bool -> Z) (SIGKILL : Z) (defined : Signals.signame -> option Z).
(** libuv: the result of [uv_spawn] and the number of the process; the exit value and
    the signal that the program ends with. *)
Context (uv_spawn uv_process_get_pid : process_options -> Z) (exits : process_options -> Z * Z).
(** [lua_setfield] of 'pid', which may call a metamethod of the command; the memory
    for the arguments and for the environment. *)
Context (setpid : Z -> result unit) (argsmem envmem : positive).
Implicit Types (L : St).

Abbreviation getopts := (getprocopts number_text typename field len index pairs getmetatable fileno
  is_procenv uv_pipe_init strerror).

Definition uv_procexited L (c : process_options) : St :=
  let '(exitval, signum) := exits c in
  if ctrue signum then fold_left lua_push (Signals.pushsignal SIGKILL defined signum) L
  else lua_push (lua_push L (LString "exit")) (LInteger exitval).

Definition istable (v : option lvalue) : bool := match v with Some (LTable _) => true | _ => false end.

(** What [getprocopts] leaves in the stack. *)
Definition options_stack L : St :=
  if istable (lua_at L 1) then
    let L := lua_settop L 1 in
    let L := lua_push (lua_push L (field "arguments")) (field "environment") in
    let L := match field "arguments" with
             | LTable p => if int (1 + len p) >? LCU_EXECARGCOUNT then lua_push L (LUserdata argsmem) else L
             | _ => L
             end in
    match field "environment" with LTable _ => lua_push L (LUserdata envmem) | _ => L end
  else if Z.of_nat (lua_gettop L) >? LCU_EXECARGCOUNT then lua_push L (LUserdata argsmem) else L.

Definition k_setupproc L : result (process_options * (Z * St)) :=
  procopts <- getopts (values L);;
  let tabarg := istable (lua_at L 1) in
  let L := options_stack L in
  let err := uv_spawn procopts in
  if err <? 0 then
    let r := Results.lcuL_pusherrres strerror L err in Ok (procopts, (Z.of_nat r.1, r.2))
  else
    _ <- (if tabarg then setpid (uv_process_get_pid procopts) else Ok tt);;
    Ok (procopts, (-1, L)).

(** The handle of a process is never used for another one ([lcuT_resetcohdlk] is given
    no type), so the stack is as for a request. *)
Definition system_execute (wait : option (list lvalue)) L : result (process_options * list lvalue) :=
  lcuT_resetcoreqk sched yieldable uv_procexited wait L k_setupproc None.

(** The values that tell how a program ended. *)
Definition exit_values (c : process_options) : list lvalue :=
  if ctrue (exits c).2 then Signals.pushsignal SIGKILL defined (exits c).2
  else [LString "exit"; LInteger (exits c).1].

Lemma values_procexited L c : values (uv_procexited L c) = values L ++ exit_values c.
Proof.
  unfold uv_procexited, exit_values. destruct (exits c) as [exitval signum]. cbn [fst snd].
  destruct (ctrue signum); [apply values_pushes |]. by rewrite !values_push, <- app_assoc.
Qed.

(** C35: [system.execute] starts the program that its arguments describe, and returns how
    it ended: "exit" and the value that it exits with, or the name and the number of
    the signal.  It returns false and the error if the program cannot be started.
    What is left in the stack, the memory for many arguments included, is not
    returned. *)
Theorem execute_results (wait : option (list lvalue)) L (Hy : yieldable = true) :
  system_execute wait L =
    (procopts <- getopts (values L);;
     if uv_spawn procopts <? 0 then
       Ok (procopts, [LBoolean false; LString (strerror (uv_spawn procopts)); LInteger (- uv_spawn procopts)])
     else
       _ <- (if istable (values L !! 0%nat) then setpid (uv_process_get_pid procopts) else Ok tt);;
       Ok (procopts, exit_values procopts)).
Proof.
  unfold system_execute, lcuT_resetcoreqk. rewrite Hy.
  set (L1 := match wait with Some _ => _ | None => L end).
  assert (values L1 = values L) as HL1 by (unfold L1; destruct wait; [apply values_after_previous | done]).
  unfold k_setupproc. change (lua_at L1 1) with (values L1 !! 0%nat). rewrite HL1.
  destruct (getopts (values L)) as [c | | | | |]; cbn [rbind]; try done.
  destruct (Z.ltb_spec (uv_spawn c) 0) as [Hneg | Hpos].
  - cbn [rbind]. rewrite startedopk_returns by done. do 2 f_equal.
    by apply (returned_app _ (values (options_stack L1))); [apply values_errres |].
  - destruct (if istable _ then _ else _); cbn [rbind]; try done.
    apply startedopk_none. intros L'. apply values_procexited.
Qed.

(** When the command has a metamethod that raises an error for the field 'pid', the
    setup raises the error after the operation was armed: the process is counted as
    active and the coroutine is in the registry, but the coroutine does not wait, and
    the assertion of [lcuU_resumecohdl] fails when the program ends. *)
Theorem execute_raises_armed L (procopts : process_options) (message : string) (s : lcu_Scheduler)
    (UV_PROCESS : uv_handle_type) (Hproc : UV_PROCESS <> UV_ASYNC)
    (Hopts : getopts (values L) = Ok procopts) (Htab : istable (values L !! 0%nat) = true)
    (Hspawn : 0 <= uv_spawn procopts) (Hpid : setpid (uv_process_get_pid procopts) = LuaError message) :
  k_setupproc L = LuaError message /\
  exists op, (lcuT_armcohdl 0 s (set_kind (KHandle UV_PROCESS false) new_operation) ≫= λ r,
              Operation.startedopk Raised r.1 r.2) = Some (Sched (nasync s) (Z.succ (nactive s)), op) /\
    saved op = true /\ (forall f : setup_fn, resumecohdl_start f (Sched (nasync s) (Z.succ (nactive s))) op = None).
Proof.
  split.
  - unfold k_setupproc. rewrite Hopts. cbn [rbind]. rewrite (proj2 (Z.ltb_ge _ _) Hspawn).
    change (lua_at L 1) with (values L !! 0%nat). by rewrite Htab, Hpid.
  - unfold lcuT_armcohdl. cbn. rewrite decide_False by done. eexists. split; [done |]. done.
Qed.
End execute.

(** ** Examples *)

Definition example_field (name : string) : lvalue :=
  if decide (name = "execfile"%string) then LString "true" else LNil.
Definition linux_kill (s : Signals.signame) : option Z := match s with Signals.SIGTERM => Some 15 | _ => None end.

Lemma execute_results_witness :
  exists c, system_execute (St := list lvalue) (fun _ => ""%string) 9 true (fun _ => ""%string) (fun _ => "nil"%string)
    example_field (fun _ => 0) (fun _ _ => LNil) (fun _ => []) (fun _ => None) (fun _ => 0) (fun _ => false)
    (fun _ => 0) 9 linux_kill (fun _ => 0) (fun _ => 77) (fun _ => (0, 15)) (fun _ => Ok tt) 3 4 None
    [LTable 5; LNil] = Ok (c, [LString "terminate"; LInteger 15]).
Proof.
  eexists. rewrite (execute_results (LuaStack0 := list_stack)); [| reflexivity]. vm_compute. reflexivity.
Defined.

Lemma execute_raises_armed_witness :
  k_setupproc (St := list lvalue) (fun _ => ""%string) (fun _ => ""%string) (fun _ => "nil"%string)
    example_field (fun _ => 0) (fun _ _ => LNil) (fun _ => []) (fun _ => None) (fun _ => 0) (fun _ => false)
    (fun _ => 0) (fun _ => 0) (fun _ => 77) (fun _ => LuaError "read only") 3 4 [LTable 5] = LuaError "read only".
Proof.
  refine (proj1 (execute_raises_armed (LuaStack0 := list_stack) (fun _ => ""%string) (fun _ => ""%string)
    (fun _ => "nil"%string) example_field (fun _ => 0) (fun _ _ => LNil) (fun _ => []) (fun _ => None) (fun _ => 0)
    (fun _ => false) (fun _ => 0) (fun _ => 0) (fun _ => 77) (fun _ => LuaError "read only") 3 4 [LTable 5] _
    "read only" (Sched 0 0) (UV_OTHER 1) ltac:(discriminate) eq_refl eq_refl ltac:(done) eq_refl)).
Defined.
