(* ===== verification/Timer.v ===== *)
(** * Suspension for a time (src/src/ltimef.c)

    How [system.suspend] chooses the way to wait, how the timer of a coroutine is
    set up again for each wait, and when a coroutine is resumed. *)
From Stdlib Require Import QArith Qround.
From S2P Require Import Prelude Outcome.
Open Scope Z_scope.

(** ** Timers of libuv

    What the documentation of libuv says of timers: a timer that was started is
    active, waits for its timeout, and then for its repeat value if it is not
    zero; otherwise it stops when it fires.  Stopping keeps the repeat value. *)
Class UvTimer (T : Type) := {
  uv_timer_init : Z * T;
  uv_timer_start : T -> Z -> Z -> Z * T;
  uv_timer_stop : T -> Z * T;
  uv_timer_get_repeat : T -> Z;
  uv_is_active : T -> bool;
  uv_timer_get_due_in : T -> Z;
  (** The state of a timer when its function is called. *)
  uv_timer_fired : T -> T;
  uv_timer_start_ok t timeout repeat :
    0 <= (uv_timer_start t timeout repeat).1 ->
    let t' := (uv_timer_start t timeout repeat).2 in
    uv_is_active t' = true /\ uv_timer_get_repeat t' = repeat /\ uv_timer_get_due_in t' = timeout;
  uv_timer_fired_repeat t :
    uv_timer_get_repeat (uv_timer_fired t) = uv_timer_get_repeat t;
  uv_timer_fired_active t :
    uv_is_active (uv_timer_fired t) = negb (uv_timer_get_repeat t =? 0);
  uv_timer_fired_due t :
    uv_timer_get_repeat t <> 0 ->
    uv_timer_get_due_in (uv_timer_fired t) = uv_timer_get_repeat t;
}.

Section timer.
(** Numbers are the rationals of the doubles; a product is rounded. *)
Context (round : Q -> Q).

Definition UINT_MAX : Z := 2 ^ 32 - 1.

(** A wait of the whole process, of a coroutine with a timer or until the loop is
    idle; a call that returns at once. *)
Inductive wait := Sleep (msecs : Z) | Timer | Idle | NoWait.

(** [delay*1e3]. *)
Definition times1e3 (delay : Q) : Q := round (delay * 1000)%Q.

Definition system_suspend (delay : Q) (noyield : bool) : result wait :=
  if noyield then
    if negb (Qle_bool delay 0) then
      let delay := times1e3 delay in
      _ <- luaL_argcheck (Qle_bool delay (inject_Z UINT_MAX)) 1 "out of range";;
      Ok (Sleep (Qfloor delay))
    else Ok NoWait
  else if negb (Qle_bool delay 0) then
    (* the constant is converted to the double that is next to it *)
    _ <- luaL_argcheck (Qle_bool (times1e3 delay) (inject_Z (2 ^ 64))) 1 "out of range";;
    Ok Timer
  else Ok Idle.

(** [(uint64_t)(lua_tonumber(L, 1)*1e3)], undefined outside of the type. *)
Definition delay_msecs (delay : Q) : Z := Qfloor (times1e3 delay).

Section setup.
Context {T : Type} `{UvTimer T}.

(** [handle]: the timer that is kept, [None] for one to be initialised. *)
Definition k_setuptimer (delay : Q) (handle : option T) : result T :=
  let msecs := delay_msecs delay in
  if negb ((0 <=? msecs) && (msecs <? 2 ^ 64)) then Overrun else
  let start (r : Z * T) : result T :=
    let r := if 0 <=? r.1 then uv_timer_start r.2 msecs msecs else r in
    if r.1 <? 0 then UvError r.1 else Ok r.2 in
  match handle with
  | None => start uv_timer_init
  | Some timer =>
      if negb (uv_timer_get_repeat timer =? msecs) then start (uv_timer_stop timer) else Ok timer
  end.

(** The calls of a coroutine one after the other, in the function of its timer
    ([uv_ontimer]) but for the first: how long each of them waits.  A timer that is not active never
    fires, and the coroutine stays suspended. *)
Fixpoint suspends (handle : option T) (delays : list Q) : list Z :=
  match delays with
  | [] => []
  | delay :: delays =>
      match k_setuptimer delay handle with
      | Ok timer =>
          if uv_is_active timer
          then uv_timer_get_due_in timer :: suspends (Some (uv_timer_fired timer)) delays
          else []
      | _ => []
      end
  end.
End setup.
End timer.

(** ** Properties *)
Section properties.
Context (round : Q -> Q) {T : Type} `{UvTimer T}.
Context (init_ok : 0 <= (uv_timer_init (T:=T)).1).
Context (start_ok : forall (t : T) a r, 0 <= (uv_timer_start t a r).1).
Context (stop_ok : forall t : T, 0 <= (uv_timer_stop t).1).

(** A timer when its function is called: active unless its repeat value is
    zero. *)
Definition fired_with (msecs : Z) (t : T) : Prop :=
  uv_timer_get_repeat t = msecs /\ uv_is_active t = negb (msecs =? 0) /\
  (msecs <> 0 -> uv_timer_get_due_in t = msecs).

(** What a wait leaves for the next one. *)
Lemma k_setuptimer_waits delay (handle : option T) :
  0 <= delay_msecs round delay < 2 ^ 64 ->
  (forall t, handle = Some t -> exists m, fired_with m t /\ (m <> 0 \/ delay_msecs round delay <> 0)) ->
  exists t, k_setuptimer round delay handle = Ok t /\ uv_is_active t = true /\
    uv_timer_get_due_in t = delay_msecs round delay /\
    fired_with (delay_msecs round delay) (uv_timer_fired t).
Proof using All.
  intros Hd Hh. unfold k_setuptimer. set (msecs := delay_msecs round delay) in *.
  rewrite (proj2 (Z.leb_le _ _)), (proj2 (Z.ltb_lt _ _)) by lia. cbn [negb andb].
  assert (forall r : Z * T, 0 <= r.1 ->
    exists t, (let r := if 0 <=? r.1 then uv_timer_start r.2 msecs msecs else r in
               if r.1 <? 0 then UvError r.1 else Ok r.2) = Ok t /\ uv_is_active t = true /\
      uv_timer_get_due_in t = msecs /\ uv_timer_get_repeat t = msecs) as Hstart.
  { intros r Hr. cbn zeta. rewrite (proj2 (Z.leb_le _ _)) by lia.
    pose proof (start_ok r.2 msecs msecs) as Hs.
    destruct (uv_timer_start_ok r.2 msecs msecs Hs) as (? & ? & ?).
    rewrite (proj2 (Z.ltb_ge _ _)) by lia. eauto. }
  assert (exists t,
    match handle with
    | None => (fun r : Z * T => let r := if 0 <=? r.1 then uv_timer_start r.2 msecs msecs else r in
               if r.1 <? 0 then UvError r.1 else Ok r.2) uv_timer_init
    | Some timer =>
        if negb (uv_timer_get_repeat timer =? msecs)
        then (fun r : Z * T => let r := if 0 <=? r.1 then uv_timer_start r.2 msecs msecs else r in
               if r.1 <? 0 then UvError r.1 else Ok r.2) (uv_timer_stop timer)
        else Ok timer
    end = Ok t /\ uv_is_active t = true /\ uv_timer_get_due_in t = msecs /\
    uv_timer_get_repeat t = msecs) as (t & Ht & Ha & Hdue & Hrep).
  { destruct handle as [t |]; [| by apply Hstart].
    destruct (Hh t eq_refl) as (m & (Hrep & Hact & Hdue) & Hne). rewrite Hrep.
    destruct (Z.eqb_spec m msecs) as [-> |]; cbn [negb]; [| by apply Hstart].
    exists t. rewrite Hact, Hdue by tauto. split; [done |].
    destruct (Z.eqb_spec msecs 0); [tauto | done]. }
  exists t. split; [exact Ht |]. split; [done |]. split; [done |].
  unfold fired_with. rewrite uv_timer_fired_repeat, uv_timer_fired_active, Hrep.
  split; [done |]. split; [done |]. intros. by rewrite uv_timer_fired_due, Hrep by congruence.
Qed.
(** What happens in the order of the calls: [prev] is the time of the call
    before. *)
Lemma suspends_step delay delays handle prev :
  0 <= delay_msecs round delay < 2 ^ 64 ->
  match handle, prev with
  | Some t, Some m => fired_with m t | None, None => True | _, _ => False end ->
  (prev = Some 0 /\ delay_msecs round delay = 0 /\ suspends round handle (delay :: delays) = []) \/
  (~ (prev = Some 0 /\ delay_msecs round delay = 0) /\
   exists t, fired_with (delay_msecs round delay) t /\
     suspends round handle (delay :: delays)
     = delay_msecs round delay :: suspends round (Some t) delays).
Proof using All.
  intros Hd Hh.
  destruct (decide (prev = Some 0 /\ delay_msecs round delay = 0)) as [[-> H0] | Hne].
  - left. split; [done |]. split; [done |]. destruct handle as [t |]; [| done].
    destruct Hh as (Hrep & Hact & _). change (negb (0 =? 0)) with false in Hact.
    assert (k_setuptimer round delay (Some t) = Ok t) as Hk.
    { unfold k_setuptimer. rewrite H0, Hrep. reflexivity. }
    cbn [suspends]. by rewrite Hk, Hact.
  - right. split; [done |].
    destruct (k_setuptimer_waits delay handle Hd) as (t & Hk & Ha & Hdue & Hf).
    { intros t ->. destruct prev as [m |]; [| done]. exists m. split; [done |].
      destruct (decide (m = 0)) as [-> |]; [right | by left]. intros H0. by apply Hne. }
    exists (uv_timer_fired t). split; [done |]. cbn [suspends]. by rewrite Hk, Ha, Hdue.
Qed.

(** A call of less than a millisecond. *)
Definition short (delay : Q) : Prop := delay_msecs round delay = 0.


End properties.

(** A timer with its documented behaviour. *)
Record timer := MkTimer { active : bool; repeat_ : Z; due : Z }.
#[export, refine] Instance timer_uv : UvTimer timer := {
  uv_timer_init := (0, MkTimer false 0 0);
  uv_timer_start t a r := (0, MkTimer true r a);
  uv_timer_stop t := (0, MkTimer false (repeat_ t) (due t));
  uv_timer_get_repeat := repeat_;
  uv_is_active := active;
  uv_timer_get_due_in := due;
  uv_timer_fired t := MkTimer (negb (repeat_ t =? 0)) (repeat_ t) (repeat_ t);
}.
Proof. all: by intros. Defined.


(** The ways to wait: one that does not yield sleeps at most [UINT_MAX]
    milliseconds, an interval that is not positive waits for the idle loop, and
    the check of the range lets through one number that the type of the
    milliseconds cannot hold. *)
Lemma system_suspend_wait round delay noyield w :
  (0 < delay -> 0 <= round (delay * 1000))%Q ->
  system_suspend round delay noyield = Ok w ->
  match w with
  | Sleep msecs => noyield = true /\ (0 < delay)%Q /\ 0 <= msecs <= UINT_MAX
  | Timer => noyield = false /\ (0 < delay)%Q /\ 0 <= delay_msecs round delay <= 2 ^ 64
  | Idle => noyield = false /\ (delay <= 0)%Q
  | NoWait => noyield = true /\ (delay <= 0)%Q
  end.
Proof.
  intros Hround. unfold system_suspend, delay_msecs, times1e3.
  assert (forall q b, (0 <= q)%Q -> Qle_bool q (inject_Z b) = true -> 0 <= Qfloor q <= b) as Hfl.
  { intros q b H0 Hb%Qle_bool_iff. split.
    - rewrite <- (Qfloor_Z 0). by apply Qfloor_resp_le.
    - rewrite <- (Qfloor_Z b). by apply Qfloor_resp_le. }
  destruct (Qle_bool delay 0) eqn:H0; cbn [negb].
  - apply Qle_bool_iff in H0. by destruct noyield; intros [= <-].
  - assert (0 < delay)%Q as Hpos.
    { apply Qnot_le_lt. intros Hle%Qle_bool_iff. congruence. }
    destruct noyield; intros H; apply rbind_ok in H as (u & Hu%luaL_argcheck_ok & [= <-]);
      (split; [done |]; split; [done |]); auto.
Qed.
