(* ===== verification/Coroutine.v ===== *)
(** * Coroutines with a state of their own (src/src/lcoroutm.c)

    A state coroutine owns a Lua state that runs in a thread of libuv while its
    request is in use.  [Life] is the life of the object: who has the state when,
    and when it is closed. *)
From S2P Require Import Prelude Steps UdataRequest.

Module Life.

(** What [lua_status] and [lua_gettop] tell of the state of the coroutine. *)
Inductive costatus := COK | CYIELD | CERR.
#[export] Instance costatus_eq_dec : EqDecision costatus.
Proof. solve_decision. Defined.
Record costate := Costate { lua_status : costatus; lua_gettop : nat }.

(** The object: its request, whether [cancel] is [freepending], and the field
    [L].  The worker has the state while the type of the request is UV_WORK. *)
Record stateco := StateCo { uw : UdataRequest.world; freepending : bool; L : option costate }.

Implicit Types (w : stateco) (co : costate).

Definition work_type w : reqtype := type (obj (uw w)).
Definition running w : bool := bool_decide (work_type w = Busy).

(** [doloaded]: the chunk is on the stack; the field [cancel] is not set. *)
Definition doloaded (cancel : bool) : stateco :=
  StateCo UdataRequest.initial cancel (Some (Costate COK 1)).

(** [lua_close]: the state must not be in use by a worker. *)
Definition freestate w : option stateco :=
  match L w with
  | Some _ => lcu_assert (negb (running w)) ≫= λ _, Some (StateCo (uw w) (freepending w) None)
  | None => Some w
  end.

Definition coroutine_gc w : option stateco :=
  if running w then Some (StateCo (uw w) true (L w)) else freestate w.

(** It returns, or raises an error while the coroutine runs. *)
Definition coroutine_close w : option (bool * stateco) :=
  if running w then Some (false, w) else w' ← coroutine_gc w; Some (true, w').

Definition suspended co : bool :=
  match lua_status co with
  | COK => negb (lua_gettop co =? 0)%nat
  | CYIELD => true
  | CERR => false
  end.

Definition coroutine_status w : string :=
  if running w then "running"
  else match L w with
       | Some co => if suspended co then "suspended" else "dead"
       | None => "dead"
       end.

(** [uv_onworking], run by the worker: [lua_resume] gives a status and the number
    of results, and both are pushed. *)
Definition uv_onworking (out : costatus * nat) co : costate := Costate out.1 (out.2 + 2).

(** The part of [uv_onworked] that handles the stack of the coroutine, with and
    without a coroutine that waits. *)
Definition worked_stack (canceled thread : bool) (out : costatus * nat) co : costate :=
  if canceled then Costate (lua_status co) (if decide (lua_status co = COK) then 1 else 0)
  else
    let co := uv_onworking out co in
    if thread then
      match out.1 with
      | CERR => Costate CERR (lua_gettop co - 2)
      | st => Costate st (lua_gettop co - 2 - out.2)
      end
    else Costate (lua_status co) 0.

(** The end of [uv_onworked]. *)
Definition worked_end w : option stateco :=
  if freepending w then w' ← freestate w; Some (StateCo (uw w') false (L w')) else Some w.

(** [k_setupwork] moves [narg] arguments; it fails before the work is queued, or
    after they were moved, and then removes them. *)
Inductive setup := Queued | Failed (nret : nat).
Definition busy_of (s : setup) : bool := if s is Queued then true else false.
Definition nret_of (s : setup) : Z := match s with Queued => -1 | Failed n => Z.of_nat n end.
Definition k_setupwork (s : setup) (narg : nat) co : costate :=
  if s is Queued then Costate (lua_status co) (lua_gettop co + narg) else co.

(** [startedudreqk] sets the field [cancel] when the work was queued. *)
Definition system_resume (t : thread) (s : setup) (narg : nat) w : option stateco :=
  if running w then Some w  (* "cannot resume running coroutine" *)
  else match L w with
       | Some co =>
           if suspended co then
             r ← lcuT_resetudreqk t (busy_of s) (nret_of s) (nactive (uw w)) (obj (uw w));
             let uw' := UdataRequest.World r.2.1 r.2.2 (frame (uw w)) in
             if r.1 : bool then
               Some (StateCo uw' (if s is Queued then false else freepending w)
                       (Some (k_setupwork s narg co)))
             else Some (StateCo uw' (freepending w) (L w))  (* "already in use" *)
           else Some w
       | None => Some w  (* "cannot resume dead coroutine" *)
       end.

Inductive action :=
  | Resume (t : thread) (s : setup) (narg : nat)
  | ScriptResume
  | Close
  | Gc
  | Worked (canceled : bool) (out : costatus * nat)
  | FrameEnd.

(** The coroutine that waits is always in [k_endudreq], so the arguments of
    [UdataRequest.Done] for another request do not matter. *)
Definition uv_onworked (canceled : bool) (out : costatus * nat) w : option stateco :=
  co ← L w;
  r ← lcuU_endudreq (nactive (uw w)) (obj (uw w));
  let co := worked_stack canceled r.1 out co in
  if r.1 : bool then
    x ← resumed_token false 0 r.2.1 r.2.2;
    Some (StateCo (UdataRequest.World x.1 x.2 true) (freepending w) (Some co))
  else worked_end (StateCo (UdataRequest.World r.2.1 r.2.2 (frame (uw w))) (freepending w) (Some co)).

Definition exec w (a : action) : option stateco :=
  match a with
  | Resume t s narg => system_resume t s narg w
  | ScriptResume =>
      u ← UdataRequest.exec (uw w) UdataRequest.ScriptResume; Some (StateCo u (freepending w) (L w))
  | Close => r ← coroutine_close w; Some r.2
  | Gc => coroutine_gc w
  | Worked canceled out => uv_onworked canceled out w
  | FrameEnd =>
      u ← UdataRequest.exec (uw w) UdataRequest.FrameEnd;
      worked_end (StateCo u (freepending w) (L w))
  end.

(** What a script and the loop can do: a coroutine that waits is resumed; the
    function of a finished work is called once for it, and not while another
    callback of the object runs. *)
Definition enabled w (a : action) : Prop :=
  match a with
  | Resume _ _ _ | Close | Gc => True
  | ScriptResume => exists t c, data (obj (uw w)) = Some (t, Some c)
  | Worked _ _ => frame (uw w) = false /\ running w = true
  | FrameEnd => frame (uw w) = true
  end.

Abbreviation reachable cancel := (reached (doloaded cancel) enabled exec).

(** ** Properties *)

(** A worker has a state only of an object that is not closed; a close is pending
    only while a worker has the state or the function of a work is called. *)
Definition inv (cancel : bool) w : Prop :=
  UdataRequest.inv (uw w) /\
  (running w = true -> is_Some (L w)) /\
  (cancel = false -> freepending w = true -> running w = true \/ frame (uw w) = true).

Lemma inv_initial cancel : inv cancel (doloaded cancel).
Proof. split; [apply inv_free |]. split; [done |]. by intros ->. Qed.

(** The only step that goes wrong is the end of the function of a work where the
    coroutine runs again. *)
Lemma life_step cancel w a :
  inv cancel w -> enabled w a ->
  match exec w a with
  | Some w' => inv cancel w' /\ ~ (a = FrameEnd /\ running w = true /\ freepending w = true)
  | None => a = FrameEnd /\ running w = true /\ freepending w = true
  end.
Proof.
  destruct w as [u fp l]. intros (Hu & Hl & Hf) He. cbn [uw freepending L] in *.
  assert (forall n : nat, (Z.of_nat n >=? 0) = true) as Hn by (intros n; apply Z.geb_le; lia).
  destruct Hu, a as [t' [| nret] narg | | | | canceled out |]; cbn in He, Hl, Hf;
    try (destruct He as (t0 & c0 & He)); try done;
    try (destruct (Hl eq_refl) as [co ->]); clear Hl;
    try (destruct l as [[[] [| top]] |]); destruct fp; cbn;
    unfold system_resume, lcuT_resetudreqk, startedudreqk; cbn; rewrite ?Hn; cbn;
    rewrite ?bool_decide_true by done; cbn;
  try (split; [split; [first [apply inv_free | apply inv_kept | apply inv_busy | apply inv_waited] | split; [try done; eauto | intros; cbn; eauto; try done]]|]);
  try (intros [? ?]; done);
  try done;
  try naive_solver.
Qed.

Lemma life_inv cancel w : reachable cancel w -> inv cancel w.
Proof.
  apply (reached_preserved _ _ _ (inv cancel)); [apply inv_initial |].
  intros w' a w1 Hi He Hx. pose proof (life_step cancel w' a Hi He) as H. rewrite Hx in H. apply H.
Qed.


End Life.
