(* ===== verification/Channel.v ===== *)
(** * Channels of a script (src/src/lchannem.c)

    A channel has a Lua state of its own, which takes the place of the coroutine
    that waits in the queue of the channel.  The arguments of the coroutine are
    moved to it, exchanged there with those of the other side, and moved back when
    the coroutine is resumed. *)
From S2P Require Import Prelude Steps LuaApi Results Transfer ChannelSwap.

Section channel.
Context {St : Type} `{!LuaStack St}.
Implicit Types (L cL : St).
Context (num2str : Z -> string).
(** Memory for the protected calls of the exchange and of the moves. *)
Context (mem : nat -> nat -> bool) (memm : nat -> bool) (memmsg : lvalue) (aux : list lvalue).
Context (uv_strerror : Z -> string).

(** The object: its state, whether [LCU_CHANNELSYNCREGKEY] is set in the registry
    of the state, whether the field [handle] is set, and whether the user value is
    its name (it is nil once the channel is closed). *)
Record LuaChannel := Channel { channelL : St; synckey : bool; handle : bool; named : bool }.

(** [armsynced].  [uv_async_init] is its error, [loop] tells whether the handle is
    to be initialised.  The results are the state of the caller, and the channel,
    armed or ([false]) as it is when NULL is returned. *)
Definition armsynced (loop : bool) (uv_async_init : Z) L (channel : LuaChannel)
    : option (St * (bool * LuaChannel)) :=
  let cL := channelL channel in
  let top := lua_gettop L in
  let narg := if (2 <? top)%nat then (top - 2)%nat else 0%nat in
  lcu_assert (lua_gettop cL =? 0)%nat ≫= λ _,
  if negb (lua_checkstack cL (narg + 3)) then
    let L := lua_settop L 1 in
    let L := lua_push L (LBoolean false) in
    let L := lua_push L (LString "insufficient memory") in
    Some (L, (false, channel))
  else
    let moved :=
      if (0 <? narg)%nat then
        let cL := lua_settop cL 1 in  (* placeholder for boolean first return *)
        r ← lcuL_movefrom memm memmsg aux None cL L narg "argument";
        let '(err, _, cL, L) := r in
        if decide (err <> LUA_OK) then
          let L := lua_settop L 1 in
          let L := lua_push L (LBoolean false) in
          let '(_, _, L) := lcuL_pushfrom memm memmsg aux None L cL (-1) "error" in
          Some (inl (L, lua_settop cL 0))
        else Some (inr (L, cL))
      else Some (inr (L, cL)) in
    m ← moved;
    match m with
    | inl (L, cL) => Some (L, (false, Channel cL (synckey channel) (handle channel) (named channel)))
    | inr (L, cL) =>
        if loop && (uv_async_init <? 0) then
          let L := lua_settop L 1 in
          let L := (Results.lcuL_pusherrres uv_strerror L uv_async_init).2 in
          let cL := lua_settop cL 0 in
          Some (L, (false, Channel cL (synckey channel) (handle channel) (named channel)))
        else
          let cL := lua_push cL (LInteger 0) in  (* base *)
          let cL := lua_push cL (LInteger (Z.of_nat narg)) in
          Some (L, (true, Channel cL true true (named channel)))
    end.

(** [cancelsuspension], for a call that does not wait. *)
Definition cancelsuspension L : St :=
  let L := lua_settop L 1 in
  let L := lua_push L (LBoolean false) in
  let L := lua_push L (LString "empty") in
  lua_push L (LInteger 2).

(** [channelsync], whose queue gave [match_], the state of another operation, to
    [lcuCS_matchchsync].  Otherwise the state of the [channel] waits, if [armsynced] gives
    it. *)
Inductive synced :=
  | Raised
  | Returned (L : St) (match_ : option St) (channel : LuaChannel)
  | Suspended (L : St) (channel : LuaChannel).

(** The call of [armsynced] or of [cancelsuspension]. *)
Inductive getstate := Arm (loop : bool) (uv_async_init : Z) | CancelSuspension.

Definition channelsync (g : getstate) (match_ : option St) L (channel : LuaChannel) : option synced :=
  match lcuCS_checksyncargs num2str L 2 with
  | None => Some Raised
  | Some (endpoint, L) =>
      if endpoint =? -1 then Some Raised
      else
        let discard_narg L match_ channel :=
          lcu_assert (lua_tointeger L (-1) =? Z.of_nat (lua_gettop L) - 2) ≫= λ _,
          Some (Returned (lua_pop L 1) match_ channel) in
        match match_ with
        | Some dst =>
            let top := lua_gettop L in
            let narg := if (2 <? top)%nat then (top - 2)%nat else 0%nat in
            r ← swapvalues mem memmsg aux L 1 narg dst;
            discard_narg r.1 (Some r.2) channel
        | None =>
            match g with
            | Arm loop err =>
                r ← armsynced loop err L channel;
                if r.2.1 : bool then Some (Suspended r.1 r.2.2) else discard_narg r.1 None r.2.2
            | CancelSuspension => discard_narg (cancelsuspension L) None channel
            end
        end
  end.

(** [k_setupsynced]; [chklchannel] refuses a closed channel, and one that is in use
    is refused.  The number of results, or -1 to yield. *)
Definition k_setupsynced (loop : bool) (uv_async_init : Z) (match_ : option St) L channel
    : option (option Z * synced) :=
  if negb (named channel) || handle channel then Some (None, Raised)
  else
    r ← channelsync (Arm loop uv_async_init) match_ L channel;
    Some match r with
    | Returned L _ _ => (Some (Z.of_nat (lua_gettop L) - 1), r)
    | Suspended _ _ => (Some (-1), r)
    | Raised => (None, r)
    end.

(** [channel_sync]. *)
Definition channel_sync (match_ : option St) L channel : option (option Z * synced) :=
  if negb (named channel) then Some (None, Raised)
  else
  r ← channelsync CancelSuspension match_ L channel;
  Some match r with
  | Returned L _ _ => (Some (Z.of_nat (lua_gettop L) - 1), r)
  | _ => (None, r)
  end.

Definition restorechannel (channel : LuaChannel) : LuaChannel :=
  let cL := lua_settop (channelL channel) 0 in
  (* nil is pushed and stored in the registry *)
  Channel cL false false (named channel).

(** [returnsynced], called when the coroutine is resumed by [uv_onsynced]. *)
Definition returnsynced L (channel : LuaChannel) : option (nat * St * LuaChannel) :=
  let cL := channelL channel in
  lcu_assert (lua_tointeger cL (-1) =? Z.of_nat (lua_gettop cL) - 1) ≫= λ _,
  let cL := lua_pop cL 1 in
  let nret := lua_gettop cL in
  r ← lcuL_movefrom memm memmsg aux None L cL nret "";
  let '(err, _, L, cL) := r in
  lcu_assert (bool_decide (err = LUA_OK)) ≫= λ _,
  Some (nret, L, restorechannel (Channel cL (synckey channel) (handle channel) (named channel))).
(** ** Properties *)
Hypothesis Haux : length aux = 4%nat.

Lemma gettop_values L l : values L = l -> lua_gettop L = length l.
Proof. by intros <-. Qed.

Lemma checksyncargs_ok L c n args e :
  values L = c :: LString n :: args -> endpoint_of n = Some e -> is_transferable args ->
  lcuCS_checksyncargs num2str L 2 = Some (e, L).
Proof using All.
  intros HL He Ht. unfold lcuCS_checksyncargs, luaL_optstring.
  rewrite (at_app L [c] (LString n) args HL : lua_at L (Z.of_nat 2) = _). cbn [mbind option_bind].
  rewrite He, (gettop_values L _ HL). cbn [length].
  destruct (Z.leb_spec (Z.of_nat (S (S (length args))) - Z.of_nat 2) 0); [done |].
  replace (Z.to_nat (Z.of_nat (S (S (length args))) - Z.of_nat 2)) with (length args) by lia.
  by rewrite (canmove_transferable L [c; LString n] args).
Qed.

Lemma endpoint_of_known n e : endpoint_of n = Some e -> (e =? -1) = false.
Proof.
  unfold endpoint_of. repeat destruct (String.eqb n _); try done; by intros [= <-].
Qed.

(** The arguments are moved to the state of the channel, behind a place for the
    first result; then the handle may fail to be initialised. *)
Lemma armsynced_moves loop err L channel c n args :
  resources (St := St) mem -> (forall i, memm i = true) -> is_transferable args ->
  values L = c :: LString n :: args -> values (channelL channel) = [] ->
  exists L' cL below,
    values L' = [c; LString n] /\ values cL = below ++ args /\ (args <> [] -> below <> []) /\
    armsynced loop err L channel
    = Some (if loop && (err <? 0)
            then ((Results.lcuL_pusherrres uv_strerror (lua_settop L' 1) err).2,
                  (false, Channel (lua_settop cL 0) (synckey channel) (handle channel) (named channel)))
            else (L', (true, Channel (lua_push (lua_push cL (LInteger 0))
                                        (LInteger (Z.of_nat (length args)))) true true (named channel)))).
Proof using All.
  intros [_ Hc] Hm Ht HL HcL. unfold armsynced.
  rewrite (gettop_values L _ HL), (gettop_values _ _ HcL), Hc. cbn [length Nat.eqb lcu_assert mbind option_bind negb].
  assert ((if (2 <? S (S (length args)))%nat then (S (S (length args)) - 2)%nat else 0%nat) = length args) as ->.
  { destruct (Nat.ltb_spec 2 (S (S (length args)))); lia. }
  destruct args as [| a args].
  - cbn [length Nat.ltb Nat.leb mbind option_bind].
    exists L, (channelL channel), []. split; [done |]. split; [done |]. split; [by intros |].
    by destruct (loop && _).
  - cbn [length]. change (0 <? S (length args))%nat with true. cbn [mbind option_bind].
    destruct (movefrom_spec memm memmsg aux None (lua_settop (channelL channel) 1) L
      [c; LString n] (a :: args) "argument" Haux HL) as (st & C & cL & L1 & Hmove & _ & Hcase & Hok).
    assert (st = LUA_OK) as -> by (apply Hok; done).
    cbn [length] in Hmove. rewrite Hmove. cbn [mbind option_bind].
    rewrite decide_False by (intros H; by apply H). cbn [mbind option_bind].
    destruct Hcase as [(_ & HL1 & HcL1 & _) | [H _]]; [| done].
    exists L1, cL, [LNil]. split; [done |]. split; [by rewrite HcL1, values_settop, HcL |].
    split; [by intros |]. by destruct (loop && _).
Qed.
(** The number of results on the top is discarded. *)
Lemma discard_count L (l : list lvalue) n :
  values L = l ++ [LInteger n] -> lua_tointeger L (-1) = n /\ values (lua_pop L 1) = l.
Proof.
  intros HL. split; [| by apply (values_pop L l [LInteger n])].
  unfold lua_tointeger. by rewrite (at_top L l (LInteger n) [] (-1)).
Qed.

(** C23: a coroutine that waits on a channel and a coroutine that finds it there,
    each with any number of arguments: the first one waits with the channel in
    use, the second one returns true and the arguments of the first, and the
    first one, resumed, returns true and the arguments of the second; the
    channel is then as it was before it was used, and no assertion fails. *)
Theorem await_exchange loop err L1 L2 ch1 ch2 c1 c2 n1 n2 e1 e2 args1 args2 g :
  resources (St := St) mem -> (forall i, memm i = true) ->
  is_transferable args1 -> is_transferable args2 ->
  endpoint_of n1 = Some e1 -> endpoint_of n2 = Some e2 -> 0 <= err ->
  values L1 = c1 :: LString n1 :: args1 -> values L2 = c2 :: LString n2 :: args2 ->
  named ch1 = true -> handle ch1 = false -> values (channelL ch1) = [] ->
  exists L1' ch1' L2' cL L1'' ch1'',
    k_setupsynced loop err None L1 ch1 = Some (Some (-1), Suspended L1' ch1') /\
    handle ch1' = true /\ synckey ch1' = true /\
    channelsync g (Some (channelL ch1')) L2 ch2 = Some (Returned L2' (Some cL) ch2) /\
    values L2' = c2 :: LBoolean true :: args1 /\
    returnsynced L1' (Channel cL (synckey ch1') (handle ch1') (named ch1')) = Some (S (length args2), L1'', ch1'') /\
    values L1'' = [c1; LString n1] ++ LBoolean true :: args2 /\
    values (channelL ch1'') = [] /\ handle ch1'' = false /\ synckey ch1'' = false.
Proof using All.
  intros Hres Hm Ht1 Ht2 He1 He2 Herr HL1 HL2 Hopen Hh HcL.
  destruct (armsynced_moves loop err L1 ch1 c1 n1 args1 Hres Hm Ht1 HL1 HcL)
    as (L1' & cL0 & below & HL1' & HcL0 & Hbelow & Harm).
  rewrite (proj2 (Z.ltb_ge err 0)), andb_false_r in Harm by done.
  set (ch1' := Channel _ true true _) in Harm.
  assert (values (channelL ch1') = (below ++ args1) ++ [LInteger 0; LInteger (Z.of_nat (length args1))]) as HcL'.
  { cbn [ch1' channelL]. rewrite !values_push, HcL0. by rewrite <- !app_assoc. }
  destruct (swap_exchanged mem memmsg aux Haux L2 (channelL ch1') [c2] [] _ (below ++ args1) args2 args1
    Hres Ht2 Ht1 HL2) as (L2' & cL & Hswap & HL2' & HcL2).
  { exists [LString n2]. by split. }
  { exact HcL'. }
  { exists below. by split. }
  unfold results in HL2', HcL2. rewrite app_comm_cons, app_assoc in HL2', HcL2.
  destruct (discard_count L2' _ _ HL2') as [Hn2 Hpop2].
  destruct (discard_count cL _ _ HcL2) as [Hnc Hpopc].
  destruct (movefrom_spec memm memmsg aux None L1' (lua_pop cL 1) [] (LBoolean true :: args2) ""
    Haux Hpopc) as (st & C & L1'' & cL' & Hmove & _ & Hcase & Hok).
  assert (st = LUA_OK) as -> by (apply Hok; [by destruct Hres | done | by constructor]).
  destruct Hcase as [(_ & HcLe & HL1'' & _) | [H _]]; [| done].
  exists L1', ch1', (lua_pop L2' 1), cL, L1'', (restorechannel (Channel cL' (synckey ch1') (handle ch1') (named ch1'))).
  split.
  { unfold k_setupsynced, channelsync. rewrite Hopen, Hh, (checksyncargs_ok L1 c1 n1 args1 e1) by done.
    rewrite (endpoint_of_known n1), Harm by done. reflexivity. }
  split; [done |]. split; [done |]. split.
  { unfold channelsync. rewrite (checksyncargs_ok L2 c2 n2 args2 e2) by done.
    rewrite (endpoint_of_known n2) by done. rewrite (gettop_values L2 _ HL2). cbn [length].
    assert ((if (2 <? S (S (length args2)))%nat then (S (S (length args2)) - 2)%nat else 0%nat) = length args2) as ->.
    { destruct (Nat.ltb_spec 2 (S (S (length args2)))); lia. }
    cbn [length] in Hswap. rewrite Hswap. cbn [mbind option_bind fst snd].
    rewrite Hn2, (gettop_values L2' _ HL2'), lcu_assert_true; [done |].
    apply Z.eqb_eq. rewrite !length_app. cbn [length]. lia. }
  split; [done |]. split.
  { unfold returnsynced. cbn [channelL synckey handle].
    rewrite Hnc, (gettop_values cL _ HcL2), lcu_assert_true; [| apply Z.eqb_eq; rewrite !length_app; cbn [length]; lia].
    cbn [mbind option_bind]. rewrite (gettop_values (lua_pop cL 1) _ Hpopc). cbn [app length] in Hmove |- *.
    rewrite Hmove. reflexivity. }
  split; [by rewrite HL1'', HL1' |]. cbn [restorechannel channelL].
  split; [by rewrite values_settop, resize_0 | done].
Qed.

(** When the handle of a channel cannot be initialised, the call does not
    return the error: [armsynced] leaves no number of results on the stack,
    where [channelsync] asserts that there is one (unless the error, a number
    which is pushed last, happens to be 2). *)
Theorem armsynced_error_asserts err L channel c n args e :
  resources (St := St) mem -> (forall i, memm i = true) -> is_transferable args ->
  endpoint_of n = Some e -> err < 0 -> err <> -2 ->
  values L = c :: LString n :: args -> named channel = true -> handle channel = false ->
  values (channelL channel) = [] -> k_setupsynced true err None L channel = None.
Proof using All.
  intros Hres Hm Ht He Herr Hne HL Hopen Hh HcL. unfold k_setupsynced, channelsync.
  rewrite Hopen, Hh, (checksyncargs_ok L c n args e), (endpoint_of_known n) by done.
  destruct (armsynced_moves true err L channel c n args Hres Hm Ht HL HcL) as (L1 & cL & _ & HL1 & _ & _ & ->).
  rewrite (proj2 (Z.ltb_lt err 0)) by done. cbn [andb mbind option_bind fst snd].
  unfold Results.lcuL_pusherrres, Results.lcu_pusherror. cbn [fst snd].
  set (L' := lua_push _ (LInteger _)).
  assert (values L' = [c; LBoolean false; LString (uv_strerror err)] ++ [LInteger (- err)]) as HL'.
  { unfold L'. by rewrite !values_push, (values_settop_app L1 [c] [LString n]). }
  destruct (discard_count L' _ _ HL') as [-> _]. rewrite (gettop_values L' _ HL').
  cbn [app length]. by rewrite (proj2 (Z.eqb_neq _ _)) by lia.
Qed.

End channel.

Abbreviation nils := [LNil; LNil; LNil; LNil].

Lemma await_exchange_witness :
  exists L1' ch1' L2' cL L1'' ch1'',
    k_setupsynced (St := list lvalue) (fun _ => ""%string) (fun _ _ => true) (fun _ => true) LNil nils
      (fun _ => ""%string) true 0 None
      [LUserdata 3; LString "in"; LInteger 1; LString "x"] (Channel [] false false true)
    = Some (Some (-1), Suspended L1' ch1') /\
    handle ch1' = true /\ synckey ch1' = true /\
    channelsync (St := list lvalue) (fun _ => ""%string) (fun _ _ => true) (fun _ => true) LNil nils
      (fun _ => ""%string) CancelSuspension (Some (channelL ch1'))
      [LUserdata 4; LString "any"; LBoolean false] (Channel [] false false true)
    = Some (Returned L2' (Some cL) (Channel [] false false true)) /\
    values L2' = [LUserdata 4; LBoolean true; LInteger 1; LString "x"] /\
    returnsynced (fun _ => true) LNil nils L1' (Channel cL (synckey ch1') (handle ch1') (named ch1'))
    = Some (2%nat, L1'', ch1'') /\
    values L1'' = [LUserdata 3; LString "in"; LBoolean true; LBoolean false] /\
    values (channelL ch1'') = [] /\ handle ch1'' = false /\ synckey ch1'' = false.
Proof.
  apply (await_exchange (LuaStack0 := list_stack) (fun _ => ""%string) (fun _ _ => true) (fun _ => true)
    LNil nils (fun _ => ""%string) eq_refl true 0 [LUserdata 3; LString "in"; LInteger 1; LString "x"]
    [LUserdata 4; LString "any"; LBoolean false] (Channel [] false false true) (Channel [] false false true)
    (LUserdata 3) (LUserdata 4) "in" "any" 1 3 [LInteger 1; LString "x"] [LBoolean false] CancelSuspension);
    try done; try (by repeat constructor).
Defined.

Lemma armsynced_error_asserts_witness :
  k_setupsynced (St := list lvalue) (fun _ => ""%string) (fun _ _ => true) (fun _ => true) LNil nils
    (fun _ => "too many open files"%string) true (-24) None
    [LUserdata 3; LString "in"; LInteger 1] (Channel [] false false true) = None.
Proof.
  apply (armsynced_error_asserts (LuaStack0 := list_stack) (fun _ => ""%string) (fun _ _ => true)
    (fun _ => true) LNil nils (fun _ => "too many open files"%string) eq_refl (-24)
    [LUserdata 3; LString "in"; LInteger 1] (Channel [] false false true) (LUserdata 3) "in" [LInteger 1] 1);
    try done; try (by repeat constructor).
Defined.

(** ** Who has a channel, and when

    The field [handle] is set while a coroutine waits: the state of the channel is
    in the queue, or it was taken from there and the handle of the coroutine was
    signalled. *)
Module Life.

(** The operation of the coroutine that uses the channel: it waits
    ([FLAG_PENDING]), or it was resumed by the script while the handle was
    already signalled ([FLAG_CLEANUP], with the channel as its value). *)
Inductive waiter := NoWaiter | Waits | Cleanup.
#[export] Instance waiter_eq_dec : EqDecision waiter.
Proof. solve_decision. Defined.

Record channel := Chan {
  queued : bool;      (* the state is in [sync->queue] *)
  sent : bool;        (* [uv_async_send] was called, [uv_onsynced] not yet *)
  in_use : bool;      (* [handle] is not NULL *)
  closed : bool;      (* the user value is not the name *)
  op : waiter }.

Implicit Types c : channel.

Definition created : channel := Chan false false false false NoWaiter.

(** [restorechannel]; the stack and the registry of the state are in
    [restorechannel] above. *)
Definition restore c : channel := Chan (queued c) (sent c) false (closed c) (op c).

(** [system_awaitch] on a free operation.  [waits]: there is no match and nothing
    fails.  An error is raised for a channel that is closed or in use. *)
Definition system_awaitch (waits : bool) c : option channel :=
  if closed c || in_use c then Some c
  else if waits then
    (* armsynced: the queue must not have the state yet *)
    lcu_assert (negb (queued c)) ≫= λ _, Some (Chan true (sent c) true (closed c) Waits)
  else Some c.

(** Another operation takes the state from the queue and signals the handle. *)
Definition match_state c : option channel :=
  lcu_assert (in_use c) ≫= λ _, (* the registry has the handle *)
  Some (Chan false true (in_use c) (closed c) (op c)).

(** [cancelsynced], called by [k_endop]: the state is removed from the queue, or the
    operation waits for [uv_onsynced]. *)
Definition cancelsynced c : option channel :=
  if queued c then Some (restore (Chan false (sent c) (in_use c) (closed c) NoWaiter))
  else Some (Chan (queued c) (sent c) (in_use c) (closed c) Cleanup).

(** [uv_onsynced]: the coroutine is resumed and calls [returnsynced], or the channel
    is the value of the operation. *)
Definition uv_onsynced c : option channel :=
  match op c with
  | Waits | Cleanup => Some (restore (Chan (queued c) false (in_use c) (closed c) NoWaiter))
  | NoWaiter => None
  end.

(** [channelclose]: the state must be neither in the queue nor used by another
    side.  While a channel that waits is collected, the whole Lua state is being
    closed: its state is removed from the queue, or the loop runs until
    [uv_onsynced] was called. *)
Definition channelclose c : option channel :=
  if closed c then Some c
  else
    c ← (if in_use c then
           if queued c then Some (Chan false (sent c) (in_use c) (closed c) (op c))
           else lcu_assert (sent c) ≫= λ _, uv_onsynced c
         else Some c);
    lcu_assert (negb (queued c || sent c)) ≫= λ _,
    Some (Chan (queued c) (sent c) (in_use c) true (op c)).

(** [channel_close] raises an error for a channel that is in use. *)
Definition channel_close c : option channel := if in_use c then Some c else channelclose c.

Inductive action := Await (waits : bool) | Match | ScriptResume | Synced | Close | Gc.

Definition exec c (a : action) : option channel :=
  match a with
  | Await waits => system_awaitch waits c
  | Match => match_state c
  | ScriptResume => cancelsynced c
  | Synced => uv_onsynced c
  | Close => channel_close c
  | Gc => channelclose c
  end.

(** Any other side may match a state in the queue; the loop calls back for a
    signal; a script resumes a coroutine that waits.  After a channel that was in
    use is collected, nothing of its Lua state runs. *)
Definition enabled c (a : action) : Prop :=
  closed c && in_use c = false /\
  match a with
  | Match => queued c = true
  | Synced => sent c = true
  | ScriptResume => op c = Waits
  | Gc => True
  | Await _ | Close => True
  end.

Abbreviation reachable := (reached created enabled exec).

Inductive inv : channel -> Prop :=
  | inv_free cl : inv (Chan false false false cl NoWaiter)
  | inv_queued : inv (Chan true false true false Waits)
  | inv_sent : inv (Chan false true true false Waits)
  | inv_cleanup : inv (Chan false true true false Cleanup)
  | inv_collected : inv (Chan false false true true Waits).

Lemma channel_step_ok c a :
  inv c -> enabled c a -> exists c', exec c a = Some c' /\ inv c'.
Proof.
  intros [[] | | | |] [Hc He]; destruct a as [[] | | | | |]; cbn in Hc, He |- *; try done;
    (eexists; split; [reflexivity | constructor]).
Qed.

Lemma channel_inv c : reachable c -> inv c.
Proof. apply (reached_safe _ _ _ inv); [apply inv_free | apply channel_step_ok]. Qed.


End Life.
