(* ===== verification/ChannelNames.v ===== *)
(** * Creating channels and listing their names (src/src/lchannem.c, lines 16 to 22 and 239 to 337)

    [channel.create] makes the object of a channel, which refers to the record of the
    task whose state it is in; [channel.getnames] reads the names in the map of
    channels, whose mutex it holds.  [ChannelMap] has the map, [Channel] what the
    objects do. *)
From stdpp Require Import gmap sets strings.
From S2P Require Import Prelude Steps Outcome LuaApi.

(** ** channel.getnames *)
Module Names.

(** The keys of a table: [lua_tostring] gives the text of a number too, but then the
    key in the stack is that text; other values are no names. *)
Inductive key := KString (s : string) | KNumber (text : string) | KOther (p : positive).
#[export] Instance key_eq_dec : EqDecision key.
Proof. solve_decision. Defined.
#[export] Instance key_countable : Countable key.
Proof.
  refine (inj_countable'
    (fun k => match k with KString s => inl s | KNumber s => inr (inl s) | KOther p => inr (inr p) end)
    (fun x => match x with inl s => KString s | inr (inl s) => KNumber s | inr (inr p) => KOther p end) _).
  by intros [].
Defined.

(** A table with what its fields have, true for the names of channels. *)
Abbreviation table := (gmap key lvalue).

Section names.
(** The names in the map of channels. *)
Context (channels : gset string).

(** [lua_setfield] with true or nil. *)
Definition set_name (name : string) (t : table) : table :=
  if bool_decide (name ∈ channels) then <[KString name := LBoolean true]> t else delete (KString name) t.

(** The traversal in the order [ks] of the table: the table, or an error that
    [lua_next] raises because the key is not in the table.  What [lua_next] does
    with the text of a number that is a key is undefined here. *)
Fixpoint names_loop (ks : list key) (t : table) : result table :=
  match ks with
  | [] => Ok t
  | KString name :: ks => names_loop ks (set_name name t)
  | KNumber text :: ks =>
      if bool_decide (is_Some (t !! KString text)) || bool_decide (is_Some (set_name text t !! KString text))
      then Overrun else LuaError "invalid key to 'next'"
  | KOther _ :: ks => names_loop ks t
  end.

(** The result, and whether the mutex of the map is locked at the end.  [names]: the
    table that is given, with the order of its keys; or the order of the names in
    the map. *)
Definition channel_getnames (names : option (list key * table)) (order : list string) : result table * bool :=
  let r := match names with
           | Some (ks, t) => names_loop ks t
           | None => names_loop (map KString order) ∅
           end in
  (r, match r with Ok _ => false | _ => true end).

(** *** Properties *)

Lemma set_name_lookup name t k :
  set_name name t !! k =
    if decide (k = KString name) then (if bool_decide (name ∈ channels) then Some (LBoolean true) else None)
    else t !! k.
Proof.
  unfold set_name. case_bool_decide; case_decide as Hk; subst;
    by rewrite ?lookup_insert_eq, ?lookup_insert_ne, ?lookup_delete_eq, ?lookup_delete_ne by congruence.
Qed.

Lemma names_loop_strings ks t :
  (forall text, KNumber text ∉ ks) ->
  exists t', names_loop ks t = Ok t' /\
    forall k, t' !! k =
      match k with
      | KString name => if bool_decide (k ∈ ks)
                        then (if bool_decide (name ∈ channels) then Some (LBoolean true) else None)
                        else t !! k
      | _ => t !! k
      end.
Proof.
  revert t. induction ks as [| k ks IH]; intros t Hn.
  - exists t. split; [done |]. intros [] ; [| done ..]. rewrite bool_decide_false; [done | apply not_elem_of_nil].
  - assert (forall text, KNumber text ∉ ks) as Hn' by (intros text; specialize (Hn text); set_solver).
    destruct k as [name | text | p]; cbn [names_loop].
    + destruct (IH (set_name name t) Hn') as (t' & -> & Ht). exists t'. split; [done |].
      intros k. rewrite Ht. destruct k as [s | |]; rewrite set_name_lookup; [| done ..].
      destruct (decide (KString s = KString name)) as [[= ->] | Hne].
      * rewrite (bool_decide_true (KString name ∈ KString name :: ks)) by by left.
        by destruct (bool_decide (KString name ∈ ks)).
      * rewrite (bool_decide_ext (KString s ∈ KString name :: ks) (KString s ∈ ks)); [done | set_solver].
    + by destruct (Hn text); left.
    + destruct (IH t Hn') as (t' & -> & Ht). exists t'. split; [done |].
      intros k. rewrite Ht. destruct k as [s | |]; [| done ..].
      rewrite (bool_decide_ext (KString s ∈ KOther p :: ks) (KString s ∈ ks)); [done | set_solver].
Qed.

(** Without a table the result has the names of the channels and nothing else;
    with a table that has no numbers as keys, each string key is true or removed as
    there is a channel of that name or not, and the other fields stay.  In both
    cases the map is unlocked. *)
Theorem getnames_exact (names : option (list key * table)) (order : list string)
    (Hn : forall ks t, names = Some (ks, t) ->
       (forall k, k ∈ ks <-> is_Some (t !! k)) /\ forall text, KNumber text ∉ ks)
    (Ho : forall name, name ∈ order <-> name ∈ channels) :
  exists t', channel_getnames names order = (Ok t', false) /\
    match names with
    | None => forall k, t' !! k =
        match k with
        | KString name => if bool_decide (name ∈ channels) then Some (LBoolean true) else None
        | _ => None
        end
    | Some (_, t) => forall k, t' !! k =
        match k, t !! k with
        | KString name, Some _ => if bool_decide (name ∈ channels) then Some (LBoolean true) else None
        | _, v => v
        end
    end.
Proof.
  unfold channel_getnames. destruct names as [[ks t] |].
  - destruct (Hn ks t eq_refl) as [Hk Hnum]. destruct (names_loop_strings ks t Hnum) as (t' & -> & Ht).
    exists t'. split; [done |]. intros k. rewrite Ht. destruct k as [name | |]; [| by destruct (t !! _) ..].
    destruct (t !! KString name) eqn:Hv.
    + rewrite bool_decide_true; [done |]. apply Hk. by eexists.
    + rewrite bool_decide_false; [done |]. rewrite Hk, Hv. by intros [? ?].
  - destruct (names_loop_strings (map KString order) ∅) as (t' & -> & Ht).
    { intros text (x & [= ] & _)%list_elem_of_fmap. }
    exists t'. split; [done |]. intros k. rewrite Ht, lookup_empty. destruct k as [name | |]; try done.
    rewrite (bool_decide_ext (KString name ∈ map KString order) (name ∈ channels)).
    + by case_bool_decide.
    + rewrite <- Ho. split; [by intros (x & [= ->] & ?)%list_elem_of_fmap |].
      intros ?. apply list_elem_of_fmap. by exists name.
Qed.

(** A table with a number among its keys, like any list of names, makes the
    traversal raise an error (unless its text is a key or a name
    too), and the mutex of the map stays locked: no channel can
    be created, closed or listed in the process any more. *)
Theorem getnames_number_locks (ks rest : list key) (text : string) (t : table) (order : list string)
    (Hks : forall s, KNumber s ∉ ks)
    (Hc : text ∉ channels) (Ht : t !! KString text = None) :
  channel_getnames (Some (ks ++ KNumber text :: rest, t)) order = (LuaError "invalid key to 'next'", true).
Proof.
  unfold channel_getnames.
  assert (names_loop (ks ++ KNumber text :: rest) t = LuaError "invalid key to 'next'") as ->; [| done].
  revert t Ht. induction ks as [| k ks IH]; intros t Ht; cbn [app names_loop].
  - rewrite set_name_lookup, Ht, decide_True, (bool_decide_false (text ∈ channels)) by done. done.
  - assert (forall s, KNumber s ∉ ks) as Hks' by (intros s; specialize (Hks s); set_solver).
    destruct k as [name | s | p]; [| by destruct (Hks s); left | by apply IH].
    apply IH; [done |]. rewrite set_name_lookup. case_decide as Hd; [| done].
    injection Hd as <-. by rewrite bool_decide_false.
Qed.
End names.

Lemma getnames_exact_witness :
  exists t', channel_getnames {["a"%string; "b"%string]}
      (Some ([KString "a"; KString "x"; KOther 1], {[KString "a" := LNil; KString "x" := LInteger 1; KOther 1 := LInteger 2]})) []
    = (Ok t', false) /\ t' !! KString "a" = Some (LBoolean true) /\ t' !! KString "x" = None.
Proof.
  destruct (getnames_exact {["a"%string; "b"%string]}
    (Some ([KString "a"; KString "x"; KOther 1], {[KString "a" := LNil; KString "x" := LInteger 1; KOther 1 := LInteger 2]}))
    ["a"; "b"]%string) as (t' & Hr & Ht).
  - intros ks t [= <- <-]. split; [| set_solver]. intros k. rewrite <- elem_of_dom. set_solver.
  - set_solver.
  - exists t'. split; [exact Hr |]. rewrite !Ht. split; reflexivity.
Defined.

Lemma getnames_number_locks_witness :
  channel_getnames ∅ (Some ([KNumber "1"], {[KNumber "1" := LString "a"]})) []
  = (LuaError "invalid key to 'next'", true).
Proof. apply (getnames_number_locks ∅ [] []); [set_solver | set_solver | reflexivity]. Defined.
End Names.

(** ** channel.create *)
Module Create.

(** [LCU_CHANNELTASKREGKEY] in the registry: nothing, false in a state that is not of a
    task, or the record of the task. *)
Inductive regkey := RegNil | RegFalse | RegTask (p : positive).

(** The channels that were made, each with the record that its own state has in its
    registry ([None] there is NULL, no entry is a registry that was not set); the
    references to the names in the map; the states that are open. *)
Record world := World {
  reg : regkey;
  tasks : list (option (option positive));
  refs : gmap string nat;
  open : nat;
}.
Implicit Types (w : world).

Section create.
(** Whether the state belongs to a pool ([LCU_TASKTPOOLREGKEY] is set). *)
Context (in_pool : bool).

Definition add_ref (name : string) w : world :=
  World (reg w) (tasks w) (<[name := S (default 0%nat (refs w !! name))]> (refs w)) (open w).

(** [alloc] and [sync]: [lua_newstate] and [lcuCS_getchsync] succeed; [err]: of
    [uv_mutex_init]; [fresh]: the address of a new record.  The object of an error of
    the mutex is collected later, as any other. *)
Definition channel_create (name : string) (alloc sync : bool) (err : Z) (fresh : positive) w
    : result unit * world :=
  if negb alloc then (LuaError "not enough memory", w)
  else
    let w := World (reg w) (tasks w) (refs w) (S (open w)) in
    if negb sync then (LuaError "not enough memory", World (reg w) (tasks w) (refs w) (pred (open w)))
    else
      let w := add_ref name w in
      let add t r w := World r (t :: tasks w) (refs w) (open w) in
      match reg w with
      | RegNil =>
          if in_pool then
            if ctrue err then (UvError err, add None (reg w) w)
            else (Ok tt, add (Some (Some fresh)) (RegTask fresh) w)
          else (Ok tt, add (Some None) RegFalse w)
      | RegFalse => (Ok tt, add (Some None) (reg w) w)
      | RegTask p => (Ok tt, add (Some (Some p)) (reg w) w)
      end.

Inductive action := Make (name : string) (alloc sync : bool) (err : Z) (fresh : positive).
Definition exec w (a : action) : option world :=
  let '(Make name alloc sync err fresh) := a in Some (channel_create name alloc sync err fresh w).2.
Definition initial : world := World RegNil [] ∅ 0.
Abbreviation reachable := (reached initial (fun _ _ => True) exec).

(** *** Properties *)

Record inv w : Prop := {
  inv_reg : match reg w with RegNil => True | RegFalse => in_pool = false | RegTask _ => in_pool = true end;
  inv_tasks : Forall (fun t => match t with
    | None => in_pool = true
    | Some t => t = match reg w with RegTask p => Some p | _ => None end /\ reg w <> RegNil end) (tasks w);
  inv_open : open w = length (tasks w);
}.

Lemma create_inv name alloc sync err fresh w : inv w -> inv (channel_create name alloc sync err fresh w).2.
Proof.
  intros [Hr Ht Ho]. unfold channel_create, add_ref.
  assert (forall r, r = reg w \/ reg w = RegNil ->
    Forall (fun t => match t with
      | None => in_pool = true
      | Some t => t = match r with RegTask p => Some p | _ => None end /\ r <> RegNil end) (tasks w)) as Hall.
  { intros r Hcase. refine (Forall_impl _ _ _ Ht _). intros [t |]; [| done]. intros [-> Hne].
    destruct Hcase as [-> | ?]; done. }
  destruct alloc; cbn [negb snd]; [| by constructor].
  destruct sync; cbn [negb snd]; [| by constructor].
  destruct (reg w) as [| | p] eqn:E; cbn [reg tasks refs open snd].
  - assert (in_pool = true \/ in_pool = false) as [Hp | Hp] by (destruct in_pool; auto); rewrite Hp;
      [destruct (ctrue err) |]; constructor; cbn; rewrite ?E, ?Ho; try done;
      (constructor; [done | first [apply (Hall RegNil) | apply (Hall RegFalse) | apply (Hall (RegTask fresh))]; by right]).
  - constructor; cbn; rewrite ?E, ?Ho; try done; (constructor; [done | apply (Hall RegFalse); by left]).
  - constructor; cbn; rewrite ?E, ?Ho; try done; (constructor; [done | apply (Hall (RegTask p)); by left]).
Qed.

(** All the channels that a state makes refer to one record of a task, the one of
    the state, when the state belongs to a pool; and to none otherwise.  Each
    channel that is made, and no call that fails for lack of memory, has an open
    state and a reference to its name. *)
Theorem channels_share_task w (name : string) (alloc sync : bool) (err : Z) (fresh : positive)
    (Hw : reachable w) :
  (forall t t', t ∈ tasks w -> t' ∈ tasks w -> is_Some t -> is_Some t' -> t = t') /\
  (forall t, Some t ∈ tasks w -> (is_Some t <-> in_pool = true)) /\
  open w = length (tasks w) /\
  (alloc && sync = false -> channel_create name alloc sync err fresh w = (LuaError "not enough memory", w)) /\
  (alloc && sync = true ->
     let w' := (channel_create name alloc sync err fresh w).2 in
     length (tasks w') = S (length (tasks w)) /\
     refs w' = <[name := S (default 0%nat (refs w !! name))]> (refs w)).
Proof.
  assert (inv w) as [Hr Ht Ho].
  { revert w Hw. apply reached_preserved; [by constructor |].
    intros w0 [] w' Hi _ [= <-]. by apply create_inv. }
  rewrite Forall_forall in Ht. split_and!; [| | done | |].
  - intros [t |] [t' |] H1%Ht H2%Ht [? ?] [? ?]; try done. cbn in *. destruct H1 as [-> _], H2 as [-> _]. done.
  - intros t Hin%Ht. destruct Hin as [-> Hne]. destruct (reg w); [done | | ];
      rewrite Hr; split; (done || by intros [? ?]).
  - unfold channel_create. destruct alloc, sync, w; done.
  - unfold channel_create, add_ref. destruct alloc, sync; try done. intros _.
    destruct (reg w), in_pool, (ctrue err); done.
Qed.
End create.

Lemma channels_share_task_witness :
  exists w, reached initial (fun _ _ => True) (exec true) w /\
    tasks w = [Some (Some 5%positive); Some (Some 5%positive); None] /\ open w = 3%nat /\
    (forall t, Some t ∈ tasks w -> (is_Some t <-> true = true)).
Proof.
  destruct (reached_run initial (fun _ _ => True) (exec true)
    [Make "a" true true (-12) 4; Make "a" true true 0 5; Make "b" true true 0 6]
    (fun w => tasks w = [Some (Some 5%positive); Some (Some 5%positive); None])) as (w & Hw & Ht).
  { cbn -[exec]. repeat (split; [vm_compute; naive_solver |]). vm_compute. naive_solver. }
  exists w. split; [exact Hw |]. split; [exact Ht |].
  destruct (channels_share_task true w "a" true true 0 1 Hw) as (_ & Hp & Ho & _).
  split; [rewrite Ho, Ht; reflexivity | exact Hp].
Defined.
End Create.
