(* ===== verification/Stream.v ===== *)
(** * Reading and writing of streams (src/src/lcommunf.c, lines 1040 to 1275)

    A coroutine that reads from a stream gives the memory that libuv fills: libuv
    asks for it when there is something to read, and tells then how much it has
    read.  The same coroutine, or others, go on reading one after the other; the
    life of the object and of its handle is in UdataHandle.v. *)
From S2P Require Import Prelude Outcome LuaApi Results Buffers.

Import Buf.

Section stream.
Context {A : Type}.
Context (uv_strerror : Z -> string) (UV_EOF : Z).

(** The values that [lcuL_pusherrres] pushes. *)
Definition pusherrres (err : Z) : list lvalue :=
  (Results.lcuL_pusherrres (St := list lvalue) uv_strerror [] err).2.

(** A call of [stream:read] that waits: the memory and the positions that
    [active_read] has checked. *)
Record readcall := ReadCall { memory : list A; first_ : option Z; last_ : option Z }.

Implicit Types (c : readcall) (calls : list readcall).

Definition lcu_getoutputbuf c : uv_buf_t :=
  setupbuf (first_ c) (last_ c) (Z.of_nat (length (memory c))).

(** [uv_ongetbuffer]: libuv must get some space.  The base is an address of the
    memory of the script. *)
Definition uv_ongetbuffer c : result uv_buf_t :=
  let buf := lcu_getoutputbuf c in
  _ <- rassert (ctrue (len buf));;
  Ok buf.

(** What [uv_onrecvdata] does: nothing, or the values that it pushes and whether
    the handle is to be stopped later ([stop] is not NULL). *)
Inductive received := Ignored | Resume (values : list lvalue) (stop : bool).

Definition uv_onrecvdata (thread : bool) (nread : Z) : result received :=
  if ctrue nread then
    _ <- rassert thread;;
    Ok (if 0 <=? nread then Resume [LInteger nread] true
        else Resume (pusherrres nread) (negb (nread =? UV_EOF)))
  else Ok Ignored.

(** [k_recvdata]: the results are the values above the four arguments. *)
Definition k_recvdata (values : list lvalue) : list lvalue := values.

(** ** A stream that is read

    What libuv does for a handle that reads: it gets a buffer, and then has read
    some of the bytes that arrived into it, nothing, or fails. *)
Inductive event := Bytes (n : nat) | Again | Error (err : Z).

(** The memory after [n] bytes were stored from the base of the buffer. *)
Definition store (mem : list A) (b : uv_buf_t) (bytes : list A) : list A :=
  take (Z.to_nat (base b)) mem ++ bytes ++ drop (Z.to_nat (base b) + length bytes) mem.

(** The results of a call and its memory afterwards. *)
Record outcome := Outcome { results : list lvalue; after : list A }.

(** One event after the other, for the call that waits.  The next call is made
    by the coroutine that was resumed, or later; an error ends the reading.  The
    results are the calls that ended and the bytes that were not read. *)
Fixpoint read_stream (calls : list readcall) (events : list event) (input : list A)
  : result (list outcome * list A) :=
  match calls, events with
  | c :: calls', e :: events =>
      buf <- uv_ongetbuffer c;;
      let nread := match e with Bytes n => Z.of_nat n | Again => 0 | Error err => err end in
      let bytes := match e with Bytes n => take n input | _ => [] end in
      r <- uv_onrecvdata true nread;;
      match r with
      | Ignored => read_stream calls events input
      | Resume vs _ =>
          let o := Outcome (k_recvdata vs) (store (memory c) buf bytes) in
          match e with
          | Error _ => Ok ([o], input)
          | _ =>
              x <- read_stream calls' events (drop (length bytes) input);;
              Ok (o :: x.1, x.2)
          end
      end
  | _, _ => Ok ([], input)
  end.

(** libuv reads at least a byte, and no more than there is or fits. *)
Fixpoint possible (calls : list readcall) (events : list event) (input : list A) : Prop :=
  match calls, events with
  | c :: calls', Bytes n :: events =>
      (0 < n)%nat /\ (n <= length input)%nat /\ Z.of_nat n <= len (lcu_getoutputbuf c) /\
      possible calls' events (drop n input)
  | _ :: _, Again :: events => possible calls events input
  | _ :: _, Error err :: _ => err < 0
  | _, _ => True
  end.

(** ** Properties *)

(** The part of the memory that the positions select, as [string.sub] does. *)
Definition area c : list A := lua_sub (memory c) (default 1 (first_ c)) (default (-1) (last_ c)).

Definition good_call c : Prop :=
  is_position (first_ c) /\ is_position (last_ c) /\ Z.of_nat (length (memory c)) < 2 ^ 63.

(** The bytes that a call has read: what is at its area now. *)
Definition got c (o : outcome) : list A :=
  match results o with
  | [LInteger n] => take (Z.to_nat n) (drop (Z.to_nat (base (lcu_getoutputbuf c))) (after o))
  | _ => []
  end.

(** A call that ended with an outcome: the other bytes of its memory are as they
    were. *)
Definition call_ok c (o : outcome) : Prop :=
  (exists err, err < 0 /\ o = Outcome (pusherrres err) (memory c)) \/
  (exists bytes, (0 < length bytes)%nat /\ got c o = bytes /\
     (length bytes <= length (area c))%nat /\
     o = Outcome [LInteger (Z.of_nat (length bytes))] (store (memory c) (lcu_getoutputbuf c) bytes) /\
     length (after o) = length (memory c)).
Lemma area_length c :
  good_call c -> Z.of_nat (length (area c)) = len (lcu_getoutputbuf c) /\
  0 <= base (lcu_getoutputbuf c) /\
  (area c <> [] -> base (lcu_getoutputbuf c) + len (lcu_getoutputbuf c) <= Z.of_nat (length (memory c))).
Proof.
  intros (Hi & Hj & Hm).
  destruct (setupbuf_sub A (memory c) (first_ c) (last_ c) Hi Hj Hm) as (Hsub & Hlen & Hbase & Hin).
  unfold area, lcu_getoutputbuf. rewrite <- Hsub. unfold buf_bytes.
  set (b := setupbuf _ _ _) in *. rewrite length_take, length_drop.
  destruct (Z.eq_dec (len b) 0) as [Hz | Hz].
  - rewrite Hz. split; [lia |]. split; [done |]. intros []. done.
  - specialize (Hin ltac:(lia)). split; [lia |]. by split.
Qed.

(** The bytes that are stored are found again, and the memory keeps its length. *)
Lemma store_read c bytes :
  good_call c -> (length bytes <= length (area c))%nat -> (0 < length bytes)%nat ->
  take (length bytes) (drop (Z.to_nat (base (lcu_getoutputbuf c)))
    (store (memory c) (lcu_getoutputbuf c) bytes)) = bytes /\
  length (store (memory c) (lcu_getoutputbuf c) bytes) = length (memory c).
Proof.
  intros Hc Hl Hpos. destruct (area_length c Hc) as (Ha & Hb & Hin).
  specialize (Hin ltac:(intros He; rewrite He in Hl; cbn in Hl; lia)).
  unfold store. set (n := Z.to_nat (base (lcu_getoutputbuf c))).
  assert (length (take n (memory c)) = n) as Hn by (rewrite length_take; lia).
  split.
  - rewrite drop_app_length' by done. by rewrite take_app_length.
  - rewrite !length_app, length_drop, Hn. lia.
Qed.

Lemma store_nothing (mem : list A) b : store mem b [] = mem.
Proof. unfold store. cbn [app length]. rewrite Nat.add_0_r. apply take_drop. Qed.

Lemma uv_ongetbuffer_ok c :
  good_call c -> area c <> [] -> uv_ongetbuffer c = Ok (lcu_getoutputbuf c).
Proof.
  intros Hc Ha. destruct (area_length c Hc) as (Hl & _ & _).
  unfold uv_ongetbuffer, ctrue. rewrite (proj2 (Z.eqb_neq _ _)); [done |].
  rewrite <- Hl. destruct (area c); [done | cbn; lia].
Qed.

(** C25: the bytes that calls of [read] get, one call after the other, each of them
    at the area that its positions select, are exactly the bytes of the stream,
    in their order and none lost; nothing else of a memory changes, and an error
    ends the call that waits and changes nothing.  An area that is empty makes
    an assertion fail as soon as libuv asks for it. *)
Theorem read_stream_exact calls events input :
  Forall good_call calls ->
  (Forall (fun c => area c <> []) calls -> possible calls events input ->
   exists outs rest,
     read_stream calls events input = Ok (outs, rest) /\
     Forall2 call_ok (take (length outs) calls) outs /\
     concat (zip_with got calls outs) ++ rest = input) /\
  (forall c e, good_call c -> area c = [] ->
     read_stream (c :: calls) (e :: events) input = AssertFail).
Proof.
  intros Hgood. split.
  - intros Harea. revert calls Hgood Harea input.
    induction events as [| e events IH]; intros calls Hgood Harea input Hp.
    { exists [], input. by destruct calls. }
    destruct calls as [| c calls]; [by exists [], input |].
    inversion Hgood as [| ?? Hc Hgood']; subst. inversion Harea as [| ?? Ha Harea']; subst.
    cbn [read_stream]. rewrite uv_ongetbuffer_ok by done. cbn [rbind].
    destruct e as [n | | err]; cbn [possible] in Hp.
    + destruct Hp as (Hn & Hi & Hfit & Hp). unfold uv_onrecvdata, ctrue.
      rewrite (proj2 (Z.eqb_neq _ _)), (proj2 (Z.leb_le _ _)) by lia. cbn [negb rassert rbind k_recvdata].
      assert (length (take n input) = n) as Hl by (rewrite length_take; lia).
      destruct (IH calls Hgood' Harea' (drop n input) Hp) as (outs & rest & Hr & Hok & Hcat).
      rewrite Hl, Hr. cbn [rbind fst snd].
      destruct (area_length c Hc) as (Hal & _ & _).
      destruct (store_read c (take n input) Hc) as [Hread Hkeep]; [lia | lia |]. rewrite Hl in Hread.
      eexists _, _. split; [reflexivity |]. unfold call_ok. split.
      * cbn [length take]. constructor; [| done]. right. exists (take n input). rewrite Hl.
        split; [done |]. split; [unfold got; cbn [results after k_recvdata]; by rewrite Nat2Z.id |].
        split; [lia |]. by split.
      * cbn [zip_with concat]. unfold got at 1. cbn [results after k_recvdata].
        by rewrite Nat2Z.id, Hread, <- app_assoc, Hcat, take_drop.
    + cbn [ctrue uv_onrecvdata]. apply (IH (c :: calls)); done.
    + unfold uv_onrecvdata, ctrue. rewrite (proj2 (Z.eqb_neq _ _)), (proj2 (Z.leb_gt _ _)) by lia.
      cbn [negb rassert rbind k_recvdata]. rewrite store_nothing.
      eexists _, _. split; [reflexivity |]. split; [| by destruct calls].
      cbn [length take]. constructor; [left; by exists err | constructor].
  - intros c e Hc Ha. cbn [read_stream]. destruct (area_length c Hc) as (Hl & _ & _).
    rewrite Ha in Hl. unfold uv_ongetbuffer. by rewrite <- Hl.
Qed.

End stream.

Lemma read_stream_exact_witness :
  (exists outs rest,
     read_stream (fun _ => ""%string) (-4095)
       [ReadCall [0; 0; 0; 0; 0] (Some 2) (Some (-2)); ReadCall [0; 0] None None]
       [Bytes 2; Again; Bytes 1] [7; 8; 9; 10] = Ok (outs, rest) /\
     Forall2 (call_ok (fun _ => ""%string)) (take (length outs)
       [ReadCall [0; 0; 0; 0; 0] (Some 2) (Some (-2)); ReadCall [0; 0] None None]) outs /\
     concat (zip_with got
       [ReadCall [0; 0; 0; 0; 0] (Some 2) (Some (-2)); ReadCall [0; 0] None None] outs) ++ rest
     = [7; 8; 9; 10]) /\
  read_stream (fun _ => ""%string) (-4095) [ReadCall [0; 0] (Some 3) None] [Bytes 1] [7] = AssertFail.
Proof.
  split.
  - apply (read_stream_exact (fun _ => ""%string) (-4095)).
    + repeat constructor; cbv; congruence.
    + repeat constructor; cbv; congruence.
    + repeat split; cbv; lia || congruence.
  - apply (proj2 (read_stream_exact (fun _ => ""%string) (-4095) [] [] [7] (Forall_nil_2 _))).
    + repeat constructor; cbv; congruence.
    + reflexivity.
Defined.
