(* ===== verification/FileObject.v ===== *)
(** * File objects and their descriptors (src/src/lfilef.c, lines 1205 to 1420)

    A file object holds a descriptor of the host, -1 once it is closed.  Opening,
    closing and the other calls are made at once, or by a request of libuv while
    the coroutine is suspended; a script may resume the coroutine before the
    request ends. *)
From stdpp Require Import gmap sets.
From S2P Require Import Prelude Steps.

(** [files]: the field of each file object.  [opening]: the objects that a request
    is to open, and whether a coroutine waits for it.  The host has the
    descriptors [fds]; [closing] are those that a request closes.  [dropped] tells
    whether a coroutine was resumed by a script while it was opening a file. *)
Record world := World {
  files : gmap positive Z;
  opening : gmap positive bool;
  fds : gset Z;
  closing : gset Z;
  dropped : bool;
}.

Implicit Types (w : world) (o : positive) (d : Z).

Definition initial : world := World ∅ ∅ ∅ ∅ false.

(** [openedfile]: the descriptor, or the error "closed file". *)
Definition openedfile w o : option Z :=
  match files w !! o with Some d => if 0 <=? d then Some d else None | None => None end.

(** [returnopenfile]; an error is returned and no object is made. *)
Definition returnopenfile o (result : Z) w : world :=
  if result <? 0 then w
  else World (<[o := result]> (files w)) (opening w) (fds w) (closing w) (dropped w).

(** The host opens a descriptor. *)
Definition opened (result : Z) w : world :=
  if result <? 0 then w
  else World (files w) (opening w) ({[result]} ∪ fds w) (closing w) (dropped w).

(** [system_openfile] in the mode that does not yield. *)
Definition system_openfile_now o (result : Z) w : option world :=
  Some (returnopenfile o result (opened result w)).

(** ... and with a request: [k_setupfile]. *)
Definition k_setupfile o (err : Z) w : option world :=
  if err <? 0 then Some w
  else Some (World (files w) (<[o := true]> (opening w)) (fds w) (closing w) (dropped w)).

(** [on_fileopen] resumes the coroutine, if it waits. *)
Definition on_fileopen o (result : Z) w : option world :=
  thread ← opening w !! o;
  let w := opened result w in
  let w := World (files w) (delete o (opening w)) (fds w) (closing w) (dropped w) in
  Some (if thread : bool then returnopenfile o result w else w).

(** The script resumes a coroutine that is opening a file. *)
Definition resume_opening o w : option world :=
  Some (World (files w) (<[o := false]> (opening w)) (fds w) (closing w) true).

(** [uv_fs_close] must get a descriptor that is open and not being closed. *)
Definition close_fd d w : option world :=
  lcu_assert (bool_decide (d ∈ fds w /\ d ∉ closing w)) ≫= λ _,
  Some (World (files w) (opening w) (fds w ∖ {[d]}) (closing w) (dropped w)).
Definition set_closed o w : world :=
  World (<[o := -1]> (files w)) (opening w) (fds w) (closing w) (dropped w).

(** [file_close] in the mode that does not yield, and [file_gc]. *)
Definition file_close_now o (err : Z) w : option world :=
  match openedfile w o with
  | None => Some w
  | Some d => if err <? 0 then Some w else w ← close_fd d w; Some (set_closed o w)
  end.

(** [k_setupclosef], and the end of its request. *)
Definition k_setupclosef o (err : Z) w : option world :=
  match openedfile w o with
  | None => Some w
  | Some d =>
      if err <? 0 then Some w
      else
        lcu_assert (bool_decide (d ∈ fds w /\ d ∉ closing w)) ≫= λ _,
        Some (set_closed o (World (files w) (opening w) (fds w) ({[d]} ∪ closing w) (dropped w)))
  end.
Definition closed d w : option world :=
  lcu_assert (bool_decide (d ∈ closing w)) ≫= λ _,
  Some (World (files w) (opening w) (fds w ∖ {[d]}) (closing w ∖ {[d]}) (dropped w)).

(** The call of [read], [write], [resize] and the other functions on an object:
    they give a descriptor to libuv, which must be open. *)
Definition use_file o w : option world :=
  match openedfile w o with
  | None => Some w
  | Some d => lcu_assert (bool_decide (d ∈ fds w /\ d ∉ closing w)) ≫= λ _, Some w
  end.

Inductive action :=
  | OpenNow o (result : Z)
  | Open o (err : Z)
  | Opened o (result : Z)
  | ResumeOpening o
  | CloseNow o (err : Z)
  | Close o (err : Z)
  | Closed d
  | Use o.

Definition exec w (a : action) : option world :=
  match a with
  | OpenNow o result => system_openfile_now o result w
  | Open o err => k_setupfile o err w
  | Opened o result => on_fileopen o result w
  | ResumeOpening o => resume_opening o w
  | CloseNow o err => file_close_now o err w
  | Close o err => k_setupclosef o err w
  | Closed d => closed d w
  | Use o => use_file o w
  end.

(** An object is new; the host gives a descriptor that is not in use; a script
    resumes a coroutine that waits; a request ends once. *)
Definition fresh o w : Prop := files w !! o = None /\ opening w !! o = None.
Definition enabled w (a : action) : Prop :=
  match a with
  | OpenNow o result => fresh o w /\ result ∉ fds w
  | Open o err => fresh o w
  | Opened o result => is_Some (opening w !! o) /\ result ∉ fds w
  | ResumeOpening o => opening w !! o = Some true
  | Closed d => d ∈ closing w
  | CloseNow _ _ | Close _ _ | Use _ => True
  end.

Abbreviation reachable := (reached initial enabled exec).

(** ** Properties *)

(** The descriptor of an open object belongs to it alone; those that are being
    closed belong to nobody; without a coroutine that was dropped, there are no
    others. *)
Record inv w : Prop := {
  inv_open : forall o d, files w !! o = Some d -> 0 <= d -> d ∈ fds w /\ d ∉ closing w;
  inv_alone : forall o o' d, files w !! o = Some d -> files w !! o' = Some d -> 0 <= d -> o = o';
  inv_new : forall o, is_Some (opening w !! o) -> files w !! o = None;
  inv_closing : closing w ⊆ fds w;
  inv_owned : dropped w = false ->
    (forall o b, opening w !! o = Some b -> b = true) /\
    forall d, d ∈ fds w -> d ∈ closing w \/ exists o, files w !! o = Some d /\ 0 <= d;
}.

Lemma openedfile_some w o d : openedfile w o = Some d <-> files w !! o = Some d /\ 0 <= d.
Proof.
  unfold openedfile. destruct (files w !! o) as [d' |]; [| naive_solver].
  destruct (Z.leb_spec 0 d'); split; [by intros [= ->] | by intros [[= ->] _] | done | intros [[= ->] ?]; lia].
Qed.

(** The descriptor of an object may be closed. *)
Lemma openedfile_usable w o d :
  inv w -> openedfile w o = Some d -> bool_decide (d ∈ fds w /\ d ∉ closing w) = true.
Proof. intros Hi [Hf Hd]%openedfile_some. apply bool_decide_eq_true_2. by apply (inv_open w Hi o). Qed.

(** A new object gets a new descriptor. *)
Lemma inv_opened w o d op :
  inv w -> files w !! o = None -> d ∉ fds w -> 0 <= d ->
  (forall o', is_Some (op !! o') -> is_Some (opening w !! o') /\ o' <> o) ->
  (forall o' b, op !! o' = Some b -> opening w !! o' = Some b) ->
  inv (World (<[o := d]> (files w)) op ({[d]} ∪ fds w) (closing w) (dropped w)).
Proof.
  intros [H1 H2 H3 H4 H5] Hnew Hd Hd0 Hop Hopb.
  assert (forall o' d', files w !! o' = Some d' -> 0 <= d' -> d' <> d) as Hne.
  { intros o' d' Hf H0 ->. by destruct (H1 o' d Hf H0). }
  constructor; cbn [files opening fds closing dropped].
  - intros o' d'. rewrite lookup_insert_Some. intros [[<- <-] | [_ Hf]] H0.
    { split; [set_solver |]. intros Hc. by apply Hd, H4. }
    destruct (H1 o' d' Hf H0). set_solver.
  - intros o1 o2 d'. rewrite !lookup_insert_Some.
    intros [[<- <-] | [_ Hf1]] [[<- Hd2] | [_ Hf2]] H0; [done | | | by apply (H2 o1 o2 d')].
    + by destruct (Hne o2 d Hf2 H0).
    + subst d'. by destruct (Hne o1 d Hf1 H0).
  - intros o' Ho. destruct (Hop o' Ho) as [Ho1 Ho2]. rewrite lookup_insert_ne by done. by apply H3.
  - set_solver.
  - intros Hdr. destruct (H5 Hdr) as [Hw Hown]. split; [intros o' b Ho; by apply (Hw o'), Hopb |].
    intros d' [->%elem_of_singleton | Hin]%elem_of_union.
    + right. exists o. by rewrite lookup_insert_eq.
    + destruct (Hown d' Hin) as [? | (o' & Ho' & Hd')]; [by left | right]. exists o'.
      rewrite lookup_insert_ne; [done |]. intros ->. congruence.
Qed.

(** An object gives up its descriptor, which is closed or being closed. *)
Lemma inv_given_up w o d F C :
  inv w -> files w !! o = Some d -> 0 <= d ->
  (forall x, x ∈ F <-> x ∈ fds w /\ (x = d -> x ∈ C)) ->
  (forall x, x <> d -> x ∈ C <-> x ∈ closing w) ->
  (d ∈ C -> d ∈ F) ->
  inv (World (<[o := -1]> (files w)) (opening w) F C (dropped w)).
Proof.
  intros [H1 H2 H3 H4 H5] Hf Hd HF HC HdC.
  assert (forall o' d', <[o := -1]> (files w) !! o' = Some d' -> 0 <= d' ->
    o' <> o /\ files w !! o' = Some d' /\ d' <> d) as Hother.
  { intros o' d'. rewrite lookup_insert_Some. intros [[_ <-] | [Hne Hf']] H0; [lia |].
    split; [done |]. split; [done |]. intros ->. by destruct Hne; apply (H2 o o' d). }
  constructor; cbn [files opening fds closing dropped].
  - intros o' d' Hl H0. destruct (Hother o' d' Hl H0) as (_ & Hf' & Hne).
    destruct (H1 o' d' Hf' H0). rewrite HF, HC by done. naive_solver.
  - intros o1 o2 d' Hl1 Hl2 H0.
    destruct (Hother o1 d' Hl1 H0) as (_ & Hf1 & _), (Hother o2 d' Hl2 H0) as (_ & Hf2 & _).
    by apply (H2 o1 o2 d').
  - intros o' Ho. rewrite lookup_insert_ne; [by apply H3 |]. intros <-. rewrite (H3 o Ho) in Hf. done.
  - intros x Hx. destruct (decide (x = d)) as [-> | Hne]; [by apply HdC |].
    rewrite HF. split; [| done]. apply H4. by apply HC.
  - intros Hdr. destruct (H5 Hdr) as [Hw Hown]. split; [done |]. intros x [Hx Hxd]%HF.
    destruct (decide (x = d)) as [-> | Hne]; [left; by apply Hxd |].
    destruct (Hown x Hx) as [Hc | (o' & Ho' & Hx0)]; [left; by apply HC |]. right. exists o'.
    rewrite lookup_insert_ne; [done |]. intros <-. congruence.
Qed.

(** The requests that open files do not touch the descriptors. *)
Lemma inv_requests w op dr :
  inv w -> (forall o, is_Some (op !! o) -> files w !! o = None) ->
  (dr = false -> dropped w = false /\ forall o b, op !! o = Some b -> b = true) ->
  inv (World (files w) op (fds w) (closing w) dr).
Proof.
  intros [H1 H2 H3 H4 H5] Hop Hdr. constructor; cbn [files opening fds closing dropped]; try done.
  intros Hd. destruct (Hdr Hd) as [Hw Hb]. split; [done |]. by apply H5.
Qed.

Lemma file_step_ok w a : inv w -> enabled w a -> exists w', exec w a = Some w' /\ inv w'.
Proof.
  intros Hi He. pose proof Hi as [H1 H2 H3 H4 H5].
  destruct a as [o r | o err | o r | o | o err | o err | d | o]; cbn [exec enabled] in *.
  - destruct He as [[Hf Ho] Hr]. eexists. split; [reflexivity |].
    unfold returnopenfile, opened. destruct (Z.ltb_spec r 0); [done |]. cbn [files opening fds closing dropped].
    apply inv_opened; try done. intros o' Ho'. split; [done |]. intros ->. by destruct Ho'; congruence.
  - destruct He as [Hf Ho]. unfold k_setupfile. destruct (err <? 0); [by exists w |]. eexists. split; [reflexivity |].
    apply inv_requests; [done | |].
    + intros o' [b [[<- _] | [_ Hb]]%lookup_insert_Some]; [done | eauto].
    + intros Hdr. split; [done |]. intros o' b [[_ <-] | [_ Hb]]%lookup_insert_Some; [done |].
      by apply (proj1 (H5 Hdr) o').
  - destruct He as [[b Hb] Hr]. unfold on_fileopen. rewrite Hb. cbn [mbind option_bind].
    assert (forall o', is_Some (delete o (opening w) !! o') -> is_Some (opening w !! o') /\ o' <> o) as Hdel.
    { intros o' [b' [Hne Hb']%lookup_delete_Some]. split; [eauto | congruence]. }
    assert (forall o' b', delete o (opening w) !! o' = Some b' -> opening w !! o' = Some b') as Hdelb
      by (intros o' b' [_ ?]%lookup_delete_Some; done).
    assert (inv (World (files w) (delete o (opening w)) (fds w) (closing w) (dropped w))) as Hnone.
    { apply inv_requests; [done | intros o' Ho'; by apply H3, Hdel |].
      intros Hdr. split; [done |]. intros o' b' Hb'. by apply (proj1 (H5 Hdr) o'), Hdelb. }
    eexists. split; [reflexivity |]. unfold returnopenfile, opened. cbn [files opening fds closing dropped].
    destruct (Z.ltb_spec r 0); [by destruct b |]. destruct b; cbn [files opening fds closing dropped].
    + apply inv_opened; eauto.
    + (* the descriptor is lost *)
      destruct (dropped w) eqn:Hdr; [| discriminate (proj1 (H5 eq_refl) o false Hb)].
      constructor; cbn [files opening fds closing dropped].
      * intros o' d' Hf Hd. destruct (H1 o' d' Hf Hd). set_solver.
      * done.
      * intros o' Ho'. by apply H3, Hdel.
      * set_solver.
      * done.
  - eexists. split; [reflexivity |]. apply inv_requests; [done | | done].
    intros o' [b [[<- _] | [_ Hb]]%lookup_insert_Some]; apply H3; eauto.
  - unfold file_close_now. destruct (openedfile w o) as [d |] eqn:Ho; [| by exists w].
    destruct (err <? 0); [by exists w |]. unfold close_fd. rewrite (openedfile_usable w o d) by done.
    eexists. split; [reflexivity |]. apply openedfile_some in Ho as [Hf Hd].
    destruct (H1 o d Hf Hd) as [_ Hnc]. apply (inv_given_up w o d); try done; set_solver.
  - unfold k_setupclosef. destruct (openedfile w o) as [d |] eqn:Ho; [| by exists w].
    destruct (err <? 0); [by exists w |]. rewrite (openedfile_usable w o d) by done.
    eexists. split; [reflexivity |]. apply openedfile_some in Ho as [Hf Hd].
    destruct (H1 o d Hf Hd) as [Hin _]. apply (inv_given_up w o d); try done; set_solver.
  - unfold closed. rewrite bool_decide_eq_true_2 by done. eexists. split; [reflexivity |].
    constructor; cbn [files opening fds closing dropped]; try done.
    + intros o' d' Hf Hd. destruct (H1 o' d' Hf Hd). set_solver.
    + set_solver.
    + intros Hdr. destruct (H5 Hdr) as [Hw Hown]. split; [done |].
      intros x [Hx Hne]%elem_of_difference. destruct (Hown x Hx); [left; set_solver | by right].
  - unfold use_file. destruct (openedfile w o) as [d |] eqn:Ho; [| by exists w].
    rewrite (openedfile_usable w o d) by done. by exists w.
Qed.

Lemma file_inv w : reachable w -> inv w.
Proof.
  apply (reached_safe _ _ _ inv); [| apply file_step_ok].
  constructor; cbn; try done; try set_solver; intros *; rewrite lookup_empty; by intros ? [].
Qed.


