(* ===== verification/Modules.v ===== *)
(** * The modules for Lua (lsystemm.c, and the functions lcuM_add... and luaopen_... of all files)

    The tables of functions that scripts get, with the upvalue that each function is
    given.  [Results] has [lcuM_setfuncs] on the stack: every function of its list gets
    all the upvalues; here a table is a map and the upvalues are those that exist, the
    scheduler of the module and the name of a class.

    A function of C finds the scheduler, or the class of its objects, only in its first
    upvalue: [reads] tells what each function looks for there. *)
From stdpp Require Import gmap.
From S2P Require Import Prelude SockOps.

(** ** Tables *)

Inductive upvalue := Scheduler | ClassName (class : string).
#[export] Instance upvalue_eq_dec : EqDecision upvalue.
Proof. solve_decision. Defined.

(** A function of C, by its name in the source, and its upvalues. *)
Record closure := Closure { cfunc : string; upvalues : list upvalue }.
#[export] Instance closure_eq_dec : EqDecision closure.
Proof. solve_decision. Defined.

Abbreviation table := (gmap string closure).
Abbreviation luaL_Reg := (list (string * string)).

Definition setfuncs (ups : list upvalue) (l : luaL_Reg) (t : table) : table :=
  fold_left (fun t f => <[f.1 := Closure f.2 ups]> t) l t.

(** What [require] leaves in the state: the table of the module, the metatables that are
    new in the registry, the tables of methods that they have as [__index], and the
    tables of numbers. *)
Record library := Library {
  functions : table;
  metatables : gmap string table;
  methods : gmap string table;
  numbers : gmap string (gmap string Z);
}.
Definition no_library : library := Library ∅ ∅ ∅ ∅.

Definition add_functions ups l (m : library) : library :=
  Library (setfuncs ups l (functions m)) (metatables m) (methods m) (numbers m).
Definition luaL_newmetatable (class : string) ups l (m : library) : library :=
  Library (functions m) (<[class := setfuncs ups l ∅]> (metatables m)) (methods m) (numbers m).
Definition set_index (class : string) (t : table) (m : library) : library :=
  Library (functions m) (metatables m) (<[class := t]> (methods m)) (numbers m).
Definition set_numbers (field : string) (t : gmap string Z) (m : library) : library :=
  Library (functions m) (metatables m) (methods m) (<[field := t]> (numbers m)).

Definition LCU_MODUPVS : list upvalue := [Scheduler].
Definition LCU_PREFIX : string := "coutil:".

(** ** coutil.system *)

Definition lcuM_addchanelf : library -> library :=
  add_functions LCU_MODUPVS [("awaitch", "system_awaitch")]%string.

(** *** lcommunf.c *)

Definition addrmt : luaL_Reg :=
  [("__tostring", "addr_tostring"); ("__eq", "addr_eq"); ("__index", "addr_index");
   ("__newindex", "addr_newindex")]%string.
Definition foundmt : luaL_Reg := [("__gc", "found_gc"); ("__close", "found_gc")]%string.
Definition found : luaL_Reg :=
  [("close", "found_close"); ("next", "found_next"); ("reset", "found_reset");
   ("getaddress", "found_getaddress"); ("getdomain", "found_getdomain");
   ("getsocktype", "found_getsocktype")]%string.
Definition netinfomt : luaL_Reg :=
  [("__gc", "netinfo_gc"); ("__close", "netinfo_gc"); ("__len", "netinfo_len"); ("__call", "netinfo_call")]%string.
Definition objectmt : luaL_Reg := [("__gc", "object_gc"); ("__close", "object_gc")]%string.

(** The functions of the methods of sockets, whose tables are in [SockOps]. *)
Definition method_name (m : method) : string :=
  match m with
  | M_object_close => "object_close" | M_ipsock_getdomain => "ipsock_getdomain"
  | M_udp_getaddress => "udp_getaddress" | M_udp_bind => "udp_bind" | M_udp_setoption => "udp_setoption"
  | M_udp_connect => "udp_connect" | M_udp_write => "udp_write" | M_udp_read => "udp_read"
  | M_active_shutdown => "active_shutdown" | M_active_write => "active_write" | M_active_read => "active_read"
  | M_passive_listen => "passive_listen"
  | M_tcp_getaddress => "tcp_getaddress" | M_tcp_bind => "tcp_bind" | M_tcp_setoption => "tcp_setoption"
  | M_tcp_connect => "tcp_connect" | M_tcp_accept => "tcp_accept"
  | M_pipe_getdomain => "pipe_getdomain" | M_pipe_getaddress => "pipe_getaddress" | M_pipe_bind => "pipe_bind"
  | M_pipe_setoption => "pipe_setoption" | M_pipe_connect => "pipe_connect" | M_pipe_accept => "pipe_accept"
  | M_pipe_write => "pipe_write" | M_pipe_read => "pipe_read"
  | M_terminal_setmode => "terminal_setmode" | M_terminal_winsize => "terminal_winsize"
  end.

(** The methods and the metatable of a class of sockets. *)
Definition add_class (c : class) (m : library) : library :=
  let ups := [ClassName (class_name c)] in
  let methods := fold_left (fun t (l : bool * list (string * method)) =>
    setfuncs (if l.1 then ups else []) (prod_map id method_name <$> l.2) t) (SockOps.lcuM_addcommunf c) ∅ in
  luaL_newmetatable (class_name c) ups objectmt (set_index (class_name c) methods m).

Definition modulef : luaL_Reg := [("address", "system_address"); ("netinfo", "system_netinfo")]%string.
Definition upvaluef : luaL_Reg :=
  [("findaddr", "system_findaddr"); ("nameaddr", "system_nameaddr"); ("socket", "system_socket")]%string.

Definition lcuM_addcommunf (m : library) : library :=
  let m := luaL_newmetatable (LCU_PREFIX +:+ "netaddress") [] addrmt m in
  let m := luaL_newmetatable (LCU_PREFIX +:+ "netaddrlist") [] foundmt
    (set_index (LCU_PREFIX +:+ "netaddrlist") (setfuncs [] found ∅) m) in
  let m := luaL_newmetatable (LCU_PREFIX +:+ "netifaces") [] netinfomt m in
  let m := fold_left (fun m c => add_class c m)
    [UDPSOCKET; TCPACTIVE; TCPPASSIVE; PIPESHARE; PIPEACTIVE; PIPEPASSIVE; TERMSOCKET] m in
  add_functions LCU_MODUPVS upvaluef (add_functions [] modulef m).

(** *** lcoroutm.c, lfilef.c *)

Definition lcuM_addcoroutf : library -> library :=
  add_functions LCU_MODUPVS [("resume", "system_resume")]%string.

Definition dirinfomt : luaL_Reg :=
  [("__gc", "dirinfo_gc"); ("__close", "dirinfo_gc"); ("__call", "dirinfo_call")]%string.
Definition filemt : luaL_Reg := [("__gc", "file_gc"); ("__close", "file_gc")]%string.
Definition filef : luaL_Reg :=
  [("close", "file_close"); ("read", "file_read"); ("write", "file_write"); ("resize", "file_resize");
   ("flush", "file_flush"); ("info", "file_info"); ("touch", "file_touch"); ("own", "file_own");
   ("grant", "file_grant")]%string.
Definition file_modf : luaL_Reg :=
  [("fileinfo", "system_fileinfo"); ("listdir", "system_listdir"); ("makedir", "system_makedir");
   ("maketemp", "system_maketemp"); ("linkfile", "system_linkfile"); ("movefile", "system_movefile");
   ("copyfile", "system_copyfile"); ("openfile", "system_openfile"); ("touchfile", "system_touchfile");
   ("ownfile", "system_ownfile"); ("grantfile", "system_grantfile"); ("removefile", "system_removefile")]%string.

(** [system.filebits]: the constants of the headers, of which four may be missing. *)
Inductive mode_bits :=
  | S_IFMT | S_IFSOCK | S_IFLNK | S_IFREG | S_IFBLK | S_IFDIR | S_IFCHR | S_IFIFO | S_ISUID | S_ISGID | S_ISVTX
  | S_IRUSR | S_IWUSR | S_IXUSR | S_IRGRP | S_IWGRP | S_IXGRP | S_IROTH | S_IWOTH | S_IXOTH.
#[export] Instance mode_bits_eq_dec : EqDecision mode_bits.
Proof. solve_decision. Defined.

Definition bits : list (string * mode_bits) :=
  [("type", S_IFMT); ("socket", S_IFSOCK); ("link", S_IFLNK); ("file", S_IFREG); ("block", S_IFBLK);
   ("directory", S_IFDIR); ("character", S_IFCHR); ("pipe", S_IFIFO); ("setuid", S_ISUID); ("setgid", S_ISGID);
   ("sticky", S_ISVTX); ("ruser", S_IRUSR); ("wuser", S_IWUSR); ("xuser", S_IXUSR); ("rgroup", S_IRGRP);
   ("wgroup", S_IWGRP); ("xgroup", S_IXGRP); ("rother", S_IROTH); ("wother", S_IWOTH); ("xother", S_IXOTH)]%string.

Section system.
Context (value : mode_bits -> option Z).

Definition filebits : gmap string Z :=
  fold_left (fun t b => match value b.2 with Some v => <[b.1 := v]> t | None => t end) bits ∅.

Definition lcuM_addfilef (m : library) : library :=
  let m := luaL_newmetatable (LCU_PREFIX +:+ "file") [] filemt
    (set_index (LCU_PREFIX +:+ "file") (setfuncs [] filef ∅) m) in
  let m := set_numbers "filebits" filebits m in
  let m := luaL_newmetatable (LCU_PREFIX +:+ "dirlist") [] dirinfomt m in
  add_functions LCU_MODUPVS file_modf m.

(** *** linfof.c, lprocesf.c, lscheduf.c, ltimef.c *)

Definition cpuinfomt : luaL_Reg :=
  [("__gc", "cpuinfo_gc"); ("__close", "cpuinfo_gc"); ("__len", "cpuinfo_len"); ("__call", "cpuinfo_call")]%string.
Definition lcuM_addinfof (m : library) : library :=
  let m := luaL_newmetatable (LCU_PREFIX +:+ "uv_passwd_t") [] [("__gc", "userinfo_gc")]%string m in
  let m := luaL_newmetatable (LCU_PREFIX +:+ "cpustats") [] cpuinfomt m in
  add_functions LCU_MODUPVS [("random", "system_random")]%string
    (add_functions [] [("cpuinfo", "system_cpuinfo"); ("procinfo", "system_procinfo")]%string m).

Definition process_luaf : luaL_Reg :=
  [("getpriority", "system_getpriority"); ("setpriority", "system_setpriority"); ("getdir", "system_getdir");
   ("setdir", "system_setdir"); ("getenv", "system_getenv"); ("setenv", "system_setenv");
   ("packenv", "system_packenv"); ("unpackenv", "system_unpackenv"); ("emitsig", "system_emitsig")]%string.
Definition lcuM_addprocesf (m : library) : library :=
  let m := luaL_newmetatable (LCU_PREFIX +:+ "procesenv") [] [("__index", "procenv_index")]%string m in
  add_functions LCU_MODUPVS [("awaitsig", "system_awaitsig"); ("execute", "system_execute")]%string
    (add_functions [] process_luaf m).

Definition lcuM_addscheduf : library -> library :=
  add_functions LCU_MODUPVS
    [("run", "lcuM_run"); ("isrunning", "lcuM_isrunning"); ("halt", "lcuM_halt"); ("printall", "lcuM_printall")]%string.

Definition lcuM_addtimef (m : library) : library :=
  add_functions LCU_MODUPVS [("time", "system_time"); ("suspend", "system_suspend")]%string
    (add_functions [] [("nanosecs", "system_nanosecs")]%string m).

(** [lcuM_addstdiof] adds objects, which [StdStreams] has. *)
Definition luaopen_coutil_system : library :=
  let m := lcuM_addchanelf no_library in
  let m := lcuM_addcommunf m in
  let m := lcuM_addcoroutf m in
  let m := lcuM_addfilef m in
  let m := lcuM_addinfof m in
  let m := lcuM_addprocesf m in
  let m := lcuM_addscheduf m in
  lcuM_addtimef m.
End system.

(** ** The other modules: their tables are the methods of their objects *)

Definition new_module (class : string) (meta modf : luaL_Reg) (m : library) : library :=
  let m := add_functions [] modf m in
  set_index class (functions m) (luaL_newmetatable class [] meta m).

Definition luaopen_coutil_channel : library :=
  new_module (LCU_PREFIX +:+ "channel") [("__gc", "channel_gc"); ("__close", "channel_gc")]%string
    [("getnames", "channel_getnames"); ("create", "channel_create"); ("close", "channel_close");
     ("sync", "channel_sync"); ("getname", "channel_getname")]%string
    (luaL_newmetatable (LCU_PREFIX +:+ "lcu_ChannelTask") [] [("__gc", "channeltask_gc")]%string no_library).

Definition luaopen_coutil_coroutine : library :=
  new_module (LCU_PREFIX +:+ "coroutine") [("__gc", "coroutine_gc"); ("__close", "coroutine_gc")]%string
    [("load", "coroutine_load"); ("loadfile", "coroutine_loadfile"); ("close", "coroutine_close");
     ("status", "coroutine_status")]%string no_library.

Definition luaopen_coutil_threads : library :=
  new_module (LCU_PREFIX +:+ "threads") [("__close", "threads_close")]%string
    [("create", "threads_create"); ("close", "threads_close"); ("resize", "threads_resize");
     ("count", "threads_count"); ("dostring", "threads_dostring"); ("dofile", "threads_dofile")]%string
    (luaL_newmetatable (LCU_PREFIX +:+ "lcu_ThreadPool *") [] [("__gc", "tpoolgc_gc")]%string no_library).

(** ** What functions look for in their first upvalue *)

Inductive use := NoUpvalue | TheScheduler | TheClass.
#[export] Instance use_eq_dec : EqDecision use.
Proof. solve_decision. Defined.

(** The functions whose body, or a function that it calls or continues with, applies
    [lcu_getsched] or [lcuT_newudhdl], or copies the upvalue. *)
Definition uses_scheduler : list string :=
  ["system_awaitch"; "system_findaddr"; "system_nameaddr"; "system_socket"; "tcp_accept"; "pipe_accept"; "pipe_read";
   "system_resume"; "system_fileinfo"; "system_touchfile"; "system_ownfile"; "system_grantfile"; "system_linkfile";
   "system_movefile"; "system_copyfile"; "system_removefile"; "system_maketemp"; "system_makedir"; "system_listdir";
   "system_openfile"; "system_random"; "system_awaitsig"; "system_execute"; "lcuM_run"; "lcuM_isrunning";
   "lcuM_halt"; "lcuM_printall"; "system_time"; "system_suspend"]%string.

(** The functions that apply [toclass]. *)
Definition uses_class : list string :=
  ["object_gc"; "object_close"; "ipsock_getdomain"; "active_shutdown"; "active_write"; "active_read"; "passive_listen";
   "tcp_getaddress"; "tcp_bind"; "pipe_getdomain"; "pipe_getaddress"; "pipe_bind"; "pipe_setoption";
   "pipe_connect"]%string.

Definition reads (f : string) : use :=
  if decide (f ∈ uses_scheduler) then TheScheduler else if decide (f ∈ uses_class) then TheClass else NoUpvalue.

(** The closure, in a table of the class, has the upvalue that its function reads. *)
Definition served (class : string) (c : closure) : bool :=
  match reads (cfunc c) with
  | NoUpvalue => true
  | TheScheduler => bool_decide (head (upvalues c) = Some Scheduler)
  | TheClass => bool_decide (head (upvalues c) = Some (ClassName class))
  end.

Definition all_served (class : string) (t : table) : bool := bool_decide (map_Forall (fun _ c => served class c = true) t).
Definition all_tables (ts : gmap string table) : bool :=
  bool_decide (map_Forall (fun class t => all_served class t = true) ts).

(** The methods that make new objects for what they receive. *)
Definition receivers : list (string * string) :=
  [("coutil:tcppassive", "accept"); ("coutil:pipepassive", "accept"); ("coutil:pipeshare", "read")]%string.
Definition without_receivers (class : string) (t : table) : table :=
  filter (fun f => (class, f.1) ∉ receivers) t.

Definition plain_scheduler (c : closure) : bool := bool_decide (reads (cfunc c) = TheScheduler /\ upvalues c = []).

(** The names in the index of the manual. *)
Definition documented : list string :=
  ["address"; "awaitch"; "awaitsig"; "copyfile"; "cpuinfo"; "emitsig"; "execute"; "fileinfo"; "findaddr"; "getdir";
   "getenv"; "getpriority"; "grantfile"; "halt"; "isrunning"; "linkfile"; "listdir"; "makedir"; "maketemp"; "movefile";
   "nameaddr"; "nanosecs"; "netinfo"; "openfile"; "ownfile"; "packenv"; "procinfo"; "random"; "removefile"; "resume";
   "run"; "setdir"; "setenv"; "setpriority"; "socket"; "suspend"; "time"; "touchfile"; "unpackenv"]%string.

Lemma all_served_lookup class t name c : all_served class t = true -> t !! name = Some c -> served class c = true.
Proof. intros Ht%bool_decide_eq_true Hc. exact (Ht name c Hc). Qed.

Lemma all_tables_lookup ts class t : all_tables ts = true -> ts !! class = Some t -> all_served class t = true.
Proof. intros Ht%bool_decide_eq_true Hc. exact (Ht class t Hc). Qed.

(** C36: every function that a script finds in the module, in a metatable or among the
    methods of an object has the scheduler, or the class of the object, in its first
    upvalue if that is what it looks for there; but for the methods that make new
    objects for what they receive, which look for the scheduler and have no upvalue.
    The module has the functions of the manual, and [printall]. *)
Theorem functions_served (value : mode_bits -> option Z) :
  let m := luaopen_coutil_system value in
  (forall name c, functions m !! name = Some c -> served "" c = true) /\
  (forall class t name c, metatables m !! class = Some t -> t !! name = Some c -> served class c = true) /\
  (forall class t name c, methods m !! class = Some t -> t !! name = Some c ->
     if decide ((class, name) ∈ receivers) then reads (cfunc c) = TheScheduler /\ upvalues c = []
     else served class c = true) /\
  (forall name, is_Some (functions m !! name) <-> name ∈ "printall"%string :: documented).
Proof.
  intros m.
  assert (all_served "" (functions m) = true) as Hf by by vm_compute.
  assert (all_tables (metatables m) = true) as Hmeta by by vm_compute.
  assert (all_tables (map_imap (fun class t => Some (without_receivers class t)) (methods m)) = true) as Hmethods
    by by vm_compute.
  assert (forallb (fun r => bool_decide (plain_scheduler <$> (methods m !! r.1 ≫= lookup r.2) = Some true)) receivers
    = true) as Hrec by by vm_compute.
  assert (bool_decide (dom (functions m) = list_to_set ("printall"%string :: documented)) = true) as Hdom
    by by vm_compute.
  apply bool_decide_eq_true in Hdom.
  clearbody m. split_and!.
  - intros name c. by apply all_served_lookup.
  - intros class t name c Ht. apply all_served_lookup. by apply (all_tables_lookup (metatables m)).
  - intros class t name c Ht Hc. destruct (decide _) as [Hr | Hr].
    + rewrite forallb_forall in Hrec. apply list_elem_of_In, Hrec, bool_decide_eq_true in Hr. cbn [fst snd] in Hr.
      rewrite Ht in Hr. cbn [mbind option_bind] in Hr. rewrite Hc in Hr. injection Hr as Hr.
      by apply bool_decide_eq_true in Hr.
    + apply (all_served_lookup class (without_receivers class t) name).
      * apply (all_tables_lookup _ _ _ Hmethods). by rewrite map_lookup_imap, Ht.
      * by apply map_lookup_filter_Some.
  - intros name. rewrite <- elem_of_dom, Hdom. by rewrite elem_of_list_to_set.
Qed.

(** In the other modules no function looks for an upvalue, and none has one. *)
Definition plain (c : closure) : bool := bool_decide (reads (cfunc c) = NoUpvalue /\ upvalues c = []).
Definition all_plain (m : library) : bool :=
  let plain_table t := bool_decide (map_Forall (fun _ c => plain c = true) t) in
  plain_table (functions m) && bool_decide (map_Forall (fun _ t => plain_table t = true) (metatables m)) &&
  bool_decide (map_Forall (fun _ t => plain_table t = true) (methods m)).

Theorem other_modules_plain :
  Forall (fun m => all_plain m = true) [luaopen_coutil_channel; luaopen_coutil_coroutine; luaopen_coutil_threads].
Proof. repeat constructor; by vm_compute. Qed.

(** [system.filebits] has the constants that the headers define, under their names. *)
Lemma filebits_lookup value l t name :
  NoDup l.*1 ->
  fold_left (fun t b => match value b.2 with Some v => <[b.1 := v]> t | None => t end) l t !! name =
    match list_find (fun b : string * mode_bits => b.1 = name) l with
    | Some (_, b) => if value b.2 is Some v then Some v else (t : gmap string Z) !! name
    | None => t !! name
    end.
Proof.
  revert t. induction l as [| b l IH]; intros t; cbn [fold_left fmap list_fmap list_find]; [done |].
  intros [Hb Hl]%NoDup_cons. rewrite IH by done. destruct (decide (b.1 = name)) as [<- | Hne].
  - destruct (list_find _ l) as [[i b'] |] eqn:Hf.
    + apply list_find_Some in Hf as (Hf & He & _). destruct Hb. rewrite <- He.
      apply list_elem_of_fmap_2. by eapply list_elem_of_lookup_2.
    + destruct (value b.2); [apply lookup_insert_eq | done].
  - destruct (list_find _ l) as [[i b'] |]; cbn; destruct (value b.2); by rewrite ?lookup_insert_ne.
Qed.

Theorem filebits_exact (value : mode_bits -> option Z) (name : string) :
  filebits value !! name = (list_find (fun b : string * mode_bits => b.1 = name) bits) ≫= fun b => value b.2.2.
Proof.
  unfold filebits. rewrite filebits_lookup by (apply (bool_decide_eq_true_1 (NoDup bits.*1)); by vm_compute).
  destruct (list_find _ bits) as [[i b] |]; [| done]. cbn. by destruct (value b.2).
Qed.

(** ** Who keeps the scheduler

    [lcuT_createudhdl] gives the new object the first upvalue of the running function
    as a user value, so that the scheduler is not collected before the object. *)
Record udhdl := Udhdl { uservalue : option upvalue }.
Definition lcuT_createudhdl (running : closure) : udhdl := Udhdl (head (upvalues running)).

Definition refers (c : closure) : bool := bool_decide (Scheduler ∈ upvalues c).
Definition keeps (o : udhdl) : bool := bool_decide (uservalue o = Some Scheduler).

(** The scheduler can be reached from the metatables in the registry, or from the
    functions and objects that scripts still have. *)
Definition table_refers (t : table) : bool := existsb refers (map_to_list t).*2.
Definition reachable (m : library) (fs : list closure) (os : list udhdl) : bool :=
  existsb table_refers (map_to_list (metatables m)).*2 || existsb table_refers (map_to_list (methods m)).*2 ||
  existsb refers fs || existsb keeps os.

(** C37: an object of [system.socket] keeps the scheduler, but an object that a socket
    accepted, or that came over a pipe, does not: when it is all that a script still
    has (the module is no longer in [package.loaded]), the scheduler is garbage, whose
    finalizer closes the loop of the handle of the object. *)
Theorem accepted_loses_scheduler (value : mode_bits -> option Z) :
  let m := luaopen_coutil_system value in
  (exists c, functions m !! "socket"%string = Some c /\ reads (cfunc c) = TheScheduler /\
     reachable m [] [lcuT_createudhdl c] = true) /\
  (forall class name, (class, name) ∈ receivers ->
     exists c, methods m !! class ≫= lookup name = Some c /\ reads (cfunc c) = TheScheduler /\
       reachable m [] [lcuT_createudhdl c] = false).
Proof.
  intros m.
  assert (reachable m [] [] = false) as Hreg by by vm_compute.
  assert (functions m !! "socket"%string = Some (Closure "system_socket" [Scheduler])) as Hsocket by by vm_compute.
  assert (forallb (fun r => bool_decide (plain_scheduler <$> (methods m !! r.1 ≫= lookup r.2) = Some true)) receivers
    = true) as Hrec by by vm_compute.
  clearbody m. unfold reachable in *. rewrite !orb_false_iff in Hreg. destruct Hreg as [[[Hmeta Hmeth] _] _].
  rewrite Hmeta, Hmeth. cbn [orb existsb]. split.
  - eexists. split_and!; [exact Hsocket | |]; by vm_compute.
  - intros class name Hr. rewrite forallb_forall in Hrec.
    apply list_elem_of_In, Hrec, bool_decide_eq_true in Hr. cbn [fst snd] in Hr.
    destruct (methods m !! class ≫= lookup name) as [c |]; [| done]. injection Hr as [Hc Hu]%bool_decide_eq_true.
    exists c. split_and!; [done | done |]. unfold lcuT_createudhdl, keeps. by rewrite Hu.
Qed.
