(* ===== verification/Closing.v ===== *)
(** * The loop when its Lua state ends (src/src/loperaux.c)

    [terminateloop] is the finalizer of the scheduler.  Handles are closed without a
    callback, but libuv calls back for every request that is pending, and a coroutine
    that is resumed then may start anything: it runs while its state is being closed.
    The loop runs until nothing is left, so whether [lua_close] returns depends on the
    scripts.  What a coroutine does when it is resumed is an argument here. *)
From S2P Require Import Prelude Steps Outcome Operation OperationSys.
From stdpp Require Import relations well_founded.
Open Scope Z_scope.

Inductive phase := Open | Running | Closed.
#[export] Instance phase_eq_dec : EqDecision phase.
Proof. solve_decision. Defined.

(** ** The loop and the scripts *)

Section closing.
(** The waits that libuv ends: those for a request, and those for a timer or an idle
    handle that a coroutine started after the handles were closed.  A wait stands for
    the coroutine too, and for where it is. *)
Context {R : Type} (timer : R -> bool).

(** [Never]: a wait for something else, which may be a channel. *)
Inductive operation := Ends (r : R) | Never (async : bool).

(** What happens from [resumethread] until the coroutine yields: what it waits for next,
    what other coroutines that it resumes wait for, and whether [system.halt] is called. *)
Record resumed := Resumed { next : option operation; others : list operation; halts : bool }.
Context (after : R -> resumed).

(** The state is of a task that has used channels. *)
Context (task : bool).

(** [handles]: open handles, also those that are closing; [pending] and [never]: the
    waits in the loop; [stopped]: [uv_stop] was called in this run. *)
Record world := World {
  at_ : phase; data : bool; handles : nat; pending : list R; never : list bool;
  counters : lcu_Scheduler; stopped : bool;
}.
Implicit Types (w : world).

(** [uv_loop_alive], and when [uv_loop_close] gives [UV_EBUSY]. *)
Definition alive w : bool :=
  negb (bool_decide (handles w = 0%nat /\ pending w = [] /\ never w = [])).
Definition UV_EBUSY : Z := -16.
Definition uv_loop_close w : Z := if alive w then UV_EBUSY else 0.

(** [closehandle] of every handle: they are closed at the end of the first turn of the
    loop. *)
Definition closehandles w : world :=
  World (at_ w) (data w) 0 (pending w) (never w) (counters w) (stopped w).

(** [None]: an assertion fails. *)
Definition terminateloop_start w : option world :=
  lcu_assert (negb (data w)) ≫= fun _ =>
  if uv_loop_close w =? UV_EBUSY then
    let w := closehandles w in
    Some (World Running true (handles w) (pending w) (never w) (counters w) false)
  else Some (World Closed false (handles w) (pending w) (never w) (counters w) (stopped w)).

(** [uv_run] returns when it was stopped or when nothing is left, with whether something
    is left. *)
Definition may_return w : bool := stopped w || negb (alive w).
Definition uv_run_result w : Z := if alive w then 1 else 0.

Definition terminateloop_end w : option world :=
  let err := uv_run_result w in
  let w := World (at_ w) false (handles w) (pending w) (never w) (counters w) (stopped w) in
  let err := if 0 <=? err then uv_loop_close w else err in
  lcu_assert (0 <=? err) ≫= fun _ =>
  Some (World Closed (data w) (handles w) (pending w) (never w) (counters w) (stopped w)).

(** A coroutine starts to wait ([lcuT_armcoreq], [lcuT_armcohdl]). *)
Definition start w (o : operation) : world :=
  let s := counters w in
  match o with
  | Ends r => World (at_ w) (data w) (handles w) (pending w ++ [r]) (never w)
                (Sched (nasync s) (Z.succ (nactive s))) (stopped w)
  | Never async => World (at_ w) (data w) (handles w) (pending w) (never w ++ [async])
                (Sched (if async then Z.succ (nasync s) else nasync s) (Z.succ (nactive s))) (stopped w)
  end.

Definition uv_stop w : world :=
  World (at_ w) (data w) (handles w) (pending w) (never w) (counters w) true.

Definition checksuspend w : world :=
  if lcu_shallsuspend (counters w) && task then uv_stop w else w.

(** The callback of a wait that ended, which is no longer in the loop: [lcuU_endcoreq] and
    [lcuU_resumecoreq], or [lcuU_resumecohdl] and [closedhdl], after which [nactive] is
    not looked at unless the coroutine waits again. *)
Definition callback (r : R) w : world :=
  let s := counters w in
  let w := World (at_ w) (data w) (handles w) (pending w) (never w)
             (Sched (nasync s) (Z.pred (nactive s))) (stopped w) in
  let a := after r in
  let w := fold_left start (option_list (next a) ++ others a) w in
  let w := if halts a then uv_stop w else w in
  if timer r && bool_decide (next a = None) then w else checksuspend w.

Definition ended w (l : list R) : world :=
  World (at_ w) (data w) (handles w) l (never w) (counters w) (stopped w).

(** libuv ends any of the waits, or returns. *)
Inductive step : world -> world -> Prop :=
  | step_callback w l r l' : at_ w = Running -> pending w = l ++ r :: l' ->
      step w (callback r (ended w (l ++ l')))
  | step_return w w' : at_ w = Running -> may_return w = true ->
      terminateloop_end w = Some w' -> step w w'.
End closing.
Arguments operation : clear implicits.
Arguments resumed : clear implicits.
Arguments world : clear implicits.

Section newmodupvs.
Context {R : Type} (uv_strerror : Z -> string).

(** [lcuM_newmodupvs]: the scheduler of a new module, with [terminateloop] as its
    finalizer, for the result of [uv_loop_init]. *)
Definition lcuM_newmodupvs (err : Z) : result (world R) :=
  if err <? 0 then LuaError (uv_strerror err)
  else Ok (World Open false 0 [] [] (Sched 0 0) false).
End newmodupvs.

(** ** Properties *)
Section properties.
Context {R : Type} (timer : R -> bool) (after : R -> resumed R) (task : bool).
Implicit Types (w : world R) (r : R).

Abbreviation run := (rtc (step timer after task)).

(** All that is started when a coroutine is resumed. *)
Definition starts r : list (operation R) := option_list (next (after r)) ++ others (after r).
Definition ends_of (l : list (operation R)) : list R := omap (fun o => if o is Ends r then Some r else None) l.
Definition nevers_of (l : list (operation R)) : list bool :=
  omap (fun o => if o is Never async then Some async else None) l.

Lemma fold_start l w :
  let w' := fold_left start l w in
  at_ w' = at_ w /\ data w' = data w /\ handles w' = handles w /\ stopped w' = stopped w /\
  pending w' = pending w ++ ends_of l /\ never w' = never w ++ nevers_of l /\
  nactive (counters w') - nasync (counters w') - Z.of_nat (length (pending w')) >=
    nactive (counters w) - nasync (counters w) - Z.of_nat (length (pending w)).
Proof.
  revert w. induction l as [| o l IH]; intros w; cbn zeta; cbn [fold_left].
  - unfold ends_of, nevers_of. cbn. rewrite !app_nil_r. split_and!; [done .. | lia].
  - destruct (IH (start w o)) as (-> & -> & -> & -> & Hp & Hn & Hc). cbn zeta in *.
    destruct o as [r | async]; cbn in Hp, Hn, Hc |- *; rewrite Hp, Hn, <- !app_assoc in *; cbn [app];
      split_and!; try done; rewrite ?length_app in *; cbn in *; try destruct async; cbn in *; lia.
Qed.

(** The fields after a callback. *)
Lemma callback_fields r w :
  let w' := callback timer after task r w in
  at_ w' = at_ w /\ data w' = data w /\ handles w' = handles w /\
  pending w' = pending w ++ ends_of (starts r) /\ never w' = never w ++ nevers_of (starts r) /\
  nactive (counters w') - nasync (counters w') - Z.of_nat (length (pending w')) >=
    nactive (counters w) - nasync (counters w) - Z.of_nat (length (pending w)) - 1 /\
  (stopped w' = true -> stopped w = true \/ halts (after r) = true \/
     task = true /\ nasync (counters w') = nactive (counters w')).
Proof.
  cbn zeta. unfold callback, starts, checksuspend, lcu_shallsuspend.
  set (w1 := World (at_ w) _ _ _ _ _ _).
  pose proof (fold_start (option_list (next (after r)) ++ others (after r)) w1) as Hf. cbn zeta in Hf.
  set (w2 := fold_left start _ w1) in *. clearbody w2. subst w1. cbn in Hf.
  destruct Hf as (Hat & Hd & Hh & Hs & Hp & Hn & Hc).
  destruct (halts (after r)); cbn;
    destruct (timer r && _); cbn; [| destruct (_ && task) eqn:Hst | | destruct (_ && task) eqn:Hst];
    cbn; rewrite ?Hat, ?Hd, ?Hh, ?Hp, ?Hn, ?Hs in *; split_and!; try done; try lia; try tauto.
  all: intros _; right; right; apply andb_true_iff in Hst as [Hst ->];
    apply andb_true_iff in Hst as [_ Hst%Z.eqb_eq]; done.
Qed.

Lemma alive_false w : alive w = false <-> handles w = 0%nat /\ pending w = [] /\ never w = [].
Proof. unfold alive. rewrite negb_false_iff. apply bool_decide_eq_true. Qed.

Lemma terminateloop_end_Some w :
  terminateloop_end w = if alive w then None else
    Some (World Closed false (handles w) (pending w) (never w) (counters w) (stopped w)).
Proof.
  unfold terminateloop_end, uv_run_result, uv_loop_close.
  change (alive (World (at_ w) false (handles w) (pending w) (never w) (counters w) (stopped w))) with (alive w).
  by destruct (alive w).
Qed.

(** The finalizer runs outside of [system.run]; every wait for a request is counted. *)
Record closable w : Prop := {
  closable_data : data w = false;
  closable_never : never w = [];
  closable_counted : nasync (counters w) + Z.of_nat (length (pending w)) <= nactive (counters w);
}.

Section finite.
(** Coroutines that are resumed start only waits that end, and each chain of waits is
    finite: it has a bound, which waits have less of. *)
Context (weight : R -> nat).
Context (bounded : forall r, (sum_list_with weight (ends_of (starts r)) < weight r)%nat).
Context (all_end : forall r, nevers_of (starts r) = []).
Context (no_halt : forall r, halts (after r) = false).

Record closing_inv w : Prop := {
  inv_handles : handles w = 0%nat;
  inv_never : never w = [];
  inv_running : at_ w = Running -> (stopped w = true -> pending w = []) /\
    nasync (counters w) + Z.of_nat (length (pending w)) <= nactive (counters w);
  inv_closed : at_ w <> Running -> at_ w = Closed /\ data w = false /\ pending w = [];
}.

Lemma start_inv w : closable w -> exists w1, terminateloop_start w = Some w1 /\ closing_inv w1.
Proof.
  intros [Hd Hn Hc]. unfold terminateloop_start, uv_loop_close. rewrite Hd. cbn.
  destruct (alive w) eqn:Ha; cbn; eexists; (split; [done |]).
  - by constructor; cbn.
  - apply alive_false in Ha as (Hh & Hp & _). by constructor; cbn.
Qed.

Lemma closing_step_inv w w' : closing_inv w -> step timer after task w w' ->
  closing_inv w' /\
  (sum_list_with weight (pending w') + (if at_ w' is Running then 1 else 0) <
   sum_list_with weight (pending w) + (if at_ w is Running then 1 else 0))%nat.
Proof using bounded all_end no_halt.
  intros [Hh Hn Hr Hc] Hs. destruct Hs as [w l r l' Hat Hp | w w' Hat Hret He].
  - destruct (Hr Hat) as [Hs Hcount].
    pose proof (callback_fields r (ended w (l ++ l'))) as Hf. cbn zeta in Hf.
    set (w' := callback _ _ _ _ _) in *. clearbody w'. cbn in Hf.
    rewrite all_end, no_halt, Hn, Hat, Hh in Hf.
    destruct Hf as (Hat' & _ & Hh' & Hp' & Hn' & Hc' & Hs'). cbn in Hn'.
    assert (stopped w <> true) as Hns by (intros E; rewrite (Hs E) in Hp; by destruct l).
    rewrite Hp in Hcount. rewrite Hp', Hat', Hp, Hat. split.
    + constructor; try done.
      intros _. split; [| revert Hc' Hcount; rewrite !length_app; cbn [length]; lia].
      intros [E | [E | [_ Hsus]]]%Hs'; [by destruct (Hns E) | by destruct (diff_false_true E) |].
      cbn in Hsus. apply length_zero_iff_nil. revert Hc' Hcount; rewrite !length_app; cbn [length]; lia.
    + pose proof (bounded r) as Hb. rewrite !sum_list_with_app. cbn. lia.
  - rewrite terminateloop_end_Some in He. destruct (alive w) eqn:Ha; [done |]. injection He as <-.
    apply alive_false in Ha as (_ & Hp & _). rewrite Hp, Hat. cbn. split; [by constructor; cbn | lia].
Qed.

Lemma inv_Acc w : closing_inv w -> Acc (flip (step timer after task)) w.
Proof using bounded all_end no_halt.
  remember (sum_list_with weight (pending w) + (if at_ w is Running then 1 else 0))%nat as n eqn:Hm.
  revert w Hm. induction (lt_wf n) as [n _ IH]. intros w -> Hi. constructor. intros w' Hs.
  destruct (closing_step_inv w w' Hi Hs) as [Hi' Hlt]. by eapply IH.
Qed.

Lemma closable_closes w : closable w ->
  exists w1, terminateloop_start w = Some w1 /\ Acc (flip (step timer after task)) w1 /\
    forall w', run w1 w' ->
      (at_ w' = Closed /\ data w' = false /\ alive w' = false) \/
      (at_ w' = Running /\ (exists w'', step timer after task w' w'') /\
       (may_return w' = true -> is_Some (terminateloop_end w'))).
Proof using bounded all_end no_halt.
  intros Hw. destruct (start_inv w Hw) as (w1 & Hw1 & Hi). exists w1.
  split; [done |]. split; [by apply inv_Acc |]. intros w' Hrun.
  assert (closing_inv w') as [Hh Hn Hr Hc].
  { clear Hw1 Hw. induction Hrun as [| w1 w2 w3 Hs _ IH]; [done |]. apply IH, (closing_step_inv w1 w2 Hi Hs). }
  destruct (decide (at_ w' = Running)) as [Hat | Hat].
  - right. split; [done |]. destruct (Hr Hat) as [Hs _].
    destruct (pending w') as [| r l] eqn:Hp.
    + assert (alive w' = false) as Ha by by apply alive_false.
      pose proof (terminateloop_end_Some w') as He. rewrite Ha in He. split; [| by rewrite He].
      eexists. apply step_return; [done | | exact He]. unfold may_return. by rewrite Ha, orb_true_r.
    + split; [by eexists; apply (step_callback _ _ _ _ [] r l) |].
      unfold may_return, alive. rewrite Hp. destruct (stopped w'); [by specialize (Hs eq_refl) |].
      by rewrite bool_decide_eq_false_2 by naive_solver.
  - left. destruct (Hc Hat) as (-> & -> & Hp). split_and!; [done .. |]. by apply alive_false.
Qed.
End finite.

(** *** The waits of operations

    Between callbacks libuv calls back for the requests of operations and for the handles
    that are closing ([is_ending]); other handles are closed by the walk. *)
Definition is_ending (op : lcu_Operation) : bool :=
  match kind op with KRequest known => known | KHandle _ closing => closing end.
Definition is_handle (op : lcu_Operation) : bool := if kind op is KHandle _ _ then true else false.

(** [wait]: that of a coroutine; [requests] and [opened]: what objects have in the loop. *)
Definition loop_of (wait : thread -> R) (requests : list R) (opened : nat) (w : OperationSys.world) : world R :=
  World Open false (Z.to_nat (countm is_handle (ops w)) + opened)
    (map wait (map_to_list (filter (fun kv => is_ending kv.2 = true) (ops w))).*1 ++ requests) []
    (sched w) false.

Lemma operations_closable wait requests opened (u : OperationSys.world) :
  OperationSys.reachable false u -> Z.of_nat (length requests) <= OperationSys.others u ->
  closable (loop_of wait requests opened u).
Proof.
  intros Hr Hreq. destruct (operation_inv u Hr) as [_ Ha Hn Hot]. constructor; [done | done |].
  cbn [counters pending loop_of]. rewrite Ha, Hn, length_app, length_map, length_fmap, Nat2Z.inj_add.
  rewrite length_map_to_list.
  fold (countm is_ending (ops u)).
  rewrite <- (countm_split is_active is_async) by apply async_active.
  assert (countm is_ending (ops u) <= countm (fun op => is_active op && negb (is_async op)) (ops u)) as Hle; [| lia].
  apply countm_le. intros t op _. unfold is_ending, is_active, is_async. by destruct (kind op) as [[] | [| ty] []].
Qed.

(** While a wait that is started again each time is in the loop. *)
Record again_inv r w : Prop := {
  again_running : at_ w = Running;
  again_not_stopped : stopped w = false;
  again_pending : r ∈ pending w;
  again_counted : nasync (counters w) + Z.of_nat (length (pending w)) <= nactive (counters w);
}.

Lemma again_alive r w : r ∈ pending w -> alive w = true.
Proof.
  intros Hr. apply not_false_iff_true. rewrite alive_false. intros (_ & E & _). rewrite E in Hr.
  by apply elem_of_nil in Hr.
Qed.

Lemma again_step r w w' :
  after r = Resumed (Some (Ends r)) [] false -> (forall r, halts (after r) = false) ->
  again_inv r w -> step timer after task w w' -> again_inv r w'.
Proof.
  intros Hafter Hhalt [Hat Hns Hin Hcount] Hs. destruct Hs as [w l r' l' _ Hp | w w' _ Hret _].
  - pose proof (callback_fields r' (ended w (l ++ l'))) as Hf. cbn zeta in Hf.
    set (w' := callback _ _ _ _ _) in *. clearbody w'. cbn in Hf.
    destruct Hf as (Hat' & _ & _ & Hp' & _ & Hc' & Hs').
    assert (r ∈ pending w') as Hin'.
    { rewrite Hp'. rewrite Hp, elem_of_app, elem_of_cons in Hin. rewrite !elem_of_app.
      destruct Hin as [? | [<- | ?]]; [tauto | right | tauto]. unfold starts. rewrite Hafter. by left. }
    assert (nasync (counters w') + Z.of_nat (length (pending w')) <= nactive (counters w')) as Hcount'
      by (revert Hc' Hcount; rewrite Hp, !length_app; cbn [length]; lia).
    constructor; [congruence | | done | done].
    rewrite Hhalt in Hs'. cbn in Hs'. apply not_true_iff_false. intros [E | [E | [_ E]]]%Hs'; [congruence | done |].
    destruct (pending w'); [by apply elem_of_nil in Hin' | cbn [length] in Hcount'; lia].
  - unfold may_return in Hret. by rewrite Hns, (again_alive r) in Hret.
Qed.

(** A coroutine that waits again for the same, as one that calls [system.random] in a loop
    until the state ends, keeps [terminateloop] from returning: in no order of events does
    the loop end. *)
Theorem terminateloop_never_returns w r :
  closable w -> r ∈ pending w -> after r = Resumed (Some (Ends r)) [] false ->
  (forall r, halts (after r) = false) ->
  exists w1, terminateloop_start w = Some w1 /\
    forall w', run w1 w' -> at_ w' = Running /\ may_return w' = false /\ exists w'', step timer after task w' w''.
Proof.
  intros [Hd Hn Hc] Hr Hafter Hhalt. unfold terminateloop_start, uv_loop_close. rewrite Hd, (again_alive r) by done.
  cbn. eexists. split; [done |]. set (w1 := World _ _ _ _ _ _ _).
  assert (again_inv r w1) as Hi by by constructor.
  clearbody w1. intros w' Hrun. assert (again_inv r w') as [Hat Hs Hp _].
  { induction Hrun as [| w1 w2 w3 Hs _ IH]; [done |]. by eapply IH, again_step. }
  split; [done |]. split.
  - unfold may_return. by rewrite Hs, (again_alive r).
  - apply list_elem_of_split in Hp as (l & l' & Hp). eexists. by apply (step_callback _ _ _ _ l r l').
Qed.

(** A coroutine that is resumed while the loop is being closed, and that waits then for a
    channel: in a task the loop stops, and the assertion that it was closed fails; in
    another state [terminateloop] waits for ever.  When [lua_close] is called inside of
    [system.run] the first assertion fails. *)
Theorem terminateloop_waits_for_channel w r :
  timer r = false -> after r = Resumed (Some (Never true)) [] false ->
  data w = false -> handles w = 0%nat -> pending w = [r] -> never w = [] -> counters w = Sched 0 1 ->
  exists w1 w2, terminateloop_start w = Some w1 /\ run w1 w2 /\ at_ w2 = Running /\
    (task = true -> may_return w2 = true /\ terminateloop_end w2 = None) /\
    (task = false -> forall w3, ~ step timer after task w2 w3) /\
    terminateloop_start w2 = None.
Proof.
  intros Ht Hafter Hd Hh Hp Hn Hc. unfold terminateloop_start, uv_loop_close, alive, closehandles.
  rewrite Hd, Hh, Hp, Hn. cbn. do 2 eexists. split; [done |]. split.
  { by eapply rtc_once, (step_callback _ _ _ _ [] r []). }
  unfold callback. rewrite Hafter, Ht. cbn. rewrite Hc. unfold checksuspend. cbn. destruct task; cbn; split_and!; try done.
  intros _ w3 Hs. inversion Hs as [? l ? l' _ Hl | ? ? _ Hl _]; [by destruct l | done].
Qed.

End properties.

(** A coroutine that waits for one more request, 2 - and others. *)
Definition example_after (r : nat) : resumed nat :=
  Resumed (match r with 0 => None | S r => Some (Ends r) end)%nat [] false.
Definition example_loop : world nat := World Open false 3 [2; 0]%nat [] (Sched 1 4) false.

Lemma example_closable : closable example_loop.
Proof. by constructor. Qed.


Definition again_after (r : nat) : resumed nat := Resumed (Some (Ends r)) [] false.

Lemma terminateloop_never_returns_witness :
  exists w1, terminateloop_start example_loop = Some w1 /\
    forall w', rtc (step (fun _ => false) again_after true) w1 w' ->
      at_ w' = Running /\ may_return w' = false /\ exists w'', step (fun _ => false) again_after true w' w''.
Proof.
  apply (terminateloop_never_returns (fun _ => false) again_after true example_loop 2%nat);
    [exact example_closable | by left | reflexivity | reflexivity].
Defined.

Definition channel_after (r : nat) : resumed nat := Resumed (Some (Never true)) [] false.
Definition one_request : world nat := World Open false 0 [7%nat] [] (Sched 0 1) false.

Lemma terminateloop_waits_for_channel_witness :
  exists w1 w2, terminateloop_start one_request = Some w1 /\
    rtc (step (fun _ => false) channel_after true) w1 w2 /\ at_ w2 = Running /\
    (true = true -> may_return w2 = true /\ terminateloop_end w2 = None) /\
    (true = false -> forall w3, ~ step (fun _ => false) channel_after true w2 w3) /\
    terminateloop_start w2 = None.
Proof. by apply (terminateloop_waits_for_channel (fun _ => false) channel_after true one_request 7%nat). Defined.
