(* ===== verification/Registry.v ===== *)
(** * Values under addresses in the registry (src/src/loperaux.c)

    The registry has one table that maps each coroutine to its operation, with weak keys,
    and, under the address of a request or a handle, what must not be collected while libuv
    uses it.  [lcu_setopvalue] keeps a value in the operation of a coroutine: the channel of
    a wait that was cancelled too late (lchannem.c, [Channel]). *)
From S2P Require Import Prelude LuaApi.
From stdpp Require Import gmap.

(** Light userdata as keys: the address of the function [pushopmap], and those of requests
    and handles.  Threads and operations are identities. *)
Inductive key := OpMap | Address (a : Z).
#[export] Instance key_eq_dec : EqDecision key.
Proof. solve_decision. Defined.
#[export] Instance key_countable : Countable key.
Proof.
  refine (inj_countable' (fun k => match k with OpMap => None | Address a => Some a end)
    (fun o => match o with None => OpMap | Some a => Address a end) _).
  by intros [].
Defined.

(** A table, with [__mode] of its metatable. *)
Record optable := OpTable { mode : option string; operations : gmap positive positive }.
Inductive entry := Value (v : lvalue) | Table (t : optable).
#[export] Instance entry_eq_dec : EqDecision entry.
Proof. assert (EqDecision optable) by solve_decision. solve_decision. Defined.

(** [opvalues]: the user value of each operation. *)
Record world := World {
  registry : gmap key entry; opvalues : gmap positive lvalue; fresh : positive;
}.
Implicit Types (w : world).

Definition set_registry (r : gmap key entry) w : world := World r (opvalues w) (fresh w).

Definition savevalue (k : Z) (v : lvalue) w : world :=
  set_registry (if decide (v = LNil) then delete (Address k) (registry w)
                else <[Address k := Value v]> (registry w)) w.
Definition pushsaved (k : Z) w : lvalue :=
  match registry w !! Address k with Some (Value v) => v | _ => LNil end.
Definition freevalue (k : Z) w : world := savevalue k LNil w.
Definition savethread (t : positive) (k : Z) w : world := savevalue k (LThread t) w.

(** The table that it leaves in the stack. *)
Definition pushopmap w : optable * world :=
  match registry w !! OpMap with
  | Some (Table t) => (t, w)
  | _ =>
      let t := OpTable (Some "k"%string) ∅ in
      (t, set_registry (<[OpMap := Table t]> (registry w)) w)
  end.

Definition set_opmap (t : optable) w : world := set_registry (<[OpMap := Table t]> (registry w)) w.

(** The operation of the thread, made when it is missing: its identity. *)
Definition tothrop (t : positive) w : positive * world :=
  let (m, w) := pushopmap w in
  match operations m !! t with
  | Some op => (op, w)
  | None =>
      let op := fresh w in
      (op, World (<[OpMap := Table (OpTable (mode m) (<[t := op]> (operations m)))]> (registry w))
             (<[op := LNil]> (opvalues w)) (Pos.succ (fresh w)))
  end.

(** [None]: an assertion fails. *)
Definition lcu_setopvalue (t : positive) (v : lvalue) w : option world :=
  let (m, w) := pushopmap w in
  match operations m !! t with
  | Some op => Some (World (registry w) (<[op := v]> (opvalues w)) (fresh w))
  | None => None
  end.

Definition lcu_pushopvalue (t : positive) w : lvalue * world :=
  let (m, w) := pushopmap w in
  match operations m !! t with
  | Some op => (default LNil (opvalues w !! op), w)
  | None => (LNil, w)
  end.

(** The collector removes the entries of a table with weak keys whose keys are dead, and
    what only they refer to. *)
Definition collect (dead : gset positive) w : world :=
  match registry w !! OpMap with
  | Some (Table t) =>
      if decide (mode t = Some "k"%string) then
        set_opmap (OpTable (mode t) (filter (fun p => p.1 ∉ dead) (operations t))) w
      else w
  | _ => w
  end.

(** ** Properties *)

Inductive action :=
  | Operation (t : positive)
  | Save (k : Z) (v : lvalue)
  | Free (k : Z)
  | SetValue (t : positive) (v : lvalue)
  | PushValue (t : positive)
  | Collect (dead : gset positive).

Definition exec w (a : action) : option world :=
  match a with
  | Operation t => Some (tothrop t w).2
  | Save k v => Some (savevalue k v w)
  | Free k => Some (freevalue k w)
  | SetValue t v => lcu_setopvalue t v w
  | PushValue t => Some (lcu_pushopvalue t w).2
  | Collect dead => Some (collect dead w)
  end.

(** A thread that is in the registry is not dead. *)
Definition saved (t : positive) w : Prop := exists k, registry w !! Address k = Some (Value (LThread t)).
Definition enabled w (a : action) : Prop :=
  match a with Collect dead => forall t, saved t w -> t ∉ dead | _ => True end.

(** What other code does while [t] is saved under [k]. *)
Definition leaves (t : positive) (k : Z) (a : action) : Prop :=
  match a with Save k' _ | Free k' => k' <> k | SetValue t' _ => t' <> t | _ => True end.

Fixpoint exec_all w (l : list action) : option world :=
  match l with [] => Some w | a :: l => exec w a ≫= fun w => exec_all w l end.
Fixpoint all_enabled w (l : list action) : Prop :=
  match l with
  | [] => True
  | a :: l => enabled w a /\ forall w', exec w a = Some w' -> all_enabled w' l
  end.

(** The table of operations is weak; operations of two threads are two, and those that were
    made are not made again. *)
Record inv w : Prop := {
  inv_table : match registry w !! OpMap with
    | Some (Table m) => mode m = Some "k"%string /\
        (forall t op, operations m !! t = Some op -> (op < fresh w)%positive) /\
        (forall t t' op, operations m !! t = Some op -> operations m !! t' = Some op -> t = t')
    | Some (Value _) => False
    | None => True
    end;
}.

(** The operation of [t] has the value [v], and [t] is saved under [k]. *)
Record kept (t : positive) (k : Z) (v : lvalue) w : Prop := {
  kept_inv : inv w;
  kept_saved : registry w !! Address k = Some (Value (LThread t));
  kept_value : exists m op, registry w !! OpMap = Some (Table m) /\ operations m !! t = Some op /\
    opvalues w !! op = Some v;
}.

Lemma kept_push t k v w : kept t k v w -> lcu_pushopvalue t w = (v, w).
Proof.
  intros [_ _ (m & op & Hm & Ho & Hv)]. unfold lcu_pushopvalue, pushopmap. by rewrite Hm, Ho, Hv.
Qed.

Lemma kept_pushopmap t k v w : kept t k v w ->
  exists m op, registry w !! OpMap = Some (Table m) /\ pushopmap w = (m, w) /\
    operations m !! t = Some op /\ opvalues w !! op = Some v /\ mode m = Some "k"%string /\
    (forall t op, operations m !! t = Some op -> (op < fresh w)%positive) /\
    (forall t t' op, operations m !! t = Some op -> operations m !! t' = Some op -> t = t').
Proof.
  intros [[Hi] _ (m & op & Hm & Ho & Hv)]. rewrite Hm in Hi. destruct Hi as (Hmode & Hlt & Hinj).
  exists m, op. unfold pushopmap. by rewrite Hm.
Qed.

Lemma set_opmap_kept t k v w m m' op :
  kept t k v w -> registry w !! OpMap = Some (Table m) -> mode m' = mode m ->
  operations m' ⊆ operations m -> operations m !! t = Some op -> operations m' !! t = Some op ->
  kept t k v (set_opmap m' w).
Proof.
  intros [[Hi] Hs (m1 & op1 & Hm1 & Ho1 & Hv)] Hm Hmode Hsub Ho Ho'. rewrite Hm in Hi, Hm1.
  injection Hm1 as <-. assert (op1 = op) as -> by congruence. destruct Hi as (Hk & Hlt & Hinj).
  constructor.
  - constructor. cbn. rewrite lookup_insert_eq. split; [congruence |].
    split; [intros t1 op1 H1 | intros t1 t2 op1 H1 H2].
    + by eapply Hlt, lookup_weaken.
    + by eapply Hinj; eapply lookup_weaken.
  - cbn. by rewrite lookup_insert_ne.
  - exists m', op. cbn. by rewrite lookup_insert_eq.
Qed.

Lemma savevalue_kept t k v w k' u : kept t k v w -> k' <> k -> kept t k v (savevalue k' u w).
Proof.
  intros [[Hi] Hs Hv] Hne. unfold savevalue. case_decide; constructor; try constructor; cbn;
    rewrite ?lookup_delete_ne, ?lookup_insert_ne by congruence; done.
Qed.

Lemma tothrop_kept t k v w t' : kept t k v w -> kept t k v (tothrop t' w).2.
Proof.
  intros Hk. destruct (kept_pushopmap _ _ _ _ Hk) as (m & op & Hm & Hp & Ho & Hv & Hmode & Hlt & Hinj).
  unfold tothrop. rewrite Hp. destruct (operations m !! t') as [op' |] eqn:Ho'; cbn; [done |].
  assert (t <> t') as Hne by congruence.
  constructor.
  - constructor. cbn. rewrite lookup_insert_eq. cbn. split; [done |]. split.
    + intros t1 op1 H1. destruct (decide (t1 = t')) as [-> | Ht1].
      * rewrite lookup_insert_eq in H1. injection H1 as <-. lia.
      * rewrite lookup_insert_ne in H1 by done. specialize (Hlt _ _ H1). lia.
    + assert (forall t1, t1 <> t' -> <[t' := fresh w]> (operations m) !! t1 <> Some (fresh w)) as Hfresh.
      { intros t1 Ht1 H1. rewrite lookup_insert_ne in H1 by done. specialize (Hlt _ _ H1). lia. }
      intros t1 t2 op1 H1 H2. destruct (decide (t1 = t')) as [-> | Ht1], (decide (t2 = t')) as [-> | Ht2]; [done | | |].
      * rewrite lookup_insert_eq in H1. injection H1 as <-. by destruct (Hfresh t2).
      * rewrite lookup_insert_eq in H2. injection H2 as <-. by destruct (Hfresh t1).
      * rewrite lookup_insert_ne in H1, H2 by done. by eapply Hinj.
  - cbn. rewrite lookup_insert_ne by done. apply (kept_saved _ _ _ _ Hk).
  - eexists _, op. cbn. rewrite lookup_insert_eq. split; [done |]. cbn. split; [by rewrite lookup_insert_ne |].
    rewrite lookup_insert_ne; [done |]. specialize (Hlt _ _ Ho). lia.
Qed.

Lemma setopvalue_kept t k v w t' u w' :
  kept t k v w -> t' <> t -> lcu_setopvalue t' u w = Some w' -> kept t k v w'.
Proof.
  intros Hk Hne. destruct (kept_pushopmap _ _ _ _ Hk) as (m & op & Hm & Hp & Ho & Hv & _ & _ & Hinj).
  unfold lcu_setopvalue. rewrite Hp. destruct (operations m !! t') as [op' |] eqn:Ho'; [| done].
  intros [= <-]. destruct Hk as [[Hi] Hs _]. constructor; [by constructor | done |].
  exists m, op. split_and!; [done | done |]. cbn. rewrite lookup_insert_ne; [done |].
  intros ->. apply Hne. by eapply Hinj.
Qed.

Lemma collect_kept t k v w dead : kept t k v w -> t ∉ dead -> kept t k v (collect dead w).
Proof.
  intros Hk Ht. destruct (kept_pushopmap _ _ _ _ Hk) as (m & op & Hm & _ & Ho & _).
  unfold collect. rewrite Hm. case_decide; [| done].
  eapply set_opmap_kept; [done | exact Hm | done | apply map_filter_subseteq | exact Ho |].
  by apply map_lookup_filter_Some.
Qed.

Lemma exec_kept t k v w a w' :
  kept t k v w -> enabled w a -> leaves t k a -> exec w a = Some w' -> kept t k v w'.
Proof.
  intros Hk He Hl. destruct a as [t' | k' u | k' | t' u | t' | dead]; cbn in *.
  - intros [= <-]. by apply tothrop_kept.
  - intros [= <-]. by apply savevalue_kept.
  - intros [= <-]. by apply savevalue_kept.
  - by apply setopvalue_kept.
  - intros [= <-]. destruct (kept_pushopmap _ _ _ _ Hk) as (m & op & _ & Hp & _).
    unfold lcu_pushopvalue. rewrite Hp. by destruct (operations m !! t').
  - intros [= <-]. apply collect_kept; [done |]. apply He. exists k. apply (kept_saved _ _ _ _ Hk).
Qed.

(** A value that a coroutine keeps in its operation is there when libuv calls back, whatever
    the other coroutines do and whenever the collector runs: the coroutine is saved in the
    registry until then, so its operation is not collected. *)
Theorem opvalue_kept (t : positive) (k : Z) (v : lvalue) w w1 w2 (l : list action) :
  inv w -> registry w !! Address k = Some (Value (LThread t)) ->
  lcu_setopvalue t v w = Some w1 ->
  all_enabled w1 l -> Forall (leaves t k) l -> exec_all w1 l = Some w2 ->
  lcu_pushopvalue t w2 = (v, w2).
Proof.
  intros Hi Hs Hset He Hl Hx. apply (kept_push t k).
  assert (kept t k v w1) as Hk.
  { unfold lcu_setopvalue, pushopmap in Hset. pose proof Hi as [Ht].
    destruct (registry w !! OpMap) as [[u | m] |] eqn:Hm; [done | | by cbn in Hset].
    destruct (operations m !! t) as [op |] eqn:Ho; [| done]. injection Hset as <-.
    constructor; [constructor; cbn; by rewrite Hm | done |].
    exists m, op. cbn. by rewrite lookup_insert_eq. }
  clear w Hi Hs Hset. revert w1 He Hx Hk. induction Hl as [| a l Ha _ IH]; intros w; cbn; [naive_solver |].
  intros [Hea He] Hx Hk. destruct (exec w a) as [w' |] eqn:Hw; [| done]. cbn in Hx.
  eapply IH; [by apply He | done | by eapply exec_kept].
Qed.

(** Coroutine 1 keeps a channel; coroutine 2 gets an operation and is collected. *)
Definition example_registry : world :=
  savethread 1 100 (tothrop 1 (World ∅ ∅ 10)).2.
Definition example_actions : list action :=
  [Operation 2; Save 200 (LThread 2); SetValue 2 (LUserdata 8); Free 200; Collect {[2%positive]}; PushValue 2].

Lemma example_inv : inv example_registry.
Proof.
  constructor.
  assert (registry example_registry !! OpMap =
    Some (Table (OpTable (Some "k"%string) {[1%positive := 10%positive]}))) as -> by by vm_compute.
  cbn [mode operations]. split; [done |]. split.
  - intros t op [_ <-]%lookup_singleton_Some. by vm_compute.
  - by intros t t' op [<- _]%lookup_singleton_Some [<- _]%lookup_singleton_Some.
Qed.

Lemma not_saved t w : bool_decide (map_Forall (fun _ e => e <> Value (LThread t)) (registry w)) = true -> ~ saved t w.
Proof. intros H%bool_decide_eq_true [k Hk]. exact (H _ _ Hk eq_refl). Qed.

Lemma example_enabled w1 :
  lcu_setopvalue 1 (LUserdata 7) example_registry = Some w1 -> all_enabled w1 example_actions.
Proof.
  intros Hset. vm_compute in Hset. injection Hset as <-. cbn [all_enabled enabled example_actions].
  do 4 (split; [done |]; intros ? Hw; vm_compute in Hw; injection Hw as <-).
  split; [| by intros w _; split].
  intros t Ht ->%elem_of_singleton. revert Ht. apply not_saved. by vm_compute.
Qed.

Lemma opvalue_kept_witness :
  exists w1 w2, lcu_setopvalue 1 (LUserdata 7) example_registry = Some w1 /\
    exec_all w1 example_actions = Some w2 /\ lcu_pushopvalue 1 w2 = (LUserdata 7, w2) /\
    (lcu_pushopvalue 2 w2).1 = LNil.
Proof.
  destruct (lcu_setopvalue 1 (LUserdata 7) example_registry) as [w1 |] eqn:Hset; [| by vm_compute in Hset].
  destruct (exec_all w1 example_actions) as [w2 |] eqn:Hx;
    [| vm_compute in Hset; injection Hset as <-; by vm_compute in Hx].
  exists w1, w2. split; [done |]. split; [done |]. split.
  - apply (opvalue_kept 1 100 (LUserdata 7) example_registry w1 w2 example_actions);
      [exact example_inv | by vm_compute | exact Hset | by apply example_enabled | by repeat constructor | exact Hx].
  - vm_compute in Hset; injection Hset as <-. vm_compute in Hx. injection Hx as <-. by vm_compute.
Defined.
