(* ===== verification/Clock.v ===== *)
(** * The clocks, and a turn of the loop (src/src/ltimef.c)

    [system.nanosecs] and [system.time], and the idle handle of a coroutine that waits for
    the next turn of the loop; [Timer] has the waits that take time. *)
From Stdlib Require Import QArith Sorted.
From S2P Require Import Prelude Outcome Operation.
Open Scope Z_scope.

(** ** Timestamps *)
Section clock.
(** Numbers are the rationals of the doubles: an integer that is converted, a product, a
    quotient and a sum are rounded. *)
Context (round : Q -> Q).

(** The loop of libuv, with the time that it keeps. *)
Context {L : Type} (uv_now : L -> Z) (uv_update_time : L -> L).

(** [uint64_t] to [lua_Integer]. *)
Definition system_nanosecs (uv_hrtime : Z) : Z := wraps 64 uv_hrtime.

Definition number (z : Z) : Q := round (inject_Z z).
Definition lcu_time2sec (t : Z * Z) : Q :=
  round (number t.1 + round (number t.2 * round (1 # 1000000)))%Q.

Definition modes : list string := ["cached"; "updated"; "epoch"]%string.

(** [mode]: the argument, which may be missing; [timeofday]: what [uv_gettimeofday] returns
    and writes. *)
Definition system_time (mode : option string) (timeofday : Z * (Z * Z)) (loop : L) : result (Q * L) :=
  mode <- luaL_checkoption 1 modes (default "cached"%string mode);;
  match mode with
  | 0%nat | 1%nat =>
      let loop := if mode is 0%nat then loop else uv_update_time loop in
      Ok (round (number (uv_now loop) / 1000)%Q, loop)
  | _ =>
      let err := timeofday.1 in
      if err <? 0 then UvError err else Ok (lcu_time2sec timeofday.2, loop)
  end.

(** ** Monotony

    libuv documents that the time of the loop never goes back, neither when it is updated
    nor in a turn of the loop; rounding to a double is monotonic. *)
Context (update_later : forall l, uv_now l <= uv_now (uv_update_time l)).
Context (round_le : forall p q, (p <= q)%Q -> (round p <= round q)%Q).

Inductive event := Time (mode : option string) (timeofday : Z * (Z * Z)) | Turn (l : L).

(** The timestamps that a script gets from the clock of the loop. *)
Fixpoint timestamps (loop : L) (es : list event) : list Q :=
  match es with
  | [] => []
  | Time mode timeofday :: es =>
      match system_time mode timeofday loop with
      | Ok (t, loop') =>
          if decide (mode = Some "epoch"%string) then timestamps loop' es else t :: timestamps loop' es
      | _ => timestamps loop es
      end
  | Turn loop :: es => timestamps loop es
  end.

(** The time does not go back in a turn. *)
Fixpoint turns_later (loop : L) (es : list event) : Prop :=
  match es with
  | [] => True
  | Time mode timeofday :: es =>
      turns_later (if system_time mode timeofday loop is Ok (_, loop') then loop' else loop) es
  | Turn loop' :: es => uv_now loop <= uv_now loop' /\ turns_later loop' es
  end.

Definition seconds (t : Z) : Q := round (number t / 1000)%Q.

Lemma seconds_le t t' : t <= t' -> (seconds t <= seconds t')%Q.
Proof using round_le.
  intros Ht. unfold seconds, number. apply round_le. unfold Qdiv. apply Qmult_le_compat_r; [| done].
  apply round_le. by rewrite <- Zle_Qle.
Qed.

Lemma system_time_cases mode timeofday loop t loop' :
  system_time mode timeofday loop = Ok (t, loop') ->
  uv_now loop <= uv_now loop' /\ (mode <> Some "epoch"%string -> t = seconds (uv_now loop')).
Proof using update_later.
  unfold system_time. intros (i & Hi & H)%rbind_ok. apply luaL_checkoption_cases in Hi.
  destruct i as [| [| [| i]]]; cbn in Hi; [| | | by destruct i]; injection Hi as Hi.
  - injection H as <- <-. by split.
  - injection H as <- <-. by split; [apply update_later |].
  - destruct (timeofday.1 <? 0); [done |]. injection H as <- <-. split; [done |]. intros [].
    destruct mode; cbn in Hi; congruence.
Qed.

(** The timestamps of [system.time] that are of the clock of the loop never go back,
    whatever modes are asked for in between and however often the loop runs. *)
Theorem timestamps_monotonic loop es :
  turns_later loop es -> Sorted Qle (timestamps loop es).
Proof using update_later round_le.
  intros Hl.
  assert (Sorted Qle (timestamps loop es) /\
    forall t, t ∈ timestamps loop es -> (seconds (uv_now loop) <= t)%Q) as [H _]; [| done].
  revert loop Hl. induction es as [| [mode timeofday | loop'] es IH]; intros loop; cbn [turns_later timestamps].
  - intros _. split; [constructor | by intros t ?%elem_of_nil].
  - destruct (system_time mode timeofday loop) as [[t loop'] | | | | |] eqn:Ht; try apply IH.
    intros [Hs Hle]%IH. apply system_time_cases in Ht as [Hnow Ht].
    assert (forall t, t ∈ timestamps loop' es -> (seconds (uv_now loop) <= t)%Q) as Hle'
      by (intros; eapply Qle_trans; [by apply seconds_le | by apply Hle]).
    destruct (decide (mode = Some "epoch"%string)); [done |].
    specialize (Ht n). subst t. split.
    + constructor; [done |]. destruct (timestamps loop' es) eqn:He; constructor. apply Hle. by left.
    + intros t [-> | Hin]%elem_of_cons; [by apply seconds_le | by apply Hle'].
  - intros [Hnow [Hs Hle]%IH]. split; [done |]. intros. eapply Qle_trans; [by apply seconds_le | by apply Hle].
Qed.
End clock.

Lemma timestamps_monotonic_witness :
  let es := [Time None (0, (0, 0)); Time (Some "updated"%string) (0, (0, 0)); Time (Some "epoch"%string) (0, (5, 0));
             Turn 2000; Time None (0, (0, 0))] in
  timestamps (fun q => q) (fun l => l) (fun l => l + 500) 1000 es =
    [1000 # 1000; 1500 # 1000; 2000 # 1000]%Q /\
  Sorted Qle (timestamps (fun q => q) (fun l => l) (fun l => l + 500) 1000 es).
Proof.
  split; [reflexivity |]. apply (timestamps_monotonic (fun q => q) (fun l => l) (fun l => l + 500)).
  - intros l. lia.
  - done.
  - cbn. split; [lia | done].
Defined.

(** ** The next turn of the loop *)

Definition UV_IDLE : uv_handle_type := UV_OTHER 6.

(** [init], [start]: what [uv_idle_init] and [uv_idle_start] return; [lcuL_pusherrres] pushes
    three values. *)
Definition k_setupidle (loop : bool) (init start : Z) : hdl_setup :=
  if loop then
    let err := if 0 <=? init then start else init in
    HdCall init (if err <? 0 then 3 else -1)
  else HdNow (-1).

(** [system.suspend] of a time that is not positive: the setup gets the loop unless the
    coroutine has an idle handle. *)
Definition suspend_idle (init start : Z) (s : lcu_Scheduler) (op : lcu_Operation) :=
  let loop := match checkreset false (Some UV_IDLE) s op with Some (SAMEOP, _) => false | _ => true end in
  lcuT_resetcohdlk (k_setupidle loop init start) UV_IDLE false s op.

(** [uv_onidle]: the coroutine is resumed, and suspends itself again or not. *)
Definition uv_onidle (again : option (Z * Z)) (s : lcu_Scheduler) (op : lcu_Operation) :=
  r ← resumecohdl_start (SetupHdl (HdNow (-1)) UV_IDLE) s op;
  r ← (match again with Some (init, start) => suspend_idle init start r.1 r.2 | None => Some r end);
  resumecohdl_end r.1 r.2.

Fixpoint turns (calls : list (Z * Z)) (s : lcu_Scheduler) (op : lcu_Operation) :=
  match calls with
  | [] => Some (s, op)
  | c :: calls => r ← uv_onidle (Some c) s op; turns calls r.1 r.2
  end.

(** A coroutine that waits for turns of the loop, any number of times, uses one handle, that
    is initialised and counted once and closed when the coroutine does something else; when
    libuv fails the call returns its error and no handle is left. *)
Theorem idle_handle_reused (init start : Z) (s : lcu_Scheduler) :
  if (0 <=? init) && (0 <=? start) then
    exists op, suspend_idle init start s new_operation = Some (Sched (nasync s) (Z.succ (nactive s)), op) /\
      (forall calls, turns calls (Sched (nasync s) (Z.succ (nactive s))) op =
         Some (Sched (nasync s) (Z.succ (nactive s)), op)) /\
      exists op1 op2, uv_onidle None (Sched (nasync s) (Z.succ (nactive s))) op =
          Some (Sched (nasync s) (Z.succ (nactive s)), op1) /\
        closedhdl (Sched (nasync s) (Z.succ (nactive s))) op1 = Some (false, (s, op2)) /\
        kind op2 = KRequest false /\ saved op2 = false
  else
    exists s1 op, suspend_idle init start s new_operation = Some (s1, op) /\ cont op = None /\
      if 0 <=? init then kind op = KHandle UV_IDLE true /\ exists op2, closedhdl s1 op = Some (false, (s, op2)) /\
        kind op2 = KRequest false /\ saved op2 = false
      else s1 = s /\ kind op = KRequest false /\ saved op = false.
Proof.
  destruct s as [na nc]. assert (Sched na nc = Sched na (Z.succ nc - 1)) as Hclosed by (f_equal; lia). unfold suspend_idle. cbn [nasync nactive].
  change (checkreset false (Some UV_IDLE) (Sched na nc) new_operation)
    with (Some (FREEOP, (Sched na nc, new_operation))). cbn [fst snd].
  unfold lcuT_resetcohdlk.
  change (checkreset false (Some UV_IDLE) (Sched na nc) new_operation)
    with (Some (FREEOP, (Sched na nc, new_operation))). cbn [mbind option_bind].
  unfold startcohdlk, k_setupidle, run_hdl_setup, lcuT_armcohdl.
  rewrite Z.geb_leb.
  destruct (Z.leb_spec 0 init) as [Hi | Hi]; cbn [andb]; [destruct (Z.leb_spec 0 start) as [Hs | Hs] |].
  - rewrite (proj2 (Z.ltb_ge start 0)) by lia. cbn. eexists. split; [reflexivity |]. split.
    + intros calls. induction calls as [| [i st] calls IH]; [reflexivity |]. cbn [turns].
      match goal with |- context[uv_onidle ?a ?b ?c] =>
        replace (uv_onidle a b c) with (Some (b, c)) by reflexivity end.
      exact IH.
    + eexists _, _. split; [reflexivity |]. split; [rewrite Hclosed; reflexivity | done].
  - rewrite (proj2 (Z.ltb_lt start 0)) by lia. cbn. eexists _, _. split; [reflexivity |]. split; [done |].
    split; [done |]. eexists. split; [rewrite Hclosed; reflexivity | done].
  - rewrite (proj2 (Z.ltb_lt init 0)) by lia. cbn. eexists _, _. split; [reflexivity |]. by repeat split.
Qed.
