(* ===== verification/Resume.v ===== *)
(** * The values of a state coroutine (src/src/lcoroutm.c)

    [system.resume] copies its arguments to the stack of the state, a thread of libuv runs
    it, and what it returns or yields is copied back to the coroutine that waits.  The
    stacks are those of [LuaApi], the copies those of [Transfer]; who has the state
    meanwhile, and when it is closed, is in [Coroutine].  Warnings are in [Results]. *)
From S2P Require Import Prelude LuaApi Transfer Results Coroutine.

Import Coroutine.Life (costatus(..)).
#[local] Existing Instance Coroutine.Life.costatus_eq_dec.

Section resume.
Context {St : Type} `{!LuaStack St}.
(** Memory of the host, the slots of the protected calls, and [uv_strerror]. *)
Context (mem : nat -> bool) (memmsg : lvalue) (aux : list lvalue) (strerror : Z -> string).

(** [lua_resume] of a state with a status and the values of its stack (the function, when it
    did not start, and the arguments): the new status, what stays in the stack, and the
    values returned or yielded, or the error. *)
Context (lua_resume : costatus -> list lvalue -> costatus * (list lvalue * list lvalue)).

(** The thread of the state, its stack and that of its main thread. *)
Record costate := Costate { status : costatus; stack : St; main : St }.
Implicit Types (L T : St) (co : costate).

Definition set_stack s co : costate := Costate (status co) s (main co).

(** The state that makes protected calls for the thread. *)
Definition state2normal co : option St := match status co with CYIELD => Some (main co) | _ => None end.

(** The results are those of the setup: negative when the work was queued; [queued]: what
    [uv_queue_work] returns. *)
Definition k_setupwork (queued : Z) L co : option (Z * St * costate) :=
  let narg := (lua_gettop L - 1)%nat in
  r ← lcuL_movefrom mem memmsg aux (state2normal co) (stack co) L narg "argument";
  let '(st, C, costack, L) := (r : lua_status * option St * St * St) in
  let co := Costate (status co) costack (default (main co) C) in
  if negb (bool_decide (st = LUA_OK)) then
    let L := lua_push L (LBoolean false) in
    let '(_, _, L) := lcuL_pushfrom mem memmsg aux None L (stack co) (-1) "error" in
    Some (2, L, set_stack (lua_pop (stack co) 1) co)
  else if queued <? 0 then
    let r := Results.lcuL_pusherrres strerror L queued in
    Some (Z.of_nat r.1, r.2, set_stack (lua_pop (stack co) narg) co)
  else Some (-1, L, co).

(** The numbers of [lua_Status]. *)
Definition status_code (st : costatus) : Z := match st with COK => 0 | CYIELD => 1 | CERR => 2 end.

Definition uv_onworking co : option costate :=
  let '(st, (below, res)) := lua_resume (status co) (values (stack co)) in
  let s := push_all (lua_settop (stack co) 0) (below ++ res) in
  lcu_assert (lua_checkstack s 2) ≫= fun _ =>
  let s := lua_push s (LInteger (Z.of_nat (length res))) in
  Some (Costate st (lua_push s (LInteger (status_code st))) (main co)).

Definition keep_function co : nat := if status co is COK then 1%nat else 0%nat.

(** [uv_onworked], for the coroutine that waits, if there is one: its stack and that of the
    state.  [L]: the state that runs the loop. *)
Definition uv_onworked (canceled : bool) L (thread : option St) co : option (option St * costate) :=
  match thread with
  | Some T =>
      if canceled then
        let co := set_stack (lua_settop (stack co) (keep_function co)) co in
        Some (Some (lua_push (lua_push T (LBoolean false)) (LString "canceled")), co)
      else
        let lstatus := lua_tointeger (stack co) (-1) in
        let nret := Z.to_nat (lua_tointeger (stack co) (-2)) in
        let co := set_stack (lua_pop (stack co) 2) co in
        if (lstatus =? 0) || (lstatus =? 1) then
          let T := lua_push T (LBoolean true) in
          r ← lcuL_movefrom mem memmsg aux (Some L) T (stack co) nret "return value";
          let '(st, _, T, costack) := (r : lua_status * option St * St * St) in
          let co := set_stack costack co in
          if negb (bool_decide (st = LUA_OK)) then
            let co := set_stack (lua_pop (stack co) nret) co in
            let T := lua_push T (LBoolean false) in
            Some (Some (lua_replace T (lua_absindex T (-3))), co)
          else Some (Some T, co)
        else
          let T := lua_push T (LBoolean false) in
          let '(st, _, T) := lcuL_pushfrom mem memmsg aux (Some L) T (stack co) (-1) "error" in
          let co := if negb (bool_decide (st = LUA_OK)) then set_stack (lua_pop (stack co) 1) co else co in
          Some (Some T, co)
  | None =>
      Some (None, set_stack (lua_settop (stack co) (if canceled then keep_function co else 0%nat)) co)
  end.

(** [k_endudreq] of a coroutine that the scheduler resumes, with [returnvalues]: what the
    call returns.  [kctx]: the slot of the scheduler. *)
Definition k_endudreq (sched : positive) (kctx : nat) T : list lvalue :=
  let T := lua_push T (LLightUserdata (Some sched)) in
  let token := lua_touserdata T (Z.of_nat kctx) in
  let T := lua_remove T kctx in
  if bool_decide (lua_touserdata T (-1) = token) then drop 1 (values (lua_pop T 1))
  else drop (kctx - 1) (values T).

(** [lcuT_resetudreqk] of an object that is free, with the object and the arguments in the
    stack [T]: what the call returns, and the state.  [canceled]: the work was taken off the
    queue before it ran. *)
Definition resume_work (queued : Z) (canceled : bool) (sched : positive) L T co
    : option (list lvalue * costate) :=
  r ← k_setupwork queued T co;
  let '(nret, T, co) := (r : Z * St * costate) in
  if 0 <=? nret then Some (drop (lua_gettop T - Z.to_nat nret) (values T), co)
  else
    let T := lua_push T (LLightUserdata (Some sched)) in
    co ← (if canceled then Some co else uv_onworking co);
    r ← uv_onworked canceled L (Some T) co;
    T' ← r.1; Some (k_endudreq sched (lua_gettop T) T', r.2).

Definition suspended co : bool :=
  match status co with
  | COK => negb (lua_gettop (stack co) =? 0)%nat
  | CYIELD => true
  | CERR => false
  end.

(** [running]: a worker has the state; [co]: the field [L]. *)
Definition system_resume (running : bool) (queued : Z) (canceled : bool) (sched : positive) L T (co : option costate)
    : option (list lvalue * option costate) :=
  let errmsg msg := Some (drop (lua_gettop T) (values (lua_push (lua_push T (LBoolean false)) (LString msg))), co) in
  if running then errmsg "cannot resume running coroutine"
  else match co with
       | Some co =>
           if suspended co then
             r ← resume_work queued canceled sched L T co; Some (r.1, Some r.2)
           else errmsg "cannot resume dead coroutine"
       | None => errmsg "cannot resume dead coroutine"
       end.

(** ** Properties *)
Context (Haux : length aux = 4%nat) (Hmem : forall i, mem i = true).

(** There is room for [n] values and the protected call. *)
Definition fits (n : nat) : Prop := forall s : St,
  lua_checkstack s (if (3 <? n)%nat then n + 1 + EXTRA else 4 + EXTRA)%nat = true /\
  lua_checkstack s (n + EXTRA)%nat = true.

Lemma movefrom_loop_message n k from idx msg st e :
  movefrom_loop mem memmsg n k from idx msg = inl (st, e) -> exists msg, e = LString msg.
Proof using Hmem.
  revert k idx. induction n as [| n IH]; intros k idx; cbn [movefrom_loop]; [done |].
  destruct (pushfrom _ _ _); [intros [= _ <-]; eauto |]. rewrite Hmem.
  destruct (movefrom_loop mem memmsg n (S k) from (idx + 1) msg) as [[] |] eqn:E; [| done].
  intros [= <- <-]. by eapply IH.
Qed.

(** Values that are moved: all of them, or a message. *)
Lemma move_result C to from l vs msg :
  values from = l ++ vs -> fits (length vs) ->
  exists st C' to' from', lcuL_movefrom mem memmsg aux C to from (length vs) msg = Some (st, C', to', from') /\
    bool_decide (st = LUA_OK) = forallb transferable vs /\
    if forallb transferable vs then values from' = l /\ values to' = values to ++ vs
    else from' = from /\ exists msg, values to' = values to ++ [LString msg].
Proof using Haux Hmem.
  intros Hf Hfits. unfold lcuL_movefrom. rewrite lcu_assert_true; cbn [mbind option_bind]; last first.
  { apply Nat.leb_le. unfold lua_gettop. rewrite Hf, length_app. lia. }
  rewrite (proj1 (Hfits (default to C))), (proj2 (Hfits to)). cbn [negb orb].
  rewrite (auxmovefrom_eq mem memmsg from l vs msg Hf).
  destruct (movefrom_loop mem memmsg (length vs) 0 from _ msg) as [[st e] | ws] eqn:Hr.
  - destruct (movefrom_loop_failed mem memmsg _ _ _ l vs msg st e Hf eq_refl Hr) as [Hne Hno].
    destruct (movefrom_loop_message _ _ _ _ _ _ _ Hr) as [m ->].
    assert (forallb transferable vs = false) as ->.
    { apply not_true_iff_false. rewrite forallb_forall. intros Hall. apply (Hno Hmem), Forall_forall.
      intros v Hv. by apply Hall, list_elem_of_In. }
    pose proof (pcall3_values (default to C) aux (inl (st, LString m)) Haux) as Hp.
    unfold pcall3 in *. cbn [snd] in *. rewrite !(decide_False (P := st = LUA_OK)) by done.
    destruct C as [C |]; cbn [default from_option] in *.
    + destruct (xmove_values _ to _ _ 1 Hp eq_refl) as [_ H2].
      destruct (lua_xmove _ to 1) as [C' to']. eexists _, _, _, _. split; [done |].
      split; [by apply bool_decide_eq_false |]. eauto.
    + eexists _, _, _, _. split; [done |]. split; [by apply bool_decide_eq_false |]. eauto.
  - destruct (movefrom_loop_ok mem memmsg _ _ _ l vs msg ws Hf eq_refl Hr) as [-> Ht].
    assert (forallb transferable vs = true) as ->
      by (apply forallb_forall; intros v Hv; by apply Ht, list_elem_of_In).
    pose proof (pcall3_values (default to C) aux (inr vs) Haux) as Hp.
    unfold pcall3 in *. cbn [snd] in *. rewrite !decide_True by done.
    assert (values (lua_pop from (length vs)) = l) as Hpop by by apply values_pop with vs.
    destruct C as [C |]; cbn [default from_option] in *.
    + destruct (xmove_values _ to _ _ (length vs) Hp eq_refl) as [_ H2].
      destruct (lua_xmove _ to (length vs)) as [C' to']. eexists _, _, _, _. split; [done |]. done.
    + eexists _, _, _, _. split; [done |]. done.
Qed.

(** The value on the top is copied, or there is a message. *)
Lemma push_result C to from l v msg :
  values from = l ++ [v] -> (forall s : St, lua_checkstack s 4 = true) ->
  exists st C' to', lcuL_pushfrom mem memmsg aux C to from (-1) msg = (st, C', to') /\
    bool_decide (st = LUA_OK) = transferable v /\
    values to' = values to ++ [if transferable v then v else LString (doerrmsg (-1) msg (luaL_typename (Some v)))].
Proof using Haux Hmem.
  intros Hf Hroom. unfold lcuL_pushfrom. rewrite Hroom. cbn [negb].
  unfold auxpushfrom. rewrite (at_top from l v [] (-1)), pushfrom_spec, Hmem by done.
  set (r := match _ with inl _ => _ | inr _ => _ end).
  pose proof (pcall3_values (default to C) aux r Haux) as Hp.
  assert (bool_decide ((pcall3 (default to C) aux r).1 = LUA_OK) = transferable v) as Hst
    by (subst r; destruct (transferable v); reflexivity).
  assert (match r with inr vs => vs | inl (_, e) => [e] end =
    [if transferable v then v else LString (doerrmsg (-1) msg (luaL_typename (Some v)))]) as Hv
    by (subst r; destruct (transferable v); reflexivity).
  rewrite Hv in Hp. clearbody r. destruct (pcall3 _ aux r) as [st C'] eqn:Hc. cbn [fst snd] in *.
  destruct C as [C |]; cbn [default from_option] in *.
  - destruct (xmove_values _ to _ _ 1 Hp eq_refl) as [_ H2]. destruct (lua_xmove C' to 1) as [C2 to'].
    eexists _, _, _. split; [done |]. done.
  - eexists _, _, _. split; [done |]. done.
Qed.

(** The arguments reach the state, or its stack is as it was. *)
Lemma setup_result queued L co o args :
  values L = o :: args -> fits (length args) -> (forall s : St, lua_checkstack s 4 = true) ->
  exists nret L' co', k_setupwork queued L co = Some (nret, L', co') /\
    status co' = status co /\
    if negb (forallb transferable args) then
      nret = 2 /\ values (stack co') = values (stack co) /\
      exists msg, values L' = values L ++ [LBoolean false; LString msg]
    else if queued <? 0 then
      nret = 3 /\ values (stack co') = values (stack co) /\
      values L' = o :: [LBoolean false; LString (strerror queued); LInteger (- queued)]
    else nret = -1 /\ values (stack co') = values (stack co) ++ args /\ values L' = [o].
Proof using Haux Hmem.
  intros HL Hfits Hroom. unfold k_setupwork.
  assert ((lua_gettop L - 1)%nat = length args) as -> by (unfold lua_gettop; rewrite HL; cbn; lia).
  destruct (move_result (state2normal co) (stack co) L [o] args "argument" HL Hfits)
    as (st & C & s' & L' & -> & Hst & Hv).
  cbn [mbind option_bind]. rewrite Hst. cbn [stack status].
  destruct (forallb transferable args); cbn [negb] in Hv |- *.
  - destruct Hv as [HL' Hs']. destruct (queued <? 0).
    + eexists _, _, _. split; [done |]. cbn [status set_stack stack fst snd]. split; [done |]. split; [done |].
      split; [by apply values_pop with args |].
      unfold Results.lcuL_pusherrres, Results.lcu_pusherror. cbn [snd]. by rewrite !values_push, HL', <- !app_assoc.
    + eexists _, _, _. split; [done |]. cbn [status stack]. done.
  - destruct Hv as [-> [m Hs']].
    destruct (push_result None (lua_push L (LBoolean false)) s' (values (stack co)) (LString m) "error" Hs' Hroom)
      as (st' & C' & L' & -> & _ & Hp).
    eexists _, _, _. split; [done |]. cbn [status set_stack stack]. split; [done |]. split; [done |].
    split; [by apply values_pop with [LString m] |]. exists m. by rewrite Hp, values_push, <- app_assoc.
Qed.

(** The numbers on top of the stack when the work is done, and the values below them. *)
Lemma onworking_stack co st below res :
  lua_resume (status co) (values (stack co)) = (st, (below, res)) ->
  (forall s : St, lua_checkstack s 2 = true) ->
  exists co', uv_onworking co = Some co' /\ status co' = st /\
    lua_tointeger (stack co') (-1) = status_code st /\
    lua_tointeger (stack co') (-2) = Z.of_nat (length res) /\
    values (lua_pop (stack co') 2) = below ++ res.
Proof using.
  intros Hr Hroom. unfold uv_onworking. rewrite Hr, lcu_assert_true by apply Hroom.
  cbn [mbind option_bind]. eexists. split; [done |]. cbn [status stack].
  set (s := lua_push _ (LInteger (status_code st))).
  assert (values s = (below ++ res) ++ [LInteger (Z.of_nat (length res)); LInteger (status_code st)]) as Hs.
  { subst s. rewrite !values_push, values_push_all, values_settop, resize_0. cbn [app]. by rewrite <- app_assoc. }
  clearbody s. unfold lua_tointeger.
  rewrite (at_top s ((below ++ res) ++ [LInteger (Z.of_nat (length res))]) (LInteger (status_code st)) [] (-1))
    by (done || by rewrite Hs, <- (app_assoc (below ++ res))).
  rewrite (at_top s (below ++ res) (LInteger (Z.of_nat (length res))) [LInteger (status_code st)] (-2)) by done.
  split_and!; [done .. |]. eapply values_pop; [exact Hs | done].
Qed.

(** What the coroutine that waits finds above its stack, [vs], and what is left in the state. *)
Lemma worked_result L T co st below res :
  lua_resume (status co) (values (stack co)) = (st, (below, res)) ->
  (st = CERR -> exists e, res = [e]) -> fits (length res) ->
  (forall s : St, lua_checkstack s 2 = true) -> (forall s : St, lua_checkstack s 4 = true) ->
  exists co1 T' co', uv_onworking co = Some co1 /\ uv_onworked false L (Some T) co1 = Some (Some T', co') /\
    status co' = st /\
    (exists vs, values T' = values T ++ vs /\
      if bool_decide (st = CERR) then
        if forallb transferable res then vs = LBoolean false :: res /\ values (stack co') = below ++ res
        else values (stack co') = below /\ exists msg, vs = [LBoolean false; LString msg]
      else values (stack co') = below /\
        if forallb transferable res then vs = LBoolean true :: res
        else exists msg, vs = [LBoolean false; LString msg]).
Proof using Haux Hmem.
  intros Hr Herr Hfits Hroom2 Hroom.
  destruct (onworking_stack co st below res Hr Hroom2) as (co1 & Hco1 & Hst1 & H1 & H2 & Hs2).
  exists co1. unfold uv_onworked. rewrite H1, H2, Nat2Z.id.
  unfold set_stack. cbn [status stack main]. rewrite Hst1.
  assert ((status_code st =? 0) || (status_code st =? 1) = negb (bool_decide (st = CERR))) as -> by by destruct st.
  destruct (decide (st = CERR)) as [-> | Hst].
  - rewrite bool_decide_true by done. cbn [negb]. destruct (Herr eq_refl) as [e ->].
    destruct (push_result (Some L) (lua_push T (LBoolean false)) (lua_pop (stack co1) 2) below e "error" Hs2 Hroom)
      as (st' & C' & T' & -> & Hst' & Hp).
    rewrite Hst'. eexists _, _. split; [exact Hco1 |]. split; [done |]. split; [by destruct (transferable e) |].
    rewrite values_push, <- app_assoc in Hp. eexists. split; [exact Hp |]. cbn [forallb].
    rewrite andb_true_r. destruct (transferable e); cbn [negb stack]; [done |].
    split; [by apply values_pop with [e] | eauto].
  - rewrite bool_decide_false by done. cbn [negb].
    destruct (move_result (Some L) (lua_push T (LBoolean true)) (lua_pop (stack co1) 2) below res "return value" Hs2 Hfits)
      as (st' & C' & T' & s' & -> & Hst' & Hv).
    cbn [mbind option_bind]. rewrite Hst'. destruct (forallb transferable res); cbn [negb stack].
    + destruct Hv as [Hs' HT']. eexists _, _. split; [exact Hco1 |]. split; [done |]. split; [done |].
      eexists. split; [| done]. by rewrite HT', values_push, <- app_assoc.
    + destruct Hv as [-> [m HT']]. eexists _, _. split; [exact Hco1 |]. split; [done |]. cbn [status stack]. split; [done |].
      exists [LBoolean false; LString m]. split; [| split; [by apply values_pop with res | eauto]].
      rewrite values_push, <- app_assoc in HT'. cbn [app] in HT'.
      apply (values_replace_app _ (values T) (LBoolean true) [LString m] (LBoolean false)).
      * rewrite values_push, HT'. by rewrite <- app_assoc.
      * unfold lua_absindex, lua_gettop. rewrite values_push, HT', !length_app. cbn. lia.
Qed.

Lemma returned_top T below vs n :
  values T = below ++ vs -> length vs = n -> drop (lua_gettop T - n) (values T) = vs.
Proof using.
  intros HT <-. unfold lua_gettop. rewrite HT, length_app, Nat.add_sub. apply drop_app_length.
Qed.

(** The coroutine returns what was pushed for it. *)
Lemma endudreq_returns sched T o vs :
  values T = [o; LLightUserdata (Some sched)] ++ vs -> k_endudreq sched 2 T = vs.
Proof using.
  intros HT. unfold k_endudreq.
  assert (values (lua_push T (LLightUserdata (Some sched))) =
    [o] ++ LLightUserdata (Some sched) :: vs ++ [LLightUserdata (Some sched)]) as H1
    by by rewrite values_push, HT.
  pose proof (values_remove _ _ _ _ H1) as H2. cbn in H2.
  unfold lua_touserdata.
  change (Z.of_nat 2) with (Z.of_nat (length [o] + 1)). rewrite (at_app _ [o] _ _ H1). rewrite (at_top _ (o :: vs) (LLightUserdata (Some sched)) [] (-1)) by done.
  rewrite bool_decide_true by done. rewrite (values_pop _ (o :: vs) [LLightUserdata (Some sched)]) by done. done.
Qed.

(** Without a message on its stack, the scheduler is what is overwritten. *)
Lemma overwritten_returns sched T o :
  values T = [o; LLightUserdata (Some sched)] ->
  let T' := lua_push (lua_push T (LBoolean true)) (LBoolean false) in
  k_endudreq sched 2 (lua_replace T' (lua_absindex T' (-3))) = [LBoolean true; LLightUserdata (Some sched)].
Proof using.
  intros HT T'.
  assert (values T' = [o] ++ LLightUserdata (Some sched) :: [LBoolean true] ++ [LBoolean false]) as HT'
    by (subst T'; by rewrite !values_push, HT).
  assert (values (lua_replace T' (lua_absindex T' (-3))) = [o; LBoolean false; LBoolean true]) as Hr.
  { apply (values_replace_app T' [o] (LLightUserdata (Some sched)) [LBoolean true] (LBoolean false) _ HT').
    unfold lua_absindex, lua_gettop. by rewrite HT'. }
  clearbody T'. set (R := lua_replace _ _) in *. clearbody R. unfold k_endudreq.
  assert (values (lua_push R (LLightUserdata (Some sched))) =
    [o] ++ LBoolean false :: [LBoolean true; LLightUserdata (Some sched)]) as H1 by by rewrite values_push, Hr.
  pose proof (values_remove _ _ _ _ H1) as H2. cbn in H2. unfold lua_touserdata.
  change (Z.of_nat 2) with (Z.of_nat (length [o] + 1)). rewrite (at_app _ [o] _ _ H1).
  rewrite (at_top _ [o; LBoolean true] (LLightUserdata (Some sched)) [] (-1)) by done.
  rewrite bool_decide_false by done. by rewrite H2.
Qed.

(** What a call gives, and what it leaves in the stack of the state. *)
Definition resume_spec (queued : Z) (canceled : bool) co (args : list lvalue) (vs : list lvalue) co' : Prop :=
  let base := values (stack co) in
  let failed := exists msg, vs = [LBoolean false; LString msg] in
  if negb (forallb transferable args) then failed /\ values (stack co') = base /\ status co' = status co
  else if queued <? 0 then
    vs = [LBoolean false; LString (strerror queued); LInteger (- queued)] /\
    values (stack co') = base /\ status co' = status co
  else if canceled then
    vs = [LBoolean false; LString "canceled"] /\
    values (stack co') = take (keep_function co) base /\ status co' = status co
  else
    let '(st, (below, res)) := lua_resume (status co) (base ++ args) in
    status co' = st /\
    if bool_decide (st = CERR) then
      if forallb transferable res then vs = LBoolean false :: res /\ values (stack co') = below ++ res
      else failed /\ values (stack co') = below
    else
      values (stack co') = below /\
      if forallb transferable res then vs = LBoolean true :: res else failed.

Lemma work_transfers (queued : Z) (canceled : bool) (sched : positive) L T co (o : lvalue) (args : list lvalue)
    (HT : values T = o :: args)
    (Hroom : forall n (s : St), lua_checkstack s n = true)
    (Hbase : status co = COK -> exists f, values (stack co) = [f])
    (Herr : forall st vs below res, lua_resume st vs = (CERR, (below, res)) -> exists e, res = [e]) :
  exists vs co', resume_work queued canceled sched L T co = Some (vs, co') /\
    resume_spec queued canceled co args vs co'.
Proof using Haux Hmem.
  assert (forall n, fits n) as Hfits by by intros n s.
  unfold resume_work, resume_spec.
  destruct (setup_result queued T co o args HT (Hfits _) (Hroom 4%nat)) as (nret & T1 & co1 & -> & Hst1 & Hs).
  cbn [mbind option_bind].
  destruct (forallb transferable args); cbn [negb]; [destruct (queued <? 0) |].
  - destruct Hs as (-> & Hco & HT1). cbn [Z.leb Z.compare]. eexists _, _. split; [done |]. split; [| done].
    by apply (returned_top _ [o]).
  - destruct Hs as (-> & Hco & HT1). cbn [Z.leb Z.compare].
    set (T2 := lua_push T1 _). assert (values T2 = [o; LLightUserdata (Some sched)]) as HT2
      by (subst T2; by rewrite values_push, HT1).
    assert (lua_gettop T2 = 2%nat) as Hk by (unfold lua_gettop; by rewrite HT2). clearbody T2. rewrite Hk.
    destruct canceled.
    + cbn [uv_onworked mbind option_bind fst snd]. eexists _, _. split; [done |].
      split_and!; [| | done].
      * apply (endudreq_returns _ _ o). by rewrite !values_push, HT2.
      * cbn [stack set_stack]. unfold keep_function. rewrite Hst1, values_settop, Hco.
        destruct (status co); [| by rewrite resize_0 ..].
        destruct (Hbase eq_refl) as [f ->]. cbn. by rewrite resize_0.
    + destruct (lua_resume (status co) (values (stack co) ++ args)) as [st [below res]] eqn:Hr.
      rewrite <- Hst1, <- Hco in Hr.
      destruct (worked_result L T2 co1 st below res Hr) as (co2 & T3 & co3 & -> & Hw & Hst3 & vs & HT3 & Hvs);
        [intros -> ; by eapply Herr | done | done | done |].
      cbn [mbind option_bind]. rewrite Hw. cbn [mbind option_bind fst snd]. eexists _, _. split; [done |]. split; [done |].
      rewrite (endudreq_returns _ _ o vs) by by rewrite HT3, HT2.
      destruct (bool_decide (st = CERR)), (forallb transferable res); tauto.
  - destruct Hs as (-> & Hco & msg & HT1). cbn [Z.leb Z.compare]. eexists _, _. split; [done |]. split; [| done].
    exists msg. by apply (returned_top _ (values T)).
Qed.

(** C39: a call of [system.resume] runs the state with copies of all the arguments, in their order,
    and returns true and copies of all that it returned or yielded, or false and a copy of
    its error; the state is left with nothing else in its stack.  When an argument cannot be
    copied, or libuv fails, the state is as it was; when a result cannot be copied the call
    returns false and a message. *)
Theorem resume_transfers (running : bool) (queued : Z) (canceled : bool) (sched : positive) L T (mco : option costate)
    (o : lvalue) (args : list lvalue)
    (HT : values T = o :: args)
    (Hroom : forall n (s : St), lua_checkstack s n = true)
    (Hbase : forall co, mco = Some co -> status co = COK -> (lua_gettop (stack co) <= 1)%nat)
    (Herr : forall st vs below res, lua_resume st vs = (CERR, (below, res)) -> exists e, res = [e]) :
  exists vs mco', system_resume running queued canceled sched L T mco = Some (vs, mco') /\
    if running then vs = [LBoolean false; LString "cannot resume running coroutine"] /\ mco' = mco
    else
      match mco with
      | Some co =>
          if suspended co then exists co', mco' = Some co' /\ resume_spec queued canceled co args vs co'
          else vs = [LBoolean false; LString "cannot resume dead coroutine"] /\ mco' = mco
      | None => vs = [LBoolean false; LString "cannot resume dead coroutine"] /\ mco' = mco
      end.
Proof using Haux Hmem.
  assert (forall msg, drop (lua_gettop T) (values (lua_push (lua_push T (LBoolean false)) (LString msg))) =
    [LBoolean false; LString msg]) as Hmsg.
  { intros msg. rewrite !values_push, <- app_assoc. unfold lua_gettop. apply drop_app_length. }
  unfold system_resume. destruct running; [eexists _, _; by rewrite Hmsg |].
  destruct mco as [co |]; [| eexists _, _; by rewrite Hmsg].
  destruct (suspended co) eqn:Hs; [| eexists _, _; by rewrite Hmsg].
  destruct (work_transfers queued canceled sched L T co o args HT Hroom) as (vs & co' & -> & Hspec).
  - intros Hst. specialize (Hbase co eq_refl Hst). unfold suspended in Hs. rewrite Hst in Hs. unfold lua_gettop in *.
    destruct (values (stack co)) as [| f [| f' l]]; [done | by exists f | cbn in Hbase; lia].
  - exact Herr.
  - cbn [mbind option_bind fst snd]. eexists _, _. split; [done |]. eauto.
Qed.

Lemma move_without_room C to from l vs msg (limit : nat) :
  values from = l ++ vs -> (forall n (s : St), lua_checkstack s n = (n <? limit)%nat) ->
  (limit <= length vs + EXTRA)%nat ->
  lcuL_movefrom mem memmsg aux C to from (length vs) msg = Some (LUA_ERRMEM, C, to, from).
Proof using Haux.
  intros Hf Hroom Hl. unfold lcuL_movefrom. rewrite lcu_assert_true; cbn [mbind option_bind]; last first.
  { apply Nat.leb_le. unfold lua_gettop. rewrite Hf, length_app. lia. }
  rewrite !Hroom, (proj2 (Nat.ltb_ge (length vs + EXTRA) limit)) by lia. by rewrite orb_true_r.
Qed.

(** C40: without room in a stack [lcuL_movefrom] pushes no message, but its callers take the value
    on the top for one.  When the arguments do not fit, the function of a new state is what
    cannot be copied, and it is removed: the coroutine is dead.  When the results do not fit,
    [lua_replace] overwrites the scheduler in the stack of the coroutine that waits, which
    takes the callback for a script: the call returns true and the address of the loop. *)
Theorem resume_without_room (limit : nat) (queued : Z) (sched : positive) L T co (o : lvalue) (args : list lvalue)
    (HT : values T = o :: args) (Hroom : forall n (s : St), lua_checkstack s n = (n <? limit)%nat)
    (Hlimit : (7 < limit)%nat) (Hsus : suspended co = true) :
  (forall f, (limit <= length args + EXTRA)%nat -> values (stack co) = [LFunction f] ->
    exists co', system_resume false queued false sched L T (Some co) =
      Some ([LBoolean false; LString "unable to transfer error (got function)"], Some co') /\
      values (stack co') = []) /\
  (forall st below res, (length args + 1 + EXTRA < limit)%nat -> forallb transferable args = true -> 0 <= queued ->
    lua_resume (status co) (values (stack co) ++ args) = (st, (below, res)) -> st <> CERR ->
    (limit <= length res + EXTRA)%nat ->
    exists co', system_resume false queued false sched L T (Some co) =
      Some ([LBoolean true; LLightUserdata (Some sched)], Some co') /\ values (stack co') = below).
Proof using Haux Hmem.
  assert (forall s : St, lua_checkstack s 4 = true) as H4 by (intros s; rewrite Hroom; apply Nat.ltb_lt; lia).
  assert (forall s : St, lua_checkstack s 2 = true) as H2room by (intros s; rewrite Hroom; apply Nat.ltb_lt; lia).
  split.
  - intros f Hl Hco. unfold system_resume, resume_work, k_setupwork. rewrite Hsus.
    assert ((lua_gettop T - 1)%nat = length args) as -> by (unfold lua_gettop; rewrite HT; cbn; lia).
    rewrite (move_without_room _ _ _ [o] args "argument" limit HT Hroom Hl).
    cbn [mbind option_bind stack status main]. rewrite bool_decide_false by done. cbn [negb].
    destruct (push_result None (lua_push T (LBoolean false)) (stack co) [] (LFunction f) "error" Hco H4)
      as (st' & C' & L' & -> & _ & Hp).
    cbn [transferable] in Hp. cbn [Z.leb Z.compare stack set_stack]. eexists. split.
    + cbn [mbind option_bind Z.leb Z.compare]. rewrite (returned_top L' (values T)
        [LBoolean false; LString "unable to transfer error (got function)"] (Z.to_nat 2)); [done | | done].
      by rewrite Hp, values_push, <- app_assoc.
    + by apply values_pop with [LFunction f].
  - intros st below res Hl Ht Hq Hr Hst Hres. unfold system_resume, resume_work. rewrite Hsus.
    assert (fits (length args)) as Hfits.
    { intros s. rewrite !Hroom. split; apply Nat.ltb_lt; [destruct (3 <? length args)%nat |]; unfold EXTRA in *; lia. }
    destruct (setup_result queued T co o args HT Hfits H4) as (nret & T1 & co1 & -> & Hst1 & Hs).
    cbn [mbind option_bind]. rewrite Ht in Hs. cbn [negb] in Hs. rewrite (proj2 (Z.ltb_ge _ _)) in Hs by done.
    destruct Hs as (-> & Hco & HT1). cbn [Z.leb Z.compare].
    set (T2 := lua_push T1 _). assert (values T2 = [o; LLightUserdata (Some sched)]) as HT2
      by (subst T2; by rewrite values_push, HT1).
    assert (lua_gettop T2 = 2%nat) as Hk by (unfold lua_gettop; by rewrite HT2). clearbody T2. rewrite Hk.
    rewrite <- Hst1, <- Hco in Hr. destruct (onworking_stack co1 st below res Hr H2room) as (co2 & -> & _ & H1 & H2 & Hs2).
    cbn [mbind option_bind]. unfold uv_onworked. rewrite H1, H2, Nat2Z.id.
    unfold set_stack. cbn [status stack main].
    assert ((status_code st =? 0) || (status_code st =? 1) = true) as -> by by destruct st.
    rewrite (move_without_room _ _ _ below res "return value" limit Hs2 Hroom Hres).
    cbn [mbind option_bind stack status main]. rewrite bool_decide_false by done. cbn [negb fst snd stack].
    eexists. split; [cbn [mbind option_bind fst snd]; by rewrite (overwritten_returns sched T2 o) |].
    by apply values_pop with res.
Qed.
End resume.

(** A state whose function gives its arguments in reverse, or fails with the first. *)
Definition example_resume (st : costatus) (vs : list lvalue) : costatus * (list lvalue * list lvalue) :=
  match vs with
  | LFunction 2 :: v :: _ => (CERR, ([], [v]))
  | LFunction 2 :: _ => (CERR, ([], [LNil]))
  | LFunction _ :: vs => (CYIELD, ([], rev vs))
  | _ => (COK, ([], vs))
  end.
Definition example_co (f : positive) : costate (St := list lvalue) := Costate COK [LFunction f] [LThread 1].
Abbreviation example_aux := [LNil; LNil; LNil; LNil].

Lemma resume_transfers_witness :
  exists vs co', system_resume (LuaStack0 := list_stack) (fun _ => true) LNil example_aux (fun _ => "error"%string)
      example_resume false 0 false 9 [] [LUserdata 3; LInteger 1; LString "b"] (Some (example_co 1)) = Some (vs, Some co') /\
    vs = [LBoolean true; LString "b"; LInteger 1] /\
    resume_spec (LuaStack0 := list_stack) (fun _ => "error"%string) example_resume 0 false (example_co 1)
      [LInteger 1; LString "b"] vs co'.
Proof.
  destruct (resume_transfers (LuaStack0 := list_stack) (fun _ => true) LNil example_aux (fun _ => "error"%string)
    example_resume eq_refl (fun _ => eq_refl) false 0 false 9 [] [LUserdata 3; LInteger 1; LString "b"]
    (Some (example_co 1)) (LUserdata 3) [LInteger 1; LString "b"] eq_refl (fun _ _ => eq_refl))
    as (vs & mco' & Hr & co' & -> & Hs).
  - by intros co [= <-] _.
  - intros st vs below res. unfold example_resume. repeat case_match; naive_solver.
  - exists vs, co'. split; [exact Hr |]. split; [| exact Hs]. vm_compute in Hr. by injection Hr as <-.
Defined.

(** A stack that has room for fewer than [limit] more values. *)
#[refine] Definition limited_stack (limit : nat) : LuaStack (list lvalue) := {|
  values s := s;
  lua_push s v := s ++ [v];
  lua_settop s n := resize n LNil s;
  lua_replace := list_replace;
  lua_insert := list_lua_insert;
  lua_remove s i := take (i - 1) s ++ drop i s;
  lua_checkstack _ n := (n <? limit)%nat;
|}.
Proof.
  - done.
  - done.
  - apply (values_replace (LuaStack := list_stack)).
  - apply (values_insert (LuaStack := list_stack)).
  - apply (values_remove (LuaStack := list_stack)).
Defined.

Definition many : list lvalue := repeat (LInteger 5) 6.
Definition answers (st : costatus) (vs : list lvalue) : costatus * (list lvalue * list lvalue) := (COK, ([], many)).

Lemma resume_without_room_witness :
  exists co1 co2,
    system_resume (LuaStack0 := limited_stack 8) (fun _ => true) LNil example_aux (fun _ => ""%string) answers
      false 0 false 9 [] (LUserdata 3 :: many) (Some (example_co 1)) =
      Some ([LBoolean false; LString "unable to transfer error (got function)"], Some co1) /\ stack co1 = [] /\
    system_resume (LuaStack0 := limited_stack 8) (fun _ => true) LNil example_aux (fun _ => ""%string) answers
      false 0 false 9 [] [LUserdata 3] (Some (example_co 1)) =
      Some ([LBoolean true; LLightUserdata (Some 9%positive)], Some co2) /\ stack co2 = [].
Proof.
  destruct (resume_without_room (LuaStack0 := limited_stack 8) (fun _ => true) LNil example_aux (fun _ => ""%string)
    answers eq_refl (fun _ => eq_refl) 8 0 9 [] (LUserdata 3 :: many) (example_co 1) (LUserdata 3) many eq_refl
    (fun _ _ => eq_refl) ltac:(lia) eq_refl) as [H1 _].
  destruct (resume_without_room (LuaStack0 := limited_stack 8) (fun _ => true) LNil example_aux (fun _ => ""%string)
    answers eq_refl (fun _ => eq_refl) 8 0 9 [] [LUserdata 3] (example_co 1) (LUserdata 3) [] eq_refl
    (fun _ _ => eq_refl) ltac:(lia) eq_refl) as [_ H2].
  destruct (H1 1%positive ltac:(vm_compute; lia) eq_refl) as (co1 & E1 & S1).
  destruct (H2 COK [] many ltac:(vm_compute; lia) eq_refl ltac:(lia) eq_refl ltac:(done) ltac:(vm_compute; lia)) as (co2 & E2 & S2).
  exists co1, co2. by split_and!.
Defined.
