(* ===== verification/Chunks.v ===== *)
(** * Chunks of new states (src/src/lthreadm.c, lines 111 to 134, and src/src/lcoroutm.c, lines 36 to 55)

    [threads:dostring], [threads:dofile], [coroutine.load] and [coroutine.loadfile] check
    their arguments, make a state ([LuaStates]) and load a chunk into it; the state becomes
    a task with its arguments ([Threads]) or the state of a coroutine ([Coroutine]). *)
From S2P Require Import Prelude Outcome LuaApi FileInfo Await Transfer Threads LuaStates.

Section chunks.
Context {St : Type} `{!LuaStack St} `{!LuaArgs}.
Implicit Types (L NL : St).

(** [luamem_checkarray], a function of luamem: the bytes of a string or of a memory, if it is
    one; only the bytes of a string are followed by a zero. *)
Context (luamem_toarray : lvalue -> option string).
Definition luamem_checkarray L i : result string :=
  match luamem_toarray (arg L i) with
  | Some s => Ok s
  | None => ArgError (Z.of_nat i) "string or memory expected"
  end.

(** The bytes that start at the address of those of [v], as a string of C. *)
Definition cstring_at (v : lvalue) (s : string) : result string :=
  if decide (lua_tolstring v <> None) then Ok (c_string s)
  else if decide (c_string s = s) then Overrun else Ok (c_string s).

(** [luaL_optstring(L, i + 1, s)] of a chunk in the argument [i]. *)
Definition chunkname L i (s : string) : result string :=
  if decide (arg L (i + 1) = LNil) then cstring_at (arg L i) s else checkstring L (i + 1).

(** The chunk, its name and the mode. *)
Definition string_args L i : result (string * string * option string) :=
  s <- luamem_checkarray L i;;
  name <- chunkname L i s;;
  mode <- optstring_null L (i + 2);;
  Ok (s, name, mode).
Definition file_args L i : result (option string * option string) :=
  fpath <- optstring_null L i;;
  mode <- optstring_null L (i + 1);;
  Ok (fpath, mode).

(** What the functions of Lua push when they load a chunk: a function or a message. *)
Context (luaL_loadbufferx : string -> string -> option string -> lua_status * lvalue).
Context (luaL_loadfilex : option string -> option string -> lua_status * lvalue).

Section tasks.
(** [tothreads]; [newstate]: the stack of the thread of the new state; [added]: what
    [lcuTP_addtpooltask] returns. *)
Context (mem : nat -> bool) (memmsg : lvalue) (aux : list lvalue) (strerror : Z -> string).
Context (tothreads : lvalue -> result positive) (newstate : result St) (added : Z).

Definition add_chunk L (narg : nat) NL (loaded : lua_status * lvalue) : result (Chunk.chunk_end (St := St)) :=
  match Chunk.dochunk mem memmsg aux strerror L (lua_push NL loaded.2) loaded.1 narg added with
  | Some e => Ok e
  | None => AssertFail
  end.

Definition threads_dostring L : result Chunk.chunk_end :=
  _ <- tothreads (arg L 1);;
  c <- string_args L 2;;
  NL <- newstate;;
  add_chunk L 4 NL (luaL_loadbufferx c.1.1 c.1.2 c.2).

Definition threads_dofile L : result Chunk.chunk_end :=
  _ <- tothreads (arg L 1);;
  c <- file_args L 2;;
  NL <- newstate;;
  add_chunk L 3 NL (luaL_loadfilex c.1 c.2).
End tasks.

Section coroutines.
(** The thread of the new state and the state; a message of Lua as a string. *)
Context (newstate : result (positive * lua_world)) (message : lvalue -> string).

Definition coroutine_load L : result loaded :=
  c <- string_args L 1;;
  NL <- newstate;;
  let loaded := luaL_loadbufferx c.1.1 c.1.2 c.2 in
  doloaded NL.1 NL.2 loaded.1 (message loaded.2).

Definition coroutine_loadfile L : result loaded :=
  c <- file_args L 1;;
  NL <- newstate;;
  let loaded := luaL_loadfilex c.1 c.2 in
  doloaded NL.1 NL.2 loaded.1 (message loaded.2).
End coroutines.

(** ** Properties *)

(** The name of a chunk in memory is taken from its bytes, which are not followed by a
    zero. *)
Lemma chunkname_overruns L i s :
  luamem_toarray (arg L i) = Some s -> lua_tolstring (arg L i) = None -> c_string s = s ->
  arg L (i + 1) = LNil -> string_args L i = Overrun.
Proof using.
  intros Hs Hv Hc Hn. unfold string_args, luamem_checkarray, chunkname, cstring_at. rewrite Hs. cbn [rbind].
  rewrite !decide_True by done. rewrite decide_False by (intros E; exact (E Hv)). by rewrite decide_True.
Qed.

Section properties.
Context (mem : nat -> bool) (memmsg : lvalue) (aux : list lvalue) (strerror : Z -> string).
Context (Haux : length aux = 4%nat) (Hmem : forall i, mem i = true).
Context (Hstack : forall n (s : St), lua_checkstack s n = true).
(** Loading a chunk leaves a function or the message of what failed. *)
Context (buffer_message : forall s name mode st v, luaL_loadbufferx s name mode = (st, v) -> st <> LUA_OK -> exists msg, v = LString msg).
Context (file_message : forall path mode st v, luaL_loadfilex path mode = (st, v) -> st <> LUA_OK -> exists msg, v = LString msg).

(** What becomes of a chunk. *)
Definition task_of (loaded : lua_status * lvalue) (args : list lvalue) (added : Z) (e : Chunk.chunk_end (St := St)) : Prop :=
  if bool_decide (loaded.1 = LUA_OK) && forallb transferable args && (added =? 0)
  then Chunk.results e = [LBoolean true] /\
    exists NL, Chunk.state e = Chunk.StateTask NL /\ values NL = loaded.2 :: args
  else Chunk.state e = Chunk.StateClosed /\ exists msg rest, Chunk.results e = LBoolean false :: LString msg :: rest.

Lemma add_chunk_task L narg NL loaded added :
  values NL = [] -> (loaded.1 <> LUA_OK -> exists msg, loaded.2 = LString msg) ->
  exists e, add_chunk mem memmsg aux strerror added L narg NL loaded = Ok e /\
    task_of loaded (drop narg (values L)) added e.
Proof using Haux Hmem Hstack.
  intros HN Hmsg. unfold add_chunk, task_of.
  destruct (Chunk.chunk_becomes_task mem memmsg aux strerror Haux Hmem Hstack L (lua_push NL loaded.2)
    (take narg (values L)) (drop narg (values L)) loaded.2 loaded.1 narg added) as (e & -> & He).
  - by rewrite take_drop.
  - destruct (Nat.le_gt_cases narg (length (values L))) as [Hle | Hlt]; [left | right].
    + by apply length_take_le.
    + split; [rewrite length_take; lia |]. apply drop_ge. lia.
  - by rewrite values_push, HN.
  - exact Hmsg.
  - exists e. split; [done | exact He].
Qed.

(** A call of [threads:dostring] or [threads:dofile] with right arguments makes one state: it
    becomes a task of the pool with the chunk and copies of the arguments that come after
    the mode, and the call returns true; or it is closed, and the call returns false and a
    message. *)
Theorem dochunk_makes_task (tothreads : lvalue -> result positive) (newstate : result St) (added : Z) L NL p :
  tothreads (arg L 1) = Ok p -> newstate = Ok NL -> values NL = [] ->
  (forall c, string_args L 2 = Ok c ->
     exists e, threads_dostring mem memmsg aux strerror tothreads newstate added L = Ok e /\
       task_of (luaL_loadbufferx c.1.1 c.1.2 c.2) (drop 4 (values L)) added e) /\
  (forall c, file_args L 2 = Ok c ->
     exists e, threads_dofile mem memmsg aux strerror tothreads newstate added L = Ok e /\
       task_of (luaL_loadfilex c.1 c.2) (drop 3 (values L)) added e).
Proof using Haux Hmem Hstack buffer_message file_message.
  intros Hp Hs HN. unfold threads_dostring, threads_dofile. rewrite Hp, Hs. cbn [rbind].
  split; intros c ->; cbn [rbind]; apply add_chunk_task; try done.
  - destruct (luaL_loadbufferx _ _ _) as [st v] eqn:Hl. by apply (buffer_message _ _ _ _ _ Hl).
  - destruct (luaL_loadfilex _ _) as [st v] eqn:Hl. by apply (file_message _ _ _ _ Hl).
Qed.

(** The same for a state coroutine, whose state is closed or is that of the new object. *)
Theorem load_makes_coroutine (newstate : result (positive * lua_world)) (message : lvalue -> string) L
    (NL : positive * lua_world) :
  newstate = Ok NL -> first NL.2 = Some NL.1 ->
  (forall c, string_args L 1 = Ok c ->
     coroutine_load newstate message L = Ok (
       let loaded := luaL_loadbufferx c.1.1 c.1.2 c.2 in
       if bool_decide (loaded.1 = LUA_OK) then LoadedObject NL.1
       else LoadFailed [LBoolean false; LString (message loaded.2)])) /\
  (forall c, file_args L 1 = Ok c ->
     coroutine_loadfile newstate message L = Ok (
       let loaded := luaL_loadfilex c.1 c.2 in
       if bool_decide (loaded.1 = LUA_OK) then LoadedObject NL.1
       else LoadFailed [LBoolean false; LString (message loaded.2)])).
Proof using.
  intros Hs Hf. unfold coroutine_load, coroutine_loadfile, doloaded, lcuL_tomain. rewrite Hs.
  split; intros c ->; cbn [rbind]; rewrite Hf, (bool_decide_true (Some NL.1 = Some NL.1)) by done;
    by destruct (bool_decide _).
Qed.
End properties.
End chunks.

(** The conversions of Lua, for strings and integers; a memory of two bytes. *)
#[local] Instance example_args : LuaArgs.
Proof.
  refine {|
    lua_tolstring v := if v is LString s then Some s else None;
    lua_tointegerx v := if v is LInteger i then Some i else None;
    lua_tonumberx v := match v with LInteger i => Some i | LNumber n => Some n | _ => None end;
    number_int n := n;
    number_ge0 n := 0 <=? n;
  |}; try done. intros i _. by exists i.
Defined.
Definition example_toarray (v : lvalue) : option string :=
  match v with LString s => Some s | LUserdata 5 => Some "x="%string | _ => None end.
Definition example_load (s name : string) (mode : option string) : lua_status * lvalue :=
  if decide (s = "x="%string) then (LUA_ERRRUN, LString (name +:+ ": syntax error")) else (LUA_OK, LFunction 4).

Lemma dochunk_makes_task_witness :
  exists e, threads_dostring (LuaStack0 := list_stack) example_toarray example_load (fun _ => true) LNil
      [LNil; LNil; LNil; LNil] (fun _ => ""%string) (fun _ => Ok 1%positive) (Ok []) 0
      [LUserdata 1; LString "return ..."; LNil; LNil; LInteger 7] = Ok e /\
    Chunk.results e = [LBoolean true] /\
    task_of (LuaStack0 := list_stack) (LUA_OK, LFunction 4) [LInteger 7] 0 e.
Proof.
  destruct (dochunk_makes_task (LuaStack0 := list_stack) example_toarray example_load
    (fun _ _ => (LUA_OK, LFunction 4)) (fun _ => true) LNil [LNil; LNil; LNil; LNil] (fun _ => ""%string)
    eq_refl (fun _ => eq_refl) (fun _ _ => eq_refl)
    ltac:(intros s name mode st v; unfold example_load; case_decide; naive_solver)
    ltac:(naive_solver) (fun _ => Ok 1%positive) (Ok []) 0
    [LUserdata 1; LString "return ..."; LNil; LNil; LInteger 7] [] 1%positive eq_refl eq_refl eq_refl) as [H _].
  destruct (H ("return ...", "return ...", None)%string) as (e & He & Ht); [by vm_compute |].
  exists e. split; [exact He |]. split; [| exact Ht]. vm_compute in He. by injection He as <-.
Defined.

Lemma load_makes_coroutine_witness :
  exists NL, coroutine_load (LuaStack0 := list_stack) example_toarray example_load (Ok NL) (fun _ => "error"%string)
      [LString "x="; LString "chunk"] = Ok (LoadFailed [LBoolean false; LString "error"]) /\
    first NL.2 = Some NL.1.
Proof.
  exists (7%positive, World None None None 0 ∅ (Some 7%positive)). split; [| reflexivity].
  refine (proj1 (load_makes_coroutine (LuaStack0 := list_stack) example_toarray example_load
    (fun _ _ => (LUA_OK, LFunction 4)) (Ok (7%positive, World None None None 0 ∅ (Some 7%positive)))
    (fun _ => "error"%string) [LString "x="; LString "chunk"] _ eq_refl eq_refl)
    ("x=", "chunk", None)%string _). by vm_compute.
Defined.
