(* ===== verification/Resources.v ===== *)
(** * What is made and released with pools and maps (src/src/lthpool.c and src/src/lchaux.c)

    The memory, the mutex and the conditions of a pool, from [lcuTP_createtpool] to
    [lcuTP_destroytpool], with every way to fail; and the map of channels of a state, which
    [lcuCS_tochannelmap] makes once.  The counters of a pool are in [ThreadPool], what the
    finalizer of the map does with its channels in [ChannelMap]. *)
From stdpp Require Import gmap.
From S2P Require Import Prelude Outcome.

(** ** Pools *)

Inductive resource := Memory | Mutex | OnWork | OnTerm.
#[export] Instance resource_eq_dec : EqDecision resource.
Proof. solve_decision. Defined.

(** The resources that are held, in the order in which they were made. *)
Abbreviation held := (list resource).

(** Making and releasing one; [None]: what is released is not held. *)
Definition acquire (r : resource) (h : held) : held := h ++ [r].
Definition release (r : resource) (h : held) : option held :=
  lcu_assert (bool_decide (r ∈ h)) ≫= fun _ => Some (filter (fun x => x <> r) h).

Definition UV_ENOMEM : Z := -12.

(** [memory]: the allocator gives the memory; the results of [uv_mutex_init] and of both
    [uv_cond_init]. *)
Record made := Made { memory : bool; mutex_err : Z; onwork_err : Z; onterm_err : Z }.

Definition alloc_err_label (err : Z) (h : held) : option (Z * held) := Some (err, h).
Definition mutex_err_label (err : Z) (h : held) : option (Z * held) :=
  h ← release Memory h; alloc_err_label err h.
Definition onworkcond_err_label (err : Z) (h : held) : option (Z * held) :=
  h ← release Mutex h; mutex_err_label err h.
Definition ontermcond_err_label (err : Z) (h : held) : option (Z * held) :=
  h ← release OnWork h; onworkcond_err_label err h.

Definition createtpool (m : made) (h : held) : option (Z * held) :=
  let err := UV_ENOMEM in
  if negb (memory m) then alloc_err_label err h else
  let h := acquire Memory h in
  let err := mutex_err m in
  if ctrue err then mutex_err_label err h else
  let h := acquire Mutex h in
  let err := onwork_err m in
  if ctrue err then onworkcond_err_label err h else
  let h := acquire OnWork h in
  let err := onterm_err m in
  if ctrue err then ontermcond_err_label err h else
  Some (0, acquire OnTerm h).

(** The end of [lcuTP_closetpool], after the workers left: the states of tasks that wait
    are not resources of the pool. *)
Definition destroytpool (h : held) : option held :=
  h ← release Mutex h; release Memory h.
Definition closetpool_end (tasks : Z) (h : held) : option held :=
  h ← release OnTerm h;
  h ← release OnWork h;
  if tasks =? 0 then destroytpool h else Some h.

(** ** The map of channels *)

(** A map: whether its state and its mutex were made. *)
Record channelmap := Map { state : bool; mutex : bool }.

(** [stored]: the one in the registry; [finalizers]: the maps that have the finalizer. *)
Record luastate := State { stored : option positive; maps : gmap positive channelmap; finalizers : list positive }.

(** [newstate]: [lua_newstate] gives a state.  The map, or the error that is raised. *)
Definition lcuCS_tochannelmap (fresh : positive) (newstate : bool) (w : luastate) : Outcome.result positive * luastate :=
  match stored w with
  | None =>
      let w := State (stored w) (<[fresh := Map false false]> (maps w)) (finalizers w ++ [fresh]) in
      if negb newstate then (LuaError "not enough memory", w)
      else (Ok fresh, State (Some fresh) (<[fresh := Map true true]> (maps w)) (finalizers w))
  | Some map => (Ok map, w)
  end.

(** [channelmap_gc] up to its first loop: it locks the mutex, and needs the state. *)
Definition finalize (map : positive) (w : luastate) : option luastate :=
  m ← maps w !! map;
  _ ← lcu_assert (mutex m);
  _ ← lcu_assert (state m);
  Some (State (stored w) (<[map := Map false false]> (maps w)) (filter (fun x => x <> map) (finalizers w))).

(** The finalizers that run when the state is closed. *)
Fixpoint finalize_all (l : list positive) (w : luastate) : option luastate :=
  match l with
  | [] => Some w
  | map :: l => w ← finalize map w; finalize_all l w
  end.

(** The calls of a state, each with a new address and the result of [lua_newstate]. *)
Definition calls (l : list (positive * bool)) (w : luastate) : luastate :=
  fold_left (fun w c => (lcuCS_tochannelmap c.1 c.2 w).2) l w.

(** ** Properties *)

(** [lcuTP_createtpool] holds all the resources of the pool or none of them, and returns the
    error of the first that failed; after it the pool releases each of them once, the
    conditions when it is closed and the others when its last task ends. *)
Theorem pool_resources (m : made) (h : held) :
  h = [] ->
  let err := if memory m then
      if ctrue (mutex_err m) then mutex_err m else if ctrue (onwork_err m) then onwork_err m else onterm_err m
    else UV_ENOMEM in
  exists h', createtpool m h = Some (err, h') /\
    if err =? 0 then
      h' = [Memory; Mutex; OnWork; OnTerm] /\ closetpool_end 0 h' = Some [] /\
      forall tasks, tasks <> 0 -> closetpool_end tasks h' ≫= destroytpool = Some []
    else h' = [].
Proof.
  intros ->. unfold createtpool, ctrue. destruct m as [[] e1 e2 e3]; cbn; [| eauto].
  destruct (Z.eqb_spec e1 0) as [-> | H1]; cbn;
    [destruct (Z.eqb_spec e2 0) as [-> | H2]; cbn; [destruct (Z.eqb_spec e3 0) as [-> | H3]; cbn |] |].
  - eexists. split; [done |]. cbn. split; [done |]. split; [done |].
    intros tasks Ht. unfold closetpool_end. cbn. by rewrite (proj2 (Z.eqb_neq tasks 0)).
  - eexists. split; [reflexivity |]. by destruct (Z.eqb_spec e3 0).
  - eexists. split; [reflexivity |]. by destruct (Z.eqb_spec e2 0).
  - eexists. split; [reflexivity |]. by destruct (Z.eqb_spec e1 0).
Qed.

Lemma pool_resources_witness :
  exists h, createtpool (Made true 0 0 (-11)) [] = Some (-11, h) /\ h = [].
Proof.
  destruct (pool_resources (Made true 0 0 (-11)) [] eq_refl) as (h & Hc & Hh). exists h. split; [exact Hc | exact Hh].
Defined.

(** While [lua_newstate] gives a state, all the calls of a state give one map, which is
    finalized once when the state is closed. *)
Theorem one_channelmap (p : positive) (l : list (positive * bool)) :
  Forall (fun c => c.2 = true) l ->
  let w := calls ((p, true) :: l) (State None ∅ []) in
  (forall q b, (lcuCS_tochannelmap q b w).1 = Ok p) /\ finalizers w = [p] /\
  exists w', finalize_all (finalizers w) w = Some w' /\ finalizers w' = [].
Proof.
  intros Hl. cbn zeta. unfold calls. cbn [fold_left].
  set (w0 := (lcuCS_tochannelmap (p, true).1 _ _).2).
  assert (forall w, stored w = Some p -> fold_left (fun w c => (lcuCS_tochannelmap c.1 c.2 w).2) l w = w) as Hsame.
  { clear. induction l as [| c l IH]; intros w Hw; cbn [fold_left]; [done |].
    assert ((lcuCS_tochannelmap c.1 c.2 w).2 = w) as -> by (unfold lcuCS_tochannelmap; by rewrite Hw).
    by apply IH. }
  rewrite Hsame by done. split; [by intros |]. split; [done |].
  change (finalizers w0) with [p]. cbn [finalize_all]. unfold finalize.
  change (maps w0) with (<[p := Map true true]> (<[p := Map false false]> (∅ : gmap positive channelmap))).
  rewrite lookup_insert_eq. cbn [mbind option_bind mutex state lcu_assert]. eexists. split; [done |].
  cbn [finalizers]. change (finalizers w0) with [p]. by rewrite filter_cons_False by tauto.
Qed.

(** When it gives none, the call raises an error, but the map keeps its finalizer, which
    locks a mutex that was not made. *)
Theorem failed_map_is_finalized (p : positive) (w : luastate) :
  stored w = None ->
  exists w', lcuCS_tochannelmap p false w = (LuaError "not enough memory", w') /\
    p ∈ finalizers w' /\ finalize p w' = None.
Proof.
  intros Hw. unfold lcuCS_tochannelmap. rewrite Hw. cbn. eexists. split; [done |]. cbn. split.
  - apply elem_of_app. right. by left.
  - unfold finalize. cbn [maps]. by rewrite lookup_insert_eq.
Qed.

Lemma failed_map_is_finalized_witness :
  exists w', lcuCS_tochannelmap 3 false (State None ∅ []) = (LuaError "not enough memory", w') /\ finalize 3 w' = None.
Proof.
  destruct (failed_map_is_finalized 3 (State None ∅ []) eq_refl) as (w' & Hc & _ & Hf). exists w'. by split.
Defined.

Lemma one_channelmap_witness :
  (lcuCS_tochannelmap 9 true (calls [(4%positive, true); (5%positive, true)] (State None ∅ []))).1 = Ok 4%positive.
Proof. exact (proj1 (one_channelmap 4 [(5%positive, true)] ltac:(by repeat constructor)) 9%positive true). Defined.
